(* ===== verification/_CoqProject ===== *)
-Q . S2P
Prelude.v
Coins.v
RefApd.v
CoinsProofs.v
Types.v
TypesProofs.v
Bytes.v
Swap.v
SwapProofs.v
Offers.v
Crypto.v
CryptoProofs.v
Base58.v
Base58Proofs.v
Contracts.v
External.v
Db.v
DbProofs.v
Store.v
RecoveryProofs.v
Relayer.v
Message.v
Net.v
NetMachine.v
NetProofs.v
Backend.v
SampleWorld.v
Maker.v
MakerInstance.v
TraceLogic.v
RelayerProofs.v
BackendProofs.v
RelayWitness.v
NetRelay.v
NetWitness.v
Json.v
JsonProofs.v
Codec.v
CodecProofs.v
Wire.v
WireProofs.v
WireMsgProofs.v
WireTheorems.v
WireWitness.v
Calls.v
EthClient.v
EthProofs.v
TxSender.v
TxSenderProofs.v
EthWitness.v
Config.v
Wallet.v
WalletProofs.v
WalletWitness.v
Rpc.v
RpcProofs.v
RpcWitness.v
Metrics.v
Daemon.v
DaemonProofs.v
DaemonWitness.v
RpcClient.v
RpcClientProofs.v
Swapcli.v
SwapcliProofs.v
CliApps.v
Wsxmr.v
WsxmrWitness.v
MakerProofs.v
MakerWitness.v
Taker.v
TakerInstance.v
TakerProofs.v
Protocol.v
TakerWitness.v
