(* ===== verification/Prelude.v ===== *)
(** * Verification of the ETH-XMR atomic-swap daemon

    The program swaps XMR for ETH or ERC20 tokens between two daemons.  A maker
    offers XMR, a taker takes an offer with an Ethereum asset:

    - the two exchange keys (a public spend key and a private view key on Monero,
      a commitment to the same secret on Ethereum, and a proof that they belong
      together), so that the XMR can be locked in an account whose spend key is the
      sum of both parties' secrets;
    - the taker locks its asset in the SwapCreator contract, with the two
      commitments and two timeouts t1 and t2;
    - the maker checks the contract swap and sends its XMR to the shared account;
    - the taker sees the XMR and sets the contract to ready (or t1 passes);
    - the maker claims the asset, which reveals its secret, and the taker sweeps the
      XMR; or the taker refunds (before t1 if not ready, or after t2), which reveals
      its secret, and the maker takes its XMR back.

    ** Parts of the program and of the development

    - [Prelude]: bytes, machine integers, errors, outcomes; the state-and-error
      monad [prog] (a run completes, panics, blocks or is out of fuel, and keeps its
      state in every case), [deferring] for Go's defer; the preorder reasoning
      [keeps] with its hint database and the tactic [keeps_auto].
    - [Coins], [RefApd], [CoinsProofs]: package coins.  The decimal library apd is
      the class [Apd] with its documented laws [ApdSpec]; [RefApd] is an instance.
    - [Types], [TypesProofs]: packages common and common/types (environments,
      statuses, hashes, assets, offers with validation and hashing).  sha3 and
      checksummed addresses are parameters, and so is JSON, which [Wire] provides.
    - [Bytes]: integers as bytes.  [Crypto], [CryptoProofs]: packages crypto,
      crypto/monero, crypto/secp256k1, dleq and the key parts of protocol; the curve,
      keccak and DLEq libraries are the class [CryptoLib] with laws [CryptoSpec].
      [Base58], [Base58Proofs]: the text form of Monero addresses.
    - [Contracts]: ethereum/utils.go, the log checks of protocol/utils.go and
      xmrmaker/claim.go; ABI coding is the class [AbiLib].
    - [Swap], [SwapProofs]: protocol/swap.  The manager is a record of maps to
      shared [Info] objects in a heap, since the code hands out pointers and mutates
      through them; the database is the interface [SwapEnv] with laws [SwapEnvSpec].
    - [Offers]: protocol/xmrmaker/offers over the interface [OfferEnv].
    - [Db], [DbProofs]: package db, the tables of offers and swaps and the recovery
      database over a key-value store.  [Store] discharges [SwapEnvSpec] and
      [OfferEnvSpec] with it and shows what survives a restart; [RecoveryProofs] has
      the recovery database.
    - [External]: the calls a swap makes on the database, the Monero wallet, the
      Ethereum node, the transaction sender, the network and the clock, as the
      inductive family [call]; [World] answers every call, as a function of a
      counter, so that no assumption is made on the order or the consistency of
      answers.  [Sys] is the daemon's state (managers, trace of calls).
    - [Maker], [MakerInstance]: protocol/xmrmaker.  [Maker] has the swap's state
      record, its events, every handler, check, claim path, timer and log handler;
      [MakerInstance] has the constructors, taking an offer, making offers, and the
      recovery at start-up.
    - [Taker], [TakerInstance]: protocol/xmrtaker in the same way.
    - [Relayer], [RelayerProofs]: package relayer, claims sent on behalf of a maker
      without ether.  [Backend], [BackendProofs]: protocol/backend.
    - [Message]: net/message.  [Net], [NetMachine], [NetProofs]: package net; the host
      with the streams of its swaps, and its handlers cut into the sections they hold
      the lock for, interleaved in every order.  [NetRelay] joins host and backend.
    - [Json], [JsonProofs]: the text of JSON as encoding/json prints, scans and parses it
      (trees, escapes and UTF-8, numbers, base64, the limit on nesting).  [Codec],
      [CodecProofs]: how Go values are encoded and decoded (fields by their names, with or
      without case, members that repeat, null, pointers, texts, big integers, arrays).
      [Wire], [WireProofs], [WireMsgProofs], [WireTheorems]: the structures of net/message,
      common/types/offer.go, ethereum/swap_creator_marshal.go, crypto/monero/crypto_marshal.go
      and db/types.go with their names and tags; they provide the JSON interfaces of
      [Message], of the stored offers and of the recovery database.  The hexadecimal text of
      go-ethereum and the versions of semver are the class [WireLib] with laws [WireSpec],
      the text of decimals is [ApdText].
    - [Calls]: programs that make calls with a log, for the clients and the start-up.
    - [EthClient], [EthProofs]: ethereum/block, extethclient and watcher.
      [TxSender], [TxSenderProofs]: protocol/txsender.
    - [Config]: common/config.go.  [Wallet], [WalletProofs]: package monero, the client
      of monero-wallet-rpc and its child process.
    - [Rpc], [RpcProofs]: packages rpc and pricefeed, the JSON-RPC services and the
      websocket server over the interfaces they call.  [RpcClient], [RpcClientProofs]:
      package rpcclient, the codec of method names, and the client against the server.
      [Metrics]: rpc/prometheus.go, with float64 as the IEEE arithmetic of the library.
    - [Daemon], [DaemonProofs]: packages cliutil, daemon, bootnode, cmd/swapd and
      cmd/bootnode: flags, configuration, key file, contract, start and stop.
    - [Swapcli], [SwapcliProofs]: cmd/swapcli, the commands of the user.  [CliApps]: the
      commands and flags that swapcli, swapd and the bootnode declare.
    - [Wsxmr]: cmd/wsxmr-daemon, cmd/deploy-wsxmr and ethereum/deploy_wsxmr.go, the tools
      of the mint and burn contracts, with their theorems.
    - [TraceLogic]: reasoning about the trace of calls, shared by maker and taker.
    - [MakerProofs], [TakerProofs], [Protocol]: the theorems about the swaps and
      about the two parties together.
    - [SampleWorld] and the files ending in Witness: concrete worlds, the theorems at
      concrete runs in them, and runs that show defects.

    ** Concurrency

    Each swap has one handler goroutine that takes events from a channel, and other
    goroutines (the network, timers, log watchers, callers of Exit) that only send
    events and wait for their error channel.  A handler is one program; the senders
    are operations; [step] of [MakerProofs] and of [TakerProofs] interleaves them in
    every order, and a handler that panicked or blocked stays stopped.  Events that
    arrive while a handler waits are in the queue from the start of its run.  An
    error channel is unbuffered and read once: a second send blocks.

    ** What the theorems show

    - The maker: its calls follow an abstract protocol with phases (waiting, recorded,
      unrecorded, holding, over; a refinement): the status XMRLocked is stored, then the
      XMR is sent, then the secret is handed out; when the storing fails no XMR is sent
      any more, though the secret may be handed out.  It sends its XMR at most once; it
      sends only after every check of the contract swap; a finished swap sends and reveals
      nothing; unexpected events are refused; exiting before the lock aborts; the
      recursion of exit ends.
    - The taker: it locks its asset only for checked keys and amounts; it sets the
      contract to ready only after it saw the XMR in the account of the summed keys; on
      exit it reveals its secret only in the contract's refund windows, or on a timer's
      event that waits in its channel.
    - Both: the handshake exchanges the keys; both mean the same Monero account, and
      the secret that appears on Ethereum opens it.
    - The managers: a swap is ongoing from the moment it is added until it is completed
      and past from then on; recovery, persistence, copies, channel capacity.
    - The database: what was stored is found after a restart, when amounts and rates are
      ones that their texts keep (the laws [OfferJsonSpec] of this are proved of the codec
      of [Wire]); the recovery entries are independent maps.
    - Relaying: a claim is sent only after every check and while the wallet lock is held,
      and by a daemon that is not a relayer only for its own swap.
    - The network: in every interleaving a swap's stream stays until the swap is deleted or
      an initiation with its ID fails, and its messages go to the peer that named it or was
      dialled for it; a lost stream is closed and the swap notified, unless the swap never
      returns from a message.
    - The wire: every message that validates is encoded and arrives as it was, through the
      text; whatever bytes a peer sends, what they decode to has the sizes of its types and
      what the validate tags ask for, and offers are sound.
    - The Ethereum client and sender: a swap is ordered with its money and saved before
      the wait; transactions are made under the wallet's lock; waits end; the watcher
      misses no event; a sweep leaves nothing.
    - The wallet client: a payment that is reported was ordered once and confirmed; when a
      wallet cannot be made its process has ended, or could be neither stopped nor killed.
    - The services: an offer is taken as its peer listed it; an external signer is used
      for its offer only; lists of swaps are complete and in order; a subscribed client
      sees every status of a swap.
    - Start and stop: what a run opens it closes, the latest first, whatever fails, unless
      the profiler exits the process; a daemon uses a contract with the expected code, or its own.
    - The tools: a token is asked for once, a followed swap is printed to its end; no
      event of the vault manager is reported twice, and a deployment that succeeds has
      linked its contracts; every executable reads only flags it declares, at their types.
    - Keys, logs, coins and types: exactness, round trips, validation, binding of
      swap IDs.

    ** Bounds and fuel

    [Maker.exit] and the handler of the ready event call each other; each nested call
    has taken one more event from the queue, so the fuel [runHandleEvent] gives, one
    more than the number of queued events, is never used up (proved as a theorem).
    Polling loops have the bound of the source (10 tries for a lock receipt), except
    the taker's look for the XMR, which polls until the swap ends: the number of its
    ticks is an argument, and theorems hold for every number.  Loops that end when the
    environment lets them (reading a stream, polling for blocks, headers,
    confirmations or logs, the first lines of the wallet process, the requests of a
    websocket, the statuses of a subscription) have a number of
    turns as an argument too: safety theorems hold for every number, and the theorems
    on waiting give a number that is enough.  The parser of JSON has two units of fuel for
    each byte and two more: [jsonParse_fuel] shows that more fuel gives the same result, and
    what was printed is read back.  Other recursion is structural.  Integers
    have the width of the source where it matters: uint64 amounts, int32 exponents,
    uint8 decimals, 256-bit contract fields, and nanosecond times whose differences
    saturate as time.Duration does.

    ** What is not modelled

    Third-party code (libp2p, chaindb, go-ethereum, monero-rpc, prometheus, apd, semver,
    the curves and hashes) appears as classes of operations with their documented
    laws, or as answers of an environment.  The JSON of stored swap records and of the requests and
    responses of the RPC services stays an interface with its round trip as a law (of swap
    records whose amounts and rates survive their texts, [InfoJsonSpec]): it contains times
    in the format of package time.  The
    contract bindings (swap_creator.go, vault_manager.go, wsxmr_token.go, erc20_token.go,
    ierc20.go, aggregator_v3_interface.go) are generated by abigen and forward to
    go-ethereum; they and the Solidity sources are outside, and of the contract only the
    stages and windows the daemon relies on appear.  The HTTP server, the signal handler, interfaces, getters, mocks, test helpers and the texts of
    logs and output are left out. *)

From stdpp Require Import base gmap list strings.
From Stdlib Require Import ZArith Strings.Byte.

Open Scope Z_scope.

(** ** Bytes, hashes and addresses

    Go byte slices and arrays are lists of bytes; [types.Hash] is a [[32]byte]
    and [ethcommon.Address] a [[20]byte].  The zero value of both is all zeros. *)

#[global] Instance byte_eq_dec : EqDecision byte := Byte.byte_eq_dec.

#[global] Instance byte_countable : Countable byte :=
  inj_countable Byte.to_N Byte.of_N Byte.of_to_N.

Abbreviation bytes := (list byte).
Abbreviation Hash := (list byte).
Abbreviation Address := (list byte).

Definition hashLen : nat := 32.
Definition addressLen : nat := 20.
Definition EmptyHash : Hash := repeat x00 hashLen.
Definition zeroAddress : Address := repeat x00 addressLen.

(** A Go array type fixes the length of its values. *)
Definition wf_hash (h : Hash) : Prop := length h = hashLen.
Definition wf_address (a : Address) : Prop := length a = addressLen.

(** ** Machine integers *)

Definition int32_min : Z := - 2 ^ 31.
Definition int32_max : Z := 2 ^ 31 - 1.
Definition int64_min : Z := - 2 ^ 63.
Definition int64_max : Z := 2 ^ 63 - 1.
Definition uint64_max : Z := 2 ^ 64 - 1.

Definition wrap32 (z : Z) : Z := (z + 2 ^ 31) mod 2 ^ 32 - 2 ^ 31.
Definition wrap64 (z : Z) : Z := (z + 2 ^ 63) mod 2 ^ 64 - 2 ^ 63.

Definition in_int32 (z : Z) : Prop := int32_min ≤ z ≤ int32_max.
Definition in_uint8 (z : Z) : Prop := 0 ≤ z ≤ 255.

Lemma wrap32_id z : in_int32 z → wrap32 z = z.
Proof.
  unfold in_int32, wrap32, int32_min, int32_max. intros H.
  rewrite Z.mod_small by lia. lia.
Qed.

Lemma wrap64_id z : int64_min ≤ z ≤ int64_max → wrap64 z = z.
Proof.
  unfold wrap64, int64_min, int64_max. intros H.
  rewrite Z.mod_small by lia. lia.
Qed.

Lemma wrap64_range z : int64_min ≤ wrap64 z ≤ int64_max.
Proof.
  unfold wrap64, int64_min, int64_max.
  pose proof (Z.mod_pos_bound (z + 2 ^ 63) (2 ^ 64) eq_refl). lia.
Qed.

(** ** Errors and results

    [errors.New] makes a sentinel, compared by identity: its name stands for
    the identity.  [fmt.Errorf("pre: %w", e)] wraps [e].  Formatted arguments
    other than the wrapped error are left out of the text. *)

Inductive error : Type :=
| Sentinel (name text : string)
| Wrapf (pre : string) (e : error).

#[global] Instance error_eq_dec : EqDecision error.
Proof. solve_decision. Defined.

(** [err.Error()] *)
Fixpoint errorText (e : error) : string :=
  match e with
  | Sentinel _ t => t
  | Wrapf p e' => (p +:+ ": " +:+ errorText e')%string
  end.

(** [errors.Is(err, target)]: the chain of [err] contains [target]. *)
Fixpoint errorsIs (e target : error) : bool :=
  bool_decide (e = target) ||
  match e with
  | Sentinel _ _ => false
  | Wrapf _ e' => errorsIs e' target
  end.

(** An error made on the spot with [errors.New(msg)] or [fmt.Errorf(msg, ..)]. *)
Definition errorf (msg : string) : error := Sentinel msg msg.

Fixpoint isPrefix (p s : string) : bool :=
  match p, s with
  | EmptyString, _ => true
  | String a p', String b s' => bool_decide (a = b) && isPrefix p' s'
  | _, _ => false
  end.

(** [strings.Contains(s, sub)] *)
Fixpoint stringsContains (s sub : string) : bool :=
  isPrefix sub s ||
  match s with
  | EmptyString => false
  | String _ s' => stringsContains s' sub
  end.

Inductive result (A : Type) : Type :=
| Ok (a : A)
| Err (e : error).
Arguments Ok {A} a.
Arguments Err {A} e.

Definition isOk {A} (r : result A) : bool :=
  match r with Ok _ => true | Err _ => false end.

Definition rbind {A B} (r : result A) (k : A → result B) : result B :=
  match r with Ok a => k a | Err e => Err e end.

Declare Scope go_scope.
Delimit Scope go_scope with go.

(** An error result of a Go function without a value: [nil] is [None]. *)
Definition errToResult (o : option error) : result unit :=
  match o with None => Ok tt | Some e => Err e end.

(** ** Stateful computations

    A computation over a state [S] runs to completion, panics, blocks on a
    channel for ever, or (for the bounded unfolding of recursive code) runs out
    of fuel; the state it reached is kept in every case. *)

Inductive outcome (A : Type) : Type :=
| Done (a : A)
| Panicked (msg : string)
| Blocked
| OutOfFuel.
Arguments Done {A} a.
Arguments Panicked {A} msg.
Arguments Blocked {A}.
Arguments OutOfFuel {A}.

Definition prog (S A : Type) : Type := S → outcome A * S.

Definition done {S A} (a : A) : prog S A := fun s => (Done a, s).
Definition panic {S A} (msg : string) : prog S A := fun s => (Panicked msg, s).
Definition block {S A} : prog S A := fun s => (Blocked, s).
Definition nofuel {S A} : prog S A := fun s => (OutOfFuel, s).

(** The outcome of a computation that did not complete, at another type. *)
Definition abort {A B} (o : outcome A) : outcome B :=
  match o with
  | Done _ => OutOfFuel
  | Panicked m => Panicked m
  | Blocked => Blocked
  | OutOfFuel => OutOfFuel
  end.

(** Pure Go code may panic too: the same outcomes without a state. *)
Definition obind {A B} (o : outcome A) (k : A → outcome B) : outcome B :=
  match o with Done a => k a | _ => abort o end.

Definition otry {A B} (o : outcome (result A)) (k : A → outcome (result B))
  : outcome (result B) :=
  obind o (fun r => match r with Ok a => k a | Err e => Done (Err e) end).

Definition pure {S A} (o : outcome A) : prog S A := fun s => (o, s).

Definition pbind {S A B} (m : prog S A) (k : A → prog S B) : prog S B :=
  fun s => match m s with
           | (Done a, s') => k a s'
           | (o, s') => (abort o, s')
           end.

Definition gets {S A} (f : S → A) : prog S A := fun s => (Done (f s), s).
Definition modify {S} (f : S → S) : prog S unit := fun s => (Done tt, f s).

(** [x, err := m; if err != nil { return err }; k] *)
Definition tryBind {S A B} (m : prog S (result A)) (k : A → prog S (result B))
  : prog S (result B) :=
  pbind m (fun r => match r with Ok a => k a | Err e => done (Err e) end).

(** Go's [defer]: [cleanup] runs when [body] returns and when it panics. A body
    that never returns never reaches its deferred calls. *)
Definition deferring {S A} (cleanup : prog S unit) (body : prog S A) : prog S A :=
  fun s => match body s with
           | (Done a, s') =>
               match cleanup s' with
               | (Done _, s'') => (Done a, s'')
               | (o, s'') => (abort o, s'')
               end
           | (Panicked m, s') =>
               match cleanup s' with
               | (Done _, s'') => (Panicked m, s'')
               | (o, s'') => (abort o, s'')
               end
           | r => r
           end.

(** Run a computation on a component of the state. *)
Definition zoom {S T A} (get : S → T) (put : T → S → S) (m : prog T A) : prog S A :=
  fun s => let '(o, t) := m (get s) in (o, put t s).

Notation "x <- m ;; k" := (pbind m (fun x => k))
  (at level 100, m at next level, right associativity) : go_scope.
Notation "m ;;; k" := (pbind m (fun _ => k))
  (at level 100, k at level 200, right associativity) : go_scope.
Notation "x <-? m ;; k" := (tryBind m (fun x => k))
  (at level 100, m at next level, right associativity) : go_scope.

Notation "x <~ o ;; k" := (obind o (fun x => k))
  (at level 100, o at next level, right associativity) : go_scope.
Notation "x <~? o ;; k" := (otry o (fun x => k))
  (at level 100, o at next level, right associativity) : go_scope.

Open Scope go_scope.

(** Replace the error of a result, as [if err != nil { return fmt.Errorf(..) }]. *)
Definition mapErr {S A} (f : error → error) (m : prog S (result A)) : prog S (result A) :=
  r <- m ;;
  done (match r with Ok a => Ok a | Err e => Err (f e) end).

(** ** Reasoning about computations

    [keeps R m]: every run of [m], however it ends, relates its initial and
    final states by the preorder [R].  Invariants are the case
    [R s s' := I s → I s'].  [triple P m Q] is the Hoare triple whose
    postcondition sees how the run ended. *)

Definition keeps {S A} (R : S → S → Prop) (m : prog S A) : Prop :=
  ∀ s, R s (m s).2.

Definition triple {S A} (P : S → Prop) (m : prog S A) (Q : outcome A → S → Prop) : Prop :=
  ∀ s, P s → Q (m s).1 (m s).2.

(** The preorder of an invariant. *)
Definition preserving {S} (I : S → Prop) : S → S → Prop := fun s s' => I s → I s'.

#[global] Instance preserving_preorder {S} (I : S → Prop) : PreOrder (preserving I).
Proof. split; unfold preserving; [intros s; auto | intros a b c; auto]. Qed.

(** The preorder of states that agree on a projection. *)
Definition agreeing {S T} (f : S → T) : S → S → Prop := fun s s' => f s' = f s.

#[global] Instance agreeing_preorder {S T} (f : S → T) : PreOrder (agreeing f).
Proof.
  split; unfold agreeing; [intros s; reflexivity | intros a b c H1 H2; congruence].
Qed.

Create HintDb keeps.
#[global] Hint Constants Opaque : keeps.

Section keeps_rules.
Context {S : Type} (R : S → S → Prop) `{!PreOrder R}.

Lemma keeps_done {A} (a : A) : keeps R (done a).
Proof. intros s. reflexivity. Qed.

Lemma keeps_panic {A} msg : keeps R (@panic S A msg).
Proof. intros s. reflexivity. Qed.

Lemma keeps_block {A} : keeps R (@block S A).
Proof. intros s. reflexivity. Qed.

Lemma keeps_nofuel {A} : keeps R (@nofuel S A).
Proof. intros s. reflexivity. Qed.

Lemma keeps_gets {A} (f : S → A) : keeps R (gets f).
Proof. intros s. reflexivity. Qed.

Lemma keeps_pure {A} (o : outcome A) : keeps R (pure o).
Proof. intros s. reflexivity. Qed.

Lemma keeps_bind {A B} (m : prog S A) (k : A → prog S B) :
  keeps R m → (∀ a, keeps R (k a)) → keeps R (pbind m k).
Proof.
  intros Hm Hk s. unfold pbind. specialize (Hm s).
  destruct (m s) as [[a|?| |] s'] eqn:E; simpl in *; auto.
  etrans; [exact Hm | apply Hk].
Qed.

Lemma keeps_try {A B} (m : prog S (result A)) (k : A → prog S (result B)) :
  keeps R m → (∀ a, keeps R (k a)) → keeps R (tryBind m k).
Proof.
  intros Hm Hk. apply keeps_bind; [done |]. intros [a|e]; [auto | apply keeps_done].
Qed.

Lemma keeps_deferring {A} (c : prog S unit) (b : prog S A) :
  keeps R c → keeps R b → keeps R (deferring c b).
Proof.
  intros Hc Hb s. unfold deferring. specialize (Hb s).
  destruct (b s) as [[a|?| |] s'] eqn:E; simpl in *; auto;
    specialize (Hc s'); destruct (c s') as [[?|?| |] s''] eqn:E'; simpl in *; etrans; eauto.
Qed.

Lemma keeps_mapErr {A} f (m : prog S (result A)) :
  keeps R m → keeps R (mapErr f m).
Proof. intros Hm. apply keeps_bind; [done |]. intros r. apply keeps_done. Qed.

Lemma keeps_weaken {A} (R' : S → S → Prop) (m : prog S A) :
  (∀ s s', R' s s' → R s s') → keeps R' m → keeps R m.
Proof. intros HR Hm s. apply HR, Hm. Qed.

End keeps_rules.

Lemma keeps_modify {S} (R : S → S → Prop) (f : S → S) :
  (∀ s, R s (f s)) → keeps R (modify f).
Proof. intros H s. apply H. Qed.

Lemma keeps_zoom {S T A} (R : S → S → Prop) (get : S → T) (put : T → S → S) (m : prog T A) :
  (∀ s, R s (put (m (get s)).2 s)) → keeps R (zoom get put m).
Proof.
  intros H s. unfold zoom. specialize (H s). destruct (m (get s)) as [o t]. exact H.
Qed.

#[export] Hint Resolve keeps_done keeps_panic keeps_block keeps_nofuel keeps_gets keeps_pure
  keeps_mapErr keeps_deferring : keeps.

(** One structural step of a [keeps] goal, and its closure: binds and branches
    are split, known components are closed by the [keeps] hints. *)
Ltac keeps_step :=
  match goal with
  | |- ∀ _, keeps _ _ => intro
  | |- keeps _ (pbind _ _) => apply keeps_bind; [typeclasses eauto | | ]
  | |- keeps _ (tryBind _ _) => apply keeps_try; [typeclasses eauto | | ]
  | |- keeps _ (deferring _ _) => apply keeps_deferring; [typeclasses eauto | | ]
  | |- keeps _ (mapErr _ _) => apply keeps_mapErr; [typeclasses eauto | ]
  | |- keeps _ (if ?b then _ else _) => destruct b eqn:?
  | |- keeps _ (match ?x with _ => _ end) => destruct x eqn:?
  | |- keeps _ (let '_ := ?x in _) => destruct x eqn:?
  | |- keeps _ _ => solve [eauto with keeps typeclass_instances]
  end.
Ltac keeps_auto := repeat keeps_step.

(** A computation that preserves an invariant, on the states that satisfy it. *)
Definition guarded {S A} {I : S → Prop} (m : prog S A) (K : keeps (preserving I) m)
  : prog {s : S | I s} A :=
  fun s => ((m (`s)).1, (m (`s)).2 ↾ K (`s) (proj2_sig s)).

Lemma guarded_run {S A} {I : S → Prop} (m : prog S A) (K : keeps (preserving I) m)
    (s : {s : S | I s}) o s' :
  m (`s) = (o, s') → ∃ s1, guarded m K s = (o, s1) ∧ `s1 = s'.
Proof.
  intros E. exists ((m (`s)).2 ↾ K (`s) (proj2_sig s)). split; [|cbn; by rewrite E].
  unfold guarded. f_equal. by rewrite E.
Qed.

(** Symbolic execution: name the result of the next sub-computation. *)
Lemma pbind_Done {S A B} (m : prog S A) (k : A → prog S B) s a s' :
  m s = (Done a, s') → pbind m k s = k a s'.
Proof. intros H. unfold pbind. by rewrite H. Qed.

(** A bind completes only when both parts do. *)
Lemma pbind_inv_Done {S A B} (m : prog S A) (k : A → prog S B) s b s' :
  pbind m k s = (Done b, s') →
  ∃ a s1, m s = (Done a, s1) ∧ k a s1 = (Done b, s').
Proof.
  unfold pbind. destruct (m s) as [[a|?| |] s1]; simpl; intros H; try discriminate H.
  eauto.
Qed.

Lemma mapErr_Ok_run {S A} f (m : prog S (result A)) s a s' :
  mapErr f m s = (Done (Ok a), s') → m s = (Done (Ok a), s').
Proof.
  unfold mapErr. intros E. apply pbind_inv_Done in E as ([a'|e] & s1 & Hm & E); [|done].
  by injection E as -> <-.
Qed.

(** A deferred call completes only after its body did. *)
Lemma deferring_Done_iff {S A} (c : prog S unit) (b : prog S A) a t t' :
  deferring c b t = (Done a, t') ↔ ∃ t1, b t = (Done a, t1) ∧ c t1 = (Done tt, t').
Proof.
  unfold deferring. destruct (b t) as [[a'|?| |] t1]; [|by split; [destruct (c t1) as [[]] | intros (?&?&?)]..].
  destruct (c t1) as [[[]|?| |] t2] eqn:Ec; split; try done.
  - intros [= -> ->]. eauto.
  - intros (t3 & [= -> <-] & E). congruence.
  - intros (t3 & [= -> <-] & E). congruence.
  - intros (t3 & [= -> <-] & E). congruence.
  - intros (t3 & [= -> <-] & E). congruence.
Qed.

Lemma pure_inv {S A} (o : outcome A) (s : S) a s1 : pure o s = (Done a, s1) → o = Done a ∧ s1 = s.
Proof. unfold pure. by intros [= -> ->]. Qed.

(** A bind at one state: the second part runs where the first part stopped. *)
Lemma related_bind {S A B} (R : S → S → Prop) `{!PreOrder R} (m : prog S A) (k : A → prog S B) s :
  R s (m s).2 → (∀ a s1, m s = (Done a, s1) → R s1 (k a s1).2) → R s (pbind m k s).2.
Proof.
  intros Hm Hk. unfold pbind. destruct (m s) as [[a|?| |] s1]; simpl in *; try exact Hm.
  etrans; [exact Hm | by apply Hk].
Qed.

Lemma related_try {S A B} (R : S → S → Prop) `{!PreOrder R} (m : prog S (result A))
    (k : A → prog S (result B)) s :
  R s (m s).2 → (∀ a s1, m s = (Done (Ok a), s1) → R s1 (k a s1).2) → R s (tryBind m k s).2.
Proof.
  intros Hm Hk. unfold tryBind. apply (related_bind R); [done |]. intros [a|e] s1 E; [by apply Hk | reflexivity].
Qed.

(** ** Returning

    [returning m]: a run of [m] completes or panics, it does not wait for ever. *)

Definition oreturning {A} (o : outcome A) : Prop :=
  match o with Done _ | Panicked _ => True | _ => False end.

Definition returning {S A} (m : prog S A) : Prop := ∀ s, oreturning (m s).1.

Create HintDb returning.
#[global] Hint Constants Opaque : returning.

Section returning_rules.
Context {S : Type}.

Lemma returning_done {A} (a : A) : returning (@done S A a).
Proof. done. Qed.

Lemma returning_panic {A} msg : returning (@panic S A msg).
Proof. done. Qed.

Lemma returning_gets {A} (f : S → A) : returning (gets f).
Proof. done. Qed.

Lemma returning_modify (f : S → S) : returning (modify f).
Proof. done. Qed.

Lemma returning_pure {A} (o : outcome A) : oreturning o → returning (@pure S A o).
Proof. intros Ho s. exact Ho. Qed.

Lemma returning_bind {A B} (m : prog S A) (k : A → prog S B) :
  returning m → (∀ a, returning (k a)) → returning (pbind m k).
Proof.
  intros Hm Hk s. unfold pbind. specialize (Hm s).
  destruct (m s) as [[a|?| |] s']; cbn in *; try done. apply Hk.
Qed.

Lemma returning_try {A B} (m : prog S (result A)) (k : A → prog S (result B)) :
  returning m → (∀ a, returning (k a)) → returning (tryBind m k).
Proof. intros Hm Hk. apply returning_bind; [done|]. intros [a|e]; [apply Hk | done]. Qed.

Lemma returning_mapErr {A} f (m : prog S (result A)) : returning m → returning (mapErr f m).
Proof. intros Hm. apply returning_bind; [done|]. intros r. done. Qed.

Lemma returning_deferring {A} (c : prog S unit) (b : prog S A) :
  returning c → returning b → returning (deferring c b).
Proof.
  intros Hc Hb s. unfold deferring. specialize (Hb s).
  destruct (b s) as [[a|?| |] s1]; cbn in *; try done; specialize (Hc s1);
    by destruct (c s1) as [[?|?| |] s2].
Qed.

Lemma returning_zoom {T A} (get : S → T) (put : T → S → S) (m : prog T A) :
  returning m → returning (zoom get put m).
Proof. intros Hm s. unfold zoom. specialize (Hm (get s)). by destruct (m (get s)). Qed.

Lemma oreturning_obind {A B} (o : outcome A) (k : A → outcome B) :
  oreturning o → (∀ a, oreturning (k a)) → oreturning (obind o k).
Proof. destruct o; cbn; auto. Qed.

Lemma oreturning_otry {A B} (o : outcome (result A)) (k : A → outcome (result B)) :
  oreturning o → (∀ a, oreturning (k a)) → oreturning (otry o k).
Proof. intros Ho Hk. apply oreturning_obind; [done|]. intros [a|e]; [apply Hk | done]. Qed.

End returning_rules.

#[export] Hint Resolve returning_done returning_panic returning_gets returning_modify : returning.

Ltac returning_step :=
  match goal with
  | |- ∀ _, _ => intro
  | |- returning (pbind _ _) => apply returning_bind
  | |- returning (tryBind _ _) => apply returning_try
  | |- returning (mapErr _ _) => apply returning_mapErr
  | |- returning (deferring _ _) => apply returning_deferring
  | |- returning (pure _) => apply returning_pure
  | |- oreturning (obind _ _) => apply oreturning_obind
  | |- oreturning (otry _ _) => apply oreturning_otry
  | |- oreturning (Done _) => exact I
  | |- oreturning (Panicked _) => exact I
  | |- returning (if ?b then _ else _) => destruct b
  | |- returning (match ?x with _ => _ end) => destruct x
  | |- oreturning (if ?b then _ else _) => destruct b
  | |- oreturning (match ?x with _ => _ end) => destruct x
  | |- _ => solve [auto with returning]
  end.
Ltac returning_auto := repeat returning_step.

(** ** Lists *)

Lemma app_inj_len {A} (l1 l2 k1 k2 : list A) :
  length l1 = length l2 → l1 ++ k1 = l2 ++ k2 → l1 = l2 ∧ k1 = k2.
Proof. intros Hl H. by apply app_inj_1 in H. Qed.
