(* ===== verification/Coins.v ===== *)
(** * Coins: amounts of XMR, ETH and ERC20 tokens (package coins)

    The decimal arithmetic is the third-party package apd: its operations are
    the class [Apd], what the code relies on of its documentation is the class
    [ApdSpec].  The functions of coins/*.go are definitions over [Apd].  An
    in-place [value.Reduce(value)] of an argument is returned next to the
    result, because the caller sees it. *)

From stdpp Require Import base gmap list strings.
From Stdlib Require Import ZArith.
From S2P Require Import Prelude.

Open Scope Z_scope.
Open Scope go_scope.

(** ** apd.Decimal *)

Inductive Form : Type := Finite | Infinite | NaNSignaling | NaN.

#[global] Instance form_eq_dec : EqDecision Form.
Proof. solve_decision. Defined.

Record Decimal : Type := mkDec {
  dForm : Form;
  dNegative : bool;
  dExponent : Z;
  dCoeff : Z
}.

#[global] Instance decimal_eq_dec : EqDecision Decimal.
Proof. solve_decision. Defined.

(** [apd.New(coeff, exponent)] for a coefficient that is not negative. *)
Definition apdNew (c e : Z) : Decimal := mkDec Finite false e c.

Definition setExponent (e : Z) (d : Decimal) : Decimal :=
  mkDec (dForm d) (dNegative d) e (dCoeff d).

(** The operations of apd the code calls.  [Mul], [Quo], [Add] and the rounding
    operations are those of a context of the given precision. *)
Class Apd := {
  apdReduce : Decimal → Decimal;
  apdIsZero : Decimal → bool;
  apdCmp : Decimal → Decimal → Z;
  apdNumDigits : Decimal → Z;
  apdText : Decimal → string;
  apdUnmarshalText : string → result Decimal;
  apdMarshalText : Decimal → result string;
  apdRoundToIntegralValue : Z → Decimal → result Decimal;
  apdQuantize : Z → Decimal → Z → result (Decimal * bool);
  apdMul : Z → Decimal → Decimal → result Decimal;
  apdQuo : Z → Decimal → Decimal → result Decimal;
  apdAdd : Z → Decimal → Decimal → result Decimal
}.

(** The value of a decimal at scale [k], an integer when [k + exponent] is not
    negative. *)
Definition scaled (k : Z) (d : Decimal) : Z :=
  (if dNegative d then -1 else 1) * dCoeff d * 10 ^ (dExponent d + k).

(** Two decimals of the same value. *)
Definition sameValue (x y : Decimal) : Prop :=
  ∀ k, 0 ≤ dExponent x + k → 0 ≤ dExponent y + k → scaled k x = scaled k y.

(** Division by [10 ^ n] rounding half up, the rounding of [apd.BaseContext]. *)
Definition roundHalfUp (c n : Z) : Z := (2 * c + 10 ^ n) / (2 * 10 ^ n).

(** The number of digits of a coefficient. *)
Definition fitsDigits (p c : Z) : Prop := 0 ≤ c < 10 ^ p.

(** The largest magnitude of an exponent apd accepts ([apd.MaxExponent]). *)
Definition apdMaxExponent : Z := 100000.

(** What the code relies on of apd's documentation. *)
Class ApdSpec `{Apd} : Prop := {
  (* "Reduce sets d to x with all trailing zeros removed" *)
  reduce_form d : dForm (apdReduce d) = dForm d;
  reduce_neg d : dNegative (apdReduce d) = dNegative d;
  reduce_finite d : dForm d = Finite → 0 < dCoeff d →
    dExponent d ≤ dExponent (apdReduce d) ∧
    dCoeff d = dCoeff (apdReduce d) * 10 ^ (dExponent (apdReduce d) - dExponent d) ∧
    dCoeff (apdReduce d) mod 10 ≠ 0;
  (* "IsZero returns true if d == 0 or -0" *)
  isZero_finite d : dForm d = Finite → apdIsZero d = bool_decide (dCoeff d = 0);
  isZero_special d : dForm d ≠ Finite → apdIsZero d = false;
  (* "NumDigits returns the number of decimal digits of d.Coeff" *)
  numDigits_le d p : dForm d = Finite → 0 < dCoeff d → 0 < p →
    apdNumDigits d ≤ p ↔ dCoeff d < 10 ^ p;
  (* "Cmp compares x and y": -1, 0 or 1 *)
  cmp_finite x y k : dForm x = Finite → dForm y = Finite →
    0 ≤ dExponent x + k → 0 ≤ dExponent y + k →
    apdCmp x y = match scaled k x ?= scaled k y with Lt => -1 | Eq => 0 | Gt => 1 end;
  (* "RoundToIntegralValue sets d to integral value of x" *)
  roundToIntegral_exact p d : dForm d = Finite → 0 ≤ dExponent d ≤ apdMaxExponent →
    fitsDigits p (dCoeff d * 10 ^ dExponent d) →
    ∃ r, apdRoundToIntegralValue p d = Ok r ∧ dForm r = Finite ∧
      dNegative r = dNegative d ∧ 0 ≤ dExponent r ≤ apdMaxExponent ∧
      dCoeff r * 10 ^ dExponent r = dCoeff d * 10 ^ dExponent d;
  roundToIntegral_round p d : dForm d = Finite →
    - apdMaxExponent ≤ dExponent d < 0 → fitsDigits p (dCoeff d) →
    ∃ r, apdRoundToIntegralValue p d = Ok r ∧ dForm r = Finite ∧
      dNegative r = dNegative d ∧ 0 ≤ dExponent r ≤ apdMaxExponent ∧
      dCoeff r * 10 ^ dExponent r = roundHalfUp (dCoeff d) (- dExponent d);
  (* "Quantize adjusts and rounds x to have the given exponent" *)
  quantize_exact p d e : dForm d = Finite → e ≤ dExponent d →
    p - apdMaxExponent ≤ e ≤ apdMaxExponent - p → dExponent d - e ≤ apdMaxExponent →
    fitsDigits p (dCoeff d * 10 ^ (dExponent d - e)) →
    apdQuantize p d e =
      Ok (mkDec Finite (dNegative d) e (dCoeff d * 10 ^ (dExponent d - e)), false);
  (* "Mul sets d to the product x*y" *)
  mul_exact p x y : dForm x = Finite → dForm y = Finite →
    p - apdMaxExponent ≤ dExponent x + dExponent y ≤ apdMaxExponent - p →
    fitsDigits p (dCoeff x * dCoeff y) →
    apdMul p x y = Ok (mkDec Finite (xorb (dNegative x) (dNegative y))
                         (dExponent x + dExponent y) (dCoeff x * dCoeff y));
  (* a product of more than [p] digits is rounded to [p] digits *)
  mul_rounded p x y d : 0 < p → dForm x = Finite → dForm y = Finite →
    0 < dCoeff x → 0 < dCoeff y → apdMul p x y = Ok d →
    dForm d = Finite ∧ 0 < dCoeff d ∧ dExponent x + dExponent y ≤ dExponent d
}.

(** ** coins/common.go *)

Definition NumEtherDecimals : Z := 18.
Definition NumMoneroDecimals : Z := 12.
Definition MaxExchangeRateDecimals : Z := 6.
Definition MaxCoinPrecision : Z := 100.

(** [RelayerFeeWei = big.NewInt(1e16)] *)
Definition RelayerFeeWei : Z := 10 ^ 16.

(** ** coins/exponent.go *)

Definition increaseExponent (n : Decimal) (delta : Z) : outcome Decimal :=
  let e := dExponent n in
  let e' := wrap32 (e + delta) in
  if e' <? e then Panicked "overflow" else Done (setExponent e' n).

Definition decreaseExponent (n : Decimal) (delta : Z) : outcome Decimal :=
  let e := dExponent n in
  let e' := wrap32 (e - delta) in
  if e <? e' then Panicked "underflow" else Done (setExponent e' n).

(** ** coins/errors.go *)

Definition errNegativePiconeros : error :=
  Sentinel "errNegativePiconeros" "negative piconero values are not supported".
Definition errNegativeWei : error :=
  Sentinel "errNegativeWei" "negative Wei values are not supported".
Definition ErrInvalidCoin : error :=
  Sentinel "ErrInvalidCoin" "invalid ProvidesCoin".

(** ** coins/provides.go

    [type ProvidesCoin string]: any string is a value of the type. *)

Definition ProvidesXMR : string := "XMR".
Definition ProvidesETH : string := "ETH".

Definition NewProvidesCoin (s : string) : result string :=
  if bool_decide (s = "XMR" ∨ s = "xmr") then Ok ProvidesXMR
  else if bool_decide (s = "ETH" ∨ s = "eth") then Ok ProvidesETH
  else Err ErrInvalidCoin.

Definition ProvidesCoin_MarshalText (c : string) : result string :=
  if bool_decide (c = ProvidesXMR ∨ c = ProvidesETH) then Ok c
  else Err (errorf "cannot marshal ProvidesCoin").

Definition ProvidesCoin_UnmarshalText (data : string) : result string :=
  NewProvidesCoin data.

Section coins.
Context `{Apd}.

(** ** coins/round.go *)

Definition roundToDecimalPlace (n : Decimal) (decimalPlace : Z) : outcome (result Decimal) :=
  result0 <~ increaseExponent n decimalPlace ;;
  match apdRoundToIntegralValue MaxCoinPrecision result0 with
  | Err e => Done (Err e)
  | Ok result1 =>
      result2 <~ decreaseExponent result1 decimalPlace ;;
      Done (Ok (apdReduce result2))
  end.

(** The number of decimals, and the argument as [Reduce] left it. *)
Definition NumDecimals (value : Decimal) : Z * Decimal :=
  let value' := apdReduce value in
  if 0 <=? dExponent value' then (0, value') else (wrap32 (- dExponent value'), value').

Definition ExceedsDecimals (val : Decimal) (maxDecimals : Z) : bool * Decimal :=
  let '(n, val') := NumDecimals val in (maxDecimals <? n, val').

(** The suggestion, and the denominator as [Reduce] left it. *)
Definition calcAltNumeratorAmount (numeratorDecimals resultDecimals : Z)
    (denominator unroundedResult : Decimal) : outcome (option Decimal * Decimal) :=
  let denominator' := apdReduce denominator in
  let roundingPrecision := wrap32 (dExponent denominator' + numeratorDecimals) in
  if (roundingPrecision <? 0) || (255 <? roundingPrecision)
  then Done (None, denominator')
  else
    let roundingPrecision' :=
      if resultDecimals <? roundingPrecision then resultDecimals else roundingPrecision in
    roundedResult <~ roundToDecimalPlace unroundedResult roundingPrecision' ;;
    match roundedResult with
    | Err _ => Done (None, denominator')
    | Ok rounded =>
        match apdMul MaxCoinPrecision rounded denominator' with
        | Err _ => Done (None, denominator')
        | Ok alt =>
            let alt' := apdReduce alt in
            Done (if apdIsZero alt' then None else Some alt', denominator')
        end
    end.

(** ** coins/validate.go

    The error, if any, and the argument as the function left it. *)
Definition ValidatePositive (jsonFieldName : string) (maxDecimals : Z)
    (value : option Decimal) : option error * option Decimal :=
  match value with
  | None => (Some (errorf "is not set"), None)
  | Some v =>
      if apdIsZero v then (Some (errorf "must be non-zero"), Some v)
      else if dNegative v then (Some (errorf "cannot be negative"), Some v)
      else if negb (bool_decide (dForm v = Finite)) then (Some (errorf "must be finite"), Some v)
      else
        let v' := apdReduce v in
        if MaxCoinPrecision <? apdNumDigits v'
        then (Some (errorf "has too many digits"), Some v')
        else if dExponent v' <? - maxDecimals
        then (Some (errorf "has too many decimal points"), Some v')
        else (None, Some v')
  end.

(** ** coins/coins.go: piconeros *)

Definition NewPiconeroAmount (amount : Z) : Decimal := apdNew amount 0.

Definition PiconeroAmount_MarshalText (a : Decimal) : result string := apdMarshalText a.

Definition PiconeroAmount_UnmarshalText (b : string) : result Decimal :=
  match apdUnmarshalText b with
  | Err e => Err e
  | Ok a => if dNegative a then Err errNegativePiconeros else Ok a
  end.

Definition MoneroToPiconero (xmrAmt : Decimal) : outcome Decimal :=
  pnAmt <~ increaseExponent xmrAmt NumMoneroDecimals ;;
  r <~ roundToDecimalPlace pnAmt 0 ;;
  match r with
  | Err _ => Panicked "roundToDecimalPlace"
  | Ok pn => Done pn
  end.

Definition PiconeroAmount_CmpU64 (a : Decimal) (other : Z) : Z :=
  apdCmp a (NewPiconeroAmount other).

Definition AsMonero (a : Decimal) : outcome Decimal :=
  xmrAmt <~ decreaseExponent a NumMoneroDecimals ;;
  Done (apdReduce xmrAmt).

Definition PiconeroAmount_Cmp (a other : Decimal) : Z := apdCmp a other.
Definition PiconeroAmount_String (a : Decimal) : string := apdText a.

Definition AsMoneroString (a : Decimal) : outcome string :=
  xmr <~ AsMonero a ;; Done (apdText xmr).

Definition FmtPiconeroAsXMR (piconeros : Z) : outcome string :=
  a <~ AsMonero (NewPiconeroAmount piconeros) ;; Done (apdText a).

(** ** coins/coins.go: wei and tokens *)

(** [new(apd.BigInt).SetMathBigInt(amount)] keeps the sign apart from the
    magnitude. *)
Definition NewWeiAmount (amount : Z) : Decimal :=
  mkDec Finite (amount <? 0) 0 (Z.abs amount).

Definition WeiAmount_MarshalText (a : Decimal) : result string := apdMarshalText a.

Definition WeiAmount_UnmarshalText (b : string) : result Decimal :=
  match apdUnmarshalText b with
  | Err e => Err e
  | Ok a => if dNegative a then Err errNegativeWei else Ok a
  end.

Definition EtherToWei (ethAmt : Decimal) : outcome Decimal :=
  weiAmt <~ increaseExponent ethAmt NumEtherDecimals ;;
  r <~ roundToDecimalPlace weiAmt 0 ;;
  match r with
  | Err _ => Panicked "roundToDecimalPlace"
  | Ok w => Done w
  end.

(** [new(big.Int).SetBytes(coeff.Bytes())]: the magnitude, the sign is dropped. *)
Definition WeiAmount_BigInt (a : Decimal) : outcome Z :=
  match apdQuantize MaxCoinPrecision a 0 with
  | Err _ => Panicked "Quantize"
  | Ok (wholeWeiVal, _) => Done (dCoeff wholeWeiVal)
  end.

Definition AsEther (a : Decimal) : outcome Decimal :=
  ether <~ decreaseExponent a NumEtherDecimals ;;
  Done (apdReduce ether).

Definition WeiAmount_Cmp (a b : Decimal) : Z := apdCmp a b.
Definition WeiAmount_String (a : Decimal) : string := apdText a.

Definition AsEtherString (a : Decimal) : outcome string :=
  ether <~ AsEther a ;; Done (apdText ether).

Definition FmtWeiAsETH (wei : Z) : outcome string :=
  a <~ AsEther (NewWeiAmount wei) ;; Done (apdText a).

Definition RelayerFeeETH : outcome Decimal := AsEther (NewWeiAmount RelayerFeeWei).

Record ERC20TokenInfo : Type := mkToken {
  tokAddress : Address;
  tokNumDecimals : Z;
  tokName : string;
  tokSymbol : string
}.

(** The implementations of the interface [EthAssetAmount]: [WeiAmount] and
    [ERC20TokenAmount] (whose amount is in standard units). *)
Inductive EthAssetAmount : Type :=
| WeiAmount (a : Decimal)
| ERC20TokenAmount (amount : Decimal) (info : ERC20TokenInfo).

Definition NewERC20TokenAmountFromBigInt (amount : Z) (token : ERC20TokenInfo)
    : outcome EthAssetAmount :=
  asDecimal <~ decreaseExponent (apdNew (Z.abs amount) 0) (tokNumDecimals token) ;;
  Done (ERC20TokenAmount (apdReduce asDecimal) token).

Definition NewTokenAmountFromDecimals (amount : Decimal) (token : ERC20TokenInfo)
    : outcome EthAssetAmount :=
  let '(exceeds, amount') := ExceedsDecimals amount (tokNumDecimals token) in
  if exceeds then
    r <~ roundToDecimalPlace amount' (tokNumDecimals token) ;;
    match r with
    | Err _ => Panicked "roundToDecimalPlace"
    | Ok roundedAmt => Done (ERC20TokenAmount roundedAmt token)
    end
  else Done (ERC20TokenAmount amount' token).

Definition NewEthAssetAmount (amount : Decimal) (token : option ERC20TokenInfo)
    : outcome EthAssetAmount :=
  match token with
  | None => w <~ EtherToWei amount ;; Done (WeiAmount w)
  | Some t => NewTokenAmountFromDecimals amount t
  end.

Definition EthAssetAmount_BigInt (a : EthAssetAmount) : outcome Z :=
  match a with
  | WeiAmount w => WeiAmount_BigInt w
  | ERC20TokenAmount amt t =>
      whole <~ increaseExponent amt (tokNumDecimals t) ;;
      match apdQuantize MaxCoinPrecision whole 0 with
      | Err _ => Panicked "Quantize"
      | Ok (w, _) => Done (dCoeff w)
      end
  end.

Definition AsStd (a : EthAssetAmount) : outcome Decimal :=
  match a with
  | WeiAmount w => AsEther w
  | ERC20TokenAmount amt _ => Done amt
  end.

Definition NumStdDecimals (a : EthAssetAmount) : Z :=
  match a with
  | WeiAmount _ => NumEtherDecimals
  | ERC20TokenAmount _ t => tokNumDecimals t
  end.

Definition IsTokenAmount (a : EthAssetAmount) : bool :=
  match a with WeiAmount _ => false | ERC20TokenAmount _ _ => true end.

Definition TokenAddress (a : EthAssetAmount) : Address :=
  match a with WeiAmount _ => zeroAddress | ERC20TokenAmount _ t => tokAddress t end.

(** ** coins/exchange_rate.go *)

Definition CalcExchangeRate (xmrPrice ethPrice : Decimal) : outcome (result Decimal) :=
  match apdQuo MaxCoinPrecision xmrPrice ethPrice with
  | Err e => Done (Err e)
  | Ok rate => roundToDecimalPlace rate MaxExchangeRateDecimals
  end.

Definition ExchangeRate_MarshalText (r : Decimal) : result string := apdMarshalText r.

Definition ExchangeRate_UnmarshalText (b : string) : result Decimal :=
  match apdUnmarshalText b with
  | Err e => Err e
  | Ok r =>
      match ValidatePositive "exchangeRate" MaxExchangeRateDecimals (Some r) with
      | (Some e, _) => Err e
      | (None, Some r') => Ok r'
      | (None, None) => Ok r
      end
  end.

(** The suggested alternative amount is part of the error text only. *)
Definition ToXMR (r : Decimal) (ethAssetAmt : EthAssetAmount) : outcome (result Decimal) :=
  std <~ AsStd ethAssetAmt ;;
  match apdQuo MaxCoinPrecision std r with
  | Err e => Done (Err e)
  | Ok xmrAmt =>
      let '(exceeds, xmrAmt') := ExceedsDecimals xmrAmt NumMoneroDecimals in
      if exceeds then
        alt <~ calcAltNumeratorAmount (NumStdDecimals ethAssetAmt) NumMoneroDecimals r xmrAmt' ;;
        match alt.1 with
        | Some _ => Done (Err (errorf "exceeds XMR's decimal precision, try"))
        | None => Done (Err (errorf "exceeds XMR's decimal precision"))
        end
      else Done (Ok xmrAmt')
  end.

Definition ToETH (r xmrAmount : Decimal) : result Decimal :=
  match apdMul MaxCoinPrecision xmrAmount r with
  | Err e => Err e
  | Ok ethAmt =>
      let '(exceeds, ethAmt') := ExceedsDecimals ethAmt NumEtherDecimals in
      if exceeds then Err (errorf "exceeds ETH's decimal precision") else Ok ethAmt'
  end.

Definition ToERC20Amount (r xmrAmount : Decimal) (token : ERC20TokenInfo)
    : outcome (result Decimal) :=
  match apdMul MaxCoinPrecision xmrAmount r with
  | Err e => Done (Err e)
  | Ok erc20Amount =>
      let '(exceeds, amt') := ExceedsDecimals erc20Amount (tokNumDecimals token) in
      if exceeds then Done (Err (errorf "exceeds token's decimal precision"))
      else
        a <~ NewTokenAmountFromDecimals amt' token ;;
        std <~ AsStd a ;; Done (Ok std)
  end.

End coins.
