(* ===== verification/RefApd.v ===== *)
(** * A reference implementation of the decimal interface

    [refApd] implements the class [Apd] on integers and [refApdSpec] proves
    that it satisfies [ApdSpec]: the hypotheses of the theorems about amounts
    can hold, and the definitions that use them run. *)

From stdpp Require Import base gmap list strings pretty.
From Stdlib Require Import ZArith.
From S2P Require Import Prelude Coins.

Open Scope Z_scope.

Fixpoint stripZeros (fuel : nat) (c e : Z) : Z * Z :=
  match fuel with
  | O => (c, e)
  | S f => if c mod 10 =? 0 then stripZeros f (c / 10) (e + 1) else (c, e)
  end.

Definition log2fuel (c : Z) : nat := S (Z.to_nat (Z.log2 c)).

Definition refReduce (d : Decimal) : Decimal :=
  if bool_decide (dForm d = Finite) && (0 <? dCoeff d) then
    let '(c, e) := stripZeros (log2fuel (dCoeff d)) (dCoeff d) (dExponent d) in
    mkDec Finite (dNegative d) e c
  else d.

Fixpoint countDigits (fuel : nat) (c : Z) : Z :=
  match fuel with
  | O => 1
  | S f => if c <? 10 then 1 else 1 + countDigits f (c / 10)
  end.

Definition refNumDigits (d : Decimal) : Z := countDigits (log2fuel (dCoeff d)) (dCoeff d).

Definition refCmp (x y : Decimal) : Z :=
  let k := - Z.min (dExponent x) (dExponent y) in
  match scaled k x ?= scaled k y with Lt => -1 | Eq => 0 | Gt => 1 end.

Definition refRoundToIntegral (d : Decimal) : Decimal :=
  if 0 <=? dExponent d then d
  else mkDec (dForm d) (dNegative d) 0 (roundHalfUp (dCoeff d) (- dExponent d)).

Definition refQuantize (d : Decimal) (e : Z) : Decimal * bool :=
  if e <=? dExponent d
  then (mkDec (dForm d) (dNegative d) e (dCoeff d * 10 ^ (dExponent d - e)), false)
  else (mkDec (dForm d) (dNegative d) e (roundHalfUp (dCoeff d) (e - dExponent d)),
        negb (dCoeff d mod 10 ^ (e - dExponent d) =? 0)).

(** Round a coefficient to at most [p] digits. *)
Definition refRound (p : Z) (neg : bool) (e c : Z) : Decimal :=
  let excess := countDigits (log2fuel c) c - p in
  if (excess <=? 0) || (c =? 0) then mkDec Finite neg e c
  else mkDec Finite neg (e + excess) (roundHalfUp c excess).

Definition refMul (p : Z) (x y : Decimal) : Decimal :=
  refRound p (xorb (dNegative x) (dNegative y))
    (dExponent x + dExponent y) (dCoeff x * dCoeff y).

Definition refQuo (p : Z) (x y : Decimal) : result Decimal :=
  if dCoeff y =? 0 then Err (errorf "division by zero")
  else
    let s := p + refNumDigits y in
    Ok (refReduce (refRound p (xorb (dNegative x) (dNegative y))
      (dExponent x - dExponent y - s) ((2 * (dCoeff x * 10 ^ s) + dCoeff y) / (2 * dCoeff y)))).

(** Sums of decimals that are not negative, the ones the code adds. *)
Definition refAdd (p : Z) (x y : Decimal) : Decimal :=
  let k := Z.min (dExponent x) (dExponent y) in
  refRound p false k (scaled (- k) x + scaled (- k) y).

Fixpoint padZeros (n : nat) (s : string) : string :=
  match n with
  | O => s
  | S n' => if (String.length s <? n)%nat then ("0" +:+ (padZeros n' s))%string else s
  end.

Definition refText (d : Decimal) : string :=
  let sign := (if dNegative d then "-" else "")%string in
  if 0 <=? dExponent d then sign +:+ pretty (dCoeff d * 10 ^ dExponent d)
  else
    let n := - dExponent d in
    sign +:+ pretty (dCoeff d / 10 ^ n) +:+ "." +:+
      padZeros (Z.to_nat n) (pretty (dCoeff d mod 10 ^ n)).

#[export] Instance refApd : Apd := {|
  apdReduce := refReduce;
  apdIsZero d := bool_decide (dForm d = Finite) && (dCoeff d =? 0);
  apdCmp := refCmp;
  apdNumDigits := refNumDigits;
  apdText := refText;
  apdUnmarshalText _ := Err (errorf "parse");
  apdMarshalText d := Ok (refText d);
  apdRoundToIntegralValue _ d := Ok (refRoundToIntegral d);
  apdQuantize _ d e := Ok (refQuantize d e);
  apdMul p x y := Ok (refMul p x y);
  apdQuo := refQuo;
  apdAdd p x y := Ok (refAdd p x y)
|}.

(** ** The laws *)

Lemma log2fuel_bound c : 0 < c → c < 2 ^ Z.of_nat (log2fuel c).
Proof.
  intros Hc. unfold log2fuel. rewrite Nat2Z.inj_succ, Z2Nat.id by apply Z.log2_nonneg.
  by apply Z.log2_spec.
Qed.

(** Dividing by ten uses up at least one bit of fuel. *)
Lemma div10_fuel c f : 0 < c → c < 2 ^ Z.of_nat (S f) → c / 10 < 2 ^ Z.of_nat f.
Proof.
  intros Hc H. rewrite Nat2Z.inj_succ, Z.pow_succ_r in H by lia.
  apply Z.div_lt_upper_bound; lia.
Qed.

Lemma stripZeros_spec f c e : 0 < c → c < 2 ^ Z.of_nat f →
  let '(c', e') := stripZeros f c e in
  e ≤ e' ∧ c = c' * 10 ^ (e' - e) ∧ c' mod 10 ≠ 0 ∧ 0 < c'.
Proof.
  revert c e. induction f as [|f IH]; intros c e Hc Hf; [simpl in Hf; lia |].
  cbn [stripZeros]. destruct (Z.eqb_spec (c mod 10) 0) as [E|E].
  - assert (0 < c / 10) by (pose proof (Z.div_mod c 10 ltac:(lia)); lia).
    specialize (IH (c / 10) (e + 1) H (div10_fuel _ _ Hc Hf)).
    destruct (stripZeros f (c / 10) (e + 1)) as [c' e'].
    destruct IH as (He & Hc' & Hm & Hp). split_and!; [lia | | done | done].
    replace (e' - e) with (Z.succ (e' - (e + 1))) by lia.
    rewrite Z.pow_succ_r by lia. pose proof (Z.div_mod c 10 ltac:(lia)). lia.
  - rewrite Z.sub_diag, Z.mul_1_r. split_and!; lia.
Qed.

Lemma countDigits_pos f c : 0 < countDigits f c.
Proof.
  revert c. induction f as [|f IH]; intros c; cbn; [lia|].
  destruct (c <? 10); [lia|]. specialize (IH (c / 10)). lia.
Qed.

Lemma countDigits_le f c p : 0 < c → c < 2 ^ Z.of_nat f → 0 < p →
  countDigits f c ≤ p ↔ c < 10 ^ p.
Proof.
  revert c p. induction f as [|f IH]; intros c p Hc Hf Hp; [simpl in Hf; lia |].
  cbn [countDigits]. destruct (Z.ltb_spec c 10) as [E|E].
  - assert (10 ^ 1 ≤ 10 ^ p) by (apply Z.pow_le_mono_r; lia). lia.
  - assert (Hd : 0 < c / 10) by (apply Z.div_str_pos; lia).
    destruct (decide (p = 1)) as [->|Hp1].
    + pose proof (countDigits_pos f (c / 10)).
      change (10 ^ 1) with 10. lia.
    + specialize (IH (c / 10) (p - 1) Hd (div10_fuel _ _ Hc Hf) ltac:(lia)).
      replace p with (Z.succ (p - 1)) at 2 by lia. rewrite Z.pow_succ_r by lia.
      pose proof (Z.div_mod c 10 ltac:(lia)). pose proof (Z.mod_pos_bound c 10 ltac:(lia)).
      split; intros Hx; [apply proj1 in IH | apply proj2 in IH]; lia.
Qed.

Lemma scaled_shift k j d : 0 ≤ dExponent d + k → 0 ≤ j →
  scaled (k + j) d = scaled k d * 10 ^ j.
Proof.
  intros Hk Hj. unfold scaled. rewrite Z.add_assoc, Z.pow_add_r by lia. ring.
Qed.

Lemma compare_scale a b c : 0 < c → (a * c ?= b * c) = (a ?= b).
Proof. intros Hc. rewrite !(Z.mul_comm _ c). symmetry. by apply Zmult_compare_compat_l, Z.lt_gt. Qed.

Lemma refCmp_spec x y k : 0 ≤ dExponent x + k → 0 ≤ dExponent y + k →
  refCmp x y = match scaled k x ?= scaled k y with Lt => -1 | Eq => 0 | Gt => 1 end.
Proof.
  intros Hx Hy. unfold refCmp.
  set (k0 := - Z.min (dExponent x) (dExponent y)).
  replace k with (k0 + (k - k0)) by lia.
  rewrite !scaled_shift, compare_scale by (try apply Z.pow_pos_nonneg; lia). done.
Qed.

Lemma roundHalfUp_pos c n : 0 ≤ n → 10 ^ n ≤ 2 * c → 0 < roundHalfUp c n.
Proof.
  intros Hn H. unfold roundHalfUp. apply Z.div_str_pos.
  assert (0 < 10 ^ n) by (apply Z.pow_pos_nonneg; lia). lia.
Qed.

Lemma refRound_exact p n e c : 0 ≤ c < 10 ^ p → refRound p n e c = mkDec Finite n e c.
Proof.
  intros Hc. unfold refRound.
  destruct (Z.eqb_spec c 0) as [->|Hne]; [by rewrite orb_true_r | rewrite orb_false_r].
  destruct (decide (0 < p)) as [Hp|Hp].
  - pose proof (proj2 (countDigits_le (log2fuel c) c p ltac:(lia)
      (log2fuel_bound c ltac:(lia)) Hp) ltac:(lia)).
    destruct (Z.leb_spec (countDigits (log2fuel c) c - p) 0); [done | lia].
  - assert (10 ^ p ≤ 10 ^ 0) by (apply Z.pow_le_mono_r; lia). lia.
Qed.

Lemma refRound_spec p n e c : 0 < p → 0 < c →
  let d := refRound p n e c in
  dForm d = Finite ∧ 0 < dCoeff d ∧ e ≤ dExponent d.
Proof.
  intros Hp Hc. unfold refRound.
  destruct (Z.eqb_spec c 0) as [->|Hne]; [lia | rewrite orb_false_r].
  destruct (Z.leb_spec (countDigits (log2fuel c) c - p) 0) as [E|E]; cbn [dForm dCoeff dExponent]; split_and!; try done; try lia.
  apply roundHalfUp_pos; [lia|].
  set (n' := countDigits (log2fuel c) c) in *.
  destruct (decide (c < 10 ^ (n' - p))) as [Hlt|]; [| lia].
  apply (countDigits_le (log2fuel c)) in Hlt; [| lia | by apply log2fuel_bound | lia].
  fold n' in Hlt. lia.
Qed.

#[export] Instance refApdSpec : ApdSpec.
Proof.
  split; cbn -[log2fuel].
  - intros d. unfold refReduce. destruct (_ && _) eqn:E; [|done].
    apply andb_prop in E as [E%bool_decide_eq_true _]. by destruct (stripZeros _ _ _).
  - intros d. unfold refReduce. destruct (_ && _); [|done]. by destruct (stripZeros _ _ _).
  - intros d Hf Hc. unfold refReduce. rewrite bool_decide_true by done.
    destruct (Z.ltb_spec 0 (dCoeff d)); [|lia]. cbn [andb].
    pose proof (stripZeros_spec (log2fuel (dCoeff d)) (dCoeff d) (dExponent d) Hc
      (log2fuel_bound _ Hc)) as Hs.
    destruct (stripZeros _ _ _) as [c e]. cbn. tauto.
  - intros d Hf. rewrite (bool_decide_true (dForm d = Finite)) by done. cbn.
    destruct (Z.eqb_spec (dCoeff d) 0); [by rewrite bool_decide_true | by rewrite bool_decide_false].
  - intros d Hf. by rewrite bool_decide_false.
  - intros d p Hf Hc Hp. apply countDigits_le; [done | by apply log2fuel_bound | done].
  - intros x y k Hx Hy. apply refCmp_spec.
  - intros p d Hf He Hfit. eexists. split; [done|]. unfold refRoundToIntegral.
    destruct (Z.leb_spec 0 (dExponent d)); [|lia]. split_and!; done || lia.
  - intros p d Hf He Hfit. eexists. split; [done|]. unfold refRoundToIntegral.
    destruct (Z.leb_spec 0 (dExponent d)); [lia|]. cbn. unfold apdMaxExponent in *. split_and!; done || lia.
  - intros p d e Hf He Hfit. unfold refQuantize.
    destruct (Z.leb_spec e (dExponent d)); [|lia]. by rewrite Hf.
  - intros p x y Hx Hy He Hfit. f_equal. by apply refRound_exact.
  - intros p x y d Hp Hx Hy Hcx Hcy [= <-]. apply refRound_spec; [done|]. nia.
Qed.
