(* ===== verification/CoinsProofs.v ===== *)
(** * Properties of the amounts of package coins

    Conversions between standard and smallest units are exact on validated
    amounts, rounding stays within half a unit, validation accepts exactly the
    documented amounts, and the precision error of [ToETH] cannot occur. *)

From stdpp Require Import base gmap list strings.
From Stdlib Require Import ZArith.
From S2P Require Import Prelude Coins RefApd.

Open Scope Z_scope.
Open Scope go_scope.

(** A finite amount greater than zero whose exponent is an exponent of apd. *)
Record positiveAmount (d : Decimal) : Prop := {
  pa_form : dForm d = Finite;
  pa_neg : dNegative d = false;
  pa_coeff : 0 < dCoeff d;
  pa_exp : - apdMaxExponent + 255 ≤ dExponent d ≤ apdMaxExponent - 255
}.

(** ** Exponents *)

(** The overflow test of [increaseExponent] is exact: it panics if and only if
    the new exponent is not an int32. *)
Lemma increaseExponent_spec n delta : in_int32 (dExponent n) → in_uint8 delta →
  increaseExponent n delta =
    if dExponent n + delta <=? int32_max
    then Done (setExponent (dExponent n + delta) n) else Panicked "overflow".
Proof.
  unfold in_int32, in_uint8, increaseExponent, int32_min, int32_max. intros He Hd.
  destruct (Z.leb_spec (dExponent n + delta) (2 ^ 31 - 1)).
  - rewrite wrap32_id by (unfold in_int32, int32_min, int32_max; lia).
    by destruct (Z.ltb_spec (dExponent n + delta) (dExponent n)); [lia |].
  - replace (wrap32 (dExponent n + delta)) with (dExponent n + delta - 2 ^ 32).
    + by destruct (Z.ltb_spec (dExponent n + delta - 2 ^ 32) (dExponent n)); [| lia].
    + unfold wrap32. rewrite <- (Z_mod_plus_full (_ + 2 ^ 31) (-1)), Z.mod_small; lia.
Qed.

Lemma decreaseExponent_spec n delta : in_int32 (dExponent n) → in_uint8 delta →
  decreaseExponent n delta =
    if int32_min <=? dExponent n - delta
    then Done (setExponent (dExponent n - delta) n) else Panicked "underflow".
Proof.
  unfold in_int32, in_uint8, decreaseExponent, int32_min, int32_max. intros He Hd.
  destruct (Z.leb_spec (- 2 ^ 31) (dExponent n - delta)).
  - rewrite wrap32_id by (unfold in_int32, int32_min, int32_max; lia).
    by destruct (Z.ltb_spec (dExponent n) (dExponent n - delta)); [lia |].
  - replace (wrap32 (dExponent n - delta)) with (dExponent n - delta + 2 ^ 32).
    + by destruct (Z.ltb_spec (dExponent n) (dExponent n - delta + 2 ^ 32)); [| lia].
    + unfold wrap32. rewrite <- (Z_mod_plus_full (_ + 2 ^ 31) 1), Z.mod_small; lia.
Qed.

Lemma apd_exp_int32 e : - apdMaxExponent ≤ e ≤ apdMaxExponent → in_int32 e.
Proof. unfold apdMaxExponent, in_int32, int32_min, int32_max. lia. Qed.

Lemma increaseExponent_apd n delta :
  - apdMaxExponent ≤ dExponent n ≤ apdMaxExponent → in_uint8 delta →
  increaseExponent n delta = Done (setExponent (dExponent n + delta) n).
Proof.
  intros He Hd. rewrite increaseExponent_spec by auto using apd_exp_int32.
  unfold apdMaxExponent, in_uint8, int32_max in *.
  by destruct (Z.leb_spec (dExponent n + delta) (2 ^ 31 - 1)); [| lia].
Qed.

Lemma decreaseExponent_apd n delta :
  - apdMaxExponent ≤ dExponent n ≤ apdMaxExponent → in_uint8 delta →
  decreaseExponent n delta = Done (setExponent (dExponent n - delta) n).
Proof.
  intros He Hd. rewrite decreaseExponent_spec by auto using apd_exp_int32.
  unfold apdMaxExponent, in_uint8, int32_min in *.
  by destruct (Z.leb_spec (- 2 ^ 31) (dExponent n - delta)); [| lia].
Qed.

Lemma scaled_setExponent k e d :
  scaled k (setExponent e d) = (if dNegative d then -1 else 1) * dCoeff d * 10 ^ (e + k).
Proof. done. Qed.

(** Decimals that apd writes and reads exactly: finite, within the precision of the coins,
    the exponent well within its limits. *)
Definition exactDecimal (d : Decimal) : Prop :=
  dForm d = Finite ∧ fitsDigits MaxCoinPrecision (dCoeff d) ∧
  Z.abs (dExponent d) ≤ apdMaxExponent - MaxCoinPrecision.

(** A rate that [ValidatePositive] accepts as it is. *)
Definition rateOnWire `{Apd} (r : Decimal) : Prop :=
  exactDecimal r ∧ ValidatePositive "exchangeRate" MaxExchangeRateDecimals (Some r) = (None, Some r).

Section laws.
Context `{AS : ApdSpec}.

(** [Reduce] keeps the value at every scale. *)
Lemma reduce_scaled d k : dForm d = Finite → 0 < dCoeff d → 0 ≤ dExponent d + k →
  scaled k (apdReduce d) = scaled k d.
Proof.
  intros Hf Hc Hk. destruct (reduce_finite d Hf Hc) as (He & Hv & _).
  unfold scaled. rewrite reduce_neg, Hv.
  replace (dExponent (apdReduce d) + k)
    with ((dExponent (apdReduce d) - dExponent d) + (dExponent d + k)) by lia.
  rewrite Z.pow_add_r by lia. ring.
Qed.

Lemma reduce_pos d : dForm d = Finite → 0 < dCoeff d → 0 < dCoeff (apdReduce d).
Proof.
  intros Hf Hc. destruct (reduce_finite d Hf Hc) as (He & Hv & _).
  assert (0 < 10 ^ (dExponent (apdReduce d) - dExponent d)) by (apply Z.pow_pos_nonneg; lia).
  nia.
Qed.

(** The integer [roundToDecimalPlace] rounds a value to, at its scale. *)
Definition roundedAt (p : Z) (n : Decimal) : Z :=
  if 0 <=? dExponent n + p then dCoeff n * 10 ^ (dExponent n + p)
  else roundHalfUp (dCoeff n) (- (dExponent n + p)).

Lemma roundToDecimalPlace_spec n p : positiveAmount n → in_uint8 p →
  fitsDigits MaxCoinPrecision (dCoeff n) →
  fitsDigits MaxCoinPrecision (roundedAt p n) →
  ∃ r0, roundToDecimalPlace n p = Done (Ok (apdReduce r0)) ∧ dForm r0 = Finite ∧
    dNegative r0 = false ∧ - p ≤ dExponent r0 ≤ apdMaxExponent ∧
    scaled p r0 = roundedAt p n.
Proof.
  intros [Hf Hn Hc He] Hp Hfit Hfit'. unfold roundToDecimalPlace, roundedAt in *.
  assert (in_int32 (dExponent n + p)) by (unfold in_uint8, apdMaxExponent, in_int32, int32_min, int32_max in *; lia).
  rewrite increaseExponent_apd by (auto; lia). cbn [obind].
  set (n' := setExponent (dExponent n + p) n).
  assert (∃ r, apdRoundToIntegralValue MaxCoinPrecision n' = Ok r ∧ dForm r = Finite ∧
    dNegative r = false ∧ 0 ≤ dExponent r ≤ apdMaxExponent ∧
    dCoeff r * 10 ^ dExponent r = roundedAt p n) as (r & -> & Hrf & Hrn & Hre & Hrv).
  { unfold roundedAt, in_uint8 in *. destruct (Z.leb_spec 0 (dExponent n + p)).
    - destruct (roundToIntegral_exact MaxCoinPrecision n') as (r & ? & ? & ? & ? & ?);
        cbn; [done | lia | done |]. exists r. cbn in *. split_and!; congruence || lia || done.
    - destruct (roundToIntegral_round MaxCoinPrecision n') as (r & ? & ? & ? & ? & ?);
        cbn; [done | lia | done |]. exists r. cbn in *. split_and!; congruence || lia || done. }
  rewrite decreaseExponent_apd by (auto; unfold apdMaxExponent in *; lia). cbn [obind].
  eexists. split; [done|]. cbn. split_and!; [done | done | unfold in_uint8 in *; lia.. |].
  rewrite scaled_setExponent, Hrn. replace (dExponent r - p + p) with (dExponent r) by lia.
  unfold roundedAt in Hrv. lia.
Qed.

(** An integer below [10 ^ q] that is a positive multiple of [10 ^ k] bounds [k]. *)
Lemma pow10_bound c k q : 0 < c → 0 ≤ k → 0 ≤ q → c * 10 ^ k < 10 ^ q → k < q ∧ c < 10 ^ q.
Proof.
  intros Hc Hk Hq Hlt. assert (0 < 10 ^ k) by (apply Z.pow_pos_nonneg; lia). split; [|nia].
  apply (Z.pow_lt_mono_r_iff 10); lia || nia.
Qed.

(** Shifting an amount with at most [k] decimals to whole units loses nothing. *)
Lemma toWhole_exact d k : positiveAmount d → in_uint8 k → - k ≤ dExponent d →
  fitsDigits MaxCoinPrecision (scaled k d) →
  ∃ d' r, increaseExponent d k = Done d' ∧ roundToDecimalPlace d' 0 = Done (Ok r) ∧
    dForm r = Finite ∧ dNegative r = false ∧ 0 < dCoeff r ∧ 0 ≤ dExponent r ∧
    scaled 0 r = scaled k d.
Proof.
  intros [Hf Hn Hc He] Hk Hdec Hfit. unfold scaled, fitsDigits, MaxCoinPrecision in Hfit.
  rewrite Hn in Hfit.
  destruct (pow10_bound (dCoeff d) (dExponent d + k) 100) as [? ?]; [lia..|].
  eexists. rewrite increaseExponent_apd by (auto; lia).
  destruct (roundToDecimalPlace_spec (setExponent (dExponent d + k) d) 0)
    as (r0 & Hr & Hrf & Hrn & Hre & Hrv).
  - split; cbn; auto. unfold apdMaxExponent. lia.
  - unfold in_uint8. lia.
  - unfold fitsDigits, MaxCoinPrecision. cbn. lia.
  - unfold roundedAt, fitsDigits, MaxCoinPrecision. cbn. rewrite Z.add_0_r.
    destruct (Z.leb_spec 0 (dExponent d + k)); lia.
  - unfold roundedAt in Hrv. cbn in Hrv. rewrite Z.add_0_r in Hrv.
    destruct (Z.leb_spec 0 (dExponent d + k)) as [_|]; [|lia].
    assert (Hpos : 0 < dCoeff r0).
    { unfold scaled in Hrv. rewrite Hrn in Hrv.
      assert (0 < 10 ^ (dExponent d + k)) by (apply Z.pow_pos_nonneg; lia).
      assert (0 < 10 ^ (dExponent r0 + 0)) by (apply Z.pow_pos_nonneg; lia). nia. }
    exists (apdReduce r0). destruct (reduce_finite r0 Hrf Hpos) as (Hexp & _).
    split_and!; [done | done | by rewrite reduce_form | by rewrite reduce_neg
      | by apply reduce_pos | lia |].
    rewrite reduce_scaled by (done || lia). rewrite Hrv. unfold scaled. rewrite Hn. lia.
Qed.

(** [Quantize(.., 0)] of a whole amount is its value. *)
Lemma quantize_whole r : dForm r = Finite → dNegative r = false → 0 ≤ dExponent r ≤ apdMaxExponent →
  fitsDigits MaxCoinPrecision (scaled 0 r) →
  apdQuantize MaxCoinPrecision r 0 = Ok (mkDec Finite false 0 (scaled 0 r), false).
Proof.
  intros Hf Hn He Hfit. unfold scaled in *. rewrite Hn, Z.add_0_r in *.
  rewrite Z.mul_1_l in Hfit. rewrite quantize_exact
    by (rewrite ?Z.sub_0_r; auto; unfold MaxCoinPrecision, apdMaxExponent in *; lia).
  by rewrite Hn, Z.sub_0_r, Z.mul_1_l.
Qed.

Lemma NumDecimals_le d m : dForm d = Finite → 0 < dCoeff d → 0 ≤ m < 2 ^ 31 →
  - m ≤ dExponent d → (NumDecimals d).1 ≤ m.
Proof.
  intros Hf Hc Hm He. unfold NumDecimals. destruct (reduce_finite d Hf Hc) as (Hx & _).
  destruct (Z.leb_spec 0 (dExponent (apdReduce d))); cbn; [lia|].
  rewrite wrap32_id by (unfold in_int32, int32_min, int32_max; lia). lia.
Qed.

Lemma ExceedsDecimals_false d m : dForm d = Finite → 0 < dCoeff d → 0 ≤ m < 2 ^ 31 →
  - m ≤ dExponent d → ExceedsDecimals d m = (false, apdReduce d).
Proof.
  intros Hf Hc Hm He. unfold ExceedsDecimals.
  pose proof (NumDecimals_le d m Hf Hc Hm He) as Hle.
  assert (Hs : (NumDecimals d).2 = apdReduce d)
    by (unfold NumDecimals; by destruct (0 <=? dExponent (apdReduce d))).
  destruct (NumDecimals d) as [n d']. cbn in *. subst.
  by destruct (Z.ltb_spec m n); [lia |].
Qed.

(** The amounts [ValidatePositive] accepts, and what it leaves behind. *)
Lemma ValidatePositive_inv name m v v' :
  ValidatePositive name m (Some v) = (None, v') →
  dForm v = Finite ∧ dNegative v = false ∧ dCoeff v ≠ 0 ∧ v' = Some (apdReduce v) ∧
  apdNumDigits (apdReduce v) ≤ MaxCoinPrecision ∧ - m ≤ dExponent (apdReduce v).
Proof.
  unfold ValidatePositive. intros Hv.
  destruct (apdIsZero v) eqn:Hz; [discriminate|].
  destruct (dNegative v) eqn:Hn; [discriminate|].
  case_bool_decide as Hf; cbn in Hv; [|discriminate].
  rewrite isZero_finite in Hz by done. apply bool_decide_eq_false in Hz.
  destruct (Z.ltb_spec MaxCoinPrecision (apdNumDigits (apdReduce v))); [discriminate|].
  destruct (Z.ltb_spec (dExponent (apdReduce v)) (- m)); [discriminate|].
  injection Hv as <-. split_and!; done || lia.
Qed.

(** The reduced form has the largest exponent and the smallest coefficient. *)
Lemma reduce_canonical v c e : dForm v = Finite → dNegative v = false → 0 ≤ dCoeff v →
  0 < c → sameValue v (apdNew c e) →
  0 < dCoeff v ∧ e ≤ dExponent (apdReduce v) ∧ dCoeff (apdReduce v) ≤ c ∧
  0 < dCoeff (apdReduce v).
Proof.
  intros Hf Hn Hc0 Hc Hs. set (k := - Z.min (dExponent v) e).
  pose proof (Hs k ltac:(lia) ltac:(cbn; lia)) as Heq. unfold scaled in Heq.
  rewrite Hn in Heq. cbn [apdNew dNegative dCoeff dExponent] in Heq. rewrite !Z.mul_1_l in Heq.
  assert (0 < 10 ^ (e + k)) by (apply Z.pow_pos_nonneg; lia).
  assert (0 < 10 ^ (dExponent v + k)) by (apply Z.pow_pos_nonneg; lia).
  assert (Hcv : 0 < dCoeff v) by nia.
  destruct (reduce_finite v Hf Hcv) as (Hx & _ & Hm). pose proof (reduce_pos v Hf Hcv) as Hp.
  pose proof (reduce_scaled v k Hf Hcv ltac:(lia)) as Hred. unfold scaled in Hred.
  rewrite reduce_neg, Hn, !Z.mul_1_l, Heq in Hred. clear Heq Hs.
  set (x := dExponent (apdReduce v)) in *. set (y := dCoeff (apdReduce v)) in *.
  assert (Hge : e ≤ x).
  { destruct (decide (e ≤ x)) as [|Hlt]; [done | exfalso]. apply Hm.
    replace (e + k) with (Z.succ (e - x - 1) + (x + k)) in Hred by lia.
    rewrite (Z.pow_add_r 10 (Z.succ _)), Z.pow_succ_r in Hred by lia.
    assert (0 < 10 ^ (x + k)) by (apply Z.pow_pos_nonneg; lia).
    replace y with (c * 10 ^ (e - x - 1) * 10) by nia. by rewrite Z.mod_mul. }
  replace (x + k) with ((x - e) + (e + k)) in Hred by lia.
  rewrite (Z.pow_add_r 10 (x - e)) in Hred by lia.
  assert (y * 10 ^ (x - e) = c) by (apply (Z.mul_reg_r _ _ (10 ^ (e + k))); lia).
  assert (0 < 10 ^ (x - e)) by (apply Z.pow_pos_nonneg; lia). split_and!; done || nia.
Qed.

End laws.

(** ** The properties *)

(** Converting piconeros to XMR and back gives the same number of
    piconeros for every uint64 amount but zero, and neither conversion panics. *)
Theorem piconero_monero_roundtrip `{ApdSpec} (n : Z) : 0 < n ≤ uint64_max →
  ∃ x p, AsMonero (NewPiconeroAmount n) = Done x ∧ MoneroToPiconero x = Done p ∧
    dForm p = Finite ∧ dNegative p = false ∧ 0 ≤ dExponent p ∧ scaled 0 p = n.
Proof.
  intros Hn. unfold AsMonero, MoneroToPiconero, NewPiconeroAmount, NumMoneroDecimals, uint64_max in *.
  rewrite decreaseExponent_apd by (cbn; unfold apdMaxExponent, in_uint8; lia). cbn [obind].
  set (x0 := setExponent _ _). assert (Hf : dForm x0 = Finite) by done.
  assert (Hc : 0 < dCoeff x0) by (cbn; lia).
  destruct (reduce_finite x0 Hf Hc) as (He & Hv & _). cbn in He.
  pose proof (reduce_pos x0 Hf Hc) as Hpos.
  assert (Hsc : scaled 12 (apdReduce x0) = n)
    by (rewrite reduce_scaled by (done || cbn; lia); unfold scaled; cbn; lia).
  destruct (pow10_bound (dCoeff (apdReduce x0)) (dExponent (apdReduce x0) + 12) 20) as [? ?];
    [done | lia | lia | unfold scaled in Hsc; rewrite reduce_neg in Hsc; cbn in Hsc; lia |].
  destruct (toWhole_exact (apdReduce x0) 12) as (d' & r & Hi & Hr & ? & ? & ? & ? & Heq).
  - split; [by rewrite reduce_form | by rewrite reduce_neg | done | unfold apdMaxExponent; lia].
  - unfold in_uint8. lia.
  - lia.
  - rewrite Hsc. unfold fitsDigits, MaxCoinPrecision. lia.
  - eexists _, r. split; [done|]. rewrite Hi. cbn [obind]. rewrite Hr. cbn [obind].
    split_and!; done || congruence.
Qed.

Lemma piconero_monero_roundtrip_witness :
  ∃ x p, AsMonero (NewPiconeroAmount 1500000000000) = Done x ∧ MoneroToPiconero x = Done p ∧
    dForm p = Finite ∧ dNegative p = false ∧ 0 ≤ dExponent p ∧ scaled 0 p = 1500000000000.
Proof. apply (piconero_monero_roundtrip 1500000000000). unfold uint64_max. lia. Defined.

(** The parts of [NewEthAssetAmount] and [BigInt] that depend on the asset. *)
Definition assetDecimals (token : option ERC20TokenInfo) : Z :=
  match token with None => NumEtherDecimals | Some t => tokNumDecimals t end.

(** C20: an ETH or token amount in standard units with at most the asset's
    decimals becomes exactly the whole number of wei (or token units) it denotes,
    and the conversions neither panic nor round. *)
Theorem EthAssetAmount_BigInt_exact `{ApdSpec} (d : Decimal) (token : option ERC20TokenInfo) :
  positiveAmount d → in_uint8 (assetDecimals token) →
  - assetDecimals token ≤ dExponent d →
  fitsDigits MaxCoinPrecision (scaled (assetDecimals token) d) →
  ∃ a, NewEthAssetAmount d token = Done a ∧
    EthAssetAmount_BigInt a = Done (scaled (assetDecimals token) d).
Proof.
  intros Hd Hk Hdec Hfit. destruct token as [t|]; cbn [assetDecimals NewEthAssetAmount] in *.
  - unfold NewTokenAmountFromDecimals. destruct Hd as [Hf Hn Hc He].
    rewrite ExceedsDecimals_false by (unfold in_uint8 in Hk; done || lia).
    eexists. split; [done|]. cbn [EthAssetAmount_BigInt].
    destruct (reduce_finite d Hf Hc) as (Hx & _). pose proof (reduce_pos d Hf Hc) as Hp.
    assert (Hs : scaled (tokNumDecimals t) (apdReduce d) = scaled (tokNumDecimals t) d)
      by (apply reduce_scaled; done || lia).
    pose proof Hfit as Hfit'. rewrite <- Hs in Hfit'. unfold scaled, fitsDigits, MaxCoinPrecision in Hfit'.
    rewrite reduce_neg, Hn in Hfit'.
    destruct (pow10_bound (dCoeff (apdReduce d)) (dExponent (apdReduce d) + tokNumDecimals t) 100)
      as [? ?]; [lia..|].
    rewrite increaseExponent_apd by (auto; unfold in_uint8, apdMaxExponent in *; lia). cbn [obind].
    rewrite quantize_whole; cbn; rewrite ?reduce_form, ?reduce_neg by done; auto; try lia.
    + rewrite scaled_setExponent, reduce_neg, Hn, Z.add_0_r. rewrite <- Hs. unfold scaled.
      by rewrite reduce_neg, Hn.
    + rewrite scaled_setExponent, reduce_neg, Hn, Z.add_0_r. unfold fitsDigits, MaxCoinPrecision. lia.
  - destruct (toWhole_exact d NumEtherDecimals) as (d' & r & Hi & Hr & ? & Hrn & ? & ? & Heq); auto.
    exists (WeiAmount r). unfold EtherToWei. rewrite Hi. cbn [obind]. rewrite Hr. cbn [obind].
    split; [done|]. cbn [EthAssetAmount_BigInt]. unfold WeiAmount_BigInt.
    assert (dExponent r ≤ apdMaxExponent).
    { rewrite <- Heq in Hfit. unfold scaled, fitsDigits, MaxCoinPrecision in Hfit. rewrite Hrn in Hfit.
      destruct (pow10_bound (dCoeff r) (dExponent r + 0) 100); unfold apdMaxExponent; lia. }
    rewrite quantize_whole by (done || by rewrite Heq). cbn. by rewrite Heq.
Qed.

Lemma EthAssetAmount_BigInt_exact_witness :
  ∃ a, NewEthAssetAmount (apdNew 125 (-2)) None = Done a ∧
    EthAssetAmount_BigInt a = Done (scaled 18 (apdNew 125 (-2))).
Proof.
  apply (EthAssetAmount_BigInt_exact (apdNew 125 (-2)) None); [split; cbn | ..]; try done.
Defined.

(** [ValidatePositive] accepts exactly the finite, non-negative values that
    can be written with at most 100 digits and at most [maxDecimals] decimals, and
    the value it leaves in place is the one it was given. *)
Theorem ValidatePositive_accepts `{ApdSpec} (name : string) (maxDecimals : Z) (v : Decimal) :
  0 ≤ dCoeff v →
  (∃ v', ValidatePositive name maxDecimals (Some v) = (None, Some v') ∧ sameValue v v') ↔
  dForm v = Finite ∧ dNegative v = false ∧
  ∃ c e, 0 < c < 10 ^ MaxCoinPrecision ∧ - maxDecimals ≤ e ∧ sameValue v (apdNew c e).
Proof.
  intros Hc0. split.
  - intros (v' & Hv & Hs). apply ValidatePositive_inv in Hv as (Hf & Hn & Hc & [= ->] & Hd & He).
    split_and!; [done..|]. exists (dCoeff (apdReduce v)), (dExponent (apdReduce v)).
    pose proof (reduce_pos v Hf ltac:(lia)) as Hp.
    apply numDigits_le in Hd; [| by rewrite reduce_form | done | done].
    split_and!; [done | done | lia |]. intros k Hk Hk'. rewrite (Hs k Hk Hk').
    unfold scaled. by rewrite reduce_neg, Hn.
  - intros (Hf & Hn & c & e & Hc & He & Hs). exists (apdReduce v).
    destruct (reduce_canonical v c e Hf Hn Hc0 ltac:(lia) Hs) as (Hcv & Hge & Hle & Hp).
    split; [|intros j Hj _; symmetry; by apply reduce_scaled].
    unfold ValidatePositive. rewrite isZero_finite, bool_decide_false by (done || lia).
    rewrite Hn, bool_decide_true by done. cbn [negb].
    assert (apdNumDigits (apdReduce v) ≤ MaxCoinPrecision)
      by (apply numDigits_le; [by rewrite reduce_form | done | done | lia]).
    destruct (Z.ltb_spec MaxCoinPrecision (apdNumDigits (apdReduce v))); [lia|].
    by destruct (Z.ltb_spec (dExponent (apdReduce v)) (- maxDecimals)); [lia|].
Qed.

Lemma ValidatePositive_accepts_witness :
  (∃ v', ValidatePositive "minAmount" 12 (Some (apdNew 150 (-3))) = (None, Some v') ∧
    sameValue (apdNew 150 (-3)) v') ↔
  dForm (apdNew 150 (-3)) = Finite ∧ dNegative (apdNew 150 (-3)) = false ∧
  ∃ c e, 0 < c < 10 ^ MaxCoinPrecision ∧ -12 ≤ e ∧ sameValue (apdNew 150 (-3)) (apdNew c e).
Proof. apply (ValidatePositive_accepts "minAmount" 12 (apdNew 150 (-3))). cbn. lia. Defined.

(** The comment in [ToETH] is right: with an exchange rate of at most 6
    decimals and an XMR amount of at most 12, both accepted by [ValidatePositive],
    the precision error cannot occur, whatever the number of digits. *)
Theorem ToETH_within_precision `{ApdSpec} (r r' x x' d : Decimal) :
  0 ≤ dCoeff r → 0 ≤ dCoeff x →
  ValidatePositive "exchangeRate" MaxExchangeRateDecimals (Some r) = (None, Some r') →
  ValidatePositive "minAmount" NumMoneroDecimals (Some x) = (None, Some x') →
  apdMul MaxCoinPrecision x' r' = Ok d →
  ToETH r' x' = Ok (apdReduce d).
Proof.
  intros Hcr Hcx Hr Hx Hd.
  apply ValidatePositive_inv in Hr as (Hrf & Hrn & Hrc & [= ->] & _ & Hre).
  apply ValidatePositive_inv in Hx as (Hxf & Hxn & Hxc & [= ->] & _ & Hxe).
  unfold ToETH. rewrite Hd.
  edestruct (mul_rounded MaxCoinPrecision) as (Hf & Hc & He); [| | | | | exact Hd |];
    rewrite ?reduce_form; try (apply reduce_pos); done || lia || idtac.
  unfold MaxExchangeRateDecimals, NumMoneroDecimals, NumEtherDecimals in *.
  by rewrite ExceedsDecimals_false by (done || lia).
Qed.

Lemma ToETH_within_precision_witness :
  ToETH (apdNew 6 (-2)) (apdNew 25 0) = Ok (apdReduce (apdNew 150 (-2))).
Proof.
  apply (ToETH_within_precision (apdNew 60 (-3)) _ (apdNew 250 (-1)) _ (apdNew 150 (-2)));
    done || by vm_compute.
Defined.

(** [roundToDecimalPlace] does not panic or fail on an amount of at most 100
    digits; the rounded value has at most [p] decimals and differs from the
    argument by at most half a unit of the last kept place. *)
Theorem roundToDecimalPlace_half_unit `{ApdSpec} (n : Decimal) (p : Z) :
  positiveAmount n → in_uint8 p → fitsDigits MaxCoinPrecision (dCoeff n) →
  dExponent n + p < 0 → fitsDigits MaxCoinPrecision (roundedAt p n) →
  ∃ r0, roundToDecimalPlace n p = Done (Ok (apdReduce r0)) ∧ - p ≤ dExponent r0 ∧
    2 * Z.abs (scaled p r0 * 10 ^ (- (dExponent n + p)) - dCoeff n) ≤ 10 ^ (- (dExponent n + p)).
Proof.
  intros Hn Hp Hfit Hneg Hfit'.
  destruct (roundToDecimalPlace_spec n p) as (r0 & Hr & _ & _ & He & Hv); auto.
  exists r0. split_and!; [done | lia |]. rewrite Hv. unfold roundedAt.
  destruct (Z.leb_spec 0 (dExponent n + p)); [lia|]. unfold roundHalfUp.
  set (j := - (dExponent n + p)). assert (Hj : 0 < 10 ^ j) by (apply Z.pow_pos_nonneg; lia).
  pose proof (Z.div_mod (2 * dCoeff n + 10 ^ j) (2 * 10 ^ j) ltac:(lia)).
  pose proof (Z.mod_pos_bound (2 * dCoeff n + 10 ^ j) (2 * 10 ^ j) ltac:(lia)). nia.
Qed.

Lemma roundToDecimalPlace_half_unit_witness :
  ∃ r0, roundToDecimalPlace (apdNew 123456789 (-8)) 6 = Done (Ok (apdReduce r0)) ∧
    - 6 ≤ dExponent r0 ∧
    2 * Z.abs (scaled 6 r0 * 10 ^ (- (-8 + 6)) - 123456789) ≤ 10 ^ (- (-8 + 6)).
Proof.
  apply (roundToDecimalPlace_half_unit (apdNew 123456789 (-8)) 6);
    [split; cbn; try done | ..]; done.
Defined.

(** Every coin string that [ProvidesCoin] marshals unmarshals to itself,
    and unmarshalling never yields a string that cannot be marshalled. *)
Theorem ProvidesCoin_roundtrip (s c : string) :
  (ProvidesCoin_MarshalText c = Ok s → s = c ∧ ProvidesCoin_UnmarshalText s = Ok c) ∧
  (ProvidesCoin_UnmarshalText s = Ok c → ProvidesCoin_MarshalText c = Ok c).
Proof.
  unfold ProvidesCoin_MarshalText, ProvidesCoin_UnmarshalText, NewProvidesCoin. split.
  - case_bool_decide as E; [|discriminate]. intros [= <-]. split; [done|].
    by destruct E as [-> | ->].
  - destruct (bool_decide (s = _ ∨ _)); [by intros [= <-] |].
    by destruct (bool_decide (s = _ ∨ _)); [intros [= <-] | intros [=]].
Qed.
