(* ===== verification/Types.v ===== *)
(** * Shared types (packages common and common/types)

    Environments and their timeouts, swap statuses, hashes, Ethereum assets and
    offers.  The third-party parts (semver, sha3, the checksummed hex form of an
    address) are the class [TypesLib]. *)

From stdpp Require Import base gmap list strings pretty.
From Stdlib Require Import ZArith Strings.Byte Strings.Ascii.
From S2P Require Import Prelude Coins.

Open Scope Z_scope.
Open Scope go_scope.

(** ** common/network.go *)

Inductive Environment : Type := Undefined | Mainnet | Stagenet | Development | Bootnode.

#[global] Instance env_eq_dec : EqDecision Environment.
Proof. solve_decision. Defined.

Definition Environment_String (env : Environment) : string :=
  match env with
  | Mainnet => "mainnet"
  | Stagenet => "stagenet"
  | Development => "dev"
  | Bootnode => "bootnode"
  | Undefined => "undefined"
  end.

(** [strings.ToLower] on ASCII text. *)
Definition lowerAscii (c : ascii) : ascii :=
  let n := N_of_ascii c in
  if ((65 <=? n) && (n <=? 90))%N then ascii_of_N (n + 32) else c.

Fixpoint stringsToLower (s : string) : string :=
  match s with
  | EmptyString => EmptyString
  | String c s' => String (lowerAscii c) (stringsToLower s')
  end.

Definition NewEnv (envStr : string) : result Environment :=
  let s := stringsToLower envStr in
  if bool_decide (s = "mainnet") then Ok Mainnet
  else if bool_decide (s = "stagenet") then Ok Stagenet
  else if bool_decide (s = "dev") then Ok Development
  else if bool_decide (s = "bootnode") then Ok Bootnode
  else Err (errorf "unknown environment").

(** ** common/config.go: durations are nanoseconds ([time.Duration]). *)

Definition Second : Z := 1000000000.
Definition Minute : Z := 60 * Second.
Definition Hour : Z := 60 * Minute.

Definition SwapTimeoutFromEnv (env : Environment) : outcome Z :=
  match env with
  | Mainnet | Stagenet => Done Hour
  | Development => Done (2 * Minute)
  | _ => Panicked "invalid environment"
  end.

Definition DefaultMoneroPortFromEnv (env : Environment) : outcome Z :=
  match env with
  | Mainnet => Done 18081
  | Stagenet => Done 38081
  | Development => Done 18081
  | _ => Panicked "invalid environment"
  end.

Definition ChainNameFromEnv (env : Environment) : outcome string :=
  match env with
  | Development => Done "ganache"
  | Stagenet => Done "sepolia"
  | Mainnet => Done "mainnet"
  | Bootnode => Done "bootnode"
  | Undefined => Panicked "invalid environment"
  end.

(** ** common/utils.go *)

(** [Reverse]: the loop fills position [i] with [s[l-i-1]]. *)
Definition Reverse (s : bytes) : bytes :=
  map (fun i => nth (length s - i - 1) s x00) (seq 0 (length s)).

(** ** common/types/status.go *)

Inductive Status : Type :=
| UnknownStatus | ExpectingKeys | KeysExchanged | ETHLocked | XMRLocked | ContractReady
| SweepingXMR | CompletedSuccess | CompletedRefund | CompletedAbort.

#[global] Instance status_eq_dec : EqDecision Status.
Proof. solve_decision. Defined.

Definition unknownString : string := "unknown".

Definition NewStatus (str : string) : Status :=
  if bool_decide (str = "ExpectingKeys") then ExpectingKeys
  else if bool_decide (str = "KeysExchanged") then KeysExchanged
  else if bool_decide (str = "ETHLocked") then ETHLocked
  else if bool_decide (str = "XMRLocked") then XMRLocked
  else if bool_decide (str = "ContractReady") then ContractReady
  else if bool_decide (str = "SweepingXMR") then SweepingXMR
  else if bool_decide (str = "Success") then CompletedSuccess
  else if bool_decide (str = "Refunded") then CompletedRefund
  else if bool_decide (str = "Aborted") then CompletedAbort
  else UnknownStatus.

Definition Status_String (s : Status) : string :=
  match s with
  | ExpectingKeys => "ExpectingKeys"
  | KeysExchanged => "KeysExchanged"
  | ETHLocked => "ETHLocked"
  | XMRLocked => "XMRLocked"
  | ContractReady => "ContractReady"
  | SweepingXMR => "SweepingXMR"
  | CompletedSuccess => "Success"
  | CompletedRefund => "Refunded"
  | CompletedAbort => "Aborted"
  | UnknownStatus => unknownString
  end.

Definition Status_UnmarshalText (data : string) : result Status :=
  let newStatus := NewStatus data in
  if bool_decide (newStatus = UnknownStatus) then Err (errorf "unknown status")
  else Ok newStatus.

Definition Status_MarshalText (s : Status) : result string :=
  let textStr := Status_String s in
  if bool_decide (textStr = unknownString) then Err (errorf "unknown status")
  else Ok textStr.

Definition IsOngoing (s : Status) : outcome bool :=
  match s with
  | ExpectingKeys | KeysExchanged | ETHLocked | XMRLocked | ContractReady | SweepingXMR =>
      Done true
  | UnknownStatus => Panicked "swap should not have UnknownStatus"
  | _ => Done false
  end.

(** ** common/types/hash.go *)

Definition IsHashZero (h : Hash) : bool := bool_decide (h = EmptyHash).

Definition hexDigit (c : ascii) : option N :=
  let n := N_of_ascii c in
  if ((48 <=? n) && (n <=? 57))%N then Some (n - 48)%N
  else if ((97 <=? n) && (n <=? 102))%N then Some (n - 87)%N
  else if ((65 <=? n) && (n <=? 70))%N then Some (n - 55)%N
  else None.

(** [hex.DecodeString] *)
Fixpoint hexDecodeString (s : string) : result bytes :=
  match s with
  | EmptyString => Ok []
  | String a (String b s') =>
      match hexDigit a, hexDigit b with
      | Some x, Some y =>
          match Byte.of_N (16 * x + y), hexDecodeString s' with
          | Some c, Ok r => Ok (c :: r)
          | _, Err e => Err e
          | None, _ => Err (errorf "encoding/hex: invalid byte")
          end
      | _, _ => Err (errorf "encoding/hex: invalid byte")
      end
  | String _ EmptyString => Err (errorf "encoding/hex: odd length hex string")
  end.

(** [hex.EncodeToString] *)
Definition hexChar (n : N) : ascii :=
  if (n <? 10)%N then ascii_of_N (48 + n) else ascii_of_N (87 + n).

Fixpoint hexEncodeToString (b : bytes) : string :=
  match b with
  | [] => EmptyString
  | c :: r =>
      String (hexChar (Byte.to_N c / 16))
        (String (hexChar (Byte.to_N c mod 16)) (hexEncodeToString r))
  end.

(** [strings.TrimPrefix] *)
Fixpoint stringsDrop (n : nat) (s : string) : string :=
  match n, s with
  | S n', String _ s' => stringsDrop n' s'
  | _, _ => s
  end.

Definition stringsTrimPrefix (s p : string) : string :=
  if isPrefix p s then stringsDrop (String.length p) s else s.

Definition HexToHash (s : string) : result Hash :=
  if bool_decide (s = "") then Ok EmptyHash
  else
    match hexDecodeString (stringsTrimPrefix s "0x") with
    | Err e => Err e
    | Ok h => if bool_decide (length h = hashLen) then Ok h else Err (errorf "invalid len hash")
    end.

(** ** common/types/ethasset.go: [type EthAsset ethcommon.Address] *)

Definition EthAssetETH : Address := zeroAddress.
Definition IsETH (asset : Address) : bool := bool_decide (asset = EthAssetETH).
Definition IsToken (asset : Address) : bool := negb (IsETH asset).

(** The third-party functions the types use. *)
Class TypesLib := {
  Version : Type;
  Version_eq_dec : EqDecision Version;
  versionString : Version → string;
  versionGreaterThan : Version → Version → bool;
  CurOfferVersion : Version;
  CurInfoVersion : Version;
  sha3Sum256 : bytes → Hash;
  addressHex : Address → string;
  isHexAddress : string → bool;
  hexToAddress : string → Address
}.
#[export] Existing Instance Version_eq_dec.

(** What the code relies on of go-ethereum's documentation of addresses. *)
Class AddressSpec `{TypesLib} : Prop := {
  addressHex_prefix a : ∃ s, addressHex a = ("0x" +:+ s)%string;
  isHexAddress_hex a : wf_address a → isHexAddress (addressHex a) = true;
  hexToAddress_hex a : wf_address a → hexToAddress (addressHex a) = a
}.

Section asset.
Context `{TypesLib}.

Definition EthAsset_String (asset : Address) : string :=
  if IsETH asset then "ETH" else ("ERC20@" +:+ addressHex asset)%string.

Definition EthAsset_MarshalText (asset : Address) : result string :=
  if IsETH asset then Ok "ETH"%string else Ok (addressHex asset).

Definition EthAsset_UnmarshalText (input : string) : result Address :=
  if bool_decide (input = "ETH") then Ok EthAssetETH
  else
    let inputStr := stringsTrimPrefix input "ERC20@" in
    if isHexAddress inputStr then Ok (hexToAddress inputStr)
    else Err (errorf "invalid asset value").

End asset.

(** ** common/types/offer.go *)

Definition maxOfferValue : Decimal := apdNew 1 3.

Definition errOfferVersionMissing : error :=
  Sentinel "errOfferVersionMissing" "required 'version' field missing in offer".
Definition errOfferIDNotSet : error :=
  Sentinel "errOfferIDNotSet" "'offerID' is not set".
Definition errExchangeRateNil : error :=
  Sentinel "errExchangeRateNil" "'exchangeRate' is not set".
Definition errMinGreaterThanMax : error :=
  Sentinel "errMinGreaterThanMax" "'minAmount' must be less than or equal to 'maxAmount'".

(** Pointer fields may be nil. *)
Record Offer `{TypesLib} : Type := mkOffer {
  oVersion : Version;
  oID : Hash;
  oProvides : string;
  oMinAmount : option Decimal;
  oMaxAmount : option Decimal;
  oExchangeRate : option Decimal;
  oEthAsset : Address;
  oNonce : Z
}.

Record OfferExtra : Type := NewOfferExtra { oeUseRelayer : bool }.

(** Dereferencing a pointer. *)
Definition deref {A} (p : option A) : outcome A :=
  match p with
  | Some a => Done a
  | None => Panicked "nil pointer dereference"
  end.

Section offer.
Context `{Apd} `{TypesLib}.

Definition bytesOfString (s : string) : bytes := String.list_byte_of_string s.

Definition setOfferID (id : Hash) (o : Offer) : Offer :=
  mkOffer _ (oVersion o) id (oProvides o) (oMinAmount o) (oMaxAmount o) (oExchangeRate o)
    (oEthAsset o) (oNonce o).

Definition setOfferMin (v : option Decimal) (o : Offer) : Offer :=
  mkOffer _ (oVersion o) (oID o) (oProvides o) v (oMaxAmount o) (oExchangeRate o)
    (oEthAsset o) (oNonce o).

Definition setOfferMax (v : option Decimal) (o : Offer) : Offer :=
  mkOffer _ (oVersion o) (oID o) (oProvides o) (oMinAmount o) v (oExchangeRate o)
    (oEthAsset o) (oNonce o).

Definition Offer_hash (o : Offer) : outcome Hash :=
  minAmount <~ deref (oMinAmount o) ;;
  maxAmount <~ deref (oMaxAmount o) ;;
  exchangeRate <~ deref (oExchangeRate o) ;;
  let b := bytesOfString (versionString (oVersion o)) ++ bytesOfString (oProvides o) in
  let b := b ++ bytesOfString "," ++ bytesOfString (apdText minAmount) in
  let b := b ++ bytesOfString "," ++ bytesOfString (apdText maxAmount) in
  let b := b ++ bytesOfString "," ++ bytesOfString (apdText exchangeRate) in
  let b := b ++ bytesOfString "," ++ bytesOfString (EthAsset_String (oEthAsset o)) in
  let b := b ++ bytesOfString "," ++ bytesOfString (pretty (oNonce o)) in
  Done (sha3Sum256 b).

Definition Offer_setID (o : Offer) : outcome Offer :=
  if negb (IsHashZero (oID o)) then Panicked "offer ID is already set"
  else h <~ Offer_hash o ;; Done (setOfferID h o).

(** [nonce] is the big-endian integer of the eight random bytes. *)
Definition NewOffer (nonce : Z) (coin : string) (minAmount maxAmount exRate : Decimal)
    (ethAsset : Address) : outcome Offer :=
  Offer_setID
    (mkOffer _ CurOfferVersion EmptyHash coin (Some (apdReduce minAmount))
       (Some (apdReduce maxAmount)) (Some (apdReduce exRate)) ethAsset nonce).

Definition IsSet (o : Offer) : bool :=
  negb (IsHashZero (oID o)) && negb (bool_decide (oProvides o = ""))
  && bool_decide (is_Some (oMinAmount o)) && bool_decide (is_Some (oMaxAmount o))
  && bool_decide (is_Some (oExchangeRate o)).

(** The error, if any, and the offer with its amounts as [ValidatePositive]
    reduced them. *)
Definition Offer_validate (o : Offer) : outcome (option error * Offer) :=
  if IsHashZero (oID o) then Done (Some errOfferIDNotSet, o)
  else
  let '(err, minAmount) := ValidatePositive "minAmount" NumMoneroDecimals (oMinAmount o) in
  let o := setOfferMin minAmount o in
  match err with Some e => Done (Some e, o) | None =>
  let '(err, maxAmount) := ValidatePositive "maxAmount" NumMoneroDecimals (oMaxAmount o) in
  let o := setOfferMax maxAmount o in
  match err with Some e => Done (Some e, o) | None =>
  minAmount <~ deref (oMinAmount o) ;;
  maxAmount <~ deref (oMaxAmount o) ;;
  if 0 <? apdCmp minAmount maxAmount then Done (Some errMinGreaterThanMax, o)
  else
  match oExchangeRate o with
  | None => Done (Some errExchangeRateNil, o)
  | Some exchangeRate =>
      match ToETH exchangeRate minAmount with
      | Err e => Done (Some e, o)
      | Ok minAmtAsETH =>
          relayerFee <~ RelayerFeeETH ;;
          if apdCmp minAmtAsETH relayerFee <=? 0
          then Done (Some (errorf "min amount must be greater than the relayer fee"), o)
          else if 0 <? apdCmp maxAmount maxOfferValue
          then Done (Some (errorf "exceeds max offer amount"), o)
          else
            h <~ Offer_hash o ;;
            if negb (bool_decide (oID o = h))
            then Done (Some (errorf "hash of offer fields does not match offer ID"), o)
            else Done (None, o)
      end
  end end end.

(** encoding/json and the struct validator, applied to the version struct and
    to the plain structure of an offer. *)
Context (jsonUnmarshalVersion : bytes → result (option Version))
        (jsonUnmarshalOffer : bytes → result Offer)
        (validateStruct : Offer → option error)
        (jsonMarshalOffer : Offer → result bytes).

(** [Offer.UnmarshalJSON], with [vjson.UnmarshalStruct] on the plain struct. *)
Definition Offer_UnmarshalJSON (data : bytes) : outcome (result Offer) :=
  match jsonUnmarshalOffer data with
  | Err e => Done (Err e)
  | Ok o =>
      match validateStruct o with
      | Some e => Done (Err e)
      | None =>
          r <~ Offer_validate o ;;
          Done (match r.1 with Some e => Err e | None => Ok r.2 end)
      end
  end.

Definition Offer_MarshalJSON (o : Offer) : outcome (result bytes) :=
  r <~ Offer_validate o ;;
  match r.1 with
  | Some e => Done (Err e)
  | None =>
      match validateStruct r.2 with
      | Some e => Done (Err e)
      | None => Done (jsonMarshalOffer r.2)
      end
  end.

(** [vjson.UnmarshalStruct(jsonData, o)] calls [o.UnmarshalJSON] and validates
    the struct tags again. *)
Definition UnmarshalOffer (jsonData : bytes) : outcome (result Offer) :=
  match jsonUnmarshalVersion jsonData with
  | Err e => Done (Err e)
  | Ok None => Done (Err errOfferVersionMissing)
  | Ok (Some v) =>
      if versionGreaterThan v CurOfferVersion then Done (Err (errorf "offer version not supported"))
      else
        o <~? Offer_UnmarshalJSON jsonData ;;
        match validateStruct o with
        | Some e => Done (Err e)
        | None => Done (Ok o)
        end
  end.

End offer.
