(* ===== verification/TypesProofs.v ===== *)
(** * Theorems on the shared types: offers, statuses, assets, environments *)

From stdpp Require Import base gmap list strings pretty.
From Stdlib Require Import ZArith Strings.Byte Strings.Ascii.
From S2P Require Import Prelude Coins RefApd CoinsProofs Types.

Open Scope Z_scope.
Open Scope go_scope.

(** What the decoder of [coins.ExchangeRate] establishes. *)
Record rateOk (r : Decimal) : Prop := {
  rate_form : dForm r = Finite;
  rate_neg : dNegative r = false;
  rate_pos : 0 < dCoeff r;
  rate_exp : - MaxExchangeRateDecimals ≤ dExponent r
}.

(** The promise of an accepted offer, at the scale of piconeros for amounts,
    10^-6 for the rate and wei for their product. *)
Record offerSound `{Apd} `{TypesLib} (o : Offer) : Prop := {
  sound_amounts : ∃ mn mx r, oMinAmount o = Some mn ∧ oMaxAmount o = Some mx ∧
    oExchangeRate o = Some r ∧
    0 < scaled 12 mn ≤ scaled 12 mx ∧ scaled 12 mx ≤ 1000 * 10 ^ 12 ∧
    RelayerFeeWei < scaled 12 mn * scaled 6 r;
  sound_id : oID o ≠ EmptyHash ∧ Offer_hash o = Done (oID o)
}.

(** Offers as the offer manager keeps them: validated, so that validating again changes
    nothing, with amounts that apd writes exactly. *)
Record offerOnWire `{Apd} `{TypesLib} (o : Offer) : Prop := {
  ow_valid : Offer_validate o = Done (None, o);
  ow_provides : oProvides o = ProvidesXMR ∨ oProvides o = ProvidesETH;
  ow_min d : oMinAmount o = Some d → exactDecimal d;
  ow_max d : oMaxAmount o = Some d → exactDecimal d;
  ow_rate r : oExchangeRate o = Some r → rateOnWire r;
  ow_asset : wf_address (oEthAsset o)
}.

Section offers.
Context `{AS : ApdSpec} `{TL : TypesLib}.

Lemma pow_pos k : 0 ≤ k → 0 < 10 ^ k.
Proof. intros. apply Z.pow_pos_nonneg; lia. Qed.

Lemma scaled_pos k d : dNegative d = false → 0 < dCoeff d → 0 ≤ dExponent d + k →
  0 < scaled k d.
Proof. intros Hn Hc He. unfold scaled. rewrite Hn. pose proof (pow_pos _ He). nia. Qed.

(** The product of two positive decimals at the sum of the scales. *)
Lemma scaled_mul j k x y : dNegative x = false → dNegative y = false →
  0 ≤ dExponent x + j → 0 ≤ dExponent y + k →
  scaled j x * scaled k y = dCoeff x * dCoeff y * 10 ^ (dExponent x + dExponent y + (j + k)).
Proof.
  intros Hx Hy Hj Hk. unfold scaled. rewrite Hx, Hy.
  replace (dExponent x + dExponent y + (j + k))
    with ((dExponent x + j) + (dExponent y + k)) by lia.
  rewrite (Z.pow_add_r 10 (dExponent x + j)) by lia. ring.
Qed.

Lemma cmp_le x y k : dForm x = Finite → dForm y = Finite →
  0 ≤ dExponent x + k → 0 ≤ dExponent y + k →
  (apdCmp x y ≤ 0 ↔ scaled k x ≤ scaled k y).
Proof.
  intros. rewrite (cmp_finite x y k) by auto.
  destruct (Z.compare_spec (scaled k x) (scaled k y)); lia.
Qed.

(** What [ValidatePositive] leaves in an accepted field. *)
Lemma ValidatePositive_field name m v v' : (∀ d, v = Some d → 0 ≤ dCoeff d) →
  ValidatePositive name m v = (None, v') →
  ∃ d, v' = Some d ∧ dForm d = Finite ∧ dNegative d = false ∧ 0 < dCoeff d ∧ - m ≤ dExponent d.
Proof.
  intros Hc Hv. destruct v as [v|]; [|discriminate].
  apply ValidatePositive_inv in Hv as (Hf & Hn & Hz & -> & _ & He).
  specialize (Hc v eq_refl). exists (apdReduce v).
  rewrite reduce_form, reduce_neg. split_and!; auto. apply reduce_pos; [done | lia].
Qed.

Lemma relayerFee_value : ∃ fee, RelayerFeeETH = Done fee ∧ dForm fee = Finite ∧
  - 18 ≤ dExponent fee ∧ scaled 18 fee = RelayerFeeWei.
Proof.
  unfold RelayerFeeETH, AsEther, NumEtherDecimals.
  rewrite decreaseExponent_apd by (cbn; unfold apdMaxExponent, in_uint8; lia). cbn [obind].
  set (x := setExponent _ _). exists (apdReduce x).
  assert (Hf : dForm x = Finite) by done. assert (Hc : 0 < dCoeff x) by done.
  destruct (reduce_finite x Hf Hc) as (He & _). cbn in He.
  split_and!; [done | by rewrite reduce_form | lia |].
  rewrite reduce_scaled by done. done.
Qed.

(** An accepted conversion above the fee is a product above the fee: either the
    product is exact, or it is far too large to be rounded below the fee. *)
Lemma ToETH_above_fee r mn eth fee : rateOk r → dForm mn = Finite → dNegative mn = false →
  0 < dCoeff mn → - 12 ≤ dExponent mn → ToETH r mn = Ok eth →
  RelayerFeeETH = Done fee → 0 < apdCmp eth fee →
  RelayerFeeWei < scaled 12 mn * scaled 6 r.
Proof.
  intros [Hrf Hrn Hrc Hre] Hf Hn Hc He Ht Hfee Hcmp. unfold MaxExchangeRateDecimals in Hre.
  rewrite scaled_mul by (auto; lia). set (e := dExponent mn + dExponent r).
  change (12 + 6) with 18. assert (Hp := pow_pos (e + 18) ltac:(lia)).
  destruct (decide (dCoeff mn * dCoeff r < 10 ^ 100)) as [Hfit|Hbig].
  2:{ unfold RelayerFeeWei. assert (10 ^ 16 < 10 ^ 100) by done. nia. }
  destruct (decide (e ≤ apdMaxExponent - MaxCoinPrecision)) as [Hexp|Hexp].
  2:{ unfold RelayerFeeWei, apdMaxExponent, MaxCoinPrecision in *.
      assert (10 ^ 17 ≤ 10 ^ (e + 18)) by (apply Z.pow_le_mono_r; lia).
      assert (10 ^ 16 < 10 ^ 17) by done. nia. }
  unfold ToETH in Ht. rewrite mul_exact in Ht by
    (auto; unfold apdMaxExponent, fitsDigits, MaxCoinPrecision in *; nia).
  set (p := mkDec _ _ _ _) in Ht.
  assert (Hpf : dForm p = Finite) by done. assert (Hpc : 0 < dCoeff p) by (cbn; nia).
  assert (Hpn : dNegative p = false) by (cbn; by rewrite Hn, Hrn).
  rewrite ExceedsDecimals_false in Ht by (cbn; unfold NumEtherDecimals; auto; lia).
  injection Ht as <-. destruct relayerFee_value as (fee' & Hfee' & Hff & Hfe & Hfv).
  rewrite Hfee in Hfee'. injection Hfee' as <-.
  destruct (reduce_finite p Hpf Hpc) as (Hpe & _). cbn in Hpe.
  rewrite <- Hfv. replace (dCoeff mn * dCoeff r * 10 ^ (e + 18)) with (scaled 18 (apdReduce p)).
  2:{ rewrite reduce_scaled by (auto; cbn; lia). unfold scaled. rewrite Hpn. cbn [dCoeff dExponent p].
      fold e. ring. }
  apply Z.nle_gt. intros Hle. apply cmp_le in Hle; rewrite ?reduce_form; auto; lia.
Qed.

Lemma negb_bool_decide_false P `{Decision P} : negb (bool_decide P) = false → P.
Proof. by case_bool_decide. Qed.

Lemma validate_sound o o' :
  (∀ d, oMinAmount o = Some d → 0 ≤ dCoeff d) → (∀ d, oMaxAmount o = Some d → 0 ≤ dCoeff d) →
  (∀ r, oExchangeRate o = Some r → rateOk r) →
  Offer_validate o = Done (None, o') → offerSound o'.
Proof.
  intros Hcmin Hcmax Hrate Hv. unfold Offer_validate in Hv.
  destruct (IsHashZero (oID o)) eqn:Hz; [discriminate|].
  destruct (ValidatePositive _ _ (oMinAmount o)) as [[?|] vmin] eqn:Hmin; [discriminate|].
  apply ValidatePositive_field in Hmin as (mn & -> & Hnf & Hnn & Hnc & Hne); [|done].
  cbn [oMaxAmount setOfferMin] in Hv.
  destruct (ValidatePositive _ _ (oMaxAmount o)) as [[?|] vmax] eqn:Hmax; [discriminate|].
  apply ValidatePositive_field in Hmax as (mx & -> & Hxf & Hxn & Hxc & Hxe); [|done].
  cbn -[apdCmp Offer_hash RelayerFeeETH] in Hv. unfold NumMoneroDecimals in *.
  destruct (Z.ltb_spec 0 (apdCmp mn mx)); [discriminate|].
  destruct (oExchangeRate o) as [r|] eqn:Hr; [|discriminate].
  destruct (ToETH r mn) as [eth|] eqn:Heth; [|discriminate].
  destruct RelayerFeeETH as [fee| | |] eqn:Hfee; cbn [obind abort] in Hv; try discriminate.
  destruct (Z.leb_spec (apdCmp eth fee) 0); [discriminate|].
  destruct (Z.ltb_spec 0 (apdCmp mx maxOfferValue)) as [|Hcap]; [discriminate|].
  apply (cmp_le mx maxOfferValue 12) in Hcap; [|done || (cbn; lia)..].
  destruct (Offer_hash _) as [h| | |] eqn:Hh; cbn [obind abort] in Hv; try discriminate.
  destruct (negb _) eqn:Hid in Hv; [discriminate|]. injection Hv as <-.
  split; cbn.
  - exists mn, mx, r. split_and!; auto.
    + apply scaled_pos; auto; lia.
    + apply cmp_le; auto; lia.
    + eapply ToETH_above_fee; eauto.
  - apply negb_bool_decide_false in Hid. subst h. split; [|done].
    intros E. unfold IsHashZero in Hz. by rewrite bool_decide_eq_false in Hz.
Qed.

End offers.

(** ** A concrete library for the witnesses

    Versions are triples, addresses are written in plain (not checksummed) hex,
    and the hash keeps the first 31 bytes of its input. *)

Definition refIsHexAddress (s : string) : bool :=
  match hexDecodeString (stringsTrimPrefix s "0x") with
  | Ok b => bool_decide (length b = addressLen)
  | Err _ => false
  end.

Definition refHexToAddress (s : string) : Address :=
  match hexDecodeString (stringsTrimPrefix s "0x") with Ok b => b | Err _ => zeroAddress end.

#[export] Instance refTypes : TypesLib := {|
  Version := nat * nat * nat;
  versionString := fun '(a, b, c) => (pretty a +:+ "." +:+ pretty b +:+ "." +:+ pretty c)%string;
  versionGreaterThan := fun '(a, b, c) '(a', b', c') =>
    (a' <? a)%nat || ((a =? a')%nat && ((b' <? b)%nat || ((b =? b')%nat && (c' <? c)%nat)));
  CurOfferVersion := (1, 0, 0)%nat;
  CurInfoVersion := (0, 3, 0)%nat;
  sha3Sum256 := fun b => x01 :: take 31 (b ++ repeat x00 31);
  addressHex := fun a => ("0x" +:+ hexEncodeToString a)%string;
  isHexAddress := refIsHexAddress;
  hexToAddress := refHexToAddress
|}.

Lemma hexDecode_encode b : hexDecodeString (hexEncodeToString b) = Ok b.
Proof.
  induction b as [|c r IH]; [done|].
  assert (Hc : ∃ x y, hexDigit (hexChar (Byte.to_N c / 16)) = Some x ∧
    hexDigit (hexChar (Byte.to_N c mod 16)) = Some y ∧ Byte.of_N (16 * x + y) = Some c).
  { destruct c; eexists _, _; repeat split; vm_compute; reflexivity. }
  destruct Hc as (x & y & Hx & Hy & Hxy). cbn [hexEncodeToString hexDecodeString].
  by rewrite Hx, Hy, Hxy, IH.
Qed.

Lemma trimPrefix_app p s : stringsTrimPrefix (p +:+ s) p = s.
Proof.
  unfold stringsTrimPrefix. assert (Hp : isPrefix p (p +:+ s) = true).
  { induction p as [|c p IH]; cbn [isPrefix String.append]; [done|].
    change (String c p +:+ s) with (String c (p +:+ s)). cbv beta iota.
    by rewrite bool_decide_true. }
  rewrite Hp. clear Hp. induction p as [|c p IH]; [by destruct s|]. exact IH.
Qed.

#[export] Instance refAddressSpec : @AddressSpec refTypes.
Proof.
  split; cbn; intros a.
  - eauto.
  - intros Ha. unfold refIsHexAddress. change (String "0" (String "x" ?s)) with ("0x" +:+ s).
    rewrite (trimPrefix_app "0x"), hexDecode_encode. by apply bool_decide_eq_true.
  - intros _. unfold refHexToAddress. rewrite (trimPrefix_app "0x"), hexDecode_encode. done.
Qed.

(** ** The properties *)

(** Every offer [UnmarshalOffer] accepts has amounts with
    0 < min <= max <= 1000 XMR, a minimum worth more than the relayer fee (0.01
    ETH) at its rate, and an ID that is the hash of its (reduced) fields; its version is not newer
    than the supported one.  The hypotheses on the decoder are what apd and
    [ExchangeRate.UnmarshalText] ensure of decoded numbers. *)
Theorem UnmarshalOffer_sound `{ApdSpec} `{TypesLib}
    (jv : bytes → result (option Version)) (jo : bytes → result Offer)
    (vs : Offer → option error) (data : bytes) (o : Offer) :
  (∀ o', jo data = Ok o' →
     (∀ d, oMinAmount o' = Some d → 0 ≤ dCoeff d) ∧ (∀ d, oMaxAmount o' = Some d → 0 ≤ dCoeff d) ∧
     (∀ r, oExchangeRate o' = Some r → rateOk r)) →
  UnmarshalOffer jv jo vs data = Done (Ok o) →
  offerSound o ∧ ∃ v, jv data = Ok (Some v) ∧ versionGreaterThan v CurOfferVersion = false.
Proof.
  intros Hdec Hu. unfold UnmarshalOffer, Offer_UnmarshalJSON in Hu.
  destruct (jv data) as [[v|]|] eqn:Hv; try discriminate.
  destruct (versionGreaterThan v CurOfferVersion) eqn:Hg; [discriminate|].
  destruct (jo data) as [o0|]; [|discriminate].
  destruct (Hdec o0 eq_refl) as (Hmn & Hmx & Hr).
  destruct (vs o0); [discriminate|].
  destruct (Offer_validate o0) as [[[e|] o1]| | |] eqn:Hval; try discriminate.
  cbn in Hu. destruct (vs o1); [discriminate|]. injection Hu as <-.
  split; [by eapply validate_sound | eauto].
Qed.

(** The concrete offer of the witnesses: 0.1 to 2.5 XMR at a rate of 0.2. *)
Definition sampleOffer : Offer :=
  match NewOffer 7 ProvidesXMR (apdNew 10 (-2)) (apdNew 25 (-1)) (apdNew 2 (-1)) EthAssetETH with
  | Done o => o
  | _ => mkOffer _ CurOfferVersion EmptyHash "" None None None EthAssetETH 0
  end.

Lemma UnmarshalOffer_sound_witness :
  offerSound sampleOffer ∧
  ∃ v, Ok (Some CurOfferVersion) = Ok (Some v) ∧ versionGreaterThan v CurOfferVersion = false.
Proof.
  apply (UnmarshalOffer_sound (fun _ => Ok (Some CurOfferVersion)) (fun _ => Ok sampleOffer)
    (fun _ => None) []).
  - intros o' [= <-]. split_and!; cbn; intros ? [= <-]; [done.. | by split].
  - reflexivity.
Defined.

(** [Reduce] does nothing to a decimal it already reduced. *)
Lemma reduce_idem `{ApdSpec} d : dForm d = Finite → 0 < dCoeff d →
  apdReduce (apdReduce d) = apdReduce d.
Proof.
  intros Hf Hc. destruct (reduce_finite d Hf Hc) as (_ & _ & Hm).
  assert (Hf' : dForm (apdReduce d) = Finite) by (by rewrite reduce_form).
  destruct (reduce_finite _ Hf' (reduce_pos d Hf Hc)) as (He & Hv & _).
  pose proof (reduce_form (apdReduce d)). pose proof (reduce_neg (apdReduce d)).
  set (x := apdReduce d) in *. set (y := apdReduce x) in *.
  assert (Heq : dExponent y = dExponent x).
  { destruct (decide (dExponent y = dExponent x)) as [|Hne]; [done|]. exfalso. apply Hm.
    rewrite Hv. replace (dExponent y - dExponent x) with (1 + (dExponent y - dExponent x - 1)) by lia.
    rewrite Z.pow_add_r by lia. change (10 ^ 1) with 10.
    replace (dCoeff y * (10 * 10 ^ (dExponent y - dExponent x - 1)))
      with (dCoeff y * 10 ^ (dExponent y - dExponent x - 1) * 10) by ring.
    by apply Z_mod_mult. }
  rewrite Heq, Z.sub_diag, Z.mul_1_r in Hv. destruct x, y; cbn in *; congruence.
Qed.

(** Validation accepts a reduced field when it accepts the field, and leaves it
    as it is. *)
Lemma ValidatePositive_reduced `{ApdSpec} name m d : 0 < dCoeff d →
  (ValidatePositive name m (Some d)).1 = None →
  ValidatePositive name m (Some (apdReduce d)) = (None, Some (apdReduce d)).
Proof.
  intros Hc Hv. destruct (ValidatePositive name m (Some d)) as [e v'] eqn:E.
  cbn in Hv. subst e. apply ValidatePositive_inv in E as (Hf & Hn & Hz & -> & Hd & He).
  unfold ValidatePositive. rewrite reduce_idem, reduce_form, reduce_neg, Hf, Hn by done.
  rewrite isZero_finite by (by rewrite reduce_form).
  pose proof (reduce_pos d Hf Hc). rewrite bool_decide_false by lia.
  rewrite bool_decide_true by done. cbn [negb].
  destruct (Z.ltb_spec MaxCoinPrecision (apdNumDigits (apdReduce d))); [lia|].
  by destruct (Z.ltb_spec (dExponent (apdReduce d)) (- m)); [lia|].
Qed.

(** An offer made by [NewOffer] from amounts within the limits carries the
    hash of its reduced fields, so that [validate] accepts it and leaves it
    unchanged (unless the hash happens to be zero). *)
Theorem NewOffer_validates `{ApdSpec} `{TypesLib} (nonce : Z) (coin : string)
    (mn mx r eth : Decimal) (asset : Address) :
  0 < dCoeff mn → (ValidatePositive "minAmount" NumMoneroDecimals (Some mn)).1 = None →
  0 < dCoeff mx → (ValidatePositive "maxAmount" NumMoneroDecimals (Some mx)).1 = None →
  apdCmp (apdReduce mn) (apdReduce mx) ≤ 0 → apdCmp (apdReduce mx) maxOfferValue ≤ 0 →
  ToETH (apdReduce r) (apdReduce mn) = Ok eth →
  (∀ fee, RelayerFeeETH = Done fee → 0 < apdCmp eth fee) →
  ∃ o, NewOffer nonce coin mn mx r asset = Done o ∧ Offer_hash o = Done (oID o) ∧
    (oID o ≠ EmptyHash → Offer_validate o = Done (None, o)).
Proof.
  intros Hnc Hnv Hxc Hxv Hle Hcap Heth Hfee. unfold NewOffer, Offer_setID. cbn [oID].
  unfold IsHashZero at 1. rewrite bool_decide_true by done. cbn [negb].
  set (o0 := mkOffer _ _ _ _ _ _ _ _ _). destruct (Offer_hash o0) as [h| | |] eqn:Hh;
    [|discriminate Hh..]. cbn [obind]. exists (setOfferID h o0). split; [done|].
  assert (Hh' : Offer_hash (setOfferID h o0) = Done h) by exact Hh.
  split; [exact Hh'|]. cbn [oID setOfferID o0]. intros Hid. unfold Offer_validate, IsHashZero.
  unfold setOfferID, o0.
  cbn [oVersion oProvides oID oMinAmount oMaxAmount oExchangeRate oEthAsset oNonce].
  rewrite bool_decide_false by done.
  rewrite ValidatePositive_reduced by done. cbn [setOfferMin oMaxAmount].
  rewrite (ValidatePositive_reduced "maxAmount") by done.
  cbn [setOfferMin setOfferMax oMinAmount oMaxAmount oExchangeRate deref obind oID].
  destruct (Z.ltb_spec 0 (apdCmp (apdReduce mn) (apdReduce mx))); [lia|]. rewrite Heth.
  destruct relayerFee_value as (fee & Hf & _). specialize (Hfee fee Hf). rewrite Hf. cbn [obind].
  destruct (Z.leb_spec (apdCmp eth fee) 0); [lia|].
  destruct (Z.ltb_spec 0 (apdCmp (apdReduce mx) maxOfferValue)); [lia|].
  unfold setOfferMax, setOfferMin. unfold setOfferID, o0 in Hh'.
  cbn [oVersion oID oProvides oMinAmount oMaxAmount oExchangeRate oEthAsset oNonce].
  cbn [oVersion oProvides oMinAmount oMaxAmount oExchangeRate oEthAsset oNonce] in Hh'. rewrite Hh'. cbn [obind].
  by rewrite bool_decide_true by done.
Qed.

Lemma NewOffer_validates_witness :
  ∃ o, NewOffer 7 ProvidesXMR (apdNew 10 (-2)) (apdNew 25 (-1)) (apdNew 2 (-1)) EthAssetETH = Done o ∧
    Offer_hash o = Done (oID o) ∧ (oID o ≠ EmptyHash → Offer_validate o = Done (None, o)).
Proof.
  apply (NewOffer_validates 7 ProvidesXMR (apdNew 10 (-2)) (apdNew 25 (-1)) (apdNew 2 (-1))
    (apdNew 2 (-2)) EthAssetETH); try (by vm_compute).
  intros fee Hf. vm_compute in Hf. injection Hf as <-. by vm_compute.
Defined.

(** A status survives [MarshalText] and [UnmarshalText]: the text of a
    status decodes to that status and to no other, and the only status that has
    no text is [UnknownStatus]. *)
Theorem Status_text_roundtrip (s : Status) (t : string) :
  (Status_MarshalText s = Ok t ↔ Status_UnmarshalText t = Ok s) ∧
  (isOk (Status_MarshalText s) = false ↔ s = UnknownStatus).
Proof.
  split.
  - split.
    + destruct s; vm_compute; intros [= <-]; done.
    + unfold Status_UnmarshalText. case_bool_decide; [discriminate|]. intros [= <-].
      revert H. unfold NewStatus. repeat case_bool_decide; subst; done.
  - by destruct s.
Qed.

(** An asset survives [MarshalText] and [UnmarshalText], and also decodes
    from its [String] form. *)
Theorem EthAsset_text_roundtrip `{AddressSpec} (a : Address) :
  wf_address a →
  (∃ t, EthAsset_MarshalText a = Ok t ∧ EthAsset_UnmarshalText t = Ok a) ∧
  EthAsset_UnmarshalText (EthAsset_String a) = Ok a.
Proof.
  intros Ha. unfold EthAsset_MarshalText, EthAsset_String, EthAsset_UnmarshalText, IsETH.
  destruct (addressHex_prefix a) as [s Hs]. case_bool_decide as HE.
  - subst. split; [eexists; split; [done|]|]; by rewrite bool_decide_true.
  - split.
    + eexists; split; [done|]. rewrite bool_decide_false by (by rewrite Hs).
      assert (stringsTrimPrefix (addressHex a) "ERC20@" = addressHex a) as -> by (by rewrite Hs).
      by rewrite isHexAddress_hex, hexToAddress_hex.
    + rewrite bool_decide_false by done. rewrite (trimPrefix_app "ERC20@").
      by rewrite isHexAddress_hex, hexToAddress_hex.
Qed.

Lemma EthAsset_text_roundtrip_witness :
  (∃ t, EthAsset_MarshalText (repeat xab 20) = Ok t ∧
    EthAsset_UnmarshalText t = Ok (repeat xab 20)) ∧
  EthAsset_UnmarshalText (EthAsset_String (repeat xab 20)) = Ok (repeat xab 20).
Proof. apply (EthAsset_text_roundtrip (repeat xab 20)). done. Defined.

(** [HexToHash] decodes the hex form of a hash, with or without its prefix,
    and only ever returns 32-byte values. *)
Theorem HexToHash_roundtrip (h : Hash) (s : string) :
  (wf_hash h → HexToHash (hexEncodeToString h) = Ok h ∧
               HexToHash ("0x" +:+ hexEncodeToString h) = Ok h) ∧
  (HexToHash s = Ok h → wf_hash h).
Proof.
  unfold HexToHash, wf_hash. split.
  - intros Hh. assert (Ht : stringsTrimPrefix (hexEncodeToString h) "0x" = hexEncodeToString h).
    { destruct h as [|c r]; [done|]. destruct c; reflexivity. }
    split.
    + rewrite bool_decide_false by (by destruct h).
      by rewrite Ht, hexDecode_encode, bool_decide_true.
    + rewrite bool_decide_false by done.
      by rewrite (trimPrefix_app "0x"), hexDecode_encode, bool_decide_true.
  - case_bool_decide; [by intros [= <-]|]. destruct (hexDecodeString _); [|discriminate].
    case_bool_decide; [by intros [= <-]|discriminate].
Qed.

(** The loop of [Reverse] computes the reversed list. *)
Lemma Reverse_reverse s : Reverse s = reverse s.
Proof.
  apply list_eq. intros i. unfold Reverse. destruct (decide (i < length s)%nat) as [Hi|Hi].
  - change (@map nat byte) with (@fmap list _ nat byte). rewrite list_lookup_fmap.
    rewrite lookup_seq_lt by done. rewrite reverse_lookup by done. cbn.
    replace (length s - i - 1)%nat with (length s - S i)%nat by lia.
    by destruct (nth_lookup_or_length s (length s - S i) x00); [|lia].
  - rewrite !lookup_ge_None_2; [done | rewrite length_reverse; lia |].
    rewrite length_map, length_seq. lia.
Qed.
