(* ===== verification/Bytes.v ===== *)
(** * Integers as bytes: little endian, big endian, [big.Int] *)

From stdpp Require Import base list.
From Stdlib Require Import ZArith Strings.Byte.
From S2P Require Import Prelude Types TypesProofs.

Open Scope Z_scope.

Definition byteZ (b : byte) : Z := Z.of_N (Byte.to_N b).

Definition zByte (z : Z) : byte := default x00 (Byte.of_N (Z.to_N (z mod 256))).

(** Little-endian value of a byte string, and its [n]-byte encoding. *)
Fixpoint leDecode (b : bytes) : Z :=
  match b with
  | [] => 0
  | c :: r => byteZ c + 256 * leDecode r
  end.

Fixpoint leEncode (n : nat) (z : Z) : bytes :=
  match n with
  | O => []
  | S n' => zByte z :: leEncode n' (z / 256)
  end.

(** [new(big.Int).SetBytes(b)]: big endian. *)
Definition bigSetBytes (b : bytes) : Z := leDecode (reverse b).

(** The digits of [big.Int.Bytes] from the lowest, without leading zeros; the
    fuel is the bit length. *)
Fixpoint leMinimal (fuel : nat) (z : Z) : bytes :=
  match fuel with
  | O => []
  | S f => if z <=? 0 then [] else zByte z :: leMinimal f (z / 256)
  end.

Definition bigBytes (z : Z) : bytes := reverse (leMinimal (S (Z.to_nat (Z.log2 z))) z).

(** Go's [copy] into a fresh array of [n] bytes. *)
Definition goCopy (n : nat) (src : bytes) : bytes :=
  take n src ++ repeat x00 (n - length src).

Lemma byteZ_range b : 0 ≤ byteZ b < 256.
Proof.
  unfold byteZ. pose proof (Byte.to_N_bounded b). lia.
Qed.

Lemma zByte_byteZ b : zByte (byteZ b) = b.
Proof. destruct b; reflexivity. Qed.

Lemma byteZ_zByte z : byteZ (zByte z) = z mod 256.
Proof.
  unfold zByte, byteZ. pose proof (Z.mod_pos_bound z 256 eq_refl) as Hb.
  destruct (Byte.of_N (Z.to_N (z mod 256))) as [b|] eqn:E; cbn.
  - apply Byte.to_of_N in E. rewrite E. lia.
  - apply Byte.of_N_None_iff in E. lia.
Qed.

Lemma zByte_mod z : zByte (z mod 256) = zByte z.
Proof. unfold zByte. by rewrite Z.mod_mod. Qed.

Lemma leEncode_length n z : length (leEncode n z) = n.
Proof. revert z. induction n; intros z; cbn; auto. Qed.

Lemma leDecode_range b : 0 ≤ leDecode b < 256 ^ Z.of_nat (length b).
Proof.
  induction b as [|c r IH]; [done|]. cbn [leDecode length].
  rewrite Nat2Z.inj_succ, Z.pow_succ_r by lia. pose proof (byteZ_range c). lia.
Qed.

Lemma leDecode_encode n z : 0 ≤ z < 256 ^ Z.of_nat n → leDecode (leEncode n z) = z.
Proof.
  revert z. induction n as [|n IH]; intros z Hz; cbn [leEncode leDecode].
  - cbn in Hz. lia.
  - rewrite Nat2Z.inj_succ, Z.pow_succ_r in Hz by lia. rewrite byteZ_zByte, IH.
    + pose proof (Z.div_mod z 256). lia.
    + split; [apply Z.div_pos; lia | apply Z.div_lt_upper_bound; lia].
Qed.

Lemma leEncode_decode b : leEncode (length b) (leDecode b) = b.
Proof.
  induction b as [|c r IH]; [done|]. cbn [leDecode length leEncode].
  pose proof (byteZ_range c).
  replace (byteZ c + 256 * leDecode r) with (byteZ c + leDecode r * 256) by ring.
  rewrite Z.div_add, Z.div_small, Z.add_0_l, IH by lia.
  rewrite <- zByte_mod, Z_mod_plus_full, zByte_mod, zByte_byteZ. done.
Qed.

Lemma leDecode_inj b b' : length b = length b' → leDecode b = leDecode b' → b = b'.
Proof. intros Hl Hd. rewrite <- (leEncode_decode b), <- (leEncode_decode b'), Hl, Hd. done. Qed.

Lemma leEncode_zero n : leEncode n 0 = repeat x00 n.
Proof. induction n; cbn; [done|]. by f_equal. Qed.

(** Padding the minimal digits gives the fixed-width encoding. *)
Lemma leMinimal_pad fuel n z : 0 ≤ z < 256 ^ Z.of_nat n → z < 2 ^ Z.of_nat fuel →
  goCopy n (leMinimal fuel z) = leEncode n z.
Proof.
  unfold goCopy. revert n z. induction fuel as [|f IH]; intros n z Hz Hf.
  - cbn in Hf. assert (z = 0) as -> by lia. cbn [leMinimal length]. by rewrite take_nil, Nat.sub_0_r, leEncode_zero.
  - cbn [leMinimal]. destruct (Z.leb_spec z 0).
    + assert (z = 0) as -> by lia. cbn [length]. by rewrite take_nil, Nat.sub_0_r, leEncode_zero.
    + destruct n as [|n]; [cbn in Hz; lia|]. cbn [leEncode length take].
      rewrite Nat2Z.inj_succ, Z.pow_succ_r in Hz, Hf by lia.
      cbn [app]. f_equal. rewrite <- IH; [done | |].
      * split; [apply Z.div_pos; lia | apply Z.div_lt_upper_bound; lia].
      * apply Z.div_lt_upper_bound; lia.
Qed.

Lemma bigBytes_pad n z : 0 ≤ z < 256 ^ Z.of_nat n →
  goCopy n (Reverse (bigBytes z)) = leEncode n z.
Proof.
  intros Hz. unfold bigBytes. rewrite Reverse_reverse, reverse_involutive.
  apply leMinimal_pad; [done|]. rewrite Nat2Z.inj_succ.
  destruct (decide (z = 0)) as [->|Hne]; [done|].
  rewrite Z2Nat.id by apply Z.log2_nonneg. apply Z.log2_spec. lia.
Qed.

Lemma Reverse_involutive s : Reverse (Reverse s) = s.
Proof. by rewrite !Reverse_reverse, reverse_involutive. Qed.

Lemma length_Reverse s : length (Reverse s) = length s.
Proof. by rewrite Reverse_reverse, length_reverse. Qed.

Lemma goCopy_id n s : length s = n → goCopy n s = s.
Proof.
  intros Hn. unfold goCopy. rewrite Hn, Nat.sub_diag, firstn_all2 by lia. apply app_nil_r.
Qed.

Lemma goCopy_length n s : length (goCopy n s) = n.
Proof. unfold goCopy. rewrite length_app, length_take, repeat_length. lia. Qed.
