(* ===== verification/Swap.v ===== *)
(** * The swap manager (package protocol/swap)

    [Info] objects are shared by pointer between a swap's goroutine, the
    manager's maps and the database writer, so they live in a heap of the
    manager's state and the maps hold locations.  Status channels are buffered
    channels of the same heap.  The database and the clock are the class
    [SwapEnv]: what they promise is the class [SwapEnvSpec], discharged by the
    database of Db.v. *)

From stdpp Require Import base gmap list strings.
From Stdlib Require Import ZArith.
From S2P Require Import Prelude Coins Types.

Open Scope Z_scope.
Open Scope go_scope.

Definition errInfoVersionMissing : error :=
  Sentinel "errInfoVersionMissing" "required 'version' field missing in swap Info".
Definition errNoSwapWithOfferID : error :=
  Sentinel "errNoSwapWithOfferID" "unable to find swap with given offer ID".

(** [chaindb.ErrKeyNotFound] *)
Definition ErrKeyNotFound : error := Sentinel "chaindb.ErrKeyNotFound" "Key not found".

(** ** types.go: swap information

    Times are nanoseconds since the epoch. *)
Record Info `{TypesLib} : Type := mkInfo {
  iVersion : Version;
  iPeerID : string;
  iOfferID : Hash;
  iProvides : string;
  iProvidedAmount : Decimal;
  iExpectedAmount : Decimal;
  iRelayerFee : option Decimal;
  iExchangeRate : option Decimal;
  iEthAsset : Address;
  iStatus : Status;
  iLastStatusUpdateTime : Z;
  iMoneroStartHeight : Z;
  iStartTime : Z;
  iEndTime : option Z;
  iTimeout1 : option Z;
  iTimeout2 : option Z
}.

#[global] Instance info_eq_dec `{TypesLib} : EqDecision Info.
Proof. solve_decision. Defined.

Section info.
Context `{TypesLib}.

Definition NewInfo (now1 now2 : Z) (peerID : string) (offerID : Hash) (provides : string)
    (providedAmount expectedAmount : Decimal) (exchangeRate : option Decimal)
    (ethAsset : Address) (status : Status) (moneroStartHeight : Z) : Info :=
  mkInfo _ CurInfoVersion peerID offerID provides providedAmount expectedAmount None exchangeRate
    ethAsset status now1 moneroStartHeight now2 None None None.

Definition SetStatus (now : Z) (s : Status) (i : Info) : Info :=
  mkInfo _ (iVersion i) (iPeerID i) (iOfferID i) (iProvides i) (iProvidedAmount i)
    (iExpectedAmount i) (iRelayerFee i) (iExchangeRate i) (iEthAsset i) s now
    (iMoneroStartHeight i) (iStartTime i) (iEndTime i) (iTimeout1 i) (iTimeout2 i).

(** The plain assignment [i.Status = s], which leaves the update time alone. *)
Definition assignStatus (s : Status) (i : Info) : Info :=
  SetStatus (iLastStatusUpdateTime i) s i.

Definition SetTimeouts (t1 t2 : option Z) (i : Info) : Info :=
  mkInfo _ (iVersion i) (iPeerID i) (iOfferID i) (iProvides i) (iProvidedAmount i)
    (iExpectedAmount i) (iRelayerFee i) (iExchangeRate i) (iEthAsset i) (iStatus i)
    (iLastStatusUpdateTime i) (iMoneroStartHeight i) (iStartTime i) (iEndTime i) t1 t2.

Definition MarkSwapComplete (now : Z) (i : Info) : Info :=
  mkInfo _ (iVersion i) (iPeerID i) (iOfferID i) (iProvides i) (iProvidedAmount i)
    (iExpectedAmount i) (iRelayerFee i) (iExchangeRate i) (iEthAsset i) (iStatus i)
    (iLastStatusUpdateTime i) (iMoneroStartHeight i) (iStartTime i) (Some now)
    (iTimeout1 i) (iTimeout2 i).

Definition SetRelayerFee (fee : option Decimal) (i : Info) : Info :=
  mkInfo _ (iVersion i) (iPeerID i) (iOfferID i) (iProvides i) (iProvidedAmount i)
    (iExpectedAmount i) fee (iExchangeRate i) (iEthAsset i) (iStatus i)
    (iLastStatusUpdateTime i) (iMoneroStartHeight i) (iStartTime i) (iEndTime i)
    (iTimeout1 i) (iTimeout2 i).

Definition IsTaker (i : Info) : bool := bool_decide (iProvides i = ProvidesETH).

End info.

(** encoding/json and the struct validator on [Info]. *)
Class InfoJson `{TypesLib} := {
  infoMarshal : Info → result bytes;
  infoVersionOf : bytes → result (option Version);
  infoUnmarshalStruct : bytes → result Info;
  infoValidateStruct : Info → option error
}.

Section infojson.
Context `{InfoJson}.

(** [Info.UnmarshalJSON]: the version is checked before the whole is decoded
    and validated. *)
Definition Info_UnmarshalJSON (jsonData : bytes) : result Info :=
  match infoVersionOf jsonData with
  | Err e => Err e
  | Ok None => Err errInfoVersionMissing
  | Ok (Some v) =>
      if versionGreaterThan v CurInfoVersion then Err (errorf "info version not supported")
      else
        match infoUnmarshalStruct jsonData with
        | Err e => Err e
        | Ok i => match infoValidateStruct i with Some e => Err e | None => Ok i end
        end
  end.

(** [json.Unmarshal(jsonData, info)] calls [info.UnmarshalJSON]. *)
Definition UnmarshalInfo (jsonData : bytes) : result Info := Info_UnmarshalJSON jsonData.

Definition DeepCopy (i : Info) : result Info :=
  match infoMarshal i with
  | Err e => Err e
  | Ok jsonData => Info_UnmarshalJSON jsonData
  end.

End infojson.

(** ** The state of the manager *)

Record manager `{TypesLib} : Type := mkManager {
  infos : gmap nat Info;
  nextInfo : nat;
  ongoing : gmap Hash nat;
  past : gmap Hash nat;
  statusChannels : gmap Hash nat;
  chans : gmap nat (list Status);
  nextChan : nat
}.

Section setters.
Context `{TypesLib}.

Definition setInfos (x : gmap nat Info) (m : manager) : manager :=
  mkManager _ x (nextInfo m) (ongoing m) (past m) (statusChannels m) (chans m) (nextChan m).
Definition setNextInfo (x : nat) (m : manager) : manager :=
  mkManager _ (infos m) x (ongoing m) (past m) (statusChannels m) (chans m) (nextChan m).
Definition setOngoing (x : gmap Hash nat) (m : manager) : manager :=
  mkManager _ (infos m) (nextInfo m) x (past m) (statusChannels m) (chans m) (nextChan m).
Definition setPast (x : gmap Hash nat) (m : manager) : manager :=
  mkManager _ (infos m) (nextInfo m) (ongoing m) x (statusChannels m) (chans m) (nextChan m).
Definition setStatusChannels (x : gmap Hash nat) (m : manager) : manager :=
  mkManager _ (infos m) (nextInfo m) (ongoing m) (past m) x (chans m) (nextChan m).
Definition setChans (x : gmap nat (list Status)) (m : manager) : manager :=
  mkManager _ (infos m) (nextInfo m) (ongoing m) (past m) (statusChannels m) x (nextChan m).
Definition setNextChan (x : nat) (m : manager) : manager :=
  mkManager _ (infos m) (nextInfo m) (ongoing m) (past m) (statusChannels m) (chans m) x.

(** A fresh location for an [Info] object. *)
Definition allocInfo (i : Info) (m : manager) : nat * manager :=
  (nextInfo m, setNextInfo (S (nextInfo m)) (setInfos (<[nextInfo m := i]> (infos m)) m)).

End setters.

(** What the manager calls: its own state inside the program's state, the
    database interface of database.go, and the clock. *)
Class SwapEnv `{TypesLib} (S : Type) := {
  getManager : S → manager;
  putManager : manager → S → S;
  dbPutSwap : Info → prog S (result unit);
  dbGetSwap : Hash → prog S (result Info);
  dbGetAllSwaps : prog S (result (list Info));
  timeNow : prog S Z
}.

Section operations.
Context `{IJ : InfoJson} {S : Type} `{!SwapEnv S}.

Definition onManager {A} (f : manager → A * manager) : prog S A :=
  fun s => let '(a, m) := f (getManager s) in (Done a, putManager m s).

Definition withManager (f : manager → manager) : prog S unit :=
  modify (fun s => putManager (f (getManager s)) s).

Definition newInfoObject (i : Info) : prog S nat := onManager (allocInfo i).

(** Reading and writing through an [*Info]. *)
Definition readInfo (l : nat) : prog S Info :=
  fun s => match infos (getManager s) !! l with
           | Some i => (Done i, s)
           | None => (Panicked "nil pointer dereference", s)
           end.

Definition updateInfo (f : Info → Info) (l : nat) : prog S unit :=
  i <- readInfo l ;;
  withManager (fun m => setInfos (<[l := f i]> (infos m)) m).

Definition Info_SetStatus (l : nat) (st : Status) : prog S unit :=
  now <- timeNow ;; updateInfo (SetStatus now st) l.

(** *** status_manager.go *)

Definition statusChSize : nat := 6.

Definition newStatusChannel : prog S nat :=
  onManager (fun m =>
    (nextChan m, setNextChan (Datatypes.S (nextChan m)) (setChans (<[nextChan m := []]> (chans m)) m))).

Definition getStatusChan (offerID : Hash) : prog S nat :=
  found <- gets (fun s => statusChannels (getManager s) !! offerID) ;;
  match found with
  | Some c => done c
  | None =>
      c <- newStatusChannel ;;
      withManager (fun m => setStatusChannels (<[offerID := c]> (statusChannels m)) m) ;;;
      done c
  end.

Definition GetStatusChan (offerID : Hash) : prog S nat := getStatusChan offerID.

Definition DeleteStatusChan (offerID : Hash) : prog S unit :=
  withManager (fun m => setStatusChannels (delete offerID (statusChannels m)) m).

(** [ch <- status] on a buffered channel: blocks while the buffer is full. *)
Definition sendStatus (c : nat) (status : Status) : prog S unit :=
  buf <- gets (fun s => default [] (chans (getManager s) !! c)) ;;
  if (length buf <? statusChSize)%nat
  then withManager (fun m => setChans (<[c := buf ++ [status]]> (chans m)) m)
  else block.

(** [<-ch], by a subscriber. *)
Definition recvStatus (c : nat) : prog S Status :=
  buf <- gets (fun s => default [] (chans (getManager s) !! c)) ;;
  match buf with
  | status :: rest =>
      withManager (fun m => setChans (<[c := rest]> (chans m)) m) ;;; done status
  | [] => block
  end.

Definition PushNewStatus (offerID : Hash) (status : Status) : prog S unit :=
  ch <- getStatusChan offerID ;;
  sendStatus ch status ;;;
  isOngoing <- pure (IsOngoing status) ;;
  if negb isOngoing then DeleteStatusChan offerID else done tt.

(** *** swap_manager.go *)

(** The loop of [NewManager] over the stored swaps, each a fresh object. *)
Fixpoint loadOngoing (stored : list Info) (m : manager) : outcome manager :=
  match stored with
  | [] => Done m
  | i :: rest =>
      isOngoing <~ IsOngoing (iStatus i) ;;
      if negb isOngoing then loadOngoing rest m
      else
        let '(l, m') := allocInfo i m in
        loadOngoing rest (setOngoing (<[iOfferID i := l]> (ongoing m')) m')
  end.

Definition emptyManager : manager := mkManager _ ∅ 0 ∅ ∅ ∅ ∅ 0.

Definition NewManager : prog S (result unit) :=
  stored <-? dbGetAllSwaps ;;
  m <- pure (loadOngoing stored emptyManager) ;;
  withManager (fun _ => m) ;;;
  done (Ok tt).

Definition AddSwap (l : nat) : prog S (result unit) :=
  info <- readInfo l ;;
  isOngoing <- pure (IsOngoing (iStatus info)) ;;
  (if isOngoing : bool
   then withManager (fun m => setOngoing (<[iOfferID info := l]> (ongoing m)) m)
   else withManager (fun m => setPast (<[iOfferID info := l]> (past m)) m)) ;;;
  dbPutSwap info.

Definition WriteSwapToDB (l : nat) : prog S (result unit) :=
  info <- readInfo l ;; dbPutSwap info.

Fixpoint pastStored (stored : list Info) (ids : gset Hash) : outcome (gset Hash) :=
  match stored with
  | [] => Done ids
  | i :: rest =>
      isOngoing <~ IsOngoing (iStatus i) ;;
      pastStored rest (if isOngoing : bool then ids else {[iOfferID i]} ∪ ids)
  end.

(** The order of the result is that of a Go map, any order. *)
Definition GetPastIDs : prog S (result (list Hash)) :=
  ids <- gets (fun s => dom (past (getManager s)) : gset Hash) ;;
  stored <-? dbGetAllSwaps ;;
  all <- pure (pastStored stored ids) ;;
  done (Ok (elements all)).

Definition getSwapFromDB (id : Hash) : prog S (result Info) :=
  mapErr (fun e => if errorsIs ErrKeyNotFound e then errNoSwapWithOfferID else e) (dbGetSwap id).

(** The swap found in the database is a fresh object, cached under its own ID. *)
Definition GetPastSwap (id : Hash) : prog S (result nat) :=
  found <- gets (fun s => past (getManager s) !! id) ;;
  match found with
  | Some l => done (Ok l)
  | None =>
      info <-? getSwapFromDB id ;;
      l <- newInfoObject info ;;
      withManager (fun m => setPast (<[iOfferID info := l]> (past m)) m) ;;;
      done (Ok l)
  end.

Definition GetOngoingSwap (offerID : Hash) : prog S (result nat) :=
  found <- gets (fun s => ongoing (getManager s) !! offerID) ;;
  done (match found with Some l => Ok l | None => Err errNoSwapWithOfferID end).

Definition GetOngoingSwapSnapshot (offerID : Hash) : prog S (result nat) :=
  l <-? GetOngoingSwap offerID ;;
  info <- readInfo l ;;
  match DeepCopy info with
  | Err e => done (Err e)
  | Ok sc => l' <- newInfoObject sc ;; done (Ok l')
  end.

(** [&s.OfferID] for each ongoing swap, read where the result is used. *)
Definition GetOngoingSwapOfferIDs : prog S (result (list nat)) :=
  ls <- gets (fun s => snd <$> map_to_list (ongoing (getManager s))) ;;
  done (Ok ls).

Fixpoint snapshotAll (ls : list nat) : prog S (result (list nat)) :=
  match ls with
  | [] => done (Ok [])
  | l :: rest =>
      info <- readInfo l ;;
      match DeepCopy info with
      | Err e => done (Err e)
      | Ok sc =>
          l' <- newInfoObject sc ;;
          swaps <-? snapshotAll rest ;;
          done (Ok (l' :: swaps))
      end
  end.

Definition GetOngoingSwapsSnapshot : prog S (result (list nat)) :=
  ls <- gets (fun s => snd <$> map_to_list (ongoing (getManager s))) ;;
  snapshotAll ls.

Definition CompleteOngoingSwap (l : nat) : prog S (result unit) :=
  info <- readInfo l ;;
  has <- gets (fun s => ongoing (getManager s) !! iOfferID info) ;;
  match has with
  | None => done (Err errNoSwapWithOfferID)
  | Some _ =>
      now <- timeNow ;;
      updateInfo (MarkSwapComplete now) l ;;;
      withManager (fun m => setPast (<[iOfferID info := l]> (past m)) m) ;;;
      withManager (fun m => setOngoing (delete (iOfferID info) (ongoing m)) m) ;;;
      info' <- readInfo l ;;
      dbPutSwap info'
  end.

Definition HasOngoingSwap (id : Hash) : prog S bool :=
  gets (fun s => bool_decide (is_Some (ongoing (getManager s) !! id))).

End operations.
