(* ===== verification/SwapProofs.v ===== *)
(** * Theorems on the swap manager

    The promise of the manager's environment is [SwapEnvSpec]; the theorems are
    proved against it. *)

From stdpp Require Import base gmap list strings fin_maps.
From Stdlib Require Import ZArith.
From S2P Require Import Prelude Coins RefApd CoinsProofs Types TypesProofs Swap.

Open Scope Z_scope.
Open Scope go_scope.

(** [stored] is what the database would give back after a restart, by ID;
    [swapStorable] are the records it reads back as they were written (a record of a
    newer version than the program's is not, nor one whose exchange rate decoding would
    reject or reduce). *)
Class SwapEnvSpec `{TypesLib} (S : Type) `{!SwapEnv S} := {
  stored : S → gmap Hash Info;
  swapStorable : Info → Prop;
  storable_complete now i : swapStorable i → swapStorable (MarkSwapComplete now i);
  get_put m s : getManager (putManager m s) = m;
  put_put m m' s : putManager m (putManager m' s) = putManager m s;
  put_get s : putManager (getManager s) s = s;
  stored_put m s : stored (putManager m s) = stored s;
  stored_ids s id i : stored s !! id = Some i → iOfferID i = id;
  timeNow_runs s : ∃ t s', timeNow s = (Done t, s') ∧
    getManager s' = getManager s ∧ stored s' = stored s;
  putSwap_runs i s : ∃ r s', dbPutSwap i s = (Done r, s') ∧ getManager s' = getManager s ∧
    (∀ id, id ≠ iOfferID i → stored s' !! id = stored s !! id) ∧
    (r = Ok tt → swapStorable i → stored s' = <[iOfferID i := i]> (stored s));
  getSwap_runs id s : ∃ r s', dbGetSwap id s = (Done r, s') ∧
    getManager s' = getManager s ∧ stored s' = stored s ∧
    match r with
    | Ok i => stored s !! id = Some i
    | Err e => errorsIs ErrKeyNotFound e = true → stored s !! id = None
    end;
  getAllSwaps_runs s : ∃ r s', dbGetAllSwaps s = (Done r, s') ∧
    getManager s' = getManager s ∧ stored s' = stored s ∧
    ∀ l, r = Ok l → l ≡ₚ (snd <$> map_to_list (stored s))
}.

(** Records whose fields survive their texts: amounts that apd writes exactly, and a rate
    that the decoder of [coins.ExchangeRate], which validates and reduces it, leaves as it
    is. *)
Record infoKept `{Apd} `{TypesLib} (i : Info) : Prop := {
  ik_provided : exactDecimal (iProvidedAmount i);
  ik_expected : exactDecimal (iExpectedAmount i);
  ik_fee d : iRelayerFee i = Some d → exactDecimal d;
  ik_rate r : iExchangeRate i = Some r → rateOnWire r;
  ik_asset : wf_address (iEthAsset i)
}.

(** The JSON codec gives back what it encoded, of such records with a peer ID that libp2p
    decodes again ([peerKept]); the version and the ID of any record. *)
Class InfoJsonSpec `{Apd} `{InfoJson} := {
  peerKept : string → Prop;
  info_version i b : infoMarshal i = Ok b → infoVersionOf b = Ok (Some (iVersion i));
  info_struct i b : infoKept i → peerKept (iPeerID i) → infoMarshal i = Ok b → infoUnmarshalStruct b = Ok i;
  info_id i j b : infoMarshal i = Ok b → infoUnmarshalStruct b = Ok j → iOfferID j = iOfferID i;
  info_current v : versionGreaterThan v v = false
}.

(** Well-formed managers: both maps point to objects filed under their own ID,
    locations are below the next free ones. *)
Record mgrWf `{TypesLib} (m : manager) : Prop := {
  wf_ongoing id l : ongoing m !! id = Some l → ∃ i, infos m !! l = Some i ∧ iOfferID i = id;
  wf_past id l : past m !! id = Some l → ∃ i, infos m !! l = Some i ∧ iOfferID i = id;
  wf_infos l i : infos m !! l = Some i → (l < nextInfo m)%nat;
  wf_statusChannels id c : statusChannels m !! id = Some c → is_Some (chans m !! c);
  wf_chans c b : chans m !! c = Some b → (c < nextChan m)%nat ∧ (length b ≤ statusChSize)%nat
}.

(** Simplify projections of updated managers. *)
Ltac msimpl :=
  repeat first
    [ progress cbn [infos nextInfo ongoing past statusChannels chans nextChan setInfos setNextInfo
        setOngoing setPast setStatusChannels setChans setNextChan] in *
    | rewrite get_put | rewrite put_put | rewrite stored_put | rewrite lookup_insert_eq ].

Section manager.
Context `{IJ : InfoJson} {S : Type} `{!SwapEnv S} `{SS : !SwapEnvSpec S}.

Implicit Types (m : manager) (s : S) (l c : nat) (id : Hash).

(** Running the primitives. *)
Lemma withManager_run f s : withManager f s = (Done tt, putManager (f (getManager s)) s).
Proof. done. Qed.

Lemma readInfo_run l i s : infos (getManager s) !! l = Some i → readInfo l s = (Done i, s).
Proof. intros Hl. unfold readInfo. by rewrite Hl. Qed.

Lemma updateInfo_run f l i s : infos (getManager s) !! l = Some i →
  updateInfo f l s =
    (Done tt, putManager (setInfos (<[l := f i]> (infos (getManager s))) (getManager s)) s).
Proof. intros Hl. unfold updateInfo, pbind. by rewrite (readInfo_run _ _ _ Hl). Qed.

(** *** Well-formedness is preserved *)

Lemma wf_updateInfo m l i i' : mgrWf m → infos m !! l = Some i → iOfferID i' = iOfferID i →
  mgrWf (setInfos (<[l := i']> (infos m)) m).
Proof.
  intros [W1 W2 W3 W4 W5] Hl Hid.
  assert (Hlk : ∀ id k, (∃ j, infos m !! k = Some j ∧ iOfferID j = id) →
    ∃ j, <[l := i']> (infos m) !! k = Some j ∧ iOfferID j = id).
  { intros id k (j & Hj & <-). destruct (decide (k = l)) as [->|Hne].
    - exists i'. rewrite lookup_insert_eq. split; [done|]. congruence.
    - exists j. by rewrite lookup_insert_ne. }
  split; msimpl; eauto. intros k j Hk. destruct (decide (k = l)) as [->|Hne]; [eauto|].
  rewrite lookup_insert_ne in Hk by done. eauto.
Qed.

Lemma wf_alloc m i : mgrWf m → mgrWf (allocInfo i m).2.
Proof.
  intros [W1 W2 W3 W4 W5].
  assert (Hlk : ∀ id k, (∃ j, infos m !! k = Some j ∧ iOfferID j = id) →
    ∃ j, <[nextInfo m := i]> (infos m) !! k = Some j ∧ iOfferID j = id).
  { intros id k (j & Hj & Hid). exists j. split; [|done].
    rewrite lookup_insert_ne; [done|]. apply W3 in Hj. lia. }
  split; msimpl; cbn; eauto. intros k j Hk.
  destruct (decide (k = nextInfo m)) as [->|Hne]; [lia|].
  rewrite lookup_insert_ne in Hk by done. apply W3 in Hk. lia.
Qed.

Lemma wf_setOngoing m l i : mgrWf m → infos m !! l = Some i →
  mgrWf (setOngoing (<[iOfferID i := l]> (ongoing m)) m).
Proof.
  intros [W1 W2 W3 W4 W5] Hl. split; msimpl; eauto. intros id k.
  destruct (decide (id = iOfferID i)) as [->|Hne];
    [rewrite lookup_insert_eq; intros [= <-]; eauto | rewrite lookup_insert_ne by done; eauto].
Qed.

Lemma wf_setPast m l i : mgrWf m → infos m !! l = Some i →
  mgrWf (setPast (<[iOfferID i := l]> (past m)) m).
Proof.
  intros [W1 W2 W3 W4 W5] Hl. split; msimpl; eauto. intros id k.
  destruct (decide (id = iOfferID i)) as [->|Hne];
    [rewrite lookup_insert_eq; intros [= <-]; eauto | rewrite lookup_insert_ne by done; eauto].
Qed.

Lemma wf_deleteOngoing m id : mgrWf m → mgrWf (setOngoing (delete id (ongoing m)) m).
Proof.
  intros [W1 W2 W3 W4 W5]. split; msimpl; eauto. intros k l Hk.
  apply lookup_delete_Some in Hk as [_ Hk]. eauto.
Qed.

(** *** Running the operations *)

Lemma AddSwap_run l i b s : infos (getManager s) !! l = Some i → IsOngoing (iStatus i) = Done b →
  AddSwap l s = dbPutSwap i (putManager
    (if b : bool then setOngoing (<[iOfferID i := l]> (ongoing (getManager s))) (getManager s)
     else setPast (<[iOfferID i := l]> (past (getManager s))) (getManager s)) s).
Proof.
  intros Hl Hb. unfold AddSwap, pbind. rewrite (readInfo_run _ _ _ Hl). unfold pure. rewrite Hb.
  by destruct b.
Qed.

(** The manager after completing the swap at [l]. *)
Definition completed (now : Z) (l : nat) (i : Info) (m : manager) : manager :=
  setOngoing (delete (iOfferID i) (ongoing m))
    (setPast (<[iOfferID i := l]> (past m))
      (setInfos (<[l := MarkSwapComplete now i]> (infos m)) m)).

Lemma CompleteOngoingSwap_run l i s : infos (getManager s) !! l = Some i →
  match ongoing (getManager s) !! iOfferID i with
  | None => CompleteOngoingSwap l s = (Done (Err errNoSwapWithOfferID), s)
  | Some _ =>
      ∃ now s1, timeNow s = (Done now, s1) ∧
        getManager s1 = getManager s ∧ stored s1 = stored s ∧
        CompleteOngoingSwap l s =
          dbPutSwap (MarkSwapComplete now i) (putManager (completed now l i (getManager s)) s1)
  end.
Proof.
  intros Hl. unfold CompleteOngoingSwap, pbind. rewrite (readInfo_run _ _ _ Hl). unfold gets.
  destruct (ongoing (getManager s) !! iOfferID i) as [l'|]; [|done].
  destruct (timeNow_runs s) as (now & s1 & Ht & Hm & Hs). exists now, s1.
  split_and!; auto. rewrite Ht. rewrite <- Hm in Hl. rewrite (updateInfo_run _ _ _ _ Hl).
  rewrite !withManager_run. msimpl. unfold readInfo. msimpl. by rewrite Hm.
Qed.

Lemma GetPastSwap_run id s : past (getManager s) !! id = None →
  ∃ r s1, dbGetSwap id s = (Done r, s1) ∧ getManager s1 = getManager s ∧ stored s1 = stored s ∧
  match r with
  | Err e => (errorsIs ErrKeyNotFound e = true → stored s !! id = None) ∧ GetPastSwap id s =
      (Done (Err (if errorsIs ErrKeyNotFound e then errNoSwapWithOfferID else e)), s1)
  | Ok i => stored s !! id = Some i ∧
      let m' := (allocInfo i (getManager s)).2 in
      GetPastSwap id s = (Done (Ok (nextInfo (getManager s))),
        putManager (setPast (<[iOfferID i := nextInfo (getManager s)]> (past m')) m') s1)
  end.
Proof.
  intros Hp. destruct (getSwap_runs id s) as (r & s1 & Hr & Hm & Hs & Hpost).
  exists r, s1. split_and!; auto. unfold GetPastSwap, tryBind, getSwapFromDB, mapErr, pbind, gets.
  rewrite Hp, Hr. destruct r as [i|e]; cbn; [|done]. split; [done|].
  unfold newInfoObject, onManager, allocInfo. rewrite Hm. cbn. by msimpl.
Qed.

Lemma getStatusChan_run id s : mgrWf (getManager s) →
  ∃ c m', getStatusChan id s = (Done c, putManager m' s) ∧ mgrWf m' ∧
    statusChannels m' !! id = Some c ∧ infos m' = infos (getManager s) ∧
    ongoing m' = ongoing (getManager s) ∧ past m' = past (getManager s) ∧
    chans m' !! c = Some (default [] (statusChannels (getManager s) !! id ≫= (chans (getManager s) !!.))) ∧
    (∀ c', statusChannels (getManager s) !! id = Some c' → c' = c).
Proof.
  intros W. unfold getStatusChan, pbind, gets.
  destruct (statusChannels (getManager s) !! id) as [c|] eqn:Hc.
  - exists c, (getManager s). rewrite put_get. destruct (wf_statusChannels _ W _ _ Hc) as [b Hb].
    cbn. rewrite Hb. split_and!; try done. by intros ? [= ->].
  - unfold newStatusChannel, onManager. rewrite withManager_run. msimpl.
    eexists _, _. split; [reflexivity|]. msimpl. split_and!; try done.
    destruct W as [W1 W2 W3 W4 W5]. split; msimpl; eauto.
    + intros id' c. destruct (decide (id' = id)) as [->|Hne].
      * rewrite lookup_insert_eq. intros [= <-]. rewrite lookup_insert_eq. eauto.
      * rewrite lookup_insert_ne by done. intros Hc'. destruct (W4 _ _ Hc') as [b Hb].
        rewrite lookup_insert_ne; [eauto|]. apply W5 in Hb. lia.
    + intros c b. destruct (decide (c = nextChan (getManager s))) as [->|Hne].
      * rewrite lookup_insert_eq. intros [= <-]. cbn. unfold statusChSize. lia.
      * rewrite lookup_insert_ne by done. intros Hb. apply W5 in Hb. lia.
Qed.

Lemma PushNewStatus_run id st b s : mgrWf (getManager s) → IsOngoing st = Done b →
  let buf := default [] (statusChannels (getManager s) !! id ≫= (chans (getManager s) !!.)) in
  (length buf < statusChSize)%nat →
  ∃ c m', PushNewStatus id st s = (Done tt, putManager m' s) ∧ mgrWf m' ∧
    infos m' = infos (getManager s) ∧ ongoing m' = ongoing (getManager s) ∧
    past m' = past (getManager s) ∧ chans m' !! c = Some (buf ++ [st]) ∧
    (∀ c', statusChannels (getManager s) !! id = Some c' → c' = c) ∧
    statusChannels m' !! id = if b then Some c else None.
Proof.
  intros W Hb buf Hlen.
  destruct (getStatusChan_run id s W) as (c & m1 & Hc & W1 & Hid & Hi & Ho & Hp & Hbuf & Hsame).
  unfold PushNewStatus, pbind. rewrite Hc. fold buf in Hbuf.
  unfold sendStatus, pbind, gets. msimpl. rewrite Hbuf. change (default [] (Some buf)) with buf.
  apply Nat.ltb_lt in Hlen as Hlt. rewrite Hlt, withManager_run. msimpl. unfold pure. rewrite Hb.
  set (m2 := setChans (<[c := buf ++ [st]]> (chans m1)) m1).
  assert (W2 : mgrWf m2).
  { destruct W1 as [A1 A2 A3 A4 A5]. split; subst m2; msimpl; eauto.
    - intros id' c' Hc'. destruct (decide (c' = c)) as [->|Hne];
        [rewrite lookup_insert_eq; eauto | rewrite lookup_insert_ne by done; eauto].
    - intros c' b'. destruct (decide (c' = c)) as [->|Hne].
      + rewrite lookup_insert_eq. intros [= <-]. apply A5 in Hbuf. split; [tauto|].
        rewrite length_app. cbn. lia.
      + rewrite lookup_insert_ne by done. eauto. }
  exists c. destruct b; cbn [negb].
  - exists m2. split_and!; auto; subst m2; by msimpl.
  - exists (setStatusChannels (delete id (statusChannels m2)) m2).
    unfold DeleteStatusChan. rewrite withManager_run. msimpl.
    split_and!; auto; try (subst m2; by msimpl); [|by rewrite lookup_delete_eq].
    destruct W2 as [A1 A2 A3 A4 A5]. split; msimpl; eauto.
    intros id' c' Hc'. apply lookup_delete_Some in Hc' as [_ Hc']. eauto.
Qed.

(** A call that wrote the swap at [l], which is [i] afterwards, to the database. *)
Definition writesSwap l (i : Info) s s' : Prop := infos (getManager s') !! l = Some i ∧
  (AddSwap l s = (Done (Ok tt), s') ∨ WriteSwapToDB l s = (Done (Ok tt), s') ∨
   CompleteOngoingSwap l s = (Done (Ok tt), s')).

Lemma putSwap_stored i s s' : swapStorable i → dbPutSwap i s = (Done (Ok tt), s') →
  getManager s' = getManager s ∧ stored s' !! iOfferID i = Some i.
Proof.
  intros Hst E. destruct (putSwap_runs i s) as (r & s1 & Hr & Hg & _ & Hok). rewrite E in Hr. injection Hr as <- <-.
  split; [done|]. rewrite Hok by done. apply lookup_insert_eq.
Qed.

Lemma writes_stored l i s s' : swapStorable i → writesSwap l i s s' → stored s' !! iOfferID i = Some i.
Proof.
  intros Hst [Hi [E|[E|E]]].
  - assert (∃ j s1, infos (getManager s) !! l = Some j ∧ infos (getManager s1) = infos (getManager s) ∧
      dbPutSwap j s1 = (Done (Ok tt), s')) as (j & s1 & Hj & Es & Ep).
    { revert E. unfold AddSwap, pbind, readInfo. destruct (infos (getManager s) !! l) as [j|]; [|done].
      unfold pure. destruct (IsOngoing (iStatus j)) as [[]| | |]; [| |done..]; rewrite withManager_run; intros E;
        (eexists j, _; split_and!; [done| |exact E]); by rewrite get_put. }
    destruct (putSwap_runs j s1) as (r & s2 & Hr & Hg & _). rewrite Ep in Hr. injection Hr as _ <-.
    assert (j = i) as -> by (rewrite Hg, Es, Hj in Hi; congruence). by eapply putSwap_stored.
  - revert E. unfold WriteSwapToDB, pbind, readInfo. destruct (infos (getManager s) !! l) as [j|] eqn:Hj; [|done]. intros E.
    destruct (putSwap_runs j s) as (r & s2 & Hr & Hg & _). rewrite E in Hr. injection Hr as _ <-.
    assert (j = i) as -> by (rewrite Hg, Hj in Hi; congruence). by eapply putSwap_stored.
  - destruct (infos (getManager s) !! l) as [j|] eqn:Hj;
      [|revert E; unfold CompleteOngoingSwap, pbind, readInfo; by rewrite Hj].
    pose proof (CompleteOngoingSwap_run l j s Hj) as Hrun.
    destruct (ongoing (getManager s) !! iOfferID j); [|by rewrite E in Hrun].
    destruct Hrun as (now & s1 & _ & _ & _ & Hrun). rewrite E in Hrun. symmetry in Hrun.
    destruct (putSwap_runs (MarkSwapComplete now j) (putManager (completed now l j (getManager s)) s1)) as (r & s2 & Hr & Hg & _).
    rewrite Hrun in Hr. injection Hr as _ <-. rewrite get_put in Hg.
    assert (MarkSwapComplete now j = i) as Hij by (rewrite Hg in Hi; cbn in Hi; rewrite lookup_insert_eq in Hi; congruence).
    rewrite Hij in Hrun. by eapply putSwap_stored.
Qed.

(** *** Loading the stored swaps *)

Lemma IsOngoing_total st : st ≠ UnknownStatus → ∃ b, IsOngoing st = Done b.
Proof. destruct st; intros Hne; try done; eexists; reflexivity. Qed.

Lemma wf_empty : mgrWf emptyManager.
Proof. split; cbn; intros ? ? Hx; by rewrite lookup_empty in Hx. Qed.

(** The state between two steps of the loading loop: [m'] extends [m] by the
    ongoing swaps of [st]. *)
Record loaded (st : list Info) (m m' : manager) : Prop := {
  loaded_wf : mgrWf m → mgrWf m';
  loaded_infos l i : mgrWf m → infos m !! l = Some i → infos m' !! l = Some i;
  loaded_other id : id ∉ iOfferID <$> st → ongoing m' !! id = ongoing m !! id;
  loaded_past : past m' = past m;
  loaded_in i : mgrWf m → NoDup (iOfferID <$> st) → i ∈ st → IsOngoing (iStatus i) = Done true →
    ∃ l, ongoing m' !! iOfferID i = Some l ∧ infos m' !! l = Some i;
  loaded_only i : NoDup (iOfferID <$> st) → i ∈ st → IsOngoing (iStatus i) = Done false →
    ongoing m' !! iOfferID i = ongoing m !! iOfferID i
}.

Lemma loadOngoing_loaded st m : Forall (fun i => iStatus i ≠ UnknownStatus) st →
  ∃ m', loadOngoing st m = Done m' ∧ loaded st m m'.
Proof.
  intros Hst. revert m. induction Hst as [|i st Hi Hst IH]; intros m.
  - exists m. split; [done|]. split; auto; intros; set_solver.
  - destruct (IsOngoing_total _ Hi) as [b Hb]. cbn [loadOngoing]. rewrite Hb. cbn [obind].
    destruct b; cbn [negb].
    + unfold allocInfo. set (m1 := setOngoing _ _). destruct (IH m1) as (m' & Hm' & L). exists m'.
      split; [done|]. destruct L as [L1 L2 L3 L4 L5 L6].
      assert (Wm1 : mgrWf m → mgrWf m1).
      { intros W. apply (wf_setOngoing (allocInfo i m).2); [by apply wf_alloc|].
        cbn. by rewrite lookup_insert_eq. }
      assert (Hinf : infos m1 !! nextInfo m = Some i) by (cbn; by rewrite lookup_insert_eq).
      split; auto.
      * intros l j W Hj. apply L2; [auto|]. cbn. rewrite lookup_insert_ne; [done|].
        apply (wf_infos _ W) in Hj. lia.
      * intros id Hid. apply not_elem_of_cons in Hid as [Hne Hid]. rewrite L3 by done.
        cbn. by rewrite lookup_insert_ne.
      * intros j W Hnd Hj Hon. apply NoDup_cons in Hnd as [Hnin Hnd].
        apply elem_of_cons in Hj as [->|Hj]; [|eauto].
        exists (nextInfo m). rewrite L3 by done. cbn. rewrite lookup_insert_eq. eauto.
      * intros j Hnd Hj Hon. apply NoDup_cons in Hnd as [Hnin Hnd].
        apply elem_of_cons in Hj as [->|Hj]; [congruence|]. rewrite L6 by done. cbn.
        rewrite lookup_insert_ne; [done|]. intros Heq. apply Hnin. rewrite Heq.
        by apply list_elem_of_fmap_2.
    + destruct (IH m) as (m' & Hm' & L). exists m'. split; [done|].
      destruct L as [L1 L2 L3 L4 L5 L6]. split; auto.
      * intros id Hid. apply not_elem_of_cons in Hid as [_ Hid]. by apply L3.
      * intros j W Hnd Hj Hon. apply NoDup_cons in Hnd as [Hnin Hnd].
        apply elem_of_cons in Hj as [->|Hj]; [congruence | eauto].
      * intros j Hnd Hj Hon. apply NoDup_cons in Hnd as [Hnin Hnd].
        apply elem_of_cons in Hj as [->|Hj]; [by apply L3 | eauto].
Qed.

(** The stored swaps have distinct IDs. *)
Lemma stored_nodup s (st : list Info) : st ≡ₚ (snd <$> map_to_list (stored s)) → NoDup (iOfferID <$> st).
Proof.
  intros ->. rewrite <- list_fmap_compose.
  assert (Heq : (iOfferID ∘ snd) <$> map_to_list (stored s) = (map_to_list (stored s)).*1).
  { apply list_fmap_ext. intros k [id i] Hk. cbn. apply list_elem_of_lookup_2 in Hk.
    apply elem_of_map_to_list in Hk. by apply stored_ids in Hk. }
  rewrite Heq. apply NoDup_fst_map_to_list.
Qed.

Lemma stored_elem s (st : list Info) i : st ≡ₚ (snd <$> map_to_list (stored s)) →
  i ∈ st ↔ stored s !! iOfferID i = Some i.
Proof.
  intros Hl. rewrite Hl, list_elem_of_fmap. split.
  - intros ([id j] & -> & Hj). apply elem_of_map_to_list in Hj. cbn.
    by rewrite (stored_ids _ _ _ Hj).
  - intros Hi. exists (iOfferID i, i). split; [done|]. by apply elem_of_map_to_list.
Qed.

(** What a restart finds: the ongoing map mirrors the stored ongoing swaps. *)
Definition mirrors s : Prop := ∀ id i,
  (stored s !! id = Some i ∧ IsOngoing (iStatus i) = Done true) ↔
  (∃ l, ongoing (getManager s) !! id = Some l ∧ infos (getManager s) !! l = Some i).

Lemma NewManager_mirrors s :
  (∀ id i, stored s !! id = Some i → iStatus i ≠ UnknownStatus) →
  ∃ r s', NewManager s = (Done r, s') ∧ stored s' = stored s ∧
    (r = Ok tt → mgrWf (getManager s') ∧ past (getManager s') = ∅ ∧ mirrors s').
Proof.
  intros Hunk. unfold NewManager, tryBind, pbind.
  destruct (getAllSwaps_runs s) as (r & s1 & Hr & Hm & Hs & Hl). rewrite Hr.
  destruct r as [st|e]; [|by eexists _, s1]. specialize (Hl st eq_refl).
  destruct (loadOngoing_loaded st emptyManager) as (m' & Hm' & [L1 L2 L3 L4 L5 L6]).
  { apply Forall_forall. intros i Hi. apply (stored_elem s) in Hi; eauto. }
  unfold pure. rewrite Hm', withManager_run. eexists _, _. split; [reflexivity|]. msimpl.
  split; [done|]. intros _. pose proof wf_empty as W. split_and!; auto.
  pose proof (stored_nodup _ _ Hl) as Hnd. intros id i. msimpl. rewrite Hs. split.
  - intros [Hi Hon]. pose proof (stored_ids _ _ _ Hi) as <-. apply L5; auto.
    by apply (stored_elem s).
  - intros (l & Ho & Hi). destruct (wf_ongoing _ (L1 W) _ _ Ho) as (i' & Hi' & Hid).
    rewrite Hi in Hi'. injection Hi' as <-. destruct (decide (id ∈ iOfferID <$> st)) as [Hin|Hnin].
    2:{ rewrite L3 in Ho by done. cbn in Ho. by rewrite lookup_empty in Ho. }
    apply list_elem_of_fmap in Hin as (j & -> & Hj).
    destruct (IsOngoing_total (iStatus j)) as [[] Hb].
    { eapply Hunk. by apply (stored_elem s st). }
    + destruct (L5 j) as (l' & Hl' & Hj'); auto. rewrite Ho in Hl'. injection Hl' as <-.
      rewrite Hi in Hj'. injection Hj' as ->. split; [|done]. by apply (stored_elem s st).
    + rewrite L6 in Ho by done. cbn in Ho. by rewrite lookup_empty in Ho.
Qed.

(** The mirror at every ID but one. *)
Definition mirrorsBut (id0 : Hash) s : Prop := ∀ id i, id ≠ id0 →
  (stored s !! id = Some i ∧ IsOngoing (iStatus i) = Done true) ↔
  (∃ l, ongoing (getManager s) !! id = Some l ∧ infos (getManager s) !! l = Some i).

Lemma mirrors_but id0 s : mirrors s → mirrorsBut id0 s.
Proof. intros Hm id i _. apply Hm. Qed.

(** An object filed in the ongoing map and in the database mirrors again. *)
Lemma mirrors_filed s s' l i : mgrWf (getManager s') →
  mirrorsBut (iOfferID i) s → IsOngoing (iStatus i) = Done true →
  stored s' = <[iOfferID i := i]> (stored s) →
  ongoing (getManager s') = <[iOfferID i := l]> (ongoing (getManager s)) →
  infos (getManager s') = infos (getManager s) → infos (getManager s) !! l = Some i → mirrors s'.
Proof.
  intros W Hm Hon Hs Ho Hi Hl id j. rewrite Hs, Ho, Hi.
  destruct (decide (id = iOfferID i)) as [->|Hne].
  - rewrite !lookup_insert_eq. split.
    + intros [[= <-] _]. eauto.
    + intros (l' & [= <-] & Hj). rewrite Hl in Hj. injection Hj as <-. done.
  - rewrite !lookup_insert_ne by done. by apply Hm.
Qed.

(** Completing a swap changes nothing at the other IDs. *)
Lemma mirrorsBut_completed now s s' l i : mgrWf (getManager s) → mirrors s →
  infos (getManager s) !! l = Some i → getManager s' = completed now l i (getManager s) →
  stored s' = <[iOfferID i := MarkSwapComplete now i]> (stored s) → mirrorsBut (iOfferID i) s'.
Proof.
  intros W Hm Hl Hg Hs id j Hne. rewrite Hs, Hg. unfold completed. msimpl.
  rewrite lookup_insert_ne, lookup_delete_ne by done. rewrite (Hm id j).
  split; intros (l' & Ho & Hj); exists l'; (split; [done|]).
  - rewrite lookup_insert_ne; [done|]. intros <-.
    destruct (wf_ongoing _ W _ _ Ho) as (i' & Hi' & <-). rewrite Hl in Hi'. by injection Hi' as <-.
  - destruct (decide (l' = l)) as [->|Hnl].
    + destruct (wf_ongoing _ W _ _ Ho) as (i' & Hi' & <-). rewrite Hl in Hi'. by injection Hi' as <-.
    + by rewrite lookup_insert_ne in Hj.
Qed.

(** A completed swap with a final status leaves both sides of the mirror. *)
Lemma mirrors_completed now s s' l i : mgrWf (getManager s) → mirrors s →
  infos (getManager s) !! l = Some i → IsOngoing (iStatus i) = Done false →
  getManager s' = completed now l i (getManager s) →
  stored s' = <[iOfferID i := MarkSwapComplete now i]> (stored s) → mirrors s'.
Proof.
  intros W Hm Hl Hfin Hg Hs id j. destruct (decide (id = iOfferID i)) as [->|Hne];
    [|by apply (mirrorsBut_completed now s s' l i)].
  rewrite Hs, Hg. unfold completed. msimpl. rewrite lookup_delete_eq. split.
  - intros [[= <-] Hon]. cbn in Hon. congruence.
  - by intros (l' & [=] & _).
Qed.

(** Pushing a list of statuses. *)
Fixpoint pushAll (id : Hash) (sts : list Status) : prog S unit :=
  match sts with
  | [] => done tt
  | st :: rest => PushNewStatus id st ;;; pushAll id rest
  end.

(** The buffer a subscriber of [id] reads from. *)
Definition bufferOf (id : Hash) s : list Status :=
  default [] (statusChannels (getManager s) !! id ≫= (chans (getManager s) !!.)).

Lemma pushAll_run id c sts s : mgrWf (getManager s) → statusChannels (getManager s) !! id = Some c →
  Forall (fun st => IsOngoing st = Done true) sts →
  (length (bufferOf id s) + length sts ≤ statusChSize)%nat →
  ∃ m', pushAll id sts s = (Done tt, putManager m' s) ∧ mgrWf m' ∧
    statusChannels m' !! id = Some c ∧ chans m' !! c = Some (bufferOf id s ++ sts).
Proof.
  intros W Hc Hon. revert s W Hc. induction Hon as [|st sts Hst Hsts IH]; intros s W Hc Hlen.
  - exists (getManager s). rewrite put_get, app_nil_r. split_and!; auto.
    unfold bufferOf. rewrite Hc. cbn. by destruct (wf_statusChannels _ W _ _ Hc) as [b ->].
  - destruct (PushNewStatus_run id st true s W Hst) as
      (c' & m1 & H1 & W1 & _ & _ & _ & Hb & Hsame & Hid); [unfold bufferOf in Hlen; cbn in Hlen; lia|].
    pose proof (Hsame c Hc) as <-. fold (bufferOf id s) in Hb.
    cbn [pushAll]. unfold pbind. rewrite H1.
    assert (Hbuf : bufferOf id (putManager m1 s) = bufferOf id s ++ [st]).
    { unfold bufferOf at 1. rewrite get_put, Hid. cbn. by rewrite Hb. }
    destruct (IH (putManager m1 s)) as (m' & Hp & W' & Hc' & Hb'); rewrite ?get_put; auto.
    { rewrite Hbuf, length_app. cbn in Hlen |- *. lia. }
    exists m'. rewrite Hp, put_put. split_and!; auto. by rewrite Hb', Hbuf, <- app_assoc.
Qed.

Lemma pushAll_app id sts rest s s' : pushAll id sts s = (Done tt, s') →
  pushAll id (sts ++ rest) s = pushAll id rest s'.
Proof.
  revert s. induction sts as [|st sts IH]; intros s; [by intros [= <-]|].
  cbn [pushAll app]. unfold pbind. destruct (PushNewStatus id st s) as [[[]|?| |] s1]; try done. apply IH.
Qed.

(** Up to five ongoing statuses and a final one fit into an empty channel. *)
Lemma pushAll_final_run id c sts final s : mgrWf (getManager s) → statusChannels (getManager s) !! id = Some c →
  chans (getManager s) !! c = Some [] → Forall (fun st => IsOngoing st = Done true) sts →
  IsOngoing final = Done false → (length sts < statusChSize)%nat →
  ∃ s', pushAll id (sts ++ [final]) s = (Done tt, s') ∧ chans (getManager s') !! c = Some (sts ++ [final]) ∧
    statusChannels (getManager s') !! id = None.
Proof.
  intros W Hc Hb Hon Hfin Hlen.
  assert (Hbuf : bufferOf id s = []) by (unfold bufferOf; rewrite Hc; cbn; by rewrite Hb).
  destruct (pushAll_run id c sts s W Hc Hon) as (m' & Hp & W' & Hc' & Hb'); [rewrite Hbuf; cbn; lia|].
  rewrite Hbuf in Hb'. cbn in Hb'. rewrite (pushAll_app _ _ _ _ _ Hp). cbn [pushAll].
  destruct (PushNewStatus_run id final false (putManager m' s)) as
    (c' & m2 & H1 & W1 & _ & _ & _ & Hb2 & Hsame & Hid); rewrite ?get_put; auto.
  { rewrite Hc'. cbn. rewrite Hb'. done. }
  rewrite get_put in Hsame. pose proof (Hsame _ Hc') as <-. unfold pbind. rewrite H1.
  eexists. split; [reflexivity|]. rewrite get_put, Hid, Hb2, get_put, Hc'. cbn. by rewrite Hb'.
Qed.

End manager.

(** ** The operations as one step relation, and the invariant *)

Section steps.
Context `{IJ : InfoJson} {S : Type} `{!SwapEnv S} `{SS : !SwapEnvSpec S}.

(** The calls of the package's clients. *)
Inductive managerCall : Type :=
| CallNewInfo (i : Info)
| CallSetStatus (l : nat) (st : Status)
| CallAddSwap (l : nat)
| CallWriteSwapToDB (l : nat)
| CallCompleteOngoingSwap (l : nat)
| CallGetPastSwap (id : Hash)
| CallGetOngoingSwapSnapshot (id : Hash)
| CallGetOngoingSwapsSnapshot
| CallPushNewStatus (id : Hash) (st : Status)
| CallGetStatusChan (id : Hash)
| CallDeleteStatusChan (id : Hash)
| CallRecvStatus (c : nat).

Definition runCall (c : managerCall) : prog S unit :=
  match c with
  | CallNewInfo i => newInfoObject i ;;; done tt
  | CallSetStatus l st => Info_SetStatus l st
  | CallAddSwap l => AddSwap l ;;; done tt
  | CallWriteSwapToDB l => WriteSwapToDB l ;;; done tt
  | CallCompleteOngoingSwap l => CompleteOngoingSwap l ;;; done tt
  | CallGetPastSwap id => GetPastSwap id ;;; done tt
  | CallGetOngoingSwapSnapshot id => GetOngoingSwapSnapshot id ;;; done tt
  | CallGetOngoingSwapsSnapshot => GetOngoingSwapsSnapshot ;;; done tt
  | CallPushNewStatus id st => PushNewStatus id st
  | CallGetStatusChan id => GetStatusChan id ;;; done tt
  | CallDeleteStatusChan id => DeleteStatusChan id
  | CallRecvStatus c => recvStatus c ;;; done tt
  end.

Definition wfS : S → S → Prop := preserving (fun s => mgrWf (getManager s)).

Lemma keeps_env {A} (m : prog S A) :
  (∀ s, ∃ r s', m s = (Done r, s') ∧ getManager s' = getManager s) → keeps wfS m.
Proof. intros Hm s W. destruct (Hm s) as (r & s' & -> & Hg). cbn. by rewrite Hg. Qed.

Lemma keeps_putSwap i : keeps wfS (dbPutSwap i).
Proof. apply keeps_env. intros s. destruct (putSwap_runs i s) as (r & s' & ? & ? & _). eauto. Qed.

Lemma keeps_putManager {A} (a : A) (f : manager → manager) :
  (∀ m, mgrWf m → mgrWf (f m)) → keeps wfS (fun s => (Done a, putManager (f (getManager s)) s)).
Proof. intros Hf s W. cbn. rewrite get_put. auto. Qed.

Lemma keeps_newInfoObject i : keeps wfS (newInfoObject i).
Proof. intros s W. cbn. rewrite get_put. by apply (wf_alloc _ i). Qed.

Lemma keeps_readInfo l : keeps wfS (readInfo l).
Proof. intros s W. unfold readInfo. by destruct (infos (getManager s) !! l). Qed.

Lemma keeps_updateInfo f l : (∀ i, iOfferID (f i) = iOfferID i) → keeps wfS (updateInfo f l).
Proof.
  intros Hf s W. destruct (infos (getManager s) !! l) as [i|] eqn:Hl.
  - rewrite (updateInfo_run _ _ _ _ Hl). cbn. rewrite get_put. by eapply wf_updateInfo.
  - unfold updateInfo, pbind, readInfo. by rewrite Hl.
Qed.

Lemma keeps_SetStatus l st : keeps wfS (Info_SetStatus l st).
Proof.
  apply keeps_bind; [typeclasses eauto | |].
  - apply keeps_env. intros s. destruct (timeNow_runs s) as (t & s' & ? & ? & _). eauto.
  - intros now. by apply keeps_updateInfo.
Qed.

Lemma keeps_AddSwap l : keeps wfS (AddSwap l).
Proof.
  intros s W. destruct (infos (getManager s) !! l) as [i|] eqn:Hl.
  2:{ unfold AddSwap, pbind, readInfo. by rewrite Hl. }
  destruct (IsOngoing (iStatus i)) as [b| | |] eqn:Hb.
  - rewrite (AddSwap_run _ _ _ _ Hl Hb). apply keeps_putSwap. rewrite get_put.
    destruct b; [by apply wf_setOngoing | by apply wf_setPast].
  - unfold AddSwap, pbind. rewrite (readInfo_run _ _ _ Hl). unfold pure. by rewrite Hb.
  - by destruct (iStatus i).
  - by destruct (iStatus i).
Qed.

Lemma wf_completed now l i m : mgrWf m → infos m !! l = Some i → mgrWf (completed now l i m).
Proof.
  intros W Hl. unfold completed.
  apply (wf_deleteOngoing (setPast (<[iOfferID i := l]> (past m))
    (setInfos (<[l := MarkSwapComplete now i]> (infos m)) m))).
  apply (wf_setPast (setInfos (<[l := MarkSwapComplete now i]> (infos m)) m) l
    (MarkSwapComplete now i)); [by eapply wf_updateInfo | cbn; by rewrite lookup_insert_eq].
Qed.

Lemma keeps_Complete l : keeps wfS (CompleteOngoingSwap l).
Proof.
  intros s W. destruct (infos (getManager s) !! l) as [i|] eqn:Hl.
  2:{ unfold CompleteOngoingSwap, pbind, readInfo. by rewrite Hl. }
  pose proof (CompleteOngoingSwap_run _ _ _ Hl) as Hrun.
  destruct (ongoing (getManager s) !! iOfferID i); [|by rewrite Hrun].
  destruct Hrun as (now & s1 & _ & Hm & _ & ->). apply keeps_putSwap. rewrite get_put.
  by apply wf_completed.
Qed.

Lemma keeps_GetPastSwap id : keeps wfS (GetPastSwap id).
Proof.
  intros s W. destruct (past (getManager s) !! id) as [l|] eqn:Hp.
  { unfold GetPastSwap, pbind, gets. by rewrite Hp. }
  destruct (GetPastSwap_run id s Hp) as ([i|e] & s1 & _ & Hm & _ & Hr).
  - destruct Hr as [_ ->]. cbn [snd]. rewrite get_put.
    apply (wf_setPast (allocInfo i (getManager s)).2); [by apply wf_alloc|].
    cbn. by rewrite lookup_insert_eq.
  - destruct Hr as [_ ->]. cbn. by rewrite Hm.
Qed.

Lemma keeps_getStatusChan id : keeps wfS (getStatusChan id).
Proof.
  intros s W. destruct (getStatusChan_run id s W) as (c & m' & -> & W' & _). cbn. by rewrite get_put.
Qed.

Lemma wf_setChan c b m : mgrWf m → is_Some (chans m !! c) → (length b ≤ statusChSize)%nat →
  mgrWf (setChans (<[c := b]> (chans m)) m).
Proof.
  intros [A1 A2 A3 A4 A5] Hc Hb. split; msimpl; eauto.
  - intros id' c' Hc'. destruct (decide (c' = c)) as [->|Hne];
      [rewrite lookup_insert_eq; eauto | rewrite lookup_insert_ne by done; eauto].
  - intros c' b'. destruct (decide (c' = c)) as [->|Hne].
    + rewrite lookup_insert_eq. intros [= <-]. destruct Hc as [b0 Hb0]. apply A5 in Hb0. tauto.
    + rewrite lookup_insert_ne by done. eauto.
Qed.

Lemma keeps_DeleteStatusChan id : keeps wfS (DeleteStatusChan id).
Proof.
  apply (keeps_putManager tt (fun m => setStatusChannels (delete id (statusChannels m)) m)).
  intros m [A1 A2 A3 A4 A5]. split; msimpl; eauto.
  intros id' c' Hc'. apply lookup_delete_Some in Hc' as [_ Hc']. eauto.
Qed.

Lemma keeps_PushNewStatus id st : keeps wfS (PushNewStatus id st).
Proof.
  intros s W. unfold PushNewStatus, pbind.
  destruct (getStatusChan_run id s W) as (c & m1 & -> & W1 & _ & _ & _ & _ & Hb & _).
  unfold sendStatus, pbind, gets. rewrite get_put, Hb.
  change (default [] (Some ?b)) with b. set (buf := default [] _).
  destruct (Nat.ltb_spec (length buf) statusChSize); [|cbn; by rewrite get_put].
  rewrite withManager_run, get_put, put_put.
  assert (W2 : mgrWf (setChans (<[c := buf ++ [st]]> (chans m1)) m1)).
  { apply wf_setChan; eauto. rewrite length_app. cbn. lia. }
  unfold pure. destruct (IsOngoing st) as [[]| | |]; cbn [negb]; try (cbn; by rewrite get_put).
  apply keeps_DeleteStatusChan. by rewrite get_put.
Qed.

Lemma keeps_recvStatus c : keeps wfS (recvStatus c).
Proof.
  intros s W. unfold recvStatus, pbind, gets.
  destruct (chans (getManager s) !! c) as [[|st b]|] eqn:Hc; cbn; try done.
  rewrite get_put. apply wf_setChan; [done | eauto |]. apply (wf_chans _ W) in Hc. cbn in Hc. lia.
Qed.

Lemma keeps_snapshotAll ls : keeps wfS (snapshotAll ls).
Proof.
  induction ls as [|l ls IH]; cbn [snapshotAll]; keeps_auto;
    eauto using keeps_readInfo, keeps_newInfoObject, keeps_done with typeclass_instances.
Qed.

Lemma keeps_Snapshot id : keeps wfS (GetOngoingSwapSnapshot id).
Proof.
  unfold GetOngoingSwapSnapshot, GetOngoingSwap. keeps_auto;
    eauto using keeps_readInfo, keeps_newInfoObject with typeclass_instances.
Qed.

(** *** Where a swap is filed *)

(** The ID is ongoing with the same object as before, or as before not at all, and past
    with the same object if it was past. *)
Definition sameSwap (id : Hash) (s s' : S) : Prop :=
  ongoing (getManager s') !! id = ongoing (getManager s) !! id ∧
  ∀ l, past (getManager s) !! id = Some l → past (getManager s') !! id = Some l.

#[global] Instance sameSwap_preorder id : PreOrder (sameSwap id).
Proof.
  split; [by intros s|]. intros a b c [Ho Hp] [Ho' Hp']. split; [congruence | auto].
Qed.

Lemma same_env {A} id (m : prog S A) :
  (∀ s, ∃ r s', m s = (Done r, s') ∧ getManager s' = getManager s) → keeps (sameSwap id) m.
Proof. intros Hm s. destruct (Hm s) as (r & s' & -> & Hg). split; cbn; by rewrite Hg. Qed.

Lemma same_onManager {A} id (f : manager → A * manager) :
  (∀ m, ongoing (f m).2 = ongoing m ∧ past (f m).2 = past m) → keeps (sameSwap id) (onManager f : prog S A).
Proof.
  intros Hf s. unfold onManager. destruct (Hf (getManager s)) as [Ho Hp].
  destruct (f (getManager s)) as [a m]. split; cbn in *; rewrite get_put; congruence.
Qed.

Lemma same_withManager id (f : manager → manager) :
  (∀ m, ongoing (f m) = ongoing m ∧ past (f m) = past m) → keeps (sameSwap id) (withManager f : prog S unit).
Proof.
  intros Hf s. destruct (Hf (getManager s)) as [Ho Hp]. split; cbn; rewrite get_put; congruence.
Qed.

Lemma same_readInfo id l : keeps (sameSwap id) (readInfo l : prog S Info).
Proof. intros s. unfold readInfo. by destruct (infos _ !! l). Qed.

Lemma same_putSwap id i : keeps (sameSwap id) (dbPutSwap i : prog S _).
Proof. apply same_env. intros s. destruct (putSwap_runs i s) as (r & s' & ? & ? & _). eauto. Qed.

Lemma same_timeNow id : keeps (sameSwap id) (timeNow : prog S Z).
Proof. apply same_env. intros s. destruct (timeNow_runs s) as (r & s' & ? & ? & _). eauto. Qed.

Lemma same_newInfoObject id i : keeps (sameSwap id) (newInfoObject i : prog S nat).
Proof. by apply same_onManager. Qed.

Lemma same_snapshotAll id ls : keeps (sameSwap id) (snapshotAll ls : prog S _).
Proof.
  induction ls as [|l ls IH]; cbn [snapshotAll]; keeps_auto; auto using same_readInfo, same_newInfoObject.
Qed.

Lemma same_GetPastSwap id id' : keeps (sameSwap id) (GetPastSwap id' : prog S _).
Proof.
  intros s. destruct (past (getManager s) !! id') as [l|] eqn:Hp.
  { unfold GetPastSwap, pbind, gets. by rewrite Hp. }
  destruct (GetPastSwap_run id' s Hp) as ([i|e] & s1 & _ & Hm & _ & Hr);
    [|destruct Hr as [_ ->]; split; cbn; by rewrite Hm].
  destruct Hr as [Hi ->]. apply stored_ids in Hi. split; cbn; rewrite get_put; [done|].
  intros l Hl. cbn. rewrite lookup_insert_ne; [done|]. intros E. congruence.
Qed.

(** The call adds or completes a swap with the ID. *)
Definition touches (id : Hash) (c : managerCall) (s : S) : Prop :=
  match c with
  | CallAddSwap l | CallCompleteOngoingSwap l => ∃ i, infos (getManager s) !! l = Some i ∧ iOfferID i = id
  | _ => False
  end.

(** Calls of the clients, of which none adds or completes a swap with the ID. *)
Definition elsewhere (id : Hash) (s s' : S) : Prop := ∃ c, ¬ touches id c s ∧ s' = (runCall c s).2.

Lemma same_AddSwap id l s : ¬ touches id (CallAddSwap l) s → sameSwap id s (AddSwap l s).2.
Proof.
  intros Ht. destruct (infos (getManager s) !! l) as [i|] eqn:Hl.
  2:{ unfold AddSwap, pbind, readInfo. by rewrite Hl. }
  assert (Hne : iOfferID i ≠ id) by (intros Hid; apply Ht; cbn; eauto).
  destruct (IsOngoing (iStatus i)) as [b| | |] eqn:Hb;
    [|unfold AddSwap, pbind; rewrite (readInfo_run _ _ _ Hl); unfold pure; by rewrite Hb..].
  rewrite (AddSwap_run _ _ _ _ Hl Hb). eapply (transitivity (R := sameSwap id)); [|apply same_putSwap].
  split; rewrite get_put; destruct b; cbn; try done; by rewrite lookup_insert_ne.
Qed.

Lemma same_Complete id l s : ¬ touches id (CallCompleteOngoingSwap l) s → sameSwap id s (CompleteOngoingSwap l s).2.
Proof.
  intros Ht. destruct (infos (getManager s) !! l) as [i|] eqn:Hl.
  2:{ unfold CompleteOngoingSwap, pbind, readInfo. by rewrite Hl. }
  assert (Hne : iOfferID i ≠ id) by (intros Hid; apply Ht; cbn; eauto).
  pose proof (CompleteOngoingSwap_run _ _ _ Hl) as Hrun.
  destruct (ongoing (getManager s) !! iOfferID i); [|by rewrite Hrun].
  destruct Hrun as (now & s1 & _ & Hm & _ & ->). eapply (transitivity (R := sameSwap id)); [|apply same_putSwap].
  split; rewrite get_put; cbn; [by rewrite lookup_delete_ne|]. intros k. by rewrite lookup_insert_ne.
Qed.

Lemma managerStep_wf c s : mgrWf (getManager s) → mgrWf (getManager (runCall c s).2).
Proof.
  assert (K : keeps wfS (runCall c)); [|apply K].
  destruct c; cbn [runCall]; unfold WriteSwapToDB, GetOngoingSwapsSnapshot, GetStatusChan;
    keeps_auto; auto using keeps_newInfoObject, keeps_SetStatus, keeps_AddSwap, keeps_Complete,
      keeps_GetPastSwap, keeps_getStatusChan, keeps_DeleteStatusChan, keeps_PushNewStatus,
      keeps_recvStatus, keeps_snapshotAll, keeps_Snapshot, keeps_readInfo, keeps_putSwap.
Qed.

Lemma elsewhere_same id s s' : elsewhere id s s' → sameSwap id s s'.
Proof.
  intros (c & Ht & ->).
  assert (Kb : ∀ A (m : prog S A), sameSwap id s (m s).2 → sameSwap id s ((m ;;; done tt) s).2).
  { intros A m. unfold pbind. by destruct (m s) as [[?|?| |] s1]. }
  destruct c; cbn [runCall]; [|..];
    try (apply Kb; first [by apply same_AddSwap | by apply same_Complete | apply same_GetPastSwap | apply same_newInfoObject]);
    match goal with |- sameSwap _ ?s (?m ?s).2 => assert (K : keeps (sameSwap id) m); [|apply K] end;
    unfold Info_SetStatus, updateInfo, WriteSwapToDB, GetOngoingSwapSnapshot, GetOngoingSwap,
      GetOngoingSwapsSnapshot, GetStatusChan, PushNewStatus, getStatusChan, newStatusChannel, DeleteStatusChan,
      sendStatus, recvStatus;
    keeps_auto; try (by apply same_withManager); try (by apply same_onManager);
    auto using same_readInfo, same_putSwap, same_timeNow, same_newInfoObject, same_snapshotAll.
Qed.

Lemma elsewhere_rtc id s s' : rtc (elsewhere id) s s' →
  sameSwap id s s' ∧ (mgrWf (getManager s) → mgrWf (getManager s')).
Proof.
  induction 1 as [s|s s1 s2 He _ [Hs Hw]]; [by split|]. split; [by etrans; [apply elsewhere_same|]|].
  intros W. apply Hw. destruct He as (c & _ & ->). by apply managerStep_wf.
Qed.

(** What the manager does with a swap of the ID that it has as past. *)
Lemma past_found id l s : mgrWf (getManager s) → past (getManager s) !! id = Some l →
  ongoing (getManager s) !! id = None →
  GetOngoingSwap id s = (Done (Err errNoSwapWithOfferID), s) ∧ GetPastSwap id s = (Done (Ok l), s) ∧
  CompleteOngoingSwap l s = (Done (Err errNoSwapWithOfferID), s).
Proof.
  intros W Hp Ho. destruct (wf_past _ W _ _ Hp) as (i & Hi & Hid).
  pose proof (CompleteOngoingSwap_run l i s Hi) as Hc. rewrite Hid, Ho in Hc.
  unfold GetOngoingSwap, GetPastSwap, pbind, gets. by rewrite Ho, Hp.
Qed.

(** Completing the object that is filed as ongoing. *)
Lemma Complete_filed id l s : mgrWf (getManager s) → ongoing (getManager s) !! id = Some l →
  ∃ j now r s', infos (getManager s) !! l = Some j ∧ iOfferID j = id ∧
    CompleteOngoingSwap l s = (Done r, s') ∧ mgrWf (getManager s') ∧
    infos (getManager s') !! l = Some (MarkSwapComplete now j) ∧
    (swapStorable j → r = Ok tt → stored s' !! id = Some (MarkSwapComplete now j)) ∧
    ongoing (getManager s') !! id = None ∧ past (getManager s') !! id = Some l.
Proof.
  intros W Ho. destruct (wf_ongoing _ W _ _ Ho) as (j & Hj & Hid).
  pose proof (CompleteOngoingSwap_run l j s Hj) as Hrun. rewrite Hid, Ho in Hrun.
  destruct Hrun as (now & s1 & _ & Hm & Hs & Hrun).
  destruct (putSwap_runs (MarkSwapComplete now j) (putManager (completed now l j (getManager s)) s1))
    as (r & s' & Hp & Hg & _ & Hst). rewrite get_put in Hg.
  exists j, now, r, s'. split_and!; [done | done | by rewrite Hrun | | | | |]; rewrite ?Hg; unfold completed; msimpl.
  - by apply wf_completed.
  - done.
  - intros Hj' ->. rewrite Hst by auto using storable_complete. cbn. by rewrite Hid, lookup_insert_eq.
  - by rewrite Hid, lookup_delete_eq.
  - by rewrite Hid, lookup_insert_eq.
Qed.

End steps.

#[export] Hint Resolve keeps_newInfoObject keeps_SetStatus keeps_AddSwap keeps_Complete
  keeps_GetPastSwap keeps_getStatusChan keeps_DeleteStatusChan keeps_PushNewStatus
  keeps_recvStatus keeps_snapshotAll keeps_Snapshot keeps_readInfo keeps_putSwap : keeps.

(** ** An in-memory environment, for the witnesses *)

Record memory `{TypesLib} : Type := mkMemory {
  memManager : manager;
  memStore : gmap Hash Info;
  memClock : Z
}.

(** A stored entry counts only under its own ID. *)
Definition memStored `{TypesLib} (s : memory) : gmap Hash Info :=
  filter (fun p => iOfferID p.2 = p.1) (memStore s).

#[export] Instance memEnv `{TypesLib} : SwapEnv memory := {|
  getManager := memManager;
  putManager := fun m s => mkMemory _ m (memStore s) (memClock s);
  dbPutSwap := fun i s =>
    (Done (Ok tt), mkMemory _ (memManager s) (<[iOfferID i := i]> (memStore s)) (memClock s));
  dbGetSwap := fun id s =>
    (Done (match memStored s !! id with Some i => Ok i | None => Err ErrKeyNotFound end), s);
  dbGetAllSwaps := fun s => (Done (Ok (snd <$> map_to_list (memStored s))), s);
  timeNow := fun s => (Done (memClock s), mkMemory _ (memManager s) (memStore s) (memClock s + 1))
|}.

#[export] Instance memEnvSpec `{TypesLib} : SwapEnvSpec memory.
Proof.
  refine {| stored := memStored; swapStorable := fun _ => True |}; try (by intros); try (by destruct s).
  - intros s id i Hi. by apply map_lookup_filter_Some in Hi as [_ ?].
  - intros s. by eexists _, _.
  - intros i s. assert (Hi : memStored (mkMemory _ (memManager s) (<[iOfferID i := i]> (memStore s)) (memClock s))
      = <[iOfferID i := i]> (memStored s)) by (unfold memStored; by apply map_filter_insert_True).
    eexists _, _. split_and!; [done..| |done]. intros id Hne. cbn. by rewrite Hi, lookup_insert_ne.
  - intros id s. eexists _, _. split_and!; [done..|]. by destruct (memStored s !! id).
  - intros s. eexists _, _. split_and!; [done..|]. by intros l [= <-].
Defined.

(** A swap in progress, as the maker creates it. *)
Definition sampleInfo `{TypesLib} (st : Status) : Info :=
  NewInfo 5 5 "peer" (repeat Byte.x07 32) ProvidesXMR (apdNew 1 0) (apdNew 2 (-1)) None EthAssetETH st 100.

Lemma sampleInfo_kept st : infoKept (sampleInfo st).
Proof. split; cbn; try done; unfold exactDecimal, fitsDigits, apdMaxExponent; by cbn. Qed.

(** A codec for the sample swap alone. *)
#[export] Instance sampleJson `{TypesLib} : InfoJson := {|
  infoMarshal := fun i =>
    if decide (i = sampleInfo XMRLocked) then Ok [Byte.x01] else Err (errorf "not encodable");
  infoVersionOf := fun _ => Ok (Some CurInfoVersion);
  infoUnmarshalStruct := fun _ => Ok (sampleInfo XMRLocked);
  infoValidateStruct := fun _ => None
|}.

#[export] Instance sampleJsonSpec : InfoJsonSpec.
Proof.
  refine {| peerKept := fun _ => True |}.
  - intros i b. cbn. case_decide; [|done]. by subst.
  - intros i b _ _. cbn. case_decide; [|done]. by subst.
  - intros i j b. cbn. case_decide; [|done]. intros _ [= <-]. by subst.
  - intros [[a b] c]. cbn [versionGreaterThan refTypes]. rewrite !Nat.ltb_irrefl. by rewrite !andb_false_r.
Defined.

(** ** The properties *)

(** C32: functional.  The manager has a swap as ongoing from the moment it is added until it
    is completed, and as past from then on.  [AddSwap] files the object it is given and
    stores it.  Whatever calls the clients make after that, failing, panicking or blocking
    ones included, as long as none adds or completes a swap of the same ID: an object that
    was added with a final status is the one [GetPastSwap] returns; one that was added with
    an ongoing status is the one [GetOngoingSwap] returns, and completing it stamps its end
    time, stores the stamped object and files it as past: after that, and after whatever
    calls elsewhere, [GetOngoingSwap] and a second [CompleteOngoingSwap] find nothing and
    [GetPastSwap] returns the same object.  What is said of the database holds when the
    write succeeded, what is said of the manager in any case. *)
Theorem manager_tracks_swap `{InfoJson} {S : Type} `{!SwapEnv S} `{!SwapEnvSpec S} (l : nat) (i : Info) (b : bool) (s : S) :
  mgrWf (getManager s) → infos (getManager s) !! l = Some i → swapStorable i → IsOngoing (iStatus i) = Done b →
  ∃ r s0, AddSwap l s = (Done r, s0) ∧ (r = Ok tt → stored s0 !! iOfferID i = Some i) ∧
  ∀ s1, rtc (elsewhere (iOfferID i)) s0 s1 →
  if b then
    GetOngoingSwap (iOfferID i) s1 = (Done (Ok l), s1) ∧
    ∃ j now r' s2, infos (getManager s1) !! l = Some j ∧ iOfferID j = iOfferID i ∧
      CompleteOngoingSwap l s1 = (Done r', s2) ∧
      infos (getManager s2) !! l = Some (MarkSwapComplete now j) ∧
      (swapStorable j → r' = Ok tt → stored s2 !! iOfferID i = Some (MarkSwapComplete now j)) ∧
      ∀ s3, rtc (elsewhere (iOfferID i)) s2 s3 →
        GetOngoingSwap (iOfferID i) s3 = (Done (Err errNoSwapWithOfferID), s3) ∧
        GetPastSwap (iOfferID i) s3 = (Done (Ok l), s3) ∧
        CompleteOngoingSwap l s3 = (Done (Err errNoSwapWithOfferID), s3)
  else GetPastSwap (iOfferID i) s1 = (Done (Ok l), s1).
Proof.
  intros W Hl Hstor Hb. pose proof (keeps_AddSwap l s W) as W0. rewrite (AddSwap_run _ _ _ _ Hl Hb) in W0 |- *.
  destruct (putSwap_runs i (putManager (if b then setOngoing (<[iOfferID i := l]> (ongoing (getManager s))) (getManager s)
    else setPast (<[iOfferID i := l]> (past (getManager s))) (getManager s)) s)) as (r & s0 & Hp & Hg & _ & Hst).
  rewrite Hp in W0 |- *. rewrite get_put in Hg. rewrite stored_put in Hst. cbn [snd] in W0. exists r, s0.
  split_and!; [done | intros ->; rewrite Hst by done; by rewrite lookup_insert_eq |].
  intros s1 Hs1. apply elsewhere_rtc in Hs1 as [[Ho1 Hp1] W1]. specialize (W1 W0). destruct b.
  - rewrite Hg in Ho1. cbn in Ho1. rewrite lookup_insert_eq in Ho1.
    split; [unfold GetOngoingSwap, pbind, gets; by rewrite Ho1|].
    destruct (Complete_filed _ _ _ W1 Ho1) as (j & now & r' & s2 & Hj & Hid & Hc & W2 & Hi2 & Hst2 & Ho2 & Hp2).
    exists j, now, r', s2. split_and!; [done..|]. intros s3 Hs3.
    apply elsewhere_rtc in Hs3 as [[Ho3 Hp3] W3]. apply past_found; [auto | auto | congruence].
  - unfold GetPastSwap, pbind, gets. rewrite (Hp1 l); [done|]. rewrite Hg. cbn. by rewrite lookup_insert_eq.
Qed.

Definition sampleMemory `{TypesLib} : memory := mkMemory _ emptyManager ∅ 10.

(** A new swap; then its status changes and somebody subscribes; then it is completed. *)
Definition sampleNew : memory := (runCall (CallNewInfo (sampleInfo KeysExchanged)) sampleMemory).2.

Lemma manager_tracks_swap_witness :
  GetOngoingSwap (repeat Byte.x07 32) (runCall (CallSetStatus 0 CompletedSuccess) (AddSwap 0 sampleNew).2).2 =
    (Done (Ok 0%nat), (runCall (CallSetStatus 0 CompletedSuccess) (AddSwap 0 sampleNew).2).2).
Proof.
  destruct (manager_tracks_swap 0 (sampleInfo KeysExchanged) true sampleNew) as (r & s0 & Ha & _ & Hs).
  - apply managerStep_wf, wf_empty.
  - reflexivity.
  - exact I.
  - reflexivity.
  - rewrite Ha. cbn [snd]. apply (Hs (runCall (CallSetStatus 0 CompletedSuccess) s0).2).
    apply rtc_once. exists (CallSetStatus 0 CompletedSuccess). split; [by intros [] | reflexivity].
Defined.

(** A restart recovers exactly the unfinished swaps: when [NewManager]
    succeeds, the ongoing map has an object for each stored swap with an ongoing
    status, equal to what was stored, and for no other. It runs whenever no
    stored status is unknown. *)
Theorem NewManager_recovers_ongoing `{InfoJson} {S : Type} `{!SwapEnv S} `{!SwapEnvSpec S} (s : S) :
  (∀ id i, stored s !! id = Some i → iStatus i ≠ UnknownStatus) →
  ∃ r s', NewManager s = (Done r, s') ∧ stored s' = stored s ∧
    (r = Ok tt → mgrWf (getManager s') ∧ past (getManager s') = ∅ ∧
      ∀ id i, (stored s' !! id = Some i ∧ IsOngoing (iStatus i) = Done true) ↔
        (∃ l, ongoing (getManager s') !! id = Some l ∧ infos (getManager s') !! l = Some i)).
Proof. apply NewManager_mirrors. Qed.

(** A store with one unfinished swap. *)
Definition sampleRestart : memory :=
  mkMemory _ emptyManager {[repeat Byte.x07 32 := sampleInfo XMRLocked]} 10.

Lemma NewManager_recovers_ongoing_witness :
  ∃ r s', NewManager sampleRestart = (Done r, s') ∧ stored s' = stored sampleRestart ∧
    (r = Ok tt → mgrWf (getManager s') ∧ past (getManager s') = ∅ ∧
      ∀ id i, (stored s' !! id = Some i ∧ IsOngoing (iStatus i) = Done true) ↔
        (∃ l, ongoing (getManager s') !! id = Some l ∧ infos (getManager s') !! l = Some i)).
Proof.
  apply (NewManager_recovers_ongoing sampleRestart).
  intros id i Hi. apply map_lookup_filter_Some in Hi as [Hi _].
  cbn [memStore sampleRestart] in Hi. apply lookup_singleton_Some in Hi as [_ <-]. done.
Defined.

(** [CompleteOngoingSwap] on a swap that is not ongoing is an error that
    changes nothing. On an ongoing one it moves the very object to the past
    swaps, stamps its end time and keeps its status: afterwards the ID is not
    ongoing, [GetPastSwap] returns the same object, other swaps are where they
    were, and the stored copy is the stamped one when the write succeeded. *)
Theorem CompleteOngoingSwap_effect `{InfoJson} {S : Type} `{!SwapEnv S} `{!SwapEnvSpec S}
    (l : nat) (i : Info) (s : S) :
  infos (getManager s) !! l = Some i → swapStorable i →
  ∃ r s', CompleteOngoingSwap l s = (Done r, s') ∧
  match ongoing (getManager s) !! iOfferID i with
  | None => r = Err errNoSwapWithOfferID ∧ s' = s
  | Some _ =>
      HasOngoingSwap (iOfferID i) s' = (Done false, s') ∧
      GetPastSwap (iOfferID i) s' = (Done (Ok l), s') ∧
      (∃ now, infos (getManager s') !! l = Some (MarkSwapComplete now i) ∧
        (r = Ok tt → stored s' !! iOfferID i = Some (MarkSwapComplete now i))) ∧
      (∀ id, id ≠ iOfferID i →
        ongoing (getManager s') !! id = ongoing (getManager s) !! id ∧
        past (getManager s') !! id = past (getManager s) !! id ∧
        stored s' !! id = stored s !! id)
  end.
Proof.
  intros Hl Hstor. pose proof (CompleteOngoingSwap_run _ _ _ Hl) as Hrun.
  destruct (ongoing (getManager s) !! iOfferID i) as [l'|]; [|by eexists _, s].
  destruct Hrun as (now & s1 & _ & Hm & Hs & ->).
  destruct (putSwap_runs (MarkSwapComplete now i) (putManager (completed now l i (getManager s)) s1))
    as (r & s' & Hp & Hg & Hoth & Hst). rewrite get_put in Hg. rewrite stored_put, Hs in Hoth, Hst.
  exists r, s'. split; [done|].
  unfold HasOngoingSwap, GetPastSwap, pbind, gets. rewrite Hg. unfold completed. msimpl.
  rewrite lookup_delete_eq. split_and!; [done | done | |].
  - exists now. split; [done|]. intros ->. rewrite Hst by auto using storable_complete. by rewrite lookup_insert_eq.
  - intros id Hne. rewrite lookup_delete_ne, lookup_insert_ne by done. split_and!; [done..|].
    by apply Hoth.
Qed.

(** The sample swap as an ongoing object. *)
Definition sampleOngoing (st : Status) : memory :=
  mkMemory _ (mkManager _ {[0%nat := sampleInfo st]} 1 {[repeat Byte.x07 32 := 0%nat]} ∅ ∅ ∅ 0)
    {[repeat Byte.x07 32 := sampleInfo st]} 10.

Lemma CompleteOngoingSwap_effect_witness :
  ∃ r s', CompleteOngoingSwap 0 (sampleOngoing CompletedSuccess) = (Done r, s') ∧
  match ongoing (getManager (sampleOngoing CompletedSuccess)) !! repeat Byte.x07 32 with
  | None => r = Err errNoSwapWithOfferID ∧ s' = sampleOngoing CompletedSuccess
  | Some _ =>
      HasOngoingSwap (repeat Byte.x07 32) s' = (Done false, s') ∧
      GetPastSwap (repeat Byte.x07 32) s' = (Done (Ok 0%nat), s') ∧
      (∃ now, infos (getManager s') !! 0%nat = Some (MarkSwapComplete now (sampleInfo CompletedSuccess)) ∧
        (r = Ok tt → stored s' !! repeat Byte.x07 32 =
          Some (MarkSwapComplete now (sampleInfo CompletedSuccess)))) ∧
      (∀ id, id ≠ repeat Byte.x07 32 →
        ongoing (getManager s') !! id = ongoing (getManager (sampleOngoing CompletedSuccess)) !! id ∧
        past (getManager s') !! id = past (getManager (sampleOngoing CompletedSuccess)) !! id ∧
        stored s' !! id = stored (sampleOngoing CompletedSuccess) !! id)
  end.
Proof.
  apply (CompleteOngoingSwap_effect 0 (sampleInfo CompletedSuccess) (sampleOngoing CompletedSuccess));
    [reflexivity | exact I].
Defined.

(** C33: refinement.  Memory and database agree on what is unfinished after each persisting
    operation whose write succeeds: adding an ongoing swap, rewriting one whose fields
    changed, and completing one with a final status (re-)establish that a restart would find
    exactly the ongoing swaps.  Completing a swap whose status is not final breaks the
    agreement at that swap and nowhere else: the manager no longer has it as ongoing, a
    restart would find it ongoing again. *)
Theorem persisting_operations_mirror `{InfoJson} {S : Type} `{!SwapEnv S} `{!SwapEnvSpec S}
    (l : nat) (i : Info) (s s' : S) :
  mgrWf (getManager s) → infos (getManager s) !! l = Some i → swapStorable i →
  (IsOngoing (iStatus i) = Done true → mirrorsBut (iOfferID i) s →
     (AddSwap l s = (Done (Ok tt), s') → mirrors s') ∧
     (ongoing (getManager s) !! iOfferID i = Some l →
      WriteSwapToDB l s = (Done (Ok tt), s') → mirrors s')) ∧
  (CompleteOngoingSwap l s = (Done (Ok tt), s') → mirrors s →
     (IsOngoing (iStatus i) = Done false → mirrors s') ∧
     (IsOngoing (iStatus i) = Done true → mirrorsBut (iOfferID i) s' ∧
        ongoing (getManager s') !! iOfferID i = None ∧
        ∃ i', stored s' !! iOfferID i = Some i' ∧ IsOngoing (iStatus i') = Done true)).
Proof.
  intros W Hl Hstor. split.
  - intros Hon Hm. split.
    + intros Ha. pose proof (keeps_AddSwap l s W) as W'. rewrite Ha in W'.
      rewrite (AddSwap_run _ _ _ _ Hl Hon) in Ha.
      destruct (putSwap_runs i (putManager (setOngoing (<[iOfferID i := l]> (ongoing (getManager s)))
        (getManager s)) s)) as (r & s1 & Hp & Hg & _ & Hst).
      rewrite Hp in Ha. injection Ha as -> ->. rewrite get_put in Hg. rewrite stored_put in Hst.
      specialize (Hst eq_refl Hstor). eapply mirrors_filed; eauto; by rewrite Hg.
    + intros Ho. unfold WriteSwapToDB, pbind. rewrite (readInfo_run _ _ _ Hl).
      destruct (putSwap_runs i s) as (r & s1 & Hp & Hg & _ & Hst). rewrite Hp. intros [= -> ->].
      specialize (Hst eq_refl Hstor).
      eapply (mirrors_filed s s' l); eauto; try (by rewrite Hg).
      rewrite Hg. by rewrite insert_id.
  - intros Hc Hm. pose proof (CompleteOngoingSwap_run _ _ _ Hl) as Hrun.
    destruct (ongoing (getManager s) !! iOfferID i); [|by rewrite Hc in Hrun].
    destruct Hrun as (now & s1 & _ & _ & Hs & Hrun). rewrite Hc in Hrun.
    destruct (putSwap_runs (MarkSwapComplete now i)
      (putManager (completed now l i (getManager s)) s1)) as (r & s2 & Hp & Hg & _ & Hst).
    rewrite Hp in Hrun. injection Hrun as <- <-.
    specialize (Hst eq_refl (storable_complete now i Hstor)). rewrite get_put in Hg. rewrite stored_put, Hs in Hst.
    split; [intros Hfin; by eapply mirrors_completed|]. intros Hon. split; [by eapply mirrorsBut_completed|].
    rewrite Hg, Hst. cbn. rewrite lookup_delete_eq, lookup_insert_eq. eauto.
Qed.

Lemma sampleOngoing_wf st : mgrWf (getManager (sampleOngoing st)).
Proof.
  split; cbn [getManager memEnv memManager sampleOngoing ongoing past infos nextInfo statusChannels chans nextChan].
  - intros id l Hl. apply lookup_singleton_Some in Hl as [<- <-]. eexists. by rewrite lookup_singleton_eq.
  - intros id l Hl. by rewrite lookup_empty in Hl.
  - intros l i Hl. apply lookup_singleton_Some in Hl as [<- _]. lia.
  - intros id c Hc. by rewrite lookup_empty in Hc.
  - intros c b Hc. by rewrite lookup_empty in Hc.
Qed.

Lemma persisting_operations_mirror_witness :
  mirrors (WriteSwapToDB 0 (sampleOngoing XMRLocked)).2.
Proof.
  refine (proj2 (proj1 (persisting_operations_mirror 0 (sampleInfo XMRLocked)
    (sampleOngoing XMRLocked) (WriteSwapToDB 0 (sampleOngoing XMRLocked)).2 _ _ I) _ _) _ _);
    try reflexivity.
  - apply sampleOngoing_wf.
  - intros id i Hne. split.
    + intros [Hi _]. apply map_lookup_filter_Some in Hi as [Hi _].
      cbn [memStore sampleOngoing] in Hi. apply lookup_singleton_Some in Hi as [<- _]. by destruct Hne.
    + intros (l & Hl & _). cbn [getManager memEnv memManager sampleOngoing ongoing] in Hl.
      apply lookup_singleton_Some in Hl as [<- _]. by destruct Hne.
Defined.

(** A snapshot is a copy: [GetOngoingSwapSnapshot] returns a fresh object with
    the contents of the live one, which neither map refers to, so that later
    updates of the live object do not show in it; [GetOngoingSwap] returns the
    live object itself. *)
Theorem snapshot_is_a_copy `{InfoJsonSpec} {S : Type} `{!SwapEnv S} `{!SwapEnvSpec S}
    (id : Hash) (l : nat) (i : Info) (b : bytes) (s : S) :
  mgrWf (getManager s) → ongoing (getManager s) !! id = Some l →
  infos (getManager s) !! l = Some i → infoKept i → peerKept (iPeerID i) →
  infoMarshal i = Ok b → iVersion i = CurInfoVersion → infoValidateStruct i = None →
  GetOngoingSwap id s = (Done (Ok l), s) ∧
  ∃ l' s', GetOngoingSwapSnapshot id s = (Done (Ok l'), s') ∧
    infos (getManager s') !! l' = Some i ∧ l' ≠ l ∧
    ongoing (getManager s') = ongoing (getManager s) ∧ past (getManager s') = past (getManager s) ∧
    (∀ id', ongoing (getManager s') !! id' ≠ Some l' ∧ past (getManager s') !! id' ≠ Some l') ∧
    ∀ f, infos (getManager (updateInfo f l s').2) !! l' = Some i.
Proof.
  intros W Ho Hi Hk Hpe Hb Hv Hval.
  assert (Hlive : GetOngoingSwap id s = (Done (Ok l), s)).
  { unfold GetOngoingSwap, pbind, gets. by rewrite Ho. }
  split; [done|]. assert (Hlt := wf_infos _ W _ _ Hi).
  assert (Hcopy : DeepCopy i = Ok i).
  { unfold DeepCopy, Info_UnmarshalJSON.
    by rewrite Hb, (info_version _ _ Hb), Hv, info_current, (info_struct _ _ Hk Hpe Hb), Hval. }
  assert (Hfresh : ∀ id', ongoing (getManager s) !! id' ≠ Some (nextInfo (getManager s)) ∧
                          past (getManager s) !! id' ≠ Some (nextInfo (getManager s))).
  { intros id'. split; intros Hx;
      [destruct (wf_ongoing _ W _ _ Hx) as (j & Hj & _) | destruct (wf_past _ W _ _ Hx) as (j & Hj & _)];
      apply (wf_infos _ W) in Hj; lia. }
  unfold GetOngoingSwapSnapshot, tryBind, pbind. rewrite Hlive, (readInfo_run _ _ _ Hi), Hcopy.
  unfold newInfoObject, onManager, allocInfo. eexists _, _. split; [reflexivity|]. msimpl.
  split_and!; auto; [lia|]. intros f.
  assert (Hl' : infos (getManager (putManager (setNextInfo (1 + nextInfo (getManager s))
     (setInfos (<[nextInfo (getManager s) := i]> (infos (getManager s))) (getManager s))) s)) !! l = Some i).
  { msimpl. rewrite lookup_insert_ne by lia. done. }
  rewrite (updateInfo_run _ _ _ _ Hl'). cbn [snd]. msimpl. rewrite lookup_insert_ne by lia.
  by rewrite lookup_insert_eq.
Qed.

Lemma snapshot_is_a_copy_witness :
  GetOngoingSwap (repeat Byte.x07 32) (sampleOngoing XMRLocked) =
    (Done (Ok 0%nat), sampleOngoing XMRLocked) ∧
  ∃ l' s', GetOngoingSwapSnapshot (repeat Byte.x07 32) (sampleOngoing XMRLocked) = (Done (Ok l'), s') ∧
    infos (getManager s') !! l' = Some (sampleInfo XMRLocked) ∧ l' ≠ 0%nat ∧
    ongoing (getManager s') = ongoing (getManager (sampleOngoing XMRLocked)) ∧
    past (getManager s') = past (getManager (sampleOngoing XMRLocked)) ∧
    (∀ id', ongoing (getManager s') !! id' ≠ Some l' ∧ past (getManager s') !! id' ≠ Some l') ∧
    ∀ f, infos (getManager (updateInfo f 0 s').2) !! l' = Some (sampleInfo XMRLocked).
Proof.
  apply (snapshot_is_a_copy (repeat Byte.x07 32) 0 (sampleInfo XMRLocked) [Byte.x01]
    (sampleOngoing XMRLocked)); try reflexivity; [apply sampleOngoing_wf | apply sampleInfo_kept].
Defined.

(** A subscriber loses no status: from an empty channel, up to five statuses
    of an ongoing swap followed by its final status are pushed without blocking
    and sit in the subscriber's channel in order; after the final one the
    channel is retired, so that a new subscriber gets another channel. A seventh
    unread status would block the swap. *)
Theorem status_channel_capacity `{InfoJson} {S : Type} `{!SwapEnv S} `{!SwapEnvSpec S}
    (id : Hash) (c : nat) (sts : list Status) (final : Status) (s : S) :
  mgrWf (getManager s) → statusChannels (getManager s) !! id = Some c →
  chans (getManager s) !! c = Some [] →
  Forall (fun st => IsOngoing st = Done true) sts → IsOngoing final = Done false →
  ((length sts < statusChSize)%nat →
     ∃ s', pushAll id (sts ++ [final]) s = (Done tt, s') ∧
       chans (getManager s') !! c = Some (sts ++ [final]) ∧
       statusChannels (getManager s') !! id = None) ∧
  (length sts = statusChSize →
     ∃ s', pushAll id (sts ++ [final]) s = (Blocked, s')).
Proof.
  intros W Hc Hb Hon Hfin. split; intros Hlen; [by apply pushAll_final_run|].
  assert (Hbuf : bufferOf id s = []) by (unfold bufferOf; rewrite Hc; cbn; by rewrite Hb).
  destruct (pushAll_run id c sts s W Hc Hon) as (m' & Hp & W' & Hc' & Hb'); [rewrite Hbuf; cbn; lia|].
  rewrite Hbuf in Hb'. cbn in Hb'. rewrite (pushAll_app _ _ _ _ _ Hp). cbn [pushAll].
  unfold PushNewStatus, getStatusChan, sendStatus, pbind, gets. rewrite get_put, Hc'. cbn.
  rewrite get_put, Hb'. cbn. rewrite Hlen. cbn. eauto.
Qed.

(** A manager with one subscribed swap. *)
Definition sampleSubscribed : memory :=
  mkMemory _ (mkManager _ ∅ 0 ∅ ∅ {[repeat Byte.x07 32 := 0%nat]} {[0%nat := []]} 1) ∅ 10.

Lemma sampleSubscribed_wf : mgrWf (getManager sampleSubscribed).
Proof.
  split; cbn [getManager memEnv memManager sampleSubscribed ongoing past infos nextInfo
    statusChannels chans nextChan]; intros ? ? Hx.
  - by rewrite lookup_empty in Hx.
  - by rewrite lookup_empty in Hx.
  - by rewrite lookup_empty in Hx.
  - apply lookup_singleton_Some in Hx as [_ <-]. by rewrite lookup_singleton_eq.
  - apply lookup_singleton_Some in Hx as [<- <-]. cbn. unfold statusChSize. lia.
Qed.

Lemma status_channel_capacity_witness :
  ∃ s', pushAll (repeat Byte.x07 32) ([KeysExchanged; XMRLocked; SweepingXMR] ++ [CompletedRefund])
          sampleSubscribed = (Done tt, s') ∧
    chans (getManager s') !! 0%nat =
      Some ([KeysExchanged; XMRLocked; SweepingXMR] ++ [CompletedRefund]) ∧
    statusChannels (getManager s') !! repeat Byte.x07 32 = None.
Proof.
  refine (proj1 (status_channel_capacity (repeat Byte.x07 32) 0
    [KeysExchanged; XMRLocked; SweepingXMR] CompletedRefund sampleSubscribed _ _ _ _ _) _);
    try reflexivity.
  - apply sampleSubscribed_wf.
  - repeat constructor.
  - cbn. unfold statusChSize. lia.
Defined.
