(* ===== verification/Offers.v ===== *)
(** * The offer manager (package protocol/xmrmaker/offers)

    The manager caches the offers that can be taken; its database is the class
    [OfferEnv] with the promise [OfferEnvSpec]. *)

From stdpp Require Import base gmap list strings.
From Stdlib Require Import ZArith.
From S2P Require Import Prelude Coins Types TypesProofs Swap.

Open Scope Z_scope.
Open Scope go_scope.

Definition errOfferDoesNotExist : error :=
  Sentinel "errOfferDoesNotExist" "offer with given ID does not exist".

(** [map[types.Hash]*offerWithExtra] *)
Abbreviation offerMap := (gmap Hash (Offer * OfferExtra)).

Class OfferEnv `{TypesLib} (S : Type) := {
  getOfferMap : S → offerMap;
  putOfferMap : offerMap → S → S;
  dbPutOffer : Offer → prog S (result unit);
  dbDeleteOffer : Hash → prog S (result unit);
  dbGetAllOffers : prog S (result (list Offer));
  dbClearAllOffers : prog S (result unit)
}.

Section operations.
Context `{TypesLib} {S : Type} `{!OfferEnv S}.

Definition withOffers (f : offerMap → offerMap) : prog S unit :=
  modify (fun s => putOfferMap (f (getOfferMap s)) s).

(** The loop of [NewManager]. *)
Definition loadOffers (saved : list Offer) : offerMap :=
  foldl (fun m o => <[oID o := (o, NewOfferExtra false)]> m) ∅ saved.

Definition NewOfferManager : prog S (result unit) :=
  savedOffers <-? dbGetAllOffers ;;
  withOffers (fun _ => loadOffers savedOffers) ;;;
  done (Ok tt).

Definition GetOffer (id : Hash) : prog S (result (Offer * OfferExtra)) :=
  found <- gets (fun s => getOfferMap s !! id) ;;
  done (match found with Some oe => Ok oe | None => Err errOfferDoesNotExist end).

Definition AddOffer (offer : Offer) (useRelayer : bool) : prog S (result OfferExtra) :=
  found <- gets (fun s => getOfferMap s !! oID offer) ;;
  match found with
  | Some oe => done (Ok oe.2)
  | None =>
      _ <-? dbPutOffer offer ;;
      let extra := NewOfferExtra useRelayer in
      withOffers (<[oID offer := (offer, extra)]>) ;;;
      done (Ok extra)
  end.

Definition TakeOffer (id : Hash) : prog S (result (Offer * OfferExtra)) :=
  found <- gets (fun s => getOfferMap s !! id) ;;
  match found with
  | None => done (Err errOfferDoesNotExist)
  | Some oe => withOffers (delete id) ;;; done (Ok oe)
  end.

(** In the order of a Go map, any order. *)
Definition GetOffers : prog S (list Offer) :=
  gets (fun s => (fun p => p.2.1) <$> map_to_list (getOfferMap s)).

Definition ClearAllOffers : prog S (result unit) :=
  _ <-? dbClearAllOffers ;;
  withOffers (fun _ => ∅) ;;;
  done (Ok tt).

Definition OfferManager_DeleteOffer (id : Hash) : prog S (result unit) :=
  withOffers (delete id) ;;;
  r <- dbDeleteOffer id ;;
  done (match r with
        | Err e => if errorsIs ErrKeyNotFound e then Ok tt else Err e
        | Ok _ => Ok tt
        end).

Fixpoint ClearOfferIDs (ids : list Hash) : prog S (result unit) :=
  match ids with
  | [] => done (Ok tt)
  | id :: rest =>
      withOffers (delete id) ;;;
      r <- dbDeleteOffer id ;;
      match r with
      | Err e => if errorsIs ErrKeyNotFound e then ClearOfferIDs rest else done (Err e)
      | Ok _ => ClearOfferIDs rest
      end
  end.

Definition NumOffers : prog S nat := gets (fun s => size (getOfferMap s)).

End operations.

(** ** What the database promises

    A deletion or clearing that reports an error may have been done in part.
    [offerStorable] are the offers that are read back as they were written. *)
Class OfferEnvSpec `{TypesLib} (S : Type) `{!OfferEnv S} := {
  storedOffers : S → gmap Hash Offer;
  offerStorable : Offer → Prop;
  getOffers_put m s : getOfferMap (putOfferMap m s) = m;
  storedOffers_put m s : storedOffers (putOfferMap m s) = storedOffers s;
  storedOffers_ids s id o : storedOffers s !! id = Some o → oID o = id;
  putOffer_runs o s : ∃ r s', dbPutOffer o s = (Done r, s') ∧ getOfferMap s' = getOfferMap s ∧
    (r = Ok tt → offerStorable o → storedOffers s' = <[oID o := o]> (storedOffers s)) ∧
    (∀ id, id ≠ oID o → storedOffers s' !! id = storedOffers s !! id);
  deleteOffer_runs id s : ∃ r s', dbDeleteOffer id s = (Done r, s') ∧
    getOfferMap s' = getOfferMap s ∧
    (r = Ok tt → storedOffers s' = delete id (storedOffers s)) ∧
    (∀ id', id' ≠ id → storedOffers s' !! id' = storedOffers s !! id');
  clearAllOffers_runs s : ∃ r s', dbClearAllOffers s = (Done r, s') ∧
    (r = Ok tt → getOfferMap s' = getOfferMap s ∧ storedOffers s' = ∅);
  getAllOffers_runs s : ∃ r s', dbGetAllOffers s = (Done r, s') ∧
    getOfferMap s' = getOfferMap s ∧ storedOffers s' = storedOffers s ∧
    ∀ l, r = Ok l → l ≡ₚ (snd <$> map_to_list (storedOffers s))
}.

Section proofs.
Context `{TL : TypesLib} {S : Type} `{!OfferEnv S} `{OS : !OfferEnvSpec S}.

(** Every cached offer is filed under its ID and is in the database. *)
Definition offersPersisted (s : S) : Prop := ∀ id oe, getOfferMap s !! id = Some oe →
  oID oe.1 = id ∧ storedOffers s !! id = Some oe.1.

Lemma persisted_delete id s s' : offersPersisted s →
  getOfferMap s' = delete id (getOfferMap s) →
  (∀ id', id' ≠ id → storedOffers s' !! id' = storedOffers s !! id') → offersPersisted s'.
Proof.
  intros I Hm Hs id' oe. rewrite Hm. intros Hd. apply lookup_delete_Some in Hd as [Hne Ho].
  destruct (I _ _ Ho). by rewrite Hs.
Qed.

Lemma AddOffer_persisted o b : offerStorable o → keeps (preserving offersPersisted) (AddOffer o b).
Proof.
  intros Hstor s I. unfold AddOffer, tryBind, pbind, gets.
  destruct (getOfferMap s !! oID o) as [oe|] eqn:Ho; [done|].
  destruct (putOffer_runs o s) as (r & s1 & -> & Hm & Hok & Hoth).
  destruct r as [[]|e]; cbn.
  - intros id oe. rewrite getOffers_put, storedOffers_put, Hm, (Hok eq_refl Hstor).
    destruct (decide (id = oID o)) as [->|Hne].
    + rewrite !lookup_insert_eq. by intros [= <-].
    + rewrite !lookup_insert_ne by done. apply I.
  - intros id oe. rewrite Hm. intros Hid. destruct (decide (id = oID o)) as [->|Hne]; [congruence|].
    rewrite Hoth by done. by apply I.
Qed.

Lemma TakeOffer_persisted id : keeps (preserving offersPersisted) (TakeOffer id).
Proof.
  intros s I. unfold TakeOffer, pbind, gets. destruct (getOfferMap s !! id) as [oe|]; [|done]. cbn.
  eapply persisted_delete; [done | by rewrite getOffers_put |]. intros. by rewrite storedOffers_put.
Qed.

(** Deleting from the cache and then from the database, whatever the latter
    answers. *)
Lemma delete_persisted id s r s1 : offersPersisted s →
  dbDeleteOffer id (putOfferMap (delete id (getOfferMap s)) s) = (Done r, s1) → offersPersisted s1.
Proof.
  intros I Hd. destruct (deleteOffer_runs id (putOfferMap (delete id (getOfferMap s)) s))
    as (r' & s1' & Hd' & Hm & _ & Hoth). rewrite Hd in Hd'. injection Hd' as -> ->.
  eapply persisted_delete; [done | by rewrite Hm, getOffers_put |].
  intros. rewrite Hoth by done. by rewrite storedOffers_put.
Qed.

Lemma DeleteOffer_persisted id : keeps (preserving offersPersisted) (OfferManager_DeleteOffer id).
Proof.
  intros s I. unfold OfferManager_DeleteOffer, pbind. cbn.
  destruct (deleteOffer_runs id (putOfferMap (delete id (getOfferMap s)) s)) as (r & s1 & Hd & _).
  rewrite Hd. cbn. by eapply delete_persisted.
Qed.

Lemma ClearOfferIDs_persisted ids : keeps (preserving offersPersisted) (ClearOfferIDs ids).
Proof.
  induction ids as [|id ids IH]; intros s I; [done|]. cbn [ClearOfferIDs]. unfold withOffers, modify, pbind.
  destruct (deleteOffer_runs id (putOfferMap (delete id (getOfferMap s)) s)) as (r & s1 & Hd & _).
  rewrite Hd. pose proof (delete_persisted _ _ _ _ I Hd) as I1.
  destruct r as [|e]; [by apply IH|]. destruct (errorsIs ErrKeyNotFound e); [by apply IH | done].
Qed.

Lemma loadOffers_lookup (l : list Offer) id : NoDup (oID <$> l) →
  loadOffers l !! id =
    match list_find (fun o => oID o = id) l with
    | Some (_, o) => Some (o, NewOfferExtra false)
    | None => None
    end.
Proof.
  unfold loadOffers. induction l as [|o l IH] using rev_ind; [cbn [foldl list_find]; by rewrite lookup_empty|].
  rewrite fmap_app. intros Hnd. apply NoDup_app in Hnd as (Hnd & Hdis & _).
  rewrite foldl_snoc. destruct (decide (oID o = id)) as [<-|Hne].
  - rewrite lookup_insert_eq.
    assert (Hnone : list_find (fun o' => oID o' = oID o) l = None).
    { apply list_find_None, Forall_forall. intros o' Ho' Heq. eapply (Hdis (oID o')).
      - by apply list_elem_of_fmap_2.
      - rewrite Heq. cbn. set_solver. }
    rewrite list_find_app_r by done. cbn. by rewrite decide_True.
  - rewrite lookup_insert_ne by done. rewrite IH by done.
    destruct (list_find (fun o' => oID o' = id) l) as [[k o']|] eqn:Hf.
    + by rewrite (list_find_app_l _ _ _ _ _ Hf).
    + rewrite list_find_app_r by done. cbn. by rewrite decide_False.
Qed.

End proofs.

(** ** Witness environment: offers in memory *)

Record offerMemory : Type := mkOfferMemory {
  memOffers : gmap Hash (Offer * OfferExtra);
  memOfferStore : gmap Hash Offer
}.

Definition memStoredOffers (s : offerMemory) : gmap Hash Offer :=
  filter (fun p => oID p.2 = p.1) (memOfferStore s).

#[export] Instance memOfferEnv : OfferEnv offerMemory := {|
  getOfferMap := memOffers;
  putOfferMap := fun m s => mkOfferMemory m (memOfferStore s);
  dbPutOffer := fun o s => (Done (Ok tt), mkOfferMemory (memOffers s) (<[oID o := o]> (memOfferStore s)));
  dbDeleteOffer := fun id s => (Done (Ok tt), mkOfferMemory (memOffers s) (delete id (memOfferStore s)));
  dbGetAllOffers := fun s => (Done (Ok (snd <$> map_to_list (memStoredOffers s))), s);
  dbClearAllOffers := fun s => (Done (Ok tt), mkOfferMemory (memOffers s) ∅)
|}.

#[export] Instance memOfferEnvSpec : OfferEnvSpec offerMemory.
Proof.
  refine {| storedOffers := memStoredOffers; offerStorable := fun _ => True |}; try (by intros).
  - intros s id o Hi. by apply map_lookup_filter_Some in Hi as [_ ?].
  - intros o s. eexists _, _. split_and!; [done..| |].
    + intros _ _. unfold memStoredOffers. cbn. by apply map_filter_insert_True.
    + intros id Hne. unfold memStoredOffers. cbn. rewrite map_filter_insert_True by done.
      by rewrite lookup_insert_ne.
  - intros id s. eexists _, _. split_and!; [done..| |].
    + intros _. unfold memStoredOffers. cbn. by rewrite map_filter_delete.
    + intros id' Hne. unfold memStoredOffers. cbn. rewrite map_filter_delete.
      by rewrite lookup_delete_ne.
  - intros s. eexists _, _. split_and!; [done..|]. intros _. split; [done|].
    unfold memStoredOffers. cbn. by rewrite map_filter_empty.
  - intros s. eexists _, _. split_and!; [done..|]. by intros l [= <-].
Defined.

Definition sampleOfferMemory : offerMemory :=
  mkOfferMemory {[oID sampleOffer := (sampleOffer, NewOfferExtra true)]}
    {[oID sampleOffer := sampleOffer]}.

(** ** The properties *)

(** The calls of the offer manager's clients. *)
Inductive offerCall `{TypesLib} : Type :=
| CallAddOffer (o : Offer) (useRelayer : bool)
| CallTakeOffer (id : Hash)
| CallDeleteOffer (id : Hash)
| CallClearOfferIDs (ids : list Hash)
| CallClearAllOffers
| CallGetOffer (id : Hash).

Definition runOfferCall `{TypesLib} {S : Type} `{!OfferEnv S} (c : offerCall) : prog S unit :=
  match c with
  | CallAddOffer o b => AddOffer o b ;;; done tt
  | CallTakeOffer id => TakeOffer id ;;; done tt
  | CallDeleteOffer id => OfferManager_DeleteOffer id ;;; done tt
  | CallClearOfferIDs ids => ClearOfferIDs ids ;;; done tt
  | CallClearAllOffers => ClearAllOffers ;;; done tt
  | CallGetOffer id => GetOffer id ;;; done tt
  end.

(** The offers a call adds are read back as they are written, and a call that clears the
    whole database succeeds. *)
Definition callFine `{TypesLib} {S : Type} `{!OfferEnv S} `{!OfferEnvSpec S} (c : offerCall) (s : S) : Prop :=
  match c with
  | CallAddOffer o _ => offerStorable o
  | CallClearAllOffers => (ClearAllOffers s).1 = Done (Ok tt)
  | _ => True
  end.

Fixpoint callsFine `{TypesLib} {S : Type} `{!OfferEnv S} `{!OfferEnvSpec S} (cs : list offerCall) (s : S) : Prop :=
  match cs with
  | [] => True
  | c :: cs => callFine c s ∧ callsFine cs (runOfferCall c s).2
  end.

Lemma ClearAllOffers_persisted `{TypesLib} {S : Type} `{!OfferEnv S} `{!OfferEnvSpec S} (s : S) :
  (ClearAllOffers s).1 = Done (Ok tt) → offersPersisted (ClearAllOffers s).2.
Proof.
  unfold ClearAllOffers, tryBind, pbind. destruct (clearAllOffers_runs s) as (r & s1 & -> & Hok).
  destruct r as [[]|e]; [|done]. intros _ id oe. cbn. by rewrite getOffers_put, lookup_empty.
Qed.

(** C34: invariant.  An offer that can be taken is never lost by a crash: after any sequence
    of calls, failing ones included, every offer the manager would hand out is filed under
    its own ID and is in the database, as long as the offers added are ones the database
    reads back unchanged ([offerStorable]) and no [ClearAllOffers] failed: that one may have
    deleted a part of the offers from the database and leaves all of them on sale. *)
Theorem cached_offers_persisted `{TypesLib} {S : Type} `{!OfferEnv S} `{!OfferEnvSpec S}
    (cs : list offerCall) (s : S) :
  callsFine cs s → offersPersisted s →
  offersPersisted (foldl (fun st c => (runOfferCall c st).2) s cs).
Proof.
  revert s. induction cs as [|c cs IH]; intros s HF I; cbn [foldl]; [done|].
  destruct HF as [Hc HF]. apply IH; [done|].
  destruct c as [o b|id|id|ids| |id]; cbn [runOfferCall callFine] in *.
  5: { pose proof (ClearAllOffers_persisted s Hc) as Hp. unfold pbind. by destruct (ClearAllOffers s) as [[?|?| |] s1]. }
  all: match goal with |- offersPersisted (?m ?s).2 =>
    assert (K : keeps (preserving offersPersisted) m); [|by apply K] end;
    unfold GetOffer; keeps_auto;
    auto using AddOffer_persisted, TakeOffer_persisted, DeleteOffer_persisted, ClearOfferIDs_persisted.
Qed.

Lemma cached_offers_persisted_witness :
  offersPersisted (foldl (fun st c => (runOfferCall c st).2) sampleOfferMemory
    [CallTakeOffer (oID sampleOffer); CallClearAllOffers; CallAddOffer sampleOffer false]).
Proof.
  apply (cached_offers_persisted [CallTakeOffer (oID sampleOffer); CallClearAllOffers; CallAddOffer sampleOffer false]
    sampleOfferMemory); [by repeat constructor|].
  intros id oe Ho. cbn [getOfferMap memOfferEnv memOffers sampleOfferMemory] in Ho.
  apply lookup_singleton_Some in Ho as [<- <-]. split; [done|]. reflexivity.
Defined.

(** What a restart puts on sale. *)
Lemma NewOfferManager_loads `{TypesLib} {S : Type} `{!OfferEnv S} `{!OfferEnvSpec S} (s : S) :
  ∃ r s', NewOfferManager s = (Done r, s') ∧ storedOffers s' = storedOffers s ∧
    (isOk r = true →
      (∀ id, getOfferMap s' !! id = (fun o => (o, NewOfferExtra false)) <$> (storedOffers s !! id)) ∧
      offersPersisted s').
Proof.
  unfold NewOfferManager, tryBind, pbind.
  destruct (getAllOffers_runs s) as (r & s1 & -> & Hm & Hs & Hl).
  destruct r as [l|e]; [|by eexists _, s1]. specialize (Hl l eq_refl). cbn.
  eexists _, _. split; [reflexivity|]. rewrite storedOffers_put, getOffers_put. split; [done|].
  intros _. assert (Hnd : NoDup (oID <$> l)).
  { rewrite Hl, <- list_fmap_compose.
    assert (Heq : (oID ∘ snd) <$> map_to_list (storedOffers s) = (map_to_list (storedOffers s)).*1).
    { apply list_fmap_ext. intros k [id o] Hk. cbn. apply list_elem_of_lookup_2 in Hk.
      apply elem_of_map_to_list in Hk. by apply storedOffers_ids in Hk. }
    rewrite Heq. apply NoDup_fst_map_to_list. }
  assert (Hlook : ∀ id, loadOffers l !! id = (fun o => (o, NewOfferExtra false)) <$> (storedOffers s !! id)).
  { intros id. rewrite loadOffers_lookup by done.
    destruct (list_find (fun o => oID o = id) l) as [[k o]|] eqn:Hf.
    - apply list_find_Some in Hf as (Hk & <- & _). apply list_elem_of_lookup_2 in Hk.
      rewrite Hl in Hk. apply list_elem_of_fmap in Hk as ([id o'] & -> & Hk).
      apply elem_of_map_to_list in Hk. cbn. by rewrite (storedOffers_ids _ _ _ Hk), Hk.
    - destruct (storedOffers s !! id) as [o|] eqn:Ho; [|done]. exfalso.
      apply list_find_None in Hf. rewrite Forall_forall in Hf. apply (Hf o).
      + rewrite Hl. apply list_elem_of_fmap. exists (id, o). split; [done|]. by apply elem_of_map_to_list.
      + by apply storedOffers_ids in Ho. }
  split; [done|]. intros id oe. rewrite getOffers_put, storedOffers_put, Hlook, Hs.
  destruct (storedOffers s !! id) as [o|] eqn:Ho; cbn; [|done]. intros [= <-]. cbn.
  split; [by apply storedOffers_ids in Ho | done].
Qed.

(** A restart makes exactly the stored offers available again, without a forced
    relayer, and establishes the invariant that cached offers are persisted. *)
Theorem NewOfferManager_loads_stored `{TypesLib} {S : Type} `{!OfferEnv S} `{!OfferEnvSpec S} (s : S) :
  ∃ r s', NewOfferManager s = (Done r, s') ∧ storedOffers s' = storedOffers s ∧
    (isOk r = true →
      (∀ id, getOfferMap s' !! id = (fun o => (o, NewOfferExtra false)) <$> (storedOffers s !! id)) ∧
      offersPersisted s').
Proof. apply NewOfferManager_loads. Qed.

Lemma NewOfferManager_loads_stored_witness :
  ∃ r s', NewOfferManager sampleOfferMemory = (Done r, s') ∧
    storedOffers s' = storedOffers sampleOfferMemory ∧
    (isOk r = true →
      (∀ id, getOfferMap s' !! id =
        (fun o => (o, NewOfferExtra false)) <$> (storedOffers sampleOfferMemory !! id)) ∧
      offersPersisted s').
Proof. apply (NewOfferManager_loads_stored sampleOfferMemory). Defined.

(** An offer is taken at most once and comes back by re-adding it: taking a
    cached offer returns it and leaves it in the database but not in the cache, a second taker is
    refused without any change, and re-adding it makes it available again with the
    relayer choice given at that time; adding a cached offer changes nothing and
    keeps the first relayer choice. *)
Theorem TakeOffer_once `{TypesLib} {S : Type} `{!OfferEnv S} `{!OfferEnvSpec S}
    (id : Hash) (o : Offer) (extra : OfferExtra) (b : bool) (s : S) :
  getOfferMap s !! id = Some (o, extra) → oID o = id →
  AddOffer o b s = (Done (Ok extra), s) ∧
  ∃ s1, TakeOffer id s = (Done (Ok (o, extra)), s1) ∧
    storedOffers s1 = storedOffers s ∧
    TakeOffer id s1 = (Done (Err errOfferDoesNotExist), s1) ∧
    GetOffer id s1 = (Done (Err errOfferDoesNotExist), s1) ∧
    ∃ r s2, AddOffer o b s1 = (Done r, s2) ∧
      (isOk r = true → GetOffer id s2 = (Done (Ok (o, NewOfferExtra b)), s2)).
Proof.
  intros Ho Hid. subst id. split.
  { unfold AddOffer, pbind, gets. by rewrite Ho. }
  unfold TakeOffer, pbind, gets. rewrite Ho. cbn. eexists. split; [reflexivity|].
  rewrite storedOffers_put, getOffers_put. split; [done|]. rewrite lookup_delete_eq. split; [done|].
  unfold GetOffer, AddOffer, tryBind, pbind, gets. cbn beta iota.
  split; [done|].
  destruct (putOffer_runs o (putOfferMap (delete (oID o) (getOfferMap s)) s)) as (r & s2 & -> & Hm & _).
  destruct r as [[]|e]; cbn; eexists _, _; (split; [reflexivity|]); [|done].
  intros _. rewrite getOffers_put. by rewrite lookup_insert_eq.
Qed.

Lemma TakeOffer_once_witness :
  AddOffer sampleOffer false sampleOfferMemory = (Done (Ok (NewOfferExtra true)), sampleOfferMemory) ∧
  ∃ s1, TakeOffer (oID sampleOffer) sampleOfferMemory =
          (Done (Ok (sampleOffer, NewOfferExtra true)), s1) ∧
    storedOffers s1 = storedOffers sampleOfferMemory ∧
    TakeOffer (oID sampleOffer) s1 = (Done (Err errOfferDoesNotExist), s1) ∧
    GetOffer (oID sampleOffer) s1 = (Done (Err errOfferDoesNotExist), s1) ∧
    ∃ r s2, AddOffer sampleOffer false s1 = (Done r, s2) ∧
      (isOk r = true → GetOffer (oID sampleOffer) s2 =
        (Done (Ok (sampleOffer, NewOfferExtra false)), s2)).
Proof.
  apply (TakeOffer_once (oID sampleOffer) sampleOffer (NewOfferExtra true) false sampleOfferMemory);
    reflexivity.
Defined.
