(* ===== verification/Crypto.v ===== *)
(** * Keys, addresses and DLEq proofs (packages crypto, crypto/monero,
      crypto/secp256k1, dleq)

    The curve arithmetic, the hash and the proof system are third-party code:
    the class [CryptoLib].  What the code relies on of them is [CryptoSpec]. *)

From stdpp Require Import base list strings.
From Stdlib Require Import ZArith Strings.Byte Strings.Ascii.
From S2P Require Import Prelude Types TypesProofs Bytes.

Open Scope Z_scope.
Open Scope go_scope.

Class CryptoLib := {
  (* filippo.io/edwards25519 *)
  Scalar : Type;
  Point : Type;
  scalarSetCanonicalBytes : bytes → result Scalar;
  scalarBytes : Scalar → bytes;
  scalarAdd : Scalar → Scalar → Scalar;
  scalarBaseMult : Scalar → Point;
  pointAdd : Point → Point → Point;
  pointBytes : Point → bytes;
  pointSetBytes : bytes → result Point;
  (* go-ethereum/crypto *)
  ethKeccak256 : bytes → bytes;
  (* go-dleq on the curves secp256k1 and ed25519 *)
  DleqLibProof : Type;
  dleqNewProof : bytes → result DleqLibProof;
  dleqSerialize : DleqLibProof → bytes;
  dleqDeserialize : bytes → result DleqLibProof;
  dleqProofVerify : DleqLibProof → option error;
  commitmentA : DleqLibProof → bytes;
  commitmentB : DleqLibProof → bytes;
  parsePubKey : bytes → result (Z * Z)
}.

(** The order of the ed25519 group. *)
Definition curveOrder : Z := 2 ^ 252 + 27742317777372353535851937790883648493.

Class CryptoSpec `{CryptoLib} : Prop := {
  (* "Bytes returns the canonical 32-byte little-endian encoding of s" *)
  scalarBytes_length s : length (scalarBytes s) = 32%nat;
  (* "SetCanonicalBytes sets s = x, where x is a 32-byte little-endian encoding" *)
  canonical_bytes s : scalarSetCanonicalBytes (scalarBytes s) = Ok s;
  bytes_canonical b s : scalarSetCanonicalBytes b = Ok s → scalarBytes s = b;
  canonical_reduced b : length b = 32%nat → leDecode b < curveOrder →
    isOk (scalarSetCanonicalBytes b) = true;
  (* the group laws *)
  baseMult_add x y : scalarBaseMult (scalarAdd x y) = pointAdd (scalarBaseMult x) (scalarBaseMult y);
  pointAdd_comm p q : pointAdd p q = pointAdd q p;
  pointBytes_length p : length (pointBytes p) = 32%nat;
  (* "SetBytes sets v = x"; it also accepts encodings of a point that are not canonical *)
  point_bytes p : pointSetBytes (pointBytes p) = Ok p;
  keccak_length b : length (ethKeccak256 b) = 32%nat
}.

Definition errInvalidInput : error := Sentinel "mcrypto.errInvalidInput" "input is not 32 bytes".
Definition privateKeySize : nat := 32.

Section crypto.
Context `{CryptoLib}.

(** ** crypto/hash.go *)

Definition Keccak256 (data : bytes) : Hash := goCopy 32 (ethKeccak256 data).

(** ** crypto/monero/sc_reduce.go *)

Definition scReduce32 (s : bytes) : bytes :=
  let scalar := bigSetBytes (Reverse s) in
  let reduced := Reverse (bigBytes (scalar mod curveOrder)) in
  goCopy 32 reduced.

(** ** crypto/monero/crypto.go

    A private spend or view key is a scalar, a public key is a point. *)

Record PrivateKeyPair : Type := mkPrivateKeyPair { kpSpend : Scalar; kpView : Scalar }.
Record PublicKeyPair : Type := NewPublicKeyPair { pkSpend : Point; pkView : Point }.

(** Both arguments may be nil. *)
Definition NewPrivateKeyPair (sk vk : option Scalar) : outcome PrivateKeyPair :=
  match sk, vk with
  | Some s, Some v => Done (mkPrivateKeyPair s v)
  | _, _ => Panicked "NewPrivateKeyPair requires a key pair"
  end.

Definition NewPrivateSpendKey (b : bytes) : result Scalar :=
  if negb (bool_decide (length b = privateKeySize)) then Err errInvalidInput
  else scalarSetCanonicalBytes b.

Definition NewPrivateKeyPairFromBytes (skBytes vkBytes : bytes) : result PrivateKeyPair :=
  if negb (bool_decide (length skBytes = privateKeySize))
     || negb (bool_decide (length vkBytes = privateKeySize)) then Err errInvalidInput
  else
    match scalarSetCanonicalBytes skBytes with
    | Err e => Err e
    | Ok sk =>
        match scalarSetCanonicalBytes vkBytes with
        | Err e => Err e
        | Ok vk => Ok (mkPrivateKeyPair sk vk)
        end
    end.

Definition SpendKeyBytes (kp : PrivateKeyPair) : bytes := scalarBytes (kpSpend kp).

(** [PrivateSpendKey.Public] and [PrivateViewKey.Public] *)
Definition Public (k : Scalar) : Point := scalarBaseMult k.

Definition PrivateKeyPair_PublicKeyPair (kp : PrivateKeyPair) : PublicKeyPair :=
  NewPublicKeyPair (Public (kpSpend kp)) (Public (kpView kp)).

Definition View (k : Scalar) : result Scalar :=
  scalarSetCanonicalBytes (scReduce32 (Keccak256 (scalarBytes k))).

Definition AsPrivateKeyPair (k : Scalar) : result PrivateKeyPair :=
  match View k with
  | Err e => Err e
  | Ok vk => Ok (mkPrivateKeyPair k vk)
  end.

(** The texts of keys, [PrivateSpendKey] and [PrivateViewKey] alike. *)
Definition PrivateKey_Hex (k : Scalar) : string := hexEncodeToString (scalarBytes k).
Definition PrivateKey_String (k : Scalar) : string := ("0x" +:+ PrivateKey_Hex k)%string.
Definition PublicKey_Hex (k : Point) : string := hexEncodeToString (pointBytes k).
Definition PublicKey_String (k : Point) : string := ("0x" +:+ PublicKey_Hex k)%string.

(** [seed] is what crypto/rand gave; [sha512.Sum512] and [SetBytesWithClamping] are
    arguments. *)
Definition GenerateKeys (sha512Sum512 : bytes → bytes) (setBytesWithClamping : bytes → result Scalar)
    (seed : result bytes) : result PrivateKeyPair :=
  match seed with
  | Err e => Err e
  | Ok seed =>
      let h := sha512Sum512 seed in
      match setBytesWithClamping (take 32 h) with
      | Err e => Err (Wrapf "failed to set bytes" e)
      | Ok s => AsPrivateKeyPair s
      end
  end.

Definition NewPublicKeyFromBytes (b : bytes) : result Point := pointSetBytes b.

Definition SumPublicKeys (a b : Point) : Point := pointAdd a b.

Definition SumSpendAndViewKeys (a b : PublicKeyPair) : PublicKeyPair :=
  NewPublicKeyPair (SumPublicKeys (pkSpend a) (pkSpend b)) (SumPublicKeys (pkView a) (pkView b)).

Definition SumPrivateSpendKeys (a b : Scalar) : Scalar := scalarAdd a b.
Definition SumPrivateViewKeys (a b : Scalar) : Scalar := scalarAdd a b.

(** ** crypto/monero/crypto_marshal.go: the text forms of keys *)

Definition mScalar_MarshalText (s : option Scalar) : result string :=
  match s with
  | None => Err (errorf "cannot marshal uninitialized scalar")
  | Some k => Ok ("0x" +:+ hexEncodeToString (scalarBytes k))%string
  end.

Definition mScalar_UnmarshalText (hexStr : string) : result Scalar :=
  match hexDecodeString (stringsTrimPrefix hexStr "0x") with
  | Err e => Err e
  | Ok sBytes => scalarSetCanonicalBytes sBytes
  end.

Definition mPoint_MarshalText (p : Point) : result string :=
  Ok ("0x" +:+ hexEncodeToString (pointBytes p))%string.

Definition mPoint_UnmarshalText (hexStr : string) : result Point :=
  match hexDecodeString (stringsTrimPrefix hexStr "0x") with
  | Err e => Err e
  | Ok pBytes => pointSetBytes pBytes
  end.

(** ** crypto/monero/address.go

    An address is its 69 decoded bytes: network prefix, public spend key, public
    view key, checksum. *)

Inductive Network : Type := NetMainnet | NetStagenet | NetTestnet.

#[global] Instance network_eq_dec : EqDecision Network.
Proof. solve_decision. Defined.

Inductive AddressType : Type := AddrStandard | AddrSubaddress.

Definition netPrefixStdAddrMainnet : Z := 18.
Definition netPrefixSubAddrMainnet : Z := 42.
Definition netPrefixStdAddrStagenet : Z := 24.
Definition netPrefixSubAddrStagenet : Z := 36.
Definition netPrefixStdAddrTestnet : Z := 53.
Definition netPrefixSubAddrTestnet : Z := 63.

Definition addressBytesLen : nat := 1 + 32 + 32 + 4.

Definition errAddressNotInitialized : error :=
  Sentinel "errAddressNotInitialized" "monero address is not initialized".
Definition errChecksumMismatch : error :=
  Sentinel "errChecksumMismatch" "invalid address checksum".
Definition errInvalidPrefixGotMainnet : error :=
  Sentinel "errInvalidPrefixGotMainnet" "invalid monero address: expected stagenet, got mainnet".
Definition errInvalidPrefixGotStagenet : error :=
  Sentinel "errInvalidPrefixGotStagenet" "invalid monero address: expected mainnet, got stagenet".
Definition errInvalidPrefixGotTestnet : error :=
  Sentinel "errInvalidPrefixGotTestnet" "invalid monero address: monero testnet not yet supported".

(** [a.decoded[0]] *)
Definition addrPrefix (decoded : bytes) : Z := byteZ (nth 0 decoded x00).

Definition Address_Network (decoded : bytes) : outcome Network :=
  let p := addrPrefix decoded in
  if (p =? netPrefixStdAddrMainnet) || (p =? netPrefixSubAddrMainnet) then Done NetMainnet
  else if (p =? netPrefixStdAddrStagenet) || (p =? netPrefixSubAddrStagenet) then Done NetStagenet
  else if (p =? netPrefixStdAddrTestnet) || (p =? netPrefixSubAddrTestnet) then Done NetTestnet
  else Panicked "address has invalid network prefix".

Definition Address_Type (decoded : bytes) : outcome AddressType :=
  let p := addrPrefix decoded in
  if (p =? netPrefixStdAddrMainnet) || (p =? netPrefixStdAddrStagenet)
     || (p =? netPrefixStdAddrTestnet) then Done AddrStandard
  else if (p =? netPrefixSubAddrTestnet) || (p =? netPrefixSubAddrStagenet)
     || (p =? netPrefixSubAddrMainnet) then Done AddrSubaddress
  else Panicked "address has invalid network prefix".

Definition getChecksum (data : bytes) : bytes := goCopy 4 (take 4 (Keccak256 data)).

Definition validateDecoded (decoded : bytes) : option error :=
  if negb (bool_decide (getChecksum (take 65 decoded) = take 4 (drop 65 decoded)))
  then Some errChecksumMismatch
  else
    let p := addrPrefix decoded in
    if (p =? netPrefixStdAddrMainnet) || (p =? netPrefixSubAddrMainnet)
       || (p =? netPrefixStdAddrStagenet) || (p =? netPrefixSubAddrStagenet)
       || (p =? netPrefixStdAddrTestnet) || (p =? netPrefixSubAddrTestnet)
    then None
    else Some (errorf "monero address has unknown network prefix").

Definition Address_Equal (a : bytes) (b : option bytes) : bool :=
  match b with None => false | Some b => bool_decide (a = b) end.

Definition ValidateEnv (a : option bytes) (env : Environment) : outcome (option error) :=
  match a with
  | None => Done (Some errAddressNotInitialized)
  | Some decoded =>
      if bool_decide (decoded = repeat x00 addressBytesLen) then Done (Some errAddressNotInitialized)
      else
        network <~ Address_Network decoded ;;
        Done (match network with
              | NetMainnet =>
                  if negb (bool_decide (env = Mainnet)) && negb (bool_decide (env = Development))
                  then Some errInvalidPrefixGotMainnet else None
              | NetStagenet =>
                  if negb (bool_decide (env = Stagenet)) then Some errInvalidPrefixGotStagenet
                  else None
              | NetTestnet => Some errInvalidPrefixGotTestnet
              end)
  end.

Definition PublicKeyPair_Address (kp : PublicKeyPair) (env : Environment) : outcome bytes :=
  prefix <~ match env with
            | Mainnet | Development => Done netPrefixStdAddrMainnet
            | Stagenet => Done netPrefixStdAddrStagenet
            | _ => Panicked "unhandled env"
            end ;;
  let decoded := [zByte prefix] ++ goCopy 32 (pointBytes (pkSpend kp))
                   ++ goCopy 32 (pointBytes (pkView kp)) in
  Done (decoded ++ getChecksum decoded).

(** ** crypto/secp256k1/secp256k1.go *)

Record Secp256k1PublicKey : Type := NewPublicKey { secpX : bytes; secpY : bytes }.

Definition errInvalidPubkeyLength : error :=
  Sentinel "errInvalidPubkeyLength" "encoded public key is not 64 bytes".

(** [copy(array[32-len(slice):], slice)]: a slice longer than the array panics. *)
Definition leftPad32 (slice : bytes) : outcome bytes :=
  if (32 <? length slice)%nat then Panicked "slice bounds out of range"
  else Done (repeat x00 (32 - length slice) ++ slice).

Definition NewPublicKeyFromBigInt (x y : Z) : outcome Secp256k1PublicKey :=
  xArray <~ leftPad32 (bigBytes x) ;;
  yArray <~ leftPad32 (bigBytes y) ;;
  Done (NewPublicKey xArray yArray).

Definition Secp256k1_Bytes (k : Secp256k1PublicKey) : bytes := secpX k ++ secpY k.
Definition Secp256k1_Keccak256 (k : Secp256k1PublicKey) : Hash := Keccak256 (secpX k ++ secpY k).

Definition Secp256k1_String (k : Secp256k1PublicKey) : string := ("0x" +:+ hexEncodeToString (Secp256k1_Bytes k))%string.

Definition Secp256k1_MarshalText (k : Secp256k1PublicKey) : result string :=
  Ok ("0x" +:+ hexEncodeToString (Secp256k1_Bytes k))%string.

Definition Secp256k1_UnmarshalText (keyData : string) : result Secp256k1PublicKey :=
  match hexDecodeString (stringsTrimPrefix keyData "0x") with
  | Err e => Err e
  | Ok keyBytes =>
      if negb (bool_decide (length keyBytes = 64%nat)) then Err errInvalidPubkeyLength
      else Ok (NewPublicKey (take 32 keyBytes) (drop 32 keyBytes))
  end.

Definition Compress (k : Secp256k1PublicKey) : bytes :=
  let isOdd := negb (Z.land (byteZ (nth 31 (secpY k) x00)) 1 =? 0) in
  (if isOdd then zByte 3 else zByte 2) :: goCopy 32 (secpX k).

(** ** dleq/dleq.go and dleq/go_dleq.go *)

Record DLEqProof : Type := mkProof { proofSecret : bytes; proofBytes : bytes }.

(** A proof received from the counterparty: the secret is zero. *)
Definition NewProofWithoutSecret (p : bytes) : DLEqProof := mkProof (repeat x00 32) p.

Definition Proof_Secret (p : DLEqProof) : bytes := goCopy 32 (Reverse (proofSecret p)).

Record VerifyResult : Type := mkVerifyResult {
  vrEd25519 : Point;
  vrSecp256k1 : Secp256k1PublicKey
}.

(** [secret] is what [dleq.GenerateSecretForCurves] drew. *)
Definition Prove (secret : result bytes) : result DLEqProof :=
  match secret with
  | Err e => Err e
  | Ok x =>
      match dleqNewProof x with
      | Err e => Err e
      | Ok proof =>
          match dleqProofVerify proof with
          | Some e => Err e
          | None => Ok (mkProof x (dleqSerialize proof))
          end
      end
  end.

Definition Verify (p : DLEqProof) : outcome (result VerifyResult) :=
  match dleqDeserialize (proofBytes p) with
  | Err e => Done (Err e)
  | Ok proof =>
      match dleqProofVerify proof with
      | Some e => Done (Err e)
      | None =>
          match parsePubKey (commitmentA proof) with
          | Err e => Done (Err e)
          | Ok (x, y) =>
              secp256k1Pub <~ NewPublicKeyFromBigInt x y ;;
              match NewPublicKeyFromBytes (commitmentB proof) with
              | Err e => Done (Err e)
              | Ok ed25519Pub => Done (Ok (mkVerifyResult ed25519Pub secp256k1Pub))
              end
          end
      end
  end.

(** ** protocol/common.go *)

Record KeysAndProof : Type := mkKeysAndProof {
  kpProof : DLEqProof;
  kpSecp256k1 : Secp256k1PublicKey;
  kpPrivate : PrivateKeyPair;
  kpPublic : PublicKeyPair
}.

Definition errInvalidSecp256k1Key : error :=
  Sentinel "errInvalidSecp256k1Key"
    "secp256k1 public key resulting from proof verification does not match key sent".
Definition errInvalidEd25519Key : error :=
  Sentinel "errInvalidEd25519Key"
    "ed25519 public key resulting from proof verification does not match key sent".

Definition GenerateKeysAndProof (rnd : result bytes) : outcome (result KeysAndProof) :=
  match Prove rnd with
  | Err e => Done (Err e)
  | Ok proof =>
      res <~? Verify proof ;;
      let secret := Proof_Secret proof in
      match NewPrivateSpendKey (Reverse secret) with
      | Err e => Done (Err (Wrapf "failed to create private spend key" e))
      | Ok sk =>
          match AsPrivateKeyPair sk with
          | Err e => Done (Err e)
          | Ok kp =>
              Done (Ok (mkKeysAndProof proof (vrSecp256k1 res) kp (PrivateKeyPair_PublicKeyPair kp)))
          end
      end
  end.

(** The keys of the result are the arguments. *)
Definition VerifyKeysAndProof (proofData : bytes) (secp256k1Pub : Secp256k1PublicKey)
    (ed25519Pub : Point) : outcome (result (Secp256k1PublicKey * Point)) :=
  res <~? Verify (NewProofWithoutSecret proofData) ;;
  if negb (bool_decide (Secp256k1_Bytes (vrSecp256k1 res) = Secp256k1_Bytes secp256k1Pub))
  then Done (Err errInvalidSecp256k1Key)
  else if negb (bool_decide (pointBytes (vrEd25519 res) = pointBytes ed25519Pub))
  then Done (Err errInvalidEd25519Key)
  else Done (Ok (secp256k1Pub, ed25519Pub)).

(** ** protocol/claim_monero.go *)

Definition GetClaimKeypair (skA skB vkA vkB : Scalar) : PrivateKeyPair :=
  let skAB := SumPrivateSpendKeys skA skB in
  let vkAB := SumPrivateViewKeys vkA vkB in
  mkPrivateKeyPair skAB vkAB.

End crypto.
