(* ===== verification/CryptoProofs.v ===== *)
(** * Theorems on keys, addresses and proofs *)

From stdpp Require Import base list strings.
From Stdlib Require Import ZArith Strings.Byte Strings.Ascii.
From S2P Require Import Prelude Types TypesProofs Bytes Crypto.

Open Scope Z_scope.
Open Scope go_scope.

(** ** A concrete library for the witnesses

    The group is the additive group of the integers modulo the curve order, with
    the generator 1; the hash pads its input; proofs are the secret itself. *)

Definition isReduced (z : Z) : bool := (0 <=? z) && (z <? curveOrder).

Record residue : Type := mkResidue { resZ : Z; resOk : isReduced resZ = true }.

Lemma residue_eq a b : resZ a = resZ b → a = b.
Proof.
  destruct a as [a Ha], b as [b Hb]. cbn. intros ->. f_equal. apply (proof_irrel Ha Hb).
Qed.

Lemma reduced_mod z : isReduced (z mod curveOrder) = true.
Proof.
  unfold isReduced. pose proof (Z.mod_pos_bound z curveOrder eq_refl).
  apply andb_true_intro. split; [apply Z.leb_le | apply Z.ltb_lt]; lia.
Qed.

Definition residueOf (z : Z) : residue := mkResidue (z mod curveOrder) (reduced_mod z).

Definition residueSetBytes (b : bytes) : result residue :=
  match decide (length b = 32%nat), decide (isReduced (leDecode b) = true) with
  | left _, left Hr => Ok (mkResidue (leDecode b) Hr)
  | _, _ => Err (errorf "invalid scalar encoding")
  end.

Definition residueBytes (r : residue) : bytes := leEncode 32 (resZ r).

Definition residueAdd (a b : residue) : residue := residueOf (resZ a + resZ b).

#[export] Instance refCrypto : CryptoLib := {|
  Scalar := residue;
  Point := residue;
  scalarSetCanonicalBytes := residueSetBytes;
  scalarBytes := residueBytes;
  scalarAdd := residueAdd;
  scalarBaseMult := fun s => s;
  pointAdd := residueAdd;
  pointBytes := residueBytes;
  pointSetBytes := residueSetBytes;
  ethKeccak256 := goCopy 32;
  DleqLibProof := bytes;
  dleqNewProof := Ok;
  dleqSerialize := fun p => p;
  dleqDeserialize := Ok;
  dleqProofVerify := fun p => if decide (length p = 32%nat) then None else Some (errorf "bad proof");
  commitmentA := fun p => p;
  commitmentB := fun p => p;
  parsePubKey := fun b => Ok (leDecode b, leDecode b)
|}.

Lemma residue_range r : 0 ≤ resZ r < curveOrder.
Proof. destruct r as [z Hz]. cbn. unfold isReduced in Hz. lia. Qed.

Lemma curveOrder_256 : curveOrder < 256 ^ Z.of_nat 32.
Proof. done. Qed.

Lemma residueSet_bytes r : residueSetBytes (residueBytes r) = Ok r.
Proof.
  unfold residueSetBytes, residueBytes. pose proof (residue_range r). pose proof curveOrder_256.
  destruct (decide (length _ = _)) as [_|Hl]; [|by rewrite leEncode_length in Hl].
  destruct (decide _) as [Hr|Hr].
  - f_equal. apply residue_eq. cbn [resZ]. apply leDecode_encode. lia.
  - exfalso. apply Hr. rewrite leDecode_encode by lia. by destruct r.
Qed.

Lemma residueBytes_set b r : residueSetBytes b = Ok r → residueBytes r = b.
Proof.
  unfold residueSetBytes. destruct (decide (length b = 32%nat)) as [Hl|]; [|done].
  destruct (decide _) as [Hr|]; [|done]. intros [= <-]. unfold residueBytes. cbn [resZ].
  rewrite <- Hl. apply leEncode_decode.
Qed.

#[export] Instance refCryptoSpec : CryptoSpec.
Proof.
  split; cbn [scalarBytes scalarSetCanonicalBytes scalarBaseMult pointAdd pointBytes pointSetBytes
    ethKeccak256 scalarAdd refCrypto].
  - intros s. apply leEncode_length.
  - apply residueSet_bytes.
  - apply residueBytes_set.
  - intros b Hl Hlt. unfold residueSetBytes. destruct (decide (length b = 32%nat)); [|done].
    destruct (decide _) as [|Hr]; [done|]. exfalso. apply Hr. unfold isReduced.
    pose proof (leDecode_range b). apply andb_true_intro. split; [apply Z.leb_le | apply Z.ltb_lt]; lia.
  - done.
  - intros p q. unfold residueAdd. by rewrite Z.add_comm.
  - intros p. apply leEncode_length.
  - apply residueSet_bytes.
  - apply goCopy_length.
Qed.

(** The keys of the witnesses. *)
Definition sc (z : Z) : @Scalar refCrypto := residueOf z.
Definition pt (z : Z) : @Point refCrypto := residueOf z.

(** ** Lemmas *)

Section lemmas.
Context `{CS : CryptoSpec}.

Lemma Keccak256_length b : length (Keccak256 b) = 32%nat.
Proof. apply goCopy_length. Qed.

Lemma scReduce32_spec s : length s = 32%nat →
  scReduce32 s = leEncode 32 (leDecode s mod curveOrder).
Proof.
  intros Hs. unfold scReduce32, bigSetBytes. rewrite (Reverse_reverse s), reverse_involutive.
  apply bigBytes_pad. pose proof (Z.mod_pos_bound (leDecode s) curveOrder eq_refl).
  pose proof curveOrder_256. lia.
Qed.

Lemma pointBytes_inj p q : pointBytes p = pointBytes q → p = q.
Proof.
  intros Heq. pose proof (point_bytes p) as Hp. rewrite Heq, point_bytes in Hp. by injection Hp.
Qed.

Lemma NewPrivateSpendKey_bytes k : NewPrivateSpendKey (scalarBytes k) = Ok k.
Proof.
  unfold NewPrivateSpendKey. rewrite bool_decide_true by apply scalarBytes_length. apply canonical_bytes.
Qed.

(** The body of an address without its checksum. *)
Definition addressBody (prefix : Z) (kp : PublicKeyPair) : bytes :=
  [zByte prefix] ++ pointBytes (pkSpend kp) ++ pointBytes (pkView kp).

Definition envPrefix (env : Environment) : option Z :=
  match env with
  | Mainnet | Development => Some netPrefixStdAddrMainnet
  | Stagenet => Some netPrefixStdAddrStagenet
  | _ => None
  end.

Lemma Address_run kp env p : envPrefix env = Some p →
  PublicKeyPair_Address kp env = Done (addressBody p kp ++ getChecksum (addressBody p kp)).
Proof.
  intros Hp. unfold PublicKeyPair_Address, addressBody.
  rewrite !(goCopy_id 32) by apply pointBytes_length.
  destruct env; try discriminate; injection Hp as <-; done.
Qed.

Lemma addressBody_length p kp : length (addressBody p kp) = 65%nat.
Proof. unfold addressBody. rewrite !length_app, !pointBytes_length. done. Qed.

Lemma getChecksum_length b : length (getChecksum b) = 4%nat.
Proof. apply goCopy_length. Qed.

End lemmas.

(** ** The properties *)

(** The XMR is locked where both parties together can spend it: the address
    the maker computes from the taker's public spend key and private view key and
    his own keys is the address of the private key pair [GetClaimKeypair] builds
    from both parties' private keys, whoever's keys are summed first. *)
Theorem lock_address_is_claim_address `{CryptoSpec} (skA vkA skB vkB : Scalar) (env : Environment) :
  let pubA := NewPublicKeyPair (Public skA) (Public vkA) in
  let pubB := NewPublicKeyPair (Public skB) (Public vkB) in
  PublicKeyPair_Address (SumSpendAndViewKeys pubA pubB) env =
    PublicKeyPair_Address (PrivateKeyPair_PublicKeyPair (GetClaimKeypair skA skB vkA vkB)) env ∧
  PublicKeyPair_Address (SumSpendAndViewKeys pubB pubA) env =
    PublicKeyPair_Address (PrivateKeyPair_PublicKeyPair (GetClaimKeypair skA skB vkA vkB)) env.
Proof.
  unfold SumSpendAndViewKeys, PrivateKeyPair_PublicKeyPair, GetClaimKeypair, SumPublicKeys,
    SumPrivateSpendKeys, SumPrivateViewKeys, Public. cbn.
  rewrite !baseMult_add. split; [done|].
  by rewrite (pointAdd_comm (scalarBaseMult skB)), (pointAdd_comm (scalarBaseMult vkB)).
Qed.

Lemma lock_address_is_claim_address_witness :
  let pubA := NewPublicKeyPair (Public (sc 11)) (Public (sc 12)) in
  let pubB := NewPublicKeyPair (Public (sc 21)) (Public (sc 22)) in
  PublicKeyPair_Address (SumSpendAndViewKeys pubA pubB) Stagenet =
    PublicKeyPair_Address (PrivateKeyPair_PublicKeyPair
      (GetClaimKeypair (sc 11) (sc 21) (sc 12) (sc 22))) Stagenet ∧
  PublicKeyPair_Address (SumSpendAndViewKeys pubB pubA) Stagenet =
    PublicKeyPair_Address (PrivateKeyPair_PublicKeyPair
      (GetClaimKeypair (sc 11) (sc 21) (sc 12) (sc 22))) Stagenet.
Proof.
  apply (lock_address_is_claim_address (sc 11) (sc 12) (sc 21) (sc 22) Stagenet).
Defined.

(** The view key of a spend key always exists: [scReduce32] reduces modulo the
    curve order, so that [View] and [AsPrivateKeyPair] never fail, and the
    reduced bytes are the encoding of the residue. *)
Theorem View_total `{CryptoSpec} (k : Scalar) :
  ∃ vk, View k = Ok vk ∧ AsPrivateKeyPair k = Ok (mkPrivateKeyPair k vk) ∧
    leDecode (scalarBytes vk) = leDecode (Keccak256 (scalarBytes k)) mod curveOrder.
Proof.
  unfold AsPrivateKeyPair, View. rewrite scReduce32_spec by apply Keccak256_length.
  set (z := _ mod _). assert (Hz : 0 ≤ z < curveOrder) by (apply Z.mod_pos_bound; done).
  pose proof curveOrder_256.
  pose proof (canonical_reduced (leEncode 32 z) (leEncode_length _ _)) as Hok.
  rewrite leDecode_encode in Hok by lia. specialize (Hok (proj2 Hz)).
  destruct (scalarSetCanonicalBytes (leEncode 32 z)) as [vk|] eqn:E; [|done].
  exists vk. split_and!; [done..|]. rewrite (bytes_canonical _ _ E). apply leDecode_encode. lia.
Qed.

Lemma View_total_witness :
  ∃ vk, View (sc 5) = Ok vk ∧ AsPrivateKeyPair (sc 5) = Ok (mkPrivateKeyPair (sc 5) vk) ∧
    leDecode (scalarBytes vk) = leDecode (Keccak256 (scalarBytes (sc 5))) mod curveOrder.
Proof. apply (View_total (sc 5)). Defined.

(** An address carries its network: the address of a key pair in an environment
    has 69 bytes, passes the checksum and prefix validation, is a standard
    address, and [ValidateEnv] accepts it exactly in environments on the same
    Monero network; different key pairs have different addresses. *)
Theorem address_wellformed `{CryptoSpec} (kp kp' : PublicKeyPair) (env env' : Environment) (p : Z) :
  envPrefix env = Some p →
  ∃ a, PublicKeyPair_Address kp env = Done a ∧ length a = addressBytesLen ∧
    validateDecoded a = None ∧ Address_Type a = Done AddrStandard ∧
    (∃ e, ValidateEnv (Some a) env' = Done e ∧ (e = None ↔ envPrefix env' = Some p)) ∧
    (PublicKeyPair_Address kp' env = Done a → kp' = kp).
Proof.
  intros Hp. rewrite !(Address_run _ env p Hp). eexists. split; [reflexivity|].
  set (body := addressBody p kp). set (a := body ++ getChecksum body).
  assert (Hlen : length a = addressBytesLen).
  { subst a body. by rewrite length_app, addressBody_length, getChecksum_length. }
  assert (Hpre : addrPrefix a = p).
  { unfold addrPrefix, a, body, addressBody. cbn. rewrite byteZ_zByte.
    destruct env; try discriminate; injection Hp as <-; done. }
  assert (Hbody : take 65 a = body) by (subst a; rewrite take_app_length'; [done | symmetry; apply addressBody_length]).
  assert (Hsum : drop 65 a = getChecksum body) by (subst a; rewrite drop_app_length'; [done | symmetry; apply addressBody_length]).
  assert (Hcases : p = netPrefixStdAddrMainnet ∨ p = netPrefixStdAddrStagenet).
  { destruct env; try discriminate; injection Hp as <-; auto. }
  split_and!; [done | | | |].
  - unfold validateDecoded. rewrite Hbody, Hsum, firstn_all2 by (rewrite getChecksum_length; lia).
    rewrite bool_decide_true by done. rewrite Hpre. by destruct Hcases as [-> | ->].
  - unfold Address_Type. rewrite Hpre. by destruct Hcases as [-> | ->].
  - unfold ValidateEnv. rewrite bool_decide_false.
    2:{ intros Heq. rewrite Heq in Hpre. destruct Hcases as [-> | ->]; discriminate. }
    unfold Address_Network. rewrite Hpre.
    destruct Hcases as [-> | ->]; cbn; eexists; (split; [reflexivity|]); by destruct env'.
  - intros Hd. assert (Heq : addressBody p kp' ++ getChecksum (addressBody p kp') = a) by congruence.
    apply app_inj_len in Heq as [Heq _]; [|unfold body; by rewrite !addressBody_length].
    unfold body, addressBody in Heq. injection Heq as Heq.
    apply app_inj_len in Heq as [Hs Hv]; [|by rewrite !pointBytes_length].
    apply pointBytes_inj in Hs, Hv. destruct kp, kp'. cbn in *. congruence.
Qed.

Lemma address_wellformed_witness :
  ∃ a, PublicKeyPair_Address (NewPublicKeyPair (pt 5) (pt 6)) Stagenet = Done a ∧
    length a = addressBytesLen ∧ validateDecoded a = None ∧ Address_Type a = Done AddrStandard ∧
    (∃ e, ValidateEnv (Some a) Mainnet = Done e ∧ (e = None ↔ envPrefix Mainnet = Some 24)) ∧
    (PublicKeyPair_Address (NewPublicKeyPair (pt 7) (pt 6)) Stagenet = Done a →
     NewPublicKeyPair (pt 7) (pt 6) = NewPublicKeyPair (pt 5) (pt 6)).
Proof.
  apply (address_wellformed (NewPublicKeyPair (pt 5) (pt 6))
    (NewPublicKeyPair (pt 7) (pt 6)) Stagenet Mainnet 24). reflexivity.
Defined.

(** [VerifyKeysAndProof] accepts the sent keys only when the proof verifies and
    commits to exactly these keys, and returns them. *)
Theorem VerifyKeysAndProof_accepts `{CryptoSpec} (proofData : bytes) (secp : Secp256k1PublicKey)
    (ed : Point) (r : Secp256k1PublicKey * Point) :
  VerifyKeysAndProof proofData secp ed = Done (Ok r) →
  r = (secp, ed) ∧
  ∃ proof x y k, dleqDeserialize proofData = Ok proof ∧ dleqProofVerify proof = None ∧
    parsePubKey (commitmentA proof) = Ok (x, y) ∧ NewPublicKeyFromBigInt x y = Done k ∧
    Secp256k1_Bytes k = Secp256k1_Bytes secp ∧ pointSetBytes (commitmentB proof) = Ok ed.
Proof.
  unfold VerifyKeysAndProof, Verify. cbn [proofBytes NewProofWithoutSecret].
  destruct (dleqDeserialize proofData) as [proof|]; [|done].
  destruct (dleqProofVerify proof) eqn:Hv; [done|].
  destruct (parsePubKey (commitmentA proof)) as [[x y]|] eqn:Hp; [|done].
  destruct (NewPublicKeyFromBigInt x y) as [k| | |] eqn:Hk; cbn [otry obind abort]; try done.
  unfold NewPublicKeyFromBytes. destruct (pointSetBytes (commitmentB proof)) as [pt|] eqn:Hb; [|done].
  cbn [otry obind vrSecp256k1 vrEd25519]. case_bool_decide as Hs; cbn [negb]; [|done].
  case_bool_decide as He; cbn [negb]; [|done]. intros [= <-]. split; [done|].
  exists proof, x, y, k. split_and!; auto. by apply pointBytes_inj in He as ->.
Qed.

Definition sampleSecret : bytes := leEncode 32 77.

Definition sampleSecp : Secp256k1PublicKey :=
  NewPublicKey (repeat x00 31 ++ [zByte 77]) (repeat x00 31 ++ [zByte 77]).

Lemma VerifyKeysAndProof_accepts_witness :
  (sampleSecp, pt 77) = (sampleSecp, pt 77) ∧
  ∃ proof x y k, dleqDeserialize sampleSecret = Ok proof ∧ dleqProofVerify proof = None ∧
    parsePubKey (commitmentA proof) = Ok (x, y) ∧ NewPublicKeyFromBigInt x y = Done k ∧
    Secp256k1_Bytes k = Secp256k1_Bytes sampleSecp ∧ pointSetBytes (commitmentB proof) = Ok (pt 77).
Proof.
  apply (VerifyKeysAndProof_accepts sampleSecret sampleSecp (pt 77) (sampleSecp, pt 77)).
  vm_compute. reflexivity.
Defined.

(** Key texts decode to the key they encode, for scalars, points and secp256k1
    keys of two 32-byte coordinates. *)
Theorem key_text_roundtrip `{CryptoSpec} (k : Scalar) (p : Point) (s : Secp256k1PublicKey) :
  (∃ t, mScalar_MarshalText (Some k) = Ok t ∧ mScalar_UnmarshalText t = Ok k) ∧
  (∃ t, mPoint_MarshalText p = Ok t ∧ mPoint_UnmarshalText t = Ok p) ∧
  (length (secpX s) = 32%nat → length (secpY s) = 32%nat →
   ∃ t, Secp256k1_MarshalText s = Ok t ∧ Secp256k1_UnmarshalText t = Ok s).
Proof.
  unfold mScalar_UnmarshalText, mPoint_UnmarshalText, Secp256k1_UnmarshalText. split_and!.
  - eexists. split; [reflexivity|]. rewrite (trimPrefix_app "0x"), hexDecode_encode. apply canonical_bytes.
  - eexists. split; [reflexivity|]. rewrite (trimPrefix_app "0x"), hexDecode_encode. apply point_bytes.
  - intros Hx Hy. eexists. split; [reflexivity|]. rewrite (trimPrefix_app "0x"), hexDecode_encode.
    unfold Secp256k1_Bytes. rewrite bool_decide_true by (rewrite length_app; lia). cbn [negb].
    rewrite take_app_length', drop_app_length' by done. by destruct s.
Qed.

(** Key pairs are generated whenever the random bytes and the clamping are: the view key is
    derived from the spend key. *)
Lemma GenerateKeys_pair `{CryptoSpec} sha clamp seed k : clamp (take 32 (sha seed)) = Ok k →
  ∃ kp, GenerateKeys sha clamp (Ok seed) = Ok kp ∧ kpSpend kp = k ∧ View k = Ok (kpView kp).
Proof.
  intros E. destruct (View_total k) as (vk & Hv & Ha & _). exists (mkPrivateKeyPair k vk).
  unfold GenerateKeys. by rewrite E, Ha, Hv.
Qed.

Lemma key_text_roundtrip_witness :
  (∃ t, mScalar_MarshalText (Some (sc 9)) = Ok t ∧ mScalar_UnmarshalText t = Ok (sc 9)) ∧
  (∃ t, mPoint_MarshalText (pt 9) = Ok t ∧ mPoint_UnmarshalText t = Ok (pt 9)) ∧
  (length (secpX sampleSecp) = 32%nat → length (secpY sampleSecp) = 32%nat →
   ∃ t, Secp256k1_MarshalText sampleSecp = Ok t ∧ Secp256k1_UnmarshalText t = Ok sampleSecp).
Proof. apply (key_text_roundtrip (sc 9) (pt 9) sampleSecp). Defined.
