(* ===== verification/Base58.v ===== *)
(** * Monero addresses as text (crypto/monero/base58.go, address_marshal.go)

    The general base58 coder is third-party code (btcutil/base58): the class
    [Base58Lib] with its documented behaviour [Base58Spec].  Monero codes an
    address in blocks of fixed width on top of it.  A Go string is its bytes. *)

From stdpp Require Import base list strings.
From Stdlib Require Import ZArith Strings.Byte.
From S2P Require Import Prelude Types TypesProofs Bytes Crypto CryptoProofs.

Open Scope Z_scope.
Open Scope go_scope.

(** ** Positional notation, most significant digit first *)

Definition beVal (base : Z) (ds : list Z) : Z := foldl (fun a d => a * base + d) 0 ds.

(** The number of leading elements equal to [z]. *)
Fixpoint leading {A} `{EqDecision A} (z : A) (l : list A) : nat :=
  match l with
  | [] => O
  | x :: r => if decide (x = z) then S (leading z r) else O
  end.

Definition alphabet : bytes :=
  String.list_byte_of_string "123456789ABCDEFGHJKLMNPQRSTUVWXYZabcdefghijkmnopqrstuvwxyz".

Definition digit58 (c : byte) : option Z :=
  (fun p => Z.of_nat p.1) <$> list_find (fun x => x = c) alphabet.

Definition digits58 (s : bytes) : option (list Z) := mapM digit58 s.

(** The symbol of zero. *)
Definition one58 : byte := "1"%byte.

Class Base58Lib := {
  b58Encode : bytes → bytes;
  b58Decode : bytes → bytes
}.

(** "Encode encodes a byte slice to a modified base58 string"; "Decode decodes a
    modified base58 string to a byte slice": the same number in the two bases,
    each leading zero byte standing for one leading symbol of zero.  A string
    with another symbol decodes to the empty slice. *)
Class Base58Spec `{Base58Lib} : Prop := {
  encode_value b : ∃ ds, digits58 (b58Encode b) = Some ds ∧ beVal 58 ds = bigSetBytes b
                         ∧ leading 0 ds = leading x00 b;
  decode_value s ds : digits58 s = Some ds →
    bigSetBytes (b58Decode s) = beVal 58 ds ∧ leading x00 (b58Decode s) = leading 0 ds;
  decode_invalid s : digits58 s = None → b58Decode s = []
}.

(** ** crypto/monero/base58.go *)

Definition encodedAddressLen : nat := 8 * 11 + 1 * 7.
Definition encodedIntegratedAddrLen : nat := encodedAddressLen + 11.

Definition errInvalidAddressLength : error :=
  Sentinel "errInvalidAddressLength" "invalid monero address length".
Definition errInvalidAddressEncoding : error :=
  Sentinel "errInvalidAddressEncoding" "invalid monero address encoding".

(** [s[i*w : i*w+w]] *)
Definition chunk {A} (w i : nat) (s : list A) : list A := take w (drop (i * w) s).

Section base58.
Context `{Base58Lib}.

(** [if len(block) < n { block = strings.Repeat("1", n-len(block)) + block }] *)
Definition padBlock (n : nat) (block : bytes) : bytes :=
  if (length block <? n)%nat then repeat one58 (n - length block) ++ block else block.

Definition addrBytesToBase58 (addrBytes : bytes) : outcome bytes :=
  if negb (bool_decide (length addrBytes = addressBytesLen))
  then Panicked "addrBytesToBase58 passed non-addrBytes value"
  else
    let encodedAddr :=
      foldl (fun enc i => enc ++ padBlock 11 (b58Encode (chunk 8 i addrBytes))) [] (seq 0 8) in
    let lastBlock := padBlock 7 (b58Encode (drop 64 addrBytes)) in
    Done (encodedAddr ++ lastBlock).

(** A decoded block and its last [n] bytes; the slice expression panics when there
    are fewer. *)
Definition decodeBlock (n : nat) (s : bytes) : outcome (result bytes) :=
  let block := b58Decode s in
  if bool_decide (length block = 0%nat) then Done (Err errInvalidAddressEncoding)
  else if (length block <? n)%nat then Panicked "slice bounds out of range"
  else Done (Ok (drop (length block - n) block)).

(** The loop over the blocks of eleven symbols. *)
Fixpoint decodeBlocks (ix : list nat) (encodedAddress res : bytes) : outcome (result bytes) :=
  match ix with
  | [] => Done (Ok res)
  | i :: ix' =>
      block <~? decodeBlock 8 (chunk 11 i encodedAddress) ;;
      decodeBlocks ix' encodedAddress (res ++ block)
  end.

Definition addrBase58ToBytes (encodedAddress : bytes) : outcome (result bytes) :=
  if negb (bool_decide (length encodedAddress = encodedAddressLen)) then
    let err := errInvalidAddressLength in
    Done (Err (if bool_decide (length encodedAddress = encodedIntegratedAddrLen)
               then Wrapf "integrated addresses not supported" err else err))
  else
    res <~? decodeBlocks (seq 0 8) encodedAddress [] ;;
    lastBlock <~? decodeBlock 5 (drop 88 encodedAddress) ;;
    let res := res ++ lastBlock in
    if negb (bool_decide (length res = addressBytesLen))
    then Panicked "base58 address decoder is broken"
    else Done (Ok res).

(** ** crypto/monero/address_marshal.go and address.go *)

Context `{CryptoLib}.

Definition Address_MarshalText (decoded : bytes) : outcome (result bytes) :=
  match validateDecoded decoded with
  | Some e => Done (Err e)
  | None => t <~ addrBytesToBase58 decoded ;; Done (Ok t)
  end.

(** The new value of the receiver, which is untouched on an error. *)
Definition Address_UnmarshalText (base58Input : bytes) : outcome (result bytes) :=
  addrBytes <~? addrBase58ToBytes base58Input ;;
  let newAddr := goCopy addressBytesLen addrBytes in
  let n := Nat.min addressBytesLen (length addrBytes) in
  if negb (bool_decide (n = addressBytesLen))
  then Panicked "bytes to address conversion is broken"
  else
    match validateDecoded newAddr with
    | Some e => Done (Err e)
    | None => Done (Ok newAddr)
    end.

(** The address comes back beside the error of [ValidateEnv]. *)
Definition NewAddress (addrStr : bytes) (env : Environment)
  : outcome (option bytes * option error) :=
  r <~ Address_UnmarshalText addrStr ;;
  match r with
  | Err e => Done (None, Some e)
  | Ok addr => e <~ ValidateEnv (Some addr) env ;; Done (Some addr, e)
  end.

Definition Address_String (decoded : bytes) : outcome bytes := addrBytesToBase58 decoded.

End base58.
