(* ===== verification/Base58Proofs.v ===== *)
(** * The text form of Monero addresses: round trip, exact acceptance *)

From stdpp Require Import base list strings.
From Stdlib Require Import ZArith Strings.Byte.
From S2P Require Import Prelude Types TypesProofs Bytes Crypto CryptoProofs Base58.

Open Scope Z_scope.
Open Scope go_scope.

(** ** Positional notation *)

Lemma foldl_beVal base ds a :
  foldl (fun a d => a * base + d) a ds = a * base ^ Z.of_nat (length ds) + beVal base ds.
Proof.
  unfold beVal. revert a. induction ds as [|d ds IH]; intros a; cbn [foldl length].
  - rewrite Z.pow_0_r. ring.
  - rewrite IH, (IH (0 * base + d)), Nat2Z.inj_succ, Z.pow_succ_r by lia. ring.
Qed.

Lemma beVal_cons base d ds :
  beVal base (d :: ds) = d * base ^ Z.of_nat (length ds) + beVal base ds.
Proof. unfold beVal at 1. cbn [foldl]. by rewrite foldl_beVal, Z.mul_0_l, Z.add_0_l. Qed.

Lemma beVal_app base xs ys :
  beVal base (xs ++ ys) = beVal base xs * base ^ Z.of_nat (length ys) + beVal base ys.
Proof. unfold beVal at 1. rewrite foldl_app. apply foldl_beVal. Qed.

Lemma beVal_zeros base n ds : beVal base (repeat 0 n ++ ds) = beVal base ds.
Proof. induction n as [|n IH]; [done|]. cbn [repeat app]. rewrite beVal_cons, IH. ring. Qed.

(** A digit list: every digit is below the base. *)
Definition digits (base : Z) (ds : list Z) : Prop := Forall (fun d => 0 ≤ d < base) ds.

Lemma beVal_range base ds : 0 < base → digits base ds →
  0 ≤ beVal base ds < base ^ Z.of_nat (length ds).
Proof.
  intros Hb. induction 1 as [|d ds Hd _ IH]; [done|].
  rewrite beVal_cons. cbn [length]. rewrite Nat2Z.inj_succ, Z.pow_succ_r by lia. nia.
Qed.

(** The value of a list bounds its length from both sides, its leading zeros
    apart. *)
Lemma beVal_leading base ds : 0 < base → digits base ds →
  leading 0 ds = length ds ∧ beVal base ds = 0 ∨
  (leading 0%Z ds < length ds)%nat ∧
  base ^ Z.of_nat (length ds - leading 0 ds - 1) ≤ beVal base ds
    < base ^ Z.of_nat (length ds - leading 0 ds).
Proof.
  intros Hb. induction 1 as [|d ds Hd Hds IH]; [by left|].
  cbn [leading length]. rewrite beVal_cons. destruct (decide (d = 0)) as [->|Hne].
  - rewrite Z.mul_0_l, Z.add_0_l, !Nat.sub_succ.
    destruct IH as [[-> ->]|[Hl Hr]]; [left | right]; repeat split; try lia.
  - right. pose proof (beVal_range base ds Hb Hds). rewrite !Nat.sub_0_r.
    replace (S (length ds) - 1)%nat with (length ds) by lia.
    rewrite Nat2Z.inj_succ, Z.pow_succ_r by lia. repeat split; [lia | nia | nia].
Qed.

(** ** Bytes and symbols as digits *)

Lemma leDecode_snoc b c :
  leDecode (b ++ [c]) = leDecode b + byteZ c * 256 ^ Z.of_nat (length b).
Proof.
  induction b as [|d b IH]; cbn [leDecode app length].
  - rewrite Z.pow_0_r. ring.
  - rewrite IH, Nat2Z.inj_succ, Z.pow_succ_r by lia. ring.
Qed.

Lemma bigSetBytes_beVal b : bigSetBytes b = beVal 256 (byteZ <$> b).
Proof.
  unfold bigSetBytes. induction b as [|c b IH]; [done|].
  rewrite reverse_cons, leDecode_snoc, IH. cbn [fmap list_fmap].
  rewrite beVal_cons, length_fmap, length_reverse. ring.
Qed.

Lemma byteZ_digits b : digits 256 (byteZ <$> b).
Proof. apply Forall_fmap, Forall_true. intros c. cbn. apply byteZ_range. Qed.

Lemma leading_bytes b : leading 0 (byteZ <$> b) = leading x00 b.
Proof.
  induction b as [|c b IH]; [done|]. cbn [fmap list_fmap leading]. fold (byteZ <$> b).
  destruct (decide (byteZ c = 0)) as [E|N], (decide (c = x00)) as [E'|N'];
    [by f_equal | | | done].
  - destruct N'. rewrite <- (zByte_byteZ c), E. done.
  - subst c. done.
Qed.

Lemma digit58_range c d : digit58 c = Some d → 0 ≤ d < 58.
Proof.
  unfold digit58. intros E. apply fmap_Some in E as [[i x] [Hf ->]].
  apply list_find_Some in Hf as [Hl _]. apply lookup_lt_Some in Hl.
  change (length alphabet) with 58%nat in Hl. cbn. lia.
Qed.

Lemma digits58_digits s ds : digits58 s = Some ds → digits 58 ds.
Proof.
  unfold digits58. intros E. apply mapM_Some_1 in E.
  induction E; constructor; [by eapply digit58_range | done].
Qed.

Lemma digits58_length s ds : digits58 s = Some ds → length ds = length s.
Proof. unfold digits58. intros E. symmetry. by eapply length_mapM. Qed.

Lemma digits58_pad n s ds :
  digits58 s = Some ds → digits58 (repeat one58 n ++ s) = Some (repeat 0 n ++ ds).
Proof.
  intros E. induction n as [|n IH]; [done|]. cbn [repeat app].
  unfold digits58 in *. cbn [mapM]. rewrite IH. done.
Qed.

Lemma digits58_app s t :
  digits58 (s ++ t) = ds ← digits58 s; es ← digits58 t; Some (ds ++ es).
Proof.
  unfold digits58. induction s as [|c s IH]; cbn [app mapM mret option_ret mbind option_bind].
  - destruct (mapM digit58 t); done.
  - destruct (digit58 c) as [d|]; cbn; [|done]. rewrite IH.
    destruct (mapM digit58 s); cbn; [|done]. by destruct (mapM digit58 t).
Qed.

(** The last [n] bytes of a big-endian number are the number modulo [256 ^ n]. *)
Lemma leEncode_take n b : (n ≤ length b)%nat → leEncode n (leDecode b) = take n b.
Proof.
  revert b. induction n as [|n IH]; intros [|c b] Hl; cbn in Hl; try lia; [done..|].
  cbn [leEncode leDecode take]. pose proof (byteZ_range c).
  rewrite (Z.add_comm (byteZ c)), (Z.mul_comm 256), Z.div_add_l, Z.div_small, Z.add_0_r by lia.
  rewrite IH by lia. f_equal.
  rewrite <- zByte_mod, Z.add_comm, Z_mod_plus_full, zByte_mod. apply zByte_byteZ.
Qed.

Lemma drop_last_value n b : (n ≤ length b)%nat →
  drop (length b - n) b = reverse (leEncode n (bigSetBytes b)).
Proof.
  intros Hl. unfold bigSetBytes. rewrite leEncode_take by (rewrite length_reverse; lia).
  by rewrite take_reverse, reverse_involutive.
Qed.

(** ** The blocks *)

(** [w] symbols are enough for [n] bytes, and [n] bytes for what [w] symbols hold
    when the symbols that carry no digit are counted as bytes. *)
Definition blockFits (n w : nat) : bool :=
  forallb (fun k => (256 ^ Z.of_nat (n - k) <=? 58 ^ Z.of_nat (w - k))
                    && (256 ^ Z.of_nat (n - 1 - k) <=? 58 ^ Z.of_nat (w - 1 - k))) (seq 0 (S n))
  && (n <=? w)%nat.

Lemma blockFits_8_11 : blockFits 8 11 = true.
Proof. reflexivity. Qed.

Lemma blockFits_5_7 : blockFits 5 7 = true.
Proof. reflexivity. Qed.

Lemma blockFits_spec n w k : blockFits n w = true → (k ≤ n)%nat →
  256 ^ Z.of_nat (n - k) ≤ 58 ^ Z.of_nat (w - k) ∧
  256 ^ Z.of_nat (n - 1 - k) ≤ 58 ^ Z.of_nat (w - 1 - k) ∧ (n ≤ w)%nat.
Proof.
  unfold blockFits. rewrite andb_true_iff, forallb_forall, Nat.leb_le. intros [Hf Hw] Hk.
  assert (In k (seq 0 (S n))) as Hin by (apply in_seq; lia).
  apply Hf, andb_true_iff in Hin as [H1%Z.leb_le H2%Z.leb_le]. done.
Qed.

Section base58_proofs.
Context `{Base58Spec}.

(** A block of [n] bytes is encoded in exactly [w] symbols of the same value. *)
Lemma padBlock_encode n w b : blockFits n w = true → length b = n →
  ∃ ds, length (padBlock w (b58Encode b)) = w ∧
        digits58 (padBlock w (b58Encode b)) = Some ds ∧ beVal 58 ds = bigSetBytes b.
Proof.
  intros Hf Hb. destruct (encode_value b) as (ds & Hds & Hv & Hlead).
  assert (length (b58Encode b) ≤ w)%nat as Hle.
  { rewrite <- (digits58_length _ _ Hds).
    destruct (beVal_leading 58 ds eq_refl (digits58_digits _ _ Hds)) as [[Hl _]|[Hl Hr]];
    destruct (beVal_leading 256 (byteZ <$> b) eq_refl (byteZ_digits b)) as [[Hl' Hz]|[Hl' Hr']];
      rewrite leading_bytes, length_fmap in *; rewrite <- ?bigSetBytes_beVal in *;
      destruct (blockFits_spec n w (leading x00 b) Hf ltac:(lia)) as (H1 & _ & Hw); [lia..| |].
    - rewrite Hv, Hz in Hr. pose proof (Z.pow_pos_nonneg 58 (Z.of_nat (length ds - leading 0 ds - 1))). lia.
    - rewrite Hv, Hlead in Hr. rewrite Hb in Hr'.
      assert (58 ^ Z.of_nat (length ds - leading x00 b - 1) < 58 ^ Z.of_nat (w - leading x00 b)) as Hlt by lia.
      apply Z.pow_lt_mono_r_iff in Hlt; lia. }
  unfold padBlock. destruct (Nat.ltb_spec (length (b58Encode b)) w) as [Hlt|Hge].
  - exists (repeat 0 (w - length (b58Encode b)) ++ ds).
    rewrite length_app, repeat_length, beVal_zeros. repeat split; [lia | | done].
    by apply digits58_pad.
  - exists ds. repeat split; [lia | done..].
Qed.

(** A block of [w] symbols decodes to the low [n] bytes of its value, and no
    slice is out of range. *)
Lemma decodeBlock_spec n w s : blockFits n w = true → (0 < n)%nat → length s = w →
  decodeBlock n s =
  Done (match digits58 s with
        | None => Err errInvalidAddressEncoding
        | Some ds => Ok (reverse (leEncode n (beVal 58 ds)))
        end).
Proof.
  intros Hf Hn Hs. unfold decodeBlock. destruct (digits58 s) as [ds|] eqn:Hds.
  2: { rewrite (decode_invalid s Hds). by rewrite bool_decide_true. }
  destruct (decode_value s ds Hds) as [Hv Hlead].
  assert (n ≤ length (b58Decode s))%nat as Hle.
  { pose proof (digits58_length _ _ Hds) as Hlen. rewrite Hs in Hlen.
    destruct (beVal_leading 256 (byteZ <$> b58Decode s) eq_refl (byteZ_digits _)) as [[Hl Hz]|[Hl Hr]];
    destruct (beVal_leading 58 ds eq_refl (digits58_digits _ _ Hds)) as [[Hl' _]|[Hl' Hr']];
      rewrite leading_bytes, length_fmap in *; rewrite <- ?bigSetBytes_beVal in *;
      destruct (blockFits_spec n w (n - 1) Hf ltac:(lia)) as (_ & _ & Hw); [lia| |lia|].
    - rewrite <- Hv, Hz in Hr'. pose proof (Z.pow_pos_nonneg 58 (Z.of_nat (length ds - leading 0 ds - 1))). lia.
    - destruct (decide (n ≤ leading x00 (b58Decode s))%nat) as [|Hk]; [lia|].
      destruct (blockFits_spec n w (leading x00 (b58Decode s)) Hf ltac:(lia)) as (_ & H2 & _).
      rewrite Hv in Hr. rewrite Hlen, <- Hlead in Hr'.
      replace (w - leading x00 (b58Decode s) - 1)%nat
        with (w - 1 - leading x00 (b58Decode s))%nat in Hr' by lia.
      assert (256 ^ Z.of_nat (n - 1 - leading x00 (b58Decode s))
              < 256 ^ Z.of_nat (length (b58Decode s) - leading x00 (b58Decode s))) as Hlt by lia.
      apply Z.pow_lt_mono_r_iff in Hlt; lia. }
  rewrite bool_decide_false by lia. replace (_ <? n)%nat with false by (symmetry; apply Nat.ltb_ge; lia).
  by rewrite drop_last_value, Hv.
Qed.

End base58_proofs.

(** ** Whole addresses *)

Lemma foldl_app_concat {A B} (f : A → list B) l e :
  foldl (fun e i => e ++ f i) e l = e ++ concat (f <$> l).
Proof.
  revert e. induction l as [|i l IH]; intros e; cbn [foldl fmap list_fmap concat].
  - by rewrite app_nil_r.
  - by rewrite IH, <- app_assoc.
Qed.

Lemma chunk_concat {A} w (bs : list (list A)) r i b :
  Forall (fun b => length b = w) bs → bs !! i = Some b → chunk w i (concat bs ++ r) = b.
Proof.
  unfold chunk. intros Hbs. revert i. induction Hbs as [|c bs Hc _ IH]; intros i Hi; [done|].
  cbn [concat]. rewrite <- app_assoc. destruct i as [|i]; cbn in Hi.
  - injection Hi as ->. rewrite Nat.mul_0_l, drop_0. by rewrite take_app_length'.
  - rewrite Nat.mul_succ_l, Nat.add_comm, drop_app_add' by done. by apply IH.
Qed.

Lemma concat_chunks {A} w n (s : list A) : concat ((fun i => chunk w i s) <$> seq 0 n) = take (n * w) s.
Proof.
  induction n as [|n IH]; [done|]. rewrite seq_S, fmap_app, concat_app, IH. cbn [fmap list_fmap concat].
  unfold chunk. rewrite app_nil_r, Nat.add_0_l, take_take_drop. f_equal. lia.
Qed.

Lemma chunk_length {A} w i (s : list A) : (i * w + w ≤ length s)%nat → length (chunk w i s) = w.
Proof. unfold chunk. rewrite length_take, length_drop. lia. Qed.

(** The [n] bytes a block of symbols stands for. *)
Definition blockBytes (n : nat) (s : bytes) : option bytes :=
  (fun ds => reverse (leEncode n (beVal 58 ds))) <$> digits58 s.

(** The 69 bytes an address of 95 symbols stands for. *)
Definition addressValue (t : bytes) : option bytes :=
  bs ← mapM (fun i => blockBytes 8 (chunk 11 i t)) (seq 0 8);
  l ← blockBytes 5 (drop 88 t);
  Some (concat bs ++ l).

Lemma blockBytes_length n s b : blockBytes n s = Some b → length b = n.
Proof.
  unfold blockBytes. intros E. apply fmap_Some in E as [ds [_ ->]].
  by rewrite length_reverse, leEncode_length.
Qed.

Lemma concat_length_const {A} w (bs : list (list A)) :
  Forall (fun b => length b = w) bs → length (concat bs) = (length bs * w)%nat.
Proof. induction 1 as [|b bs Hb _ IH]; [done|]. cbn [concat length]. rewrite length_app. lia. Qed.

Lemma mapM_blocks_length n w t l bs :
  mapM (fun i => blockBytes n (chunk w i t)) l = Some bs → length (concat bs) = (length l * n)%nat.
Proof.
  intros E. rewrite (length_mapM _ _ _ E). apply concat_length_const.
  apply mapM_Some_1 in E. induction E; constructor; [by eapply blockBytes_length | done].
Qed.

Lemma addressValue_length t b : addressValue t = Some b → length b = addressBytesLen.
Proof.
  unfold addressValue. intros E. apply bind_Some in E as (bs & Hbs & E).
  apply bind_Some in E as (l & Hl & [= <-]). rewrite length_app.
  by rewrite (mapM_blocks_length _ _ _ _ _ Hbs), (blockBytes_length _ _ _ Hl).
Qed.

Lemma mapM_all_Some {A B} (g : A → option B) (h : A → B) l :
  Forall (fun a => g a = Some (h a)) l → mapM g l = Some (h <$> l).
Proof. induction 1 as [|a l Ha _ IH]; [done|]. cbn [mapM]. by rewrite Ha, IH. Qed.

Section addresses.
Context `{Base58Spec}.

Lemma decodeBlocks_spec ix t res :
  Forall (fun i => (i * 11 + 11 ≤ length t)%nat) ix →
  decodeBlocks ix t res =
  Done (match mapM (fun i => blockBytes 8 (chunk 11 i t)) ix with
        | Some bs => Ok (res ++ concat bs)
        | None => Err errInvalidAddressEncoding
        end).
Proof.
  intros Hix. revert res. induction Hix as [|i ix Hi _ IH]; intros res.
  { cbn. by rewrite app_nil_r. }
  cbn [decodeBlocks mapM]. unfold otry, obind.
  rewrite (decodeBlock_spec 8 11) by (apply blockFits_8_11 || lia || by apply chunk_length).
  assert (Hb : blockBytes 8 (chunk 11 i t) =
    (fun ds => reverse (leEncode 8 (beVal 58 ds))) <$> digits58 (chunk 11 i t)) by done.
  rewrite Hb. destruct (digits58 (chunk 11 i t)) as [ds|]; [|done].
  rewrite IH. cbn [fmap option_fmap option_map mbind option_bind]. destruct (mapM _ ix) as [bs|]; [|done]. cbn. by rewrite <- app_assoc.
Qed.

(** The decoder never panics; it accepts the texts of 95 symbols of the alphabet,
    and gives the low bytes of every block. *)
Lemma addrBase58ToBytes_exact t :
  addrBase58ToBytes t =
  Done (if bool_decide (length t = encodedAddressLen) then
          match addressValue t with
          | Some b => Ok b
          | None => Err errInvalidAddressEncoding
          end
        else Err (if bool_decide (length t = encodedIntegratedAddrLen)
                  then Wrapf "integrated addresses not supported" errInvalidAddressLength
                  else errInvalidAddressLength)).
Proof.
  unfold addrBase58ToBytes. case_bool_decide as Hl; cbn [negb]; [|done].
  change encodedAddressLen with 95%nat in Hl.
  unfold otry, obind. rewrite decodeBlocks_spec.
  2: { apply Forall_seq. lia. }
  destruct (addressValue t) as [b|] eqn:E.
  - pose proof (addressValue_length _ _ E) as Hb. unfold addressValue in E.
    apply bind_Some in E as (bs & Hbs & E). apply bind_Some in E as (l & Hlast & [= <-]).
    rewrite Hbs, (decodeBlock_spec 5 7) by (apply blockFits_5_7 || lia || (rewrite length_drop; lia)).
    unfold blockBytes in Hlast. apply fmap_Some in Hlast as [ds [-> ->]]. by rewrite bool_decide_true.
  - unfold addressValue in E. destruct (mapM _ (seq 0 8)) as [bs|] in E |- *; [|done].
    rewrite (decodeBlock_spec 5 7) by (apply blockFits_5_7 || lia || (rewrite length_drop; lia)).
    cbn [mbind option_bind] in E. unfold blockBytes in E. by destruct (digits58 (drop 88 t)).
Qed.

(** The blocks of an encoded address. *)
Lemma blockBytes_encode n w b : blockFits n w = true → length b = n →
  length (padBlock w (b58Encode b)) = w ∧ blockBytes n (padBlock w (b58Encode b)) = Some b.
Proof.
  intros Hf Hb. destruct (padBlock_encode n w b Hf Hb) as (ds & Hl & Hds & Hv).
  split; [done|]. unfold blockBytes. rewrite Hds. cbn. f_equal. rewrite Hv.
  unfold bigSetBytes. rewrite <- Hb, <- (length_reverse b) at 1.
  by rewrite leEncode_decode, reverse_involutive.
Qed.

(** The text of 69 bytes has 95 symbols and stands for those bytes. *)
Lemma addrBytesToBase58_value b : length b = addressBytesLen →
  ∃ t, addrBytesToBase58 b = Done t ∧ length t = encodedAddressLen ∧ addressValue t = Some b.
Proof.
  change addressBytesLen with 69%nat. intros Hb.
  unfold addrBytesToBase58. rewrite bool_decide_true by done. cbn [negb].
  rewrite foldl_app_concat, app_nil_l. eexists. split; [done|].
  set (f := fun i => padBlock 11 (b58Encode (chunk 8 i b))).
  assert (Hc : ∀ i, (i < 8)%nat → length (f i) = 11%nat ∧ blockBytes 8 (f i) = Some (chunk 8 i b)).
  { intros i Hi. apply blockBytes_encode; [apply blockFits_8_11 | apply chunk_length; lia]. }
  assert (Hfs : Forall (fun c => length c = 11%nat) (f <$> seq 0 8)).
  { apply Forall_fmap, Forall_seq. intros j Hj. apply Hc. lia. }
  assert (length (drop 64 b) = 5%nat) as Hd by (rewrite length_drop; lia).
  destruct (blockBytes_encode 5 7 (drop 64 b) blockFits_5_7 Hd) as [Hl7 Hb5].
  pose proof (concat_length_const _ _ Hfs) as Hlen. rewrite length_fmap, length_seq in Hlen.
  split; [by rewrite length_app, Hlen, Hl7|].
  unfold addressValue. rewrite (mapM_all_Some _ (fun i => chunk 8 i b)).
  2: { apply Forall_seq. intros i Hi. rewrite (chunk_concat _ _ _ _ (f i) Hfs); [apply Hc; lia|].
       rewrite list_lookup_fmap, lookup_seq_lt by lia. done. }
  cbn [mbind option_bind]. rewrite drop_app_length' by done. rewrite Hb5.
  cbn [mbind option_bind]. f_equal. rewrite (concat_chunks 8 8 b). apply (take_drop 64).
Qed.
End addresses.

(** ** Numbers as digit lists, and a reference coder *)

Fixpoint leDigits (base : Z) (fuel : nat) (z : Z) : list Z :=
  match fuel with
  | O => []
  | S f => if z <=? 0 then [] else z mod base :: leDigits base f (z / base)
  end.

(** The fuel: the bit length. *)
Definition beDigits (base z : Z) : list Z := reverse (leDigits base (S (Z.to_nat (Z.log2 z))) z).

Definition symbol58 (d : Z) : byte := nth (Z.to_nat d) alphabet one58.

Definition refEncode (b : bytes) : bytes :=
  repeat one58 (leading x00 b) ++ (symbol58 <$> beDigits 58 (bigSetBytes b)).

Definition refDecode (s : bytes) : bytes :=
  match digits58 s with
  | None => []
  | Some ds => repeat x00 (leading 0 ds) ++ (zByte <$> beDigits 256 (beVal 58 ds))
  end.

#[export] Instance refBase58 : Base58Lib := {| b58Encode := refEncode; b58Decode := refDecode |}.

Lemma beVal_snoc base ds d : beVal base (ds ++ [d]) = beVal base ds * base + d.
Proof.
  rewrite beVal_app. change (beVal base [d]) with (0 * base + d).
  change (Z.of_nat (length [d])) with 1. rewrite Z.pow_1_r. ring.
Qed.

Lemma leDigits_spec base fuel z : 2 ≤ base → 0 ≤ z < 2 ^ Z.of_nat fuel →
  beVal base (reverse (leDigits base fuel z)) = z ∧ digits base (leDigits base fuel z)
  ∧ last (leDigits base fuel z) ≠ Some 0.
Proof.
  intros Hb. revert z. induction fuel as [|f IH]; intros z Hz.
  - cbn in Hz. assert (z = 0) as -> by lia. by repeat split; [constructor|].
  - cbn [leDigits]. destruct (Z.leb_spec z 0); [assert (z = 0) as -> by lia; by repeat split; [constructor|]|].
    rewrite Nat2Z.inj_succ, Z.pow_succ_r in Hz by lia.
    pose proof (Z.div_pos z base). pose proof (Z.div_mod z base). pose proof (Z.mod_pos_bound z base).
    destruct (IH (z / base)) as (Hv & Hd & Hl); [nia|].
    rewrite reverse_cons, beVal_snoc, Hv. repeat split; [lia | constructor; [lia | done] |].
    rewrite last_cons. destruct (last (leDigits base f (z / base))) eqn:E; [done|].
    apply last_None in E. rewrite E in Hv. cbn in Hv. intros [= Hm]. nia.
Qed.

Lemma beDigits_spec base z : 2 ≤ base → 0 ≤ z →
  beVal base (beDigits base z) = z ∧ digits base (beDigits base z) ∧ head (beDigits base z) ≠ Some 0.
Proof.
  intros Hb Hz. unfold beDigits. destruct (leDigits_spec base (S (Z.to_nat (Z.log2 z))) z Hb)
    as (Hv & Hd & Hl).
  - split; [done|]. rewrite Nat2Z.inj_succ, Z2Nat.id by apply Z.log2_nonneg.
    destruct (decide (z = 0)) as [->|]; [done|]. apply Z.log2_spec. lia.
  - repeat split; [done | by apply Forall_reverse | by rewrite head_reverse].
Qed.

Lemma leading_repeat {A} `{EqDecision A} (z : A) n l :
  head l ≠ Some z → leading z (repeat z n ++ l) = n.
Proof.
  intros Hh. induction n as [|n IH]; cbn.
  - destruct l as [|x l]; [done|]. cbn. rewrite decide_False; [done|]. intros ->. done.
  - rewrite decide_True by done. by rewrite IH.
Qed.

Lemma digit58_symbol58 d : 0 ≤ d < 58 → digit58 (symbol58 d) = Some d.
Proof.
  intros Hd. assert (Forall (fun k => digit58 (symbol58 (Z.of_nat k)) = Some (Z.of_nat k)) (seq 0 58)) as HF.
  { repeat (constructor; [reflexivity|]). constructor. }
  rewrite Forall_seq in HF. specialize (HF (Z.to_nat d) ltac:(lia)). by rewrite Z2Nat.id in HF by lia.
Qed.

Lemma digits58_symbols ds : digits 58 ds → digits58 (symbol58 <$> ds) = Some ds.
Proof.
  unfold digits58. induction 1 as [|d ds Hd _ IH]; [done|].
  cbn [fmap list_fmap mapM]. fold (symbol58 <$> ds). by rewrite digit58_symbol58, IH by done.
Qed.

Lemma byteZ_zBytes ds : digits 256 ds → byteZ <$> (zByte <$> ds) = ds.
Proof.
  induction 1 as [|d ds Hd _ IH]; [done|]. cbn [fmap list_fmap]. fold (zByte <$> ds). fold (byteZ <$> (zByte <$> ds)).
  by rewrite byteZ_zByte, Z.mod_small, IH by lia.
Qed.

Lemma bigSetBytes_nonneg b : 0 ≤ bigSetBytes b.
Proof. unfold bigSetBytes. apply leDecode_range. Qed.

#[export] Instance refBase58Spec : Base58Spec.
Proof.
  split.
  - intros b. cbn. unfold refEncode.
    destruct (beDigits_spec 58 (bigSetBytes b) ltac:(lia) (bigSetBytes_nonneg b)) as (Hv & Hd & Hh).
    exists (repeat 0 (leading x00 b) ++ beDigits 58 (bigSetBytes b)).
    rewrite beVal_zeros, leading_repeat by done. repeat split; [|done].
    apply digits58_pad. by apply digits58_symbols.
  - intros s ds Hds. change (b58Decode s) with (refDecode s). unfold refDecode. rewrite Hds.
    destruct (beVal_range 58 ds eq_refl (digits58_digits _ _ Hds)) as [H0 _].
    destruct (beDigits_spec 256 (beVal 58 ds) ltac:(lia) H0) as (Hv & Hd & Hh).
    rewrite <- leading_bytes, bigSetBytes_beVal, fmap_app, byteZ_zBytes by done.
    replace (byteZ <$> repeat x00 _) with (repeat 0 (leading 0 ds)).
    + rewrite beVal_zeros, leading_repeat by done. done.
    + symmetry. induction (leading 0 ds) as [|n IH]; [done|]. cbn [repeat fmap list_fmap].
      by f_equal.
  - intros s Hs. cbn. unfold refDecode. by rewrite Hs.
Qed.

(** Any number that fits has a text of a given width. *)
Lemma symbols_of w v : 0 ≤ v < 58 ^ Z.of_nat w →
  ∃ s ds, length s = w ∧ digits58 s = Some ds ∧ beVal 58 ds = v.
Proof.
  revert v. induction w as [|w IH]; intros v Hv.
  - exists [], []. cbn in *. repeat split. lia.
  - rewrite Nat2Z.inj_succ, Z.pow_succ_r in Hv by lia.
    destruct (IH (v / 58)) as (s & ds & Hl & Hd & Hval).
    { split; [apply Z.div_pos; lia | apply Z.div_lt_upper_bound; lia]. }
    exists (s ++ [symbol58 (v mod 58)]), (ds ++ [v mod 58]).
    pose proof (Z.div_mod v 58). pose proof (Z.mod_pos_bound v 58).
    assert (digits58 [symbol58 (v mod 58)] = Some [v mod 58]) as Hs.
    { apply (digits58_symbols [v mod 58]). repeat constructor; lia. }
    rewrite length_app, digits58_app, Hd, Hs, beVal_snoc, Hval. cbn [length]. repeat split; lia.
Qed.

(** ** Texts that stand for the same address *)

Lemma leEncode_wrap n z k : leEncode n (z + k * 256 ^ Z.of_nat n) = leEncode n z.
Proof.
  revert z k. induction n as [|n IH]; intros z k; [done|]. cbn [leEncode].
  rewrite Nat2Z.inj_succ, Z.pow_succ_r by lia.
  replace (z + k * (256 * 256 ^ Z.of_nat n)) with (z + k * 256 ^ Z.of_nat n * 256) by ring.
  rewrite Z.div_add, IH by lia. f_equal.
  by rewrite <- zByte_mod, Z_mod_plus_full, zByte_mod.
Qed.

(** Only the bytes a block of symbols stands for matter. *)
Lemma addressValue_first s t : length s = 11%nat → (11 ≤ length t)%nat →
  blockBytes 8 s = blockBytes 8 (take 11 t) → addressValue (s ++ drop 11 t) = addressValue t.
Proof.
  intros Hs Ht Hb. unfold addressValue. cbn [seq mapM].
  assert (∀ i, chunk 11 (S i) (s ++ drop 11 t) = chunk 11 (S i) t) as Hc.
  { intros i. unfold chunk. rewrite Nat.mul_succ_l, (Nat.add_comm (i * 11) 11).
    by rewrite drop_app_add', drop_drop by done. }
  assert (chunk 11 0 (s ++ drop 11 t) = s) as ->.
  { unfold chunk. rewrite Nat.mul_0_l, drop_0. by apply take_app_length'. }
  rewrite !Hc, Hb. replace (drop 88 (s ++ drop 11 t)) with (drop 88 t); [done|].
  change 88%nat with (11 + 77)%nat. by rewrite drop_app_add', drop_drop by done.
Qed.

Lemma take_first_block t a : addressValue t = Some a → blockBytes 8 (take 11 t) = Some (take 8 a).
Proof.
  unfold addressValue. intros E. apply bind_Some in E as (bs & Hbs & E).
  apply bind_Some in E as (l & _ & [= <-]). cbn [seq mapM] in Hbs.
  apply bind_Some in Hbs as (b & Hb & Hbs). change (chunk 11 0 t) with (take 11 t) in Hb.
  rewrite Hb. f_equal. apply bind_Some in Hbs as (bs' & _ & [= <-]). cbn [concat].
  rewrite <- app_assoc. symmetry. apply take_app_length'. symmetry. by eapply blockBytes_length.
Qed.

(** A block below 90 * 256 ^ 7 is that of another number of eleven symbols. *)
Lemma block_twin s b : length s = 11%nat → blockBytes 8 s = Some b → bigSetBytes b < 90 * 256 ^ 7 →
  ∃ s', length s' = 11%nat ∧ s' ≠ s ∧ blockBytes 8 s' = Some b.
Proof.
  unfold blockBytes. intros Hs E Hsmall. apply fmap_Some in E as [ds [Hds ->]].
  pose proof (beVal_range 58 ds eq_refl (digits58_digits _ _ Hds)) as Hr.
  rewrite (digits58_length _ _ Hds), Hs in Hr. change (58 ^ Z.of_nat 11) with (58 ^ 11) in Hr.
  set (v := beVal 58 ds) in *.
  assert (∃ k, v + k * 256 ^ Z.of_nat 8 ≠ v ∧ 0 ≤ v + k * 256 ^ Z.of_nat 8 < 58 ^ Z.of_nat 11)
    as (k & Hne & Hk).
  { change (256 ^ Z.of_nat 8) with (2 ^ 64). change (58 ^ Z.of_nat 11) with (58 ^ 11).
    destruct (decide (v < 2 ^ 64)) as [Hlt|Hge]; [exists 1 | exists (-1); lia].
    unfold bigSetBytes in Hsmall. rewrite reverse_involutive, leDecode_encode in Hsmall; lia. }
  destruct (symbols_of 11 _ Hk) as (s' & ds' & Hl & Hd & Hv).
  exists s'. split; [done|]. split.
  - intros ->. rewrite Hds in Hd. injection Hd as <-. done.
  - rewrite Hd. cbn [fmap option_fmap option_map]. by rewrite Hv, leEncode_wrap.
Qed.

Lemma Forall_concat_iff {A} (P : A → Prop) (ls : list (list A)) :
  Forall P (concat ls) ↔ Forall (Forall P) ls.
Proof. induction ls as [|l ls IH]; cbn; [done|]. by rewrite Forall_app, IH, Forall_cons. Qed.

(** A text of the right length stands for an address when its symbols are those of
    the alphabet. *)
Lemma addressValue_valid t : length t = encodedAddressLen →
  is_Some (addressValue t) ↔ is_Some (digits58 t).
Proof.
  intros Hl. assert (∀ n s, is_Some (blockBytes n s) ↔ Forall (fun c => is_Some (digit58 c)) s) as Hb.
  { intros n s. unfold blockBytes, digits58. rewrite fmap_is_Some. apply mapM_is_Some. }
  assert (is_Some (digits58 t) ↔
    Forall (fun i => Forall (fun c => is_Some (digit58 c)) (chunk 11 i t)) (seq 0 8)
    ∧ Forall (fun c => is_Some (digit58 c)) (drop 88 t)) as ->.
  { unfold digits58. rewrite mapM_is_Some.
    change (fun i => Forall (fun c => is_Some (digit58 c)) (chunk 11 i t))
      with (Forall (fun c => is_Some (digit58 c)) ∘ (fun i => chunk 11 i t)).
    rewrite <- (Forall_fmap (fun i => chunk 11 i t)), <- Forall_concat_iff, (concat_chunks 11 8 t), <- Forall_app.
    by rewrite (take_drop 88). }
  rewrite <- (Hb 5%nat (drop 88 t)).
  unfold addressValue. transitivity (is_Some (mapM (fun i => blockBytes 8 (chunk 11 i t)) (seq 0 8))
                                     ∧ is_Some (blockBytes 5 (drop 88 t))).
  - destruct (mapM _ _) as [bs|]; cbn; [|split; [by intros [] | by intros [[] _]]].
    destruct (blockBytes _ _); cbn; split; [done.. | by intros [] | by intros [_ []]].
  - f_equiv. rewrite mapM_is_Some. apply Forall_proper; [|done]. intros i. apply Hb.
Qed.

(** ** The address type *)

Section text.
Context `{Base58Spec, CryptoSpec}.

(** Unmarshalling gives the bytes the text stands for, when they are a valid
    address. *)
Lemma Address_UnmarshalText_inv t a :
  Address_UnmarshalText t = Done (Ok a) ↔
  length t = encodedAddressLen ∧ addressValue t = Some a ∧ validateDecoded a = None.
Proof.
  unfold Address_UnmarshalText, otry, obind. rewrite addrBase58ToBytes_exact.
  case_bool_decide as Hl; [|split; [done | tauto]].
  destruct (addressValue t) as [b|] eqn:E; [|split; [done | by intros (_ & ? & _)]].
  pose proof (addressValue_length _ _ E) as Hb.
  rewrite bool_decide_true, goCopy_id by lia. cbn [negb].
  destruct (validateDecoded b) eqn:V; (split; [intros [= ->] | intros (_ & [= ->] & ?)]); congruence || done.
Qed.

Lemma validateDecoded_prefix a : validateDecoded a = None → addrPrefix a < 90.
Proof.
  unfold validateDecoded. case_bool_decide; [|done]. cbn [negb].
  unfold netPrefixStdAddrMainnet, netPrefixSubAddrMainnet, netPrefixStdAddrStagenet,
    netPrefixSubAddrStagenet, netPrefixStdAddrTestnet, netPrefixSubAddrTestnet.
  destruct (_ || _) eqn:E; [|done]. intros _. rewrite !orb_true_iff, !Z.eqb_eq in E. lia.
Qed.

Lemma first_block_small a : (8 ≤ length a)%nat → addrPrefix a < 90 →
  bigSetBytes (take 8 a) < 90 * 256 ^ 7.
Proof.
  destruct a as [|c a]; cbn [length]; [lia|]. unfold addrPrefix. cbn [nth]. intros Hl Hc.
  rewrite bigSetBytes_beVal. cbn [take fmap list_fmap]. fold (byteZ <$> take 7 a).
  rewrite beVal_cons, length_fmap, length_take, Nat.min_l by lia.
  pose proof (beVal_range 256 (byteZ <$> take 7 a) eq_refl (byteZ_digits _)) as Hr.
  rewrite length_fmap, length_take, Nat.min_l in Hr by lia.
  change (Z.of_nat 7) with 7 in *. lia.
Qed.

(** C37: an address survives its text: marshalling a valid address gives 95 symbols,
    which unmarshal to the same address, and [NewAddress] of them only adds the check
    of the environment. *)
Theorem address_text_roundtrip (a : bytes) (env : Environment) :
  length a = addressBytesLen → validateDecoded a = None →
  ∃ t, Address_MarshalText a = Done (Ok t) ∧ Address_String a = Done t
       ∧ length t = encodedAddressLen ∧ Address_UnmarshalText t = Done (Ok a)
       ∧ NewAddress t env = (e <~ ValidateEnv (Some a) env ;; Done (Some a, e)).
Proof.
  intros Hl V. destruct (addrBytesToBase58_value a Hl) as (t & Ht & Hlt & Hv).
  assert (Address_UnmarshalText t = Done (Ok a)) as Hu by by apply Address_UnmarshalText_inv.
  exists t. unfold Address_MarshalText, Address_String, NewAddress. rewrite V, Ht, Hu. done.
Qed.

(** Decoding an address text never panics, whatever the text (no slice of a
    decoded block is out of range, the length check cannot fail), and a text decodes
    exactly when it has 95 symbols, all of the base58 alphabet. *)
Theorem addrBase58ToBytes_total (t : bytes) :
  ∃ r, addrBase58ToBytes t = Done r ∧
       (isOk r = true ↔ length t = encodedAddressLen ∧ is_Some (digits58 t)).
Proof.
  rewrite addrBase58ToBytes_exact. eexists. split; [done|].
  case_bool_decide as Hl; [|split; [done | tauto]].
  transitivity (is_Some (addressValue t)); [destruct (addressValue t); split; try done; by intros []|].
  rewrite (addressValue_valid t Hl). tauto.
Qed.

(** The text of an address is not unique: whatever text an address was read from,
    another text is read as the same address, since the decoder drops what a block
    of eleven symbols holds beyond eight bytes. *)
Theorem address_text_has_twin (t a : bytes) :
  Address_UnmarshalText t = Done (Ok a) →
  ∃ t', t' ≠ t ∧ Address_UnmarshalText t' = Done (Ok a).
Proof.
  intros Hu. apply Address_UnmarshalText_inv in Hu as (Hl & Hv & V).
  change encodedAddressLen with 95%nat in Hl.
  pose proof (addressValue_length _ _ Hv) as Ha. change addressBytesLen with 69%nat in Ha.
  destruct (block_twin (take 11 t) (take 8 a)) as (s & Hs & Hne & Hb).
  - rewrite length_take. lia.
  - by apply take_first_block.
  - apply first_block_small; [lia | by apply validateDecoded_prefix].
  - exists (s ++ drop 11 t). split.
    + intros E. apply Hne. apply (f_equal (take 11)) in E. by rewrite take_app_length' in E.
    + apply Address_UnmarshalText_inv. rewrite addressValue_first, length_app, length_drop, Hs.
      * by rewrite Hl.
      * done.
      * lia.
      * rewrite Hb. symmetry. by apply take_first_block.
Qed.

End text.

(** ** Concrete addresses *)

Definition sampleAddress : bytes :=
  let body := zByte 18 :: (zByte ∘ Z.of_nat <$> seq 1 64) in body ++ getChecksum body.

Definition sampleAddressText : bytes :=
  Eval vm_compute in
    match addrBytesToBase58 sampleAddress with Done t => t | _ => [] end.

(** The twin of the sample text: its first block holds 2 ^ 64 more. *)
Definition sampleTwinText : bytes :=
  Eval vm_compute in
    (symbol58 <$> beDigits 58 (2 ^ 64 + bigSetBytes (take 8 sampleAddress)))
      ++ drop 11 sampleAddressText.

Lemma address_text_roundtrip_witness :
  ∃ t, Address_MarshalText sampleAddress = Done (Ok t) ∧ Address_String sampleAddress = Done t
       ∧ length t = encodedAddressLen ∧ Address_UnmarshalText t = Done (Ok sampleAddress)
       ∧ NewAddress t Mainnet =
           (e <~ ValidateEnv (Some sampleAddress) Mainnet ;; Done (Some sampleAddress, e)).
Proof. apply (address_text_roundtrip sampleAddress Mainnet); reflexivity. Defined.

Lemma address_text_has_twin_witness :
  ∃ t', t' ≠ sampleAddressText ∧ Address_UnmarshalText t' = Done (Ok sampleAddress).
Proof. apply (address_text_has_twin sampleAddressText sampleAddress). vm_compute. reflexivity. Defined.

Example sample_twin_accepted :
  Address_UnmarshalText sampleTwinText = Done (Ok sampleAddress) ∧ sampleTwinText ≠ sampleAddressText.
Proof. split; [vm_compute; reflexivity | discriminate]. Qed.

Lemma addrBase58ToBytes_total_witness :
  ∃ r, addrBase58ToBytes sampleAddressText = Done r ∧
       (isOk r = true ↔ length sampleAddressText = encodedAddressLen ∧ is_Some (digits58 sampleAddressText)).
Proof. apply (addrBase58ToBytes_total sampleAddressText). Defined.
