(* ===== verification/Contracts.v ===== *)
(** * The SwapCreator contract seen from the daemon (packages ethereum and protocol)

    The contract's structures, the logs it emits, swap identifiers and the
    secrets read from logs.  The ABI encoder is go-ethereum's: the class
    [AbiLib] with the documented encoding of static arguments as [AbiSpec]. *)

From stdpp Require Import base list strings.
From Stdlib Require Import ZArith Strings.Byte.
From S2P Require Import Prelude Types TypesProofs Bytes Crypto CryptoProofs.

Open Scope Z_scope.
Open Scope go_scope.

(** ** Structures (ethereum/swap_creator.go, go-ethereum logs and receipts) *)

Record SwapCreatorSwap : Type := mkSwap {
  swOwner : Address;
  swClaimer : Address;
  swClaimCommitment : Hash;
  swRefundCommitment : Hash;
  swTimeout1 : Z;
  swTimeout2 : Z;
  swAsset : Address;
  swValue : Z;
  swNonce : Z
}.

Record SwapCreatorRelaySwap : Type := mkRelaySwap {
  rsSwap : SwapCreatorSwap;
  rsFee : Z;
  rsRelayerHash : Hash;
  rsSwapCreator : Address
}.

Record Log : Type := mkLog {
  lgAddress : Address;
  lgTopics : list Hash;
  lgData : bytes;
  lgTxHash : Hash;
  lgBlockNumber : Z;
  lgRemoved : bool
}.

Record Receipt : Type := mkReceipt {
  rcStatus : Z;
  rcLogs : list Log;
  rcTxHash : Hash;
  rcBlockNumber : Z
}.

(** The event [New]. *)
Record SwapCreatorNew : Type := mkNew {
  evSwapID : Hash;
  evClaimKey : Hash;
  evRefundKey : Hash;
  evTimeout1 : Z;
  evTimeout2 : Z;
  evAsset : Address;
  evValue : Z
}.

#[global] Instance swapCreatorSwap_eq_dec : EqDecision SwapCreatorSwap.
Proof. solve_decision. Defined.

(** Values of fixed Go types: addresses, hashes and 256-bit integers. *)
Definition in_uint256 (z : Z) : Prop := 0 ≤ z < 2 ^ 256.

Record wf_swap (s : SwapCreatorSwap) : Prop := {
  wf_owner : wf_address (swOwner s);
  wf_claimer : wf_address (swClaimer s);
  wf_claimCommitment : wf_hash (swClaimCommitment s);
  wf_refundCommitment : wf_hash (swRefundCommitment s);
  wf_timeout1 : in_uint256 (swTimeout1 s);
  wf_timeout2 : in_uint256 (swTimeout2 s);
  wf_asset : wf_address (swAsset s);
  wf_value : in_uint256 (swValue s);
  wf_nonce : in_uint256 (swNonce s)
}.

(** ** ABI encoding *)

Inductive abiValue : Type :=
| AbiAddress (a : Address)
| AbiBytes32 (h : Hash)
| AbiUint256 (z : Z).

(** The 32-byte word of a static argument. *)
Definition abiWord (v : abiValue) : bytes :=
  match v with
  | AbiAddress a => repeat x00 12 ++ a
  | AbiBytes32 h => h
  | AbiUint256 z => reverse (leEncode 32 z)
  end.

Definition wf_abiValue (v : abiValue) : Prop :=
  match v with
  | AbiAddress a => wf_address a
  | AbiBytes32 h => wf_hash h
  | AbiUint256 z => in_uint256 z
  end.

Class AbiLib := {
  abiPack : list abiValue → result bytes;
  (* [abi.Unpack(event, data)] *)
  abiUnpack : string → bytes → result (list abiValue);
  abiEventID : string → Hash;
  (* [SwapCreator.ParseNew(log)] of the generated bindings *)
  abiParseNew : Log → result SwapCreatorNew;
  (* the method newSwap of the parsed ABI, and [Inputs.UnpackIntoMap] on its arguments: the
     claimer, the commitments, the asset, the value and the nonce *)
  abiUnpackNewSwap : bytes → result (Address * Hash * Hash * Address * Z * Z)
}.

Class AbiSpec `{AbiLib} : Prop := {
  pack_static vs : Forall wf_abiValue vs → abiPack vs = Ok (concat (map abiWord vs))
}.

(** ** ethereum/utils.go *)

Definition StageInvalid : Z := 0.
Definition StagePending : Z := 1.
Definition StageReady : Z := 2.
Definition StageCompleted : Z := 3.

Definition StageToString (stage : Z) : string :=
  if stage =? StageInvalid then "Invalid"
  else if stage =? StagePending then "Pending"
  else if stage =? StageReady then "Ready"
  else if stage =? StageCompleted then "Completed"
  else "UnknownStageValue".

Definition ReadyEventSignature : string := "Ready(bytes32)".
Definition ClaimedEventSignature : string := "Claimed(bytes32,bytes32)".
Definition RefundedEventSignature : string := "Refunded(bytes32,bytes32)".

Section contracts.
Context `{CryptoLib} `{AbiLib}.

(** [common.GetTopic] *)
Definition GetTopic (sig : string) : Hash := goCopy 32 (ethKeccak256 (bytesOfString sig)).

Definition readyTopic : Hash := GetTopic ReadyEventSignature.
Definition claimedTopic : Hash := GetTopic ClaimedEventSignature.
Definition refundedTopic : Hash := GetTopic RefundedEventSignature.

Definition swapArgs (s : SwapCreatorSwap) : list abiValue :=
  [AbiAddress (swOwner s); AbiAddress (swClaimer s); AbiBytes32 (swClaimCommitment s);
   AbiBytes32 (swRefundCommitment s); AbiUint256 (swTimeout1 s); AbiUint256 (swTimeout2 s);
   AbiAddress (swAsset s); AbiUint256 (swValue s); AbiUint256 (swNonce s)].

Definition SwapID (sfs : SwapCreatorSwap) : outcome Hash :=
  match abiPack (swapArgs sfs) with
  | Err _ => Panicked "failed to pack arguments"
  | Ok args => Done (ethKeccak256 args)
  end.

Definition RelaySwap_Hash (s : SwapCreatorRelaySwap) : outcome Hash :=
  match abiPack (swapArgs (rsSwap s) ++
                 [AbiUint256 (rsFee s); AbiBytes32 (rsRelayerHash s); AbiAddress (rsSwapCreator s)]) with
  | Err _ => Panicked "failed to pack arguments"
  | Ok args => Done (ethKeccak256 args)
  end.

Definition GetSecretFromLog (log : Log) (eventTopic : Hash) : result Scalar :=
  if negb (bool_decide (eventTopic = claimedTopic)) && negb (bool_decide (eventTopic = refundedTopic))
  then Err (errorf "invalid event, must be one of Claimed or Refunded")
  else
    match lgTopics log with
    | _ :: _ :: s :: _ =>
        if bool_decide (s = repeat x00 32) then Err (errorf "got zero secret key from contract")
        else NewPrivateSpendKey (Reverse s)
    | _ => Err (errorf "log had not enough parameters")
    end.

Definition CheckIfLogIDMatches (log : Log) (eventTopic id : Hash) : result bool :=
  if negb (bool_decide (eventTopic = claimedTopic)) && negb (bool_decide (eventTopic = refundedTopic))
  then Err (errorf "invalid event, must be one of Claimed or Refunded")
  else
    match lgTopics log with
    | _ :: eventID :: _ => Ok (bool_decide (eventID = id))
    | _ => Err (errorf "log had not enough parameters")
    end.

(** [log.Topics[0]] panics on a log without topics, a failed type assertion
    panics too. *)
Definition GetIDFromLog (log : Log) : outcome (result Hash) :=
  match lgTopics log with
  | [] => Panicked "index out of range"
  | t0 :: _ =>
      if negb (bool_decide (t0 = abiEventID "New")) then Done (Err (errorf "wrong log topic"))
      else
        match abiUnpack "New" (lgData log) with
        | Err e => Done (Err e)
        | Ok [] => Done (Err (errorf "log didn't have enough parameters"))
        | Ok (AbiBytes32 id :: _) => Done (Ok id)
        | Ok _ => Panicked "interface conversion"
        end
  end.

Definition GetTimeoutsFromLog (log : Log) : outcome (result (Z * Z)) :=
  match lgTopics log with
  | [] => Panicked "index out of range"
  | t0 :: _ =>
      if negb (bool_decide (t0 = abiEventID "New")) then Done (Err (errorf "wrong log topic"))
      else
        match abiUnpack "New" (lgData log) with
        | Err e => Done (Err e)
        | Ok res =>
            if (length res <? 5)%nat then Done (Err (errorf "log didn't have enough parameters"))
            else
              match res !! 3%nat, res !! 4%nat with
              | Some (AbiUint256 t1), Some (AbiUint256 t2) => Done (Ok (t1, t2))
              | _, _ => Panicked "interface conversion"
              end
        end
  end.

(** ** protocol/utils.go and protocol/errors.go *)

Definition ErrLogNotForUs : error :=
  Sentinel "ErrLogNotForUs" "found log that isn't for our swap".
Definition errLogMissingParams : error :=
  Sentinel "errLogMissingParams" "log didn't have enough topics".
Definition errInvalidEventTopic : error :=
  Sentinel "errInvalidEventTopic" "log did not have correct event as first topic".

Definition CheckSwapID (log : Log) (eventNameTopic contractSwapID : Hash) : result unit :=
  match lgTopics log with
  | t0 :: t1 :: _ =>
      if negb (bool_decide (t0 = eventNameTopic)) then Err errInvalidEventTopic
      else if negb (bool_decide (t1 = contractSwapID)) then Err ErrLogNotForUs
      else Ok tt
  | _ => Err errLogMissingParams
  end.

(** ** protocol/xmrmaker/claim.go: the Claimed log of a relayed claim *)

Definition errClaimedLogInvalidContractAddr : error :=
  Sentinel "errClaimedLogInvalidContractAddr" "log was not emitted by correct contract".
Definition errClaimedLogWrongTopicLength : error :=
  Sentinel "errClaimedLogWrongTopicLength" "log did not have 3 topics".
Definition errClaimedLogWrongEvent : error :=
  Sentinel "errClaimedLogWrongEvent" "log did not have the Claimed event as its first topic".
Definition errClaimedLogWrongSwapID : error :=
  Sentinel "errClaimedLogWrongSwapID" "log did not have the correct swap ID as its second topic".
Definition errClaimedLogWrongSecret : error :=
  Sentinel "errClaimedLogWrongSecret" "log did not have the correct secret as its third topic".

Definition checkClaimedLog (log : Log) (contractAddr : Address) (contractSwapID secret : Hash)
    : result unit :=
  if negb (bool_decide (lgAddress log = contractAddr)) then Err errClaimedLogInvalidContractAddr
  else
    match lgTopics log with
    | [t0; t1; t2] =>
        if negb (bool_decide (t0 = claimedTopic)) then Err errClaimedLogWrongEvent
        else if negb (bool_decide (t1 = contractSwapID)) then Err errClaimedLogWrongSwapID
        else if negb (bool_decide (t2 = secret)) then Err errClaimedLogWrongSecret
        else Ok tt
    | _ => Err errClaimedLogWrongTopicLength
    end.

End contracts.

(** ** Lemmas *)

Lemma uint256_word_inj z z' : in_uint256 z → in_uint256 z' →
  reverse (leEncode 32 z) = reverse (leEncode 32 z') → z = z'.
Proof.
  unfold in_uint256. intros Hz Hz' Heq. apply (inj reverse) in Heq.
  rewrite <- (leDecode_encode 32 z), <- (leDecode_encode 32 z'), Heq; done.
Qed.

Lemma abiWord_length v : wf_abiValue v → length (abiWord v) = 32%nat.
Proof.
  destruct v as [a|h|z]; cbn [abiWord wf_abiValue].
  - unfold wf_address, addressLen. intros Ha. rewrite length_app, repeat_length. lia.
  - done.
  - intros _. by rewrite length_reverse, leEncode_length.
Qed.

(** Values of the same ABI type with the same word are equal. *)
Definition sameAbiType (v w : abiValue) : Prop :=
  match v, w with
  | AbiAddress _, AbiAddress _ | AbiBytes32 _, AbiBytes32 _ | AbiUint256 _, AbiUint256 _ => True
  | _, _ => False
  end.

Lemma abiWord_inj v w : wf_abiValue v → wf_abiValue w → sameAbiType v w → abiWord v = abiWord w → v = w.
Proof.
  destruct v, w; cbn [abiWord wf_abiValue sameAbiType]; intros Hv Hw Ht Heq; try done.
  - apply app_inv_head in Heq. congruence.
  - congruence.
  - f_equal. by apply uint256_word_inj.
Qed.

Lemma abiWords_inj vs ws : Forall wf_abiValue vs → Forall wf_abiValue ws → Forall2 sameAbiType vs ws →
  concat (map abiWord vs) = concat (map abiWord ws) → vs = ws.
Proof.
  intros Hv Hw Ht. revert Hv Hw. induction Ht as [|v w vs ws Ht Hts IH]; intros Hv Hw Heq; [done|].
  apply Forall_cons in Hv as [Hv Hvs], Hw as [Hw Hws]. cbn in Heq.
  apply app_inj_len in Heq as [Heq1 Heq2]; [|by rewrite !abiWord_length].
  f_equal; [by apply abiWord_inj | by apply IH].
Qed.

Lemma swapArgs_wf s : wf_swap s → Forall wf_abiValue (swapArgs s).
Proof. intros []. unfold swapArgs. rewrite !Forall_cons, Forall_nil. cbn [wf_abiValue]. tauto. Qed.

(** ** The properties *)

(** [abi.encode(_swap)] of the contract: the nine fields in the order of its structure, an
    address padded on the left to a word, integers big-endian. *)
Definition encodedSwap (s : SwapCreatorSwap) : bytes :=
  repeat x00 12 ++ swOwner s ++ repeat x00 12 ++ swClaimer s ++ swClaimCommitment s ++ swRefundCommitment s ++
  reverse (leEncode 32 (swTimeout1 s)) ++ reverse (leEncode 32 (swTimeout2 s)) ++
  repeat x00 12 ++ swAsset s ++ reverse (leEncode 32 (swValue s)) ++ reverse (leEncode 32 (swNonce s)).

Lemma encodedSwap_words s : concat (map abiWord (swapArgs s)) = encodedSwap s.
Proof. cbn [swapArgs map abiWord concat]. unfold encodedSwap. by rewrite app_nil_r, <- !(assoc_L (++)). Qed.

(** C39: safety.  A contract swap ID is the hash the contract computes, and binds the whole
    swap: [SwapID] of a well-formed swap does not panic and is the Keccak hash of
    [abi.encode] of the swap; two well-formed swaps with the same ID have equal owner,
    claimer, commitments, timeouts, asset, value and nonce, or their two encodings differ
    and are a collision of the hash. *)
Theorem SwapID_binds_swap `{CryptoLib} `{AbiSpec} (s s' : SwapCreatorSwap) :
  wf_swap s → wf_swap s' →
  SwapID s = Done (ethKeccak256 (encodedSwap s)) ∧
  (SwapID s = SwapID s' →
     s = s' ∨ encodedSwap s ≠ encodedSwap s' ∧ ethKeccak256 (encodedSwap s) = ethKeccak256 (encodedSwap s')).
Proof.
  intros W W'. unfold SwapID. rewrite !pack_static by auto using swapArgs_wf. rewrite !encodedSwap_words.
  split; [done|]. intros [= Heq].
  destruct (decide (encodedSwap s = encodedSwap s')) as [Hm|Hm]; [left | by right].
  rewrite <- !encodedSwap_words in Hm. apply abiWords_inj in Hm; [|auto using swapArgs_wf.. |repeat constructor].
  destruct s, s'. cbv [swapArgs swOwner swClaimer swClaimCommitment swRefundCommitment swTimeout1
    swTimeout2 swAsset swValue swNonce] in Hm. congruence.
Qed.

#[export] Instance refAbi : AbiLib := {|
  abiPack := fun vs => Ok (concat (map abiWord vs));
  abiUnpack := fun _ _ => Err (errorf "abi: not implemented");
  abiEventID := fun _ => repeat x00 32;
  abiParseNew := fun _ => Err (errorf "abi: not implemented");
  abiUnpackNewSwap := fun _ => Err (errorf "abi: not implemented")
|}.

#[export] Instance refAbiSpec : AbiSpec.
Proof. by split. Qed.

Definition sampleSwap : SwapCreatorSwap :=
  mkSwap (repeat x01 20) (repeat x02 20) (repeat x03 32) (repeat x04 32) 1000 2000 zeroAddress
    (5 * 10 ^ 17) 42.

Lemma sampleSwap_wf : wf_swap sampleSwap.
Proof. by split. Qed.

Lemma SwapID_binds_swap_witness :
  SwapID sampleSwap = Done (ethKeccak256 (encodedSwap sampleSwap)) ∧
  (SwapID sampleSwap = SwapID sampleSwap →
     sampleSwap = sampleSwap ∨ encodedSwap sampleSwap ≠ encodedSwap sampleSwap ∧
       ethKeccak256 (encodedSwap sampleSwap) = ethKeccak256 (encodedSwap sampleSwap)).
Proof. apply (SwapID_binds_swap sampleSwap sampleSwap); apply sampleSwap_wf. Defined.

(** C38: The claim on Ethereum reveals the key on Monero: whoever reads the log of a
    claim (or refund) made with the secret of freshly generated keys recovers exactly the
    private spend key of these keys, unless the secret is zero. The secret that the maker recomputes from
    the stored spend key after a restart is the one of his proof. *)
Theorem revealed_secret_is_spend_key `{CryptoSpec} (rnd : result bytes) (kp : KeysAndProof)
    (log : Log) (topic id : Hash) (rest : list Hash) :
  GenerateKeysAndProof rnd = Done (Ok kp) →
  topic = claimedTopic ∨ topic = refundedTopic →
  lgTopics log = topic :: id :: Proof_Secret (kpProof kp) :: rest →
  Proof_Secret (kpProof kp) ≠ repeat x00 32 →
  GetSecretFromLog log topic = Ok (kpSpend (kpPrivate kp)) ∧
  goCopy 32 (Reverse (SpendKeyBytes (kpPrivate kp))) = Proof_Secret (kpProof kp).
Proof.
  intros Hg Ht Hl Hz. unfold GenerateKeysAndProof in Hg.
  destruct (Prove rnd) as [proof|]; [|discriminate].
  destruct (Verify proof) as [[res|]| | |]; cbn [otry obind abort] in Hg; try discriminate.
  destruct (NewPrivateSpendKey (Reverse (Proof_Secret proof))) as [sk|] eqn:Hsk; [|discriminate].
  unfold AsPrivateKeyPair in Hg. destruct (View sk) as [vk|]; [|discriminate]. injection Hg as <-.
  cbn [kpProof kpPrivate kpSpend] in *. split.
  - unfold GetSecretFromLog. rewrite Hl.
    assert (Hguard : negb (bool_decide (topic = claimedTopic)) && negb (bool_decide (topic = refundedTopic)) = false).
    { destruct Ht as [-> | ->]; [by rewrite (bool_decide_true (claimedTopic = claimedTopic))|].
      rewrite (bool_decide_true (refundedTopic = refundedTopic)) by done. apply andb_false_r. }
    rewrite Hguard, bool_decide_false by done. exact Hsk.
  - unfold NewPrivateSpendKey in Hsk. case_bool_decide; [|discriminate]. cbn [negb] in Hsk.
    unfold SpendKeyBytes. cbn [kpSpend]. rewrite (bytes_canonical _ _ Hsk), Reverse_involutive.
    apply goCopy_id. apply goCopy_length.
Qed.

(** The keys drawn from the sample secret. *)
Definition sampleKeys : KeysAndProof :=
  match GenerateKeysAndProof (Ok sampleSecret) with
  | Done (Ok kp) => kp
  | _ => mkKeysAndProof (mkProof [] []) sampleSecp (mkPrivateKeyPair (sc 0) (sc 0))
           (NewPublicKeyPair (pt 0) (pt 0))
  end.

Lemma sampleKeys_generated : GenerateKeysAndProof (Ok sampleSecret) = Done (Ok sampleKeys).
Proof.
  unfold sampleKeys.
  assert (Hok : match GenerateKeysAndProof (Ok sampleSecret) with Done (Ok _) => True | _ => False end)
    by (vm_compute; exact I).
  destruct (GenerateKeysAndProof (Ok sampleSecret)) as [[kp|]| | |]; done.
Qed.

Definition sampleClaimLog : Log :=
  mkLog zeroAddress [claimedTopic; repeat x01 32; Proof_Secret (kpProof sampleKeys)] [] EmptyHash 0 false.

Lemma revealed_secret_is_spend_key_witness :
  GetSecretFromLog sampleClaimLog claimedTopic = Ok (kpSpend (kpPrivate sampleKeys)) ∧
  goCopy 32 (Reverse (SpendKeyBytes (kpPrivate sampleKeys))) = Proof_Secret (kpProof sampleKeys).
Proof.
  refine (revealed_secret_is_spend_key (Ok sampleSecret) sampleKeys sampleClaimLog claimedTopic
    (repeat x01 32) [] sampleKeys_generated (or_introl eq_refl) eq_refl _).
  assert (Hb : bool_decide (Proof_Secret (kpProof sampleKeys) = repeat x00 32) = false)
    by (vm_compute; reflexivity).
  by apply bool_decide_eq_false in Hb.
Defined.

(** A relayed claim is believed only with a genuine Claimed log: [checkClaimedLog]
    accepts exactly the logs that the expected contract emitted for this event,
    this swap and this secret. *)
Theorem checkClaimedLog_accepts `{CryptoLib} (log : Log) (contractAddr : Address) (id secret : Hash) :
  checkClaimedLog log contractAddr id secret = Ok tt ↔
  lgAddress log = contractAddr ∧ lgTopics log = [claimedTopic; id; secret].
Proof.
  unfold checkClaimedLog. case_bool_decide as Ha; cbn [negb]; [|split; [done | by intros [? _]]].
  destruct (lgTopics log) as [|t0 [|t1 [|t2 [|t3 ts]]]]; try (split; [done | by intros [_ ?]]).
  repeat (case_bool_decide; cbn [negb]; [|split; [done | intros [_ [= ? ? ?]]; congruence]]).
  subst. done.
Qed.

(** [CheckSwapID] accepts a log exactly when its first two topics are the event
    and the swap ID; a log of the event for another swap is told apart from a
    malformed one. *)
Theorem CheckSwapID_spec (log : Log) (topic id : Hash) :
  (CheckSwapID log topic id = Ok tt ↔ ∃ rest, lgTopics log = topic :: id :: rest) ∧
  (CheckSwapID log topic id = Err ErrLogNotForUs ↔
   ∃ id' rest, lgTopics log = topic :: id' :: rest ∧ id' ≠ id).
Proof.
  unfold CheckSwapID. destruct (lgTopics log) as [|t0 [|t1 ts]].
  1,2: split; (split; [done|]); [by intros (? & ?) | by intros (? & ? & ? & ?)].
  destruct (decide (t0 = topic)) as [->|Ht]; [rewrite bool_decide_eq_true_2 by done |
    rewrite bool_decide_eq_false_2 by done]; cbn [negb].
  - destruct (decide (t1 = id)) as [->|Hd]; [rewrite bool_decide_eq_true_2 by done |
      rewrite bool_decide_eq_false_2 by done]; cbn [negb]; (split; split).
    + by eauto.
    + done.
    + done.
    + by intros (id' & rest & [= <- <-] & ?).
    + done.
    + by intros (rest & [= <- <-]).
    + by eauto.
    + done.
  - split; (split; [done|]); [by intros (rest & [= <- _]) | by intros (id' & rest & [= <- _ _] & _)].
Qed.
