(* ===== verification/External.v ===== *)
(** * The daemon's surroundings

    Everything the protocol packages call outside themselves: the databases, the
    Monero wallet, the Ethereum node, the transaction sender, the network and the
    clock.  A call is a value of [call A], where [A] is the type of its answer;
    the world answers it, by [World], as an arbitrary function of the number of
    calls made so far; every call and its answer is recorded in a trace.

    The swap manager and the offer manager are not external: their states are
    part of [Sys], and their database calls go through the same trace. *)

From stdpp Require Import base gmap list strings.
From Stdlib Require Import ZArith.
From S2P Require Import Prelude Coins Types Swap Offers Bytes Crypto Contracts.

Open Scope Z_scope.
Open Scope go_scope.

(** db/types.go *)
Record EthereumSwapInfo : Type := mkEthInfo {
  esStartNumber : Z;
  esSwapID : Hash;
  esSwap : SwapCreatorSwap;
  esSwapCreatorAddr : Address
}.

(** What the code reads of a transaction. *)
Record Transaction : Type := mkTx {
  txTo : option Address;
  txNonce : Z;
  txGasPrice : Z;
  txData : bytes;
  (* [ethtypes.Sender(signer, tx)] *)
  txSender : result Address
}.

(** net/message: the messages of the protocol.  Key and amount fields may be
    missing in a received message. *)
Record SendKeysMessage `{CryptoLib} : Type := mkSendKeys {
  skOfferID : Hash;
  skProvidedAmount : option Decimal;
  skPublicSpendKey : option Point;
  skPrivateViewKey : option Scalar;
  skDLEqProof : bytes;
  skSecp256k1PublicKey : Secp256k1PublicKey;
  skEthAddress : Address
}.

Record NotifyETHLocked : Type := mkNotifyETHLocked {
  nlAddress : Address;
  nlTxHash : Hash;
  nlContractSwapID : Hash;
  nlContractSwap : SwapCreatorSwap
}.

Inductive Message `{CryptoLib} : Type :=
| MsgSendKeys (m : SendKeysMessage)
| MsgNotifyETHLocked (m : NotifyETHLocked)
| MsgOther.

(** net/message/relay_message.go

    The relay swap of a request is what the JSON of a peer decoded to.  The structure of
    the generated bindings has no [validate] tags: its fee may be nil, and its swap the zero
    value, whose integers are nil ([None]); a swap that is present was validated by its own
    [UnmarshalJSON] and is complete. *)
Record RelaySwapMsg : Type := mkRelaySwapMsg {
  rmSwap : option SwapCreatorSwap;
  rmFee : option Z;
  rmRelayerHash : Hash;
  rmSwapCreator : Address
}.

Definition relaySwapMsg (rs : SwapCreatorRelaySwap) : RelaySwapMsg :=
  mkRelaySwapMsg (Some (rsSwap rs)) (Some (rsFee rs)) (rsRelayerHash rs) (rsSwapCreator rs).

(** Reading the integers of a relay swap: a nil [big.Int] is dereferenced. *)
Definition wholeRelaySwap (m : RelaySwapMsg) : outcome SwapCreatorRelaySwap :=
  swap <~ deref (rmSwap m) ;;
  fee <~ deref (rmFee m) ;;
  Done (mkRelaySwap swap fee (rmRelayerHash m) (rmSwapCreator m)).

Record RelayClaimRequest : Type := mkRelayRequest {
  rqOfferID : option Hash;
  rqRelaySwap : RelaySwapMsg;
  rqSecret : bytes;
  rqSignature : bytes
}.

Inductive call `{TypesLib} `{CryptoLib} : Type → Type :=
(* clock and randomness *)
| Now : call Z
| SleepWithContext : call (option error)
(* which of two ready cases a select takes *)
| SelectReady : call bool
| GenerateSecret : call (result bytes)
| GenerateNonce : call Z
(* db.Database *)
| PutSwap (i : Info) : call (result unit)
| GetSwap (id : Hash) : call (result Info)
| GetAllSwaps : call (result (list Info))
| PutOffer (o : Offer) : call (result unit)
| DbDeleteOffer (id : Hash) : call (result unit)
| GetAllOffers : call (result (list Offer))
| DbClearAllOffers : call (result unit)
(* db.RecoveryDB *)
| PutSwapRelayerInfo (id : Hash) (e : OfferExtra) : call (result unit)
| GetSwapRelayerInfo (id : Hash) : call (result OfferExtra)
| PutContractSwapInfo (id : Hash) (i : EthereumSwapInfo) : call (result unit)
| GetContractSwapInfo (id : Hash) : call (result EthereumSwapInfo)
| PutSwapPrivateKey (id : Hash) (sk : Scalar) : call (result unit)
| GetSwapPrivateKey (id : Hash) : call (result Scalar)
| PutCounterpartySwapPrivateKey (id : Hash) (sk : Scalar) : call (result unit)
| GetCounterpartySwapPrivateKey (id : Hash) : call (result Scalar)
| PutCounterpartySwapKeys (id : Hash) (pk : Point) (vk : Scalar) : call (result unit)
| GetCounterpartySwapKeys (id : Hash) : call (result (Point * Scalar))
| PutNewSwapTxHash (id : Hash) (h : Hash) : call (result unit)
| GetNewSwapTxHash (id : Hash) : call (result Hash)
| RecoveryDeleteSwap (id : Hash) : call (result unit)
(* monero.WalletClient; balances are (total, unlocked) *)
| XMRGetHeight : call (result Z)
| XMRGetBalance : call (result (Z * Z))
| XMRTransfer (addr : bytes) (amount : Decimal) (confirmations : Z) : call (result unit)
| XMRPrimaryAddress : call (option bytes)
| XMRDepositAddress (id : Hash) : call (option bytes)
| XMRCreateSpendWallet (kp : PrivateKeyPair) (height : Z) : call (result unit)
| XMRCreateViewWallet (vk : Scalar) (addr : bytes) (height : Z) : call (result unit)
| XMRViewBalance : call (result (Z * Z))
| XMRCloseWallet : call unit
| XMRCloseAndRemoveWallet : call unit
| XMRSweepAll (dest : bytes) (confirmations : Z) : call (result unit)
(* extethclient.EthClient and ethclient.Client *)
| ETHAddress : call Address
| ETHHasPrivateKey : call bool
| ETHBalance : call (result Decimal)
| ERC20Balance (token : Address) : call (result EthAssetAmount)
| ERC20Info (token : Address) : call (result ERC20TokenInfo)
| SuggestGasPrice : call (result Z)
| HeaderByNumber : call (result Z)
| LatestBlockTimestamp : call (result Z)
| WaitForTimestamp (t : Z) : call (option error)
| TransactionReceipt (h : Hash) : call (result Receipt)
| TransactionByHash (h : Hash) : call (result (Transaction * bool))
| WaitForReceipt (h : Hash) : call (result Receipt)
| ErrorFromBlock (r : Receipt) : call error
| CodeAt (a : Address) : call (result bytes)
| FilterLogs (contract : Address) (fromBlock : option Z) (topics : list Hash) : call (result (list Log))
| ContractSwaps (contract : Address) (id : Hash) : call (result Z)
| ETHTxOpts : call (result unit)
| ContractRefund (contract : Address) (swap : SwapCreatorSwap) (secret : bytes) : call (result Hash)
| CancelTxWithNonce (nonce gasPrice : Z) : call (result Receipt)
(* contract bindings, senders and event watchers *)
| NewIERC20 (token : Address) : call (result unit)
| NewTxSender (asset : Address) : call (result unit)
| NewSwapCreator (a : Address) : call (result unit)
| StartWatcher (topic : Hash) (fromBlock : Z) : call (result unit)
| StopReadyWatcher : call unit
(* txsender.Sender *)
| SenderSetSwapCreator (a : Address) : call unit
| SenderNewSwap (claimCommitment refundCommitment : Hash) (claimer : Address) (timeout nonce : Z)
    (amount : EthAssetAmount) : call (result Hash)
| SenderSetReady (swap : SwapCreatorSwap) : call (result Receipt)
| SenderClaim (swap : SwapCreatorSwap) (secret : bytes) : call (result Receipt)
| SenderRefund (swap : SwapCreatorSwap) (secret : bytes) : call (result Receipt)
(* the network *)
| SendSwapMessage (m : Message) (id : Hash) : call (result unit)
| CloseProtocolStream (id : Hash) : call unit
| DeleteOngoingSwap (id : Hash) : call unit
| DiscoverRelayers : call (result (list string))
| SubmitClaimToRelayer (peer : string) (offerID : option Hash) (swap : SwapCreatorRelaySwap)
    (secret : bytes) : call (result Hash)
| Advertise : call unit
(* the relayer's side of a relayed claim, and the claimer's side of a relay request *)
| RandRead (n : nat) : call (result bytes)
| ETHLock : call unit
| ETHUnlock : call unit
| CallContract (to : Address) (gas gasPrice : Z) (data : bytes) : call (result unit)
| ContractClaimRelayer (contract : Address) (gas gasPrice : Z) (relaySwap : SwapCreatorRelaySwap)
    (secret : bytes) (relayer : Address) (salt v : Z) (r s : bytes) : call (result Hash)
| QueryRelayerAddress (peer : string) : call (result Hash)
| SubmitRelayRequest (peer : string) (request : RelayClaimRequest) : call (result Hash).

(** A call with its answer. *)
Inductive obs `{TypesLib} `{CryptoLib} : Type :=
| Obs {A : Type} (c : call A) (a : A).

(** The answers of the world, and the configuration of the daemon. *)
Class World `{TypesLib} `{CryptoLib} := {
  answer : ∀ A, nat → call A → A;
  (* backend.Env(), backend.SwapCreatorAddr() and backend.SwapTimeout(), in nanoseconds *)
  Env : Environment;
  SwapCreatorAddr : Address;
  SwapTimeout : Z
}.

Record Sys `{TypesLib} `{CryptoLib} : Type := mkSys {
  clock : nat;
  trace : list obs;
  mgr : manager;
  offerCache : gmap Hash (Offer * OfferExtra)
}.

Section sys.
Context `{World}.

Definition setMgr (m : manager) (s : Sys) : Sys := mkSys _ _ (clock s) (trace s) m (offerCache s).
Definition setOfferCache (o : gmap Hash (Offer * OfferExtra)) (s : Sys) : Sys :=
  mkSys _ _ (clock s) (trace s) (mgr s) o.

(** Make a call. *)
Definition ext {A} (c : call A) : prog Sys A := fun s =>
  let a := answer A (clock s) c in
  (Done a, mkSys _ _ (S (clock s)) (Obs c a :: trace s) (mgr s) (offerCache s)).

#[export] Instance sysSwapEnv : SwapEnv Sys := {|
  getManager := mgr;
  putManager := setMgr;
  dbPutSwap := fun i => ext (PutSwap i);
  dbGetSwap := fun id => ext (GetSwap id);
  dbGetAllSwaps := ext GetAllSwaps;
  timeNow := ext Now
|}.

#[export] Instance sysOfferEnv : OfferEnv Sys := {|
  getOfferMap := offerCache;
  putOfferMap := setOfferCache;
  dbPutOffer := fun o => ext (PutOffer o);
  dbDeleteOffer := fun id => ext (DbDeleteOffer id);
  dbGetAllOffers := ext GetAllOffers;
  dbClearAllOffers := ext DbClearAllOffers
|}.

End sys.

(** ** protocol/claim_monero.go: sweeping the swap wallet *)

Definition MinSpendConfirmations : Z := 10.
Definition SweepToSelfConfirmations : Z := 2.

Section protocol.
Context `{World} `{!InfoJson}.

Definition setSweepStatus (info : nat) : prog Sys (result unit) :=
  Info_SetStatus info SweepingXMR ;;;
  i <- readInfo info ;;
  PushNewStatus (iOfferID i) SweepingXMR ;;;
  mapErr (Wrapf "failed to write swap to db") (WriteSwapToDB info).

(** A nil deposit address is [None]. *)
Definition ClaimMonero (info : nat) (kpAB : PrivateKeyPair) (depositAddr : option bytes)
    (noTransferBack : bool) : prog Sys (result unit) :=
  i <- readInfo info ;;
  _ <-? ext (XMRCreateSpendWallet kpAB (iMoneroStartHeight i)) ;;
  _ <- pure (PublicKeyPair_Address (PrivateKeyPair_PublicKeyPair kpAB) Env) ;;
  if noTransferBack : bool then
    ext XMRCloseWallet ;;; done (Ok tt)
  else
    deferring (ext XMRCloseAndRemoveWallet)
      (err <- pure (ValidateEnv depositAddr Env) ;;
       match err, depositAddr with
       | Some e, _ => done (Err e)
       | None, None => panic "nil pointer dereference"
       | None, Some addr =>
           _ <-? setSweepStatus info ;;
           mapErr (Wrapf "failed to send funds to deposit account")
             (ext (XMRSweepAll addr SweepToSelfConfirmations))
       end).

(** protocol/utils.go: only the error of [AssetSymbol] matters to its callers. *)
Definition AssetSymbol (asset : Address) : prog Sys (result string) :=
  if IsToken asset then
    tokenInfo <-? mapErr (Wrapf "failed to get ERC20 info") (ext (ERC20Info asset)) ;;
    done (Ok (tokSymbol tokenInfo))
  else done (Ok "ETH"%string).

(** ethereum/check_swap_creator_contract.go.  The expected code is a constant of
    the source, a parameter here. *)
Definition errInvalidSwapCreatorContract : error :=
  Sentinel "errInvalidSwapCreatorContract"
    "given contract address does not contain correct SwapCreator code".

(** The check of [CheckSwapCreatorContractCode] on the code a node reports. *)
Definition checkCode {S} (expectedCode : bytes) (codeAt : prog S (result bytes)) : prog S (result unit) :=
  code <-? mapErr (Wrapf "failed to get code") codeAt ;;
  if negb (bool_decide (length code = length expectedCode))
  then done (Err (Wrapf "length mismatch" errInvalidSwapCreatorContract))
  else if negb (bool_decide (expectedCode = code)) then done (Err errInvalidSwapCreatorContract)
  else done (Ok tt).

Definition CheckSwapCreatorContractCode (expectedCode : bytes) (contractAddr : Address)
    : prog Sys (result unit) :=
  checkCode expectedCode (ext (CodeAt contractAddr)).

End protocol.

(** ** Channels and times the protocol packages share *)

(** [ethereum.NotFound] *)
Definition NotFound : error := Sentinel "ethereum.NotFound" "not found".

(** What the receiver of an error channel got, and whether it is closed. *)
Record errChan : Type := mkErrChan { delivered : option (option error); chClosed : bool }.

(** [time.Time] arithmetic in nanoseconds: [Sub] saturates, [Abs] maps the least
    duration to the greatest. *)
Definition clampDuration (z : Z) : Z := Z.max int64_min (Z.min int64_max z).
Definition timeSub (a b : Z) : Z := clampDuration (a - b).
Definition durationAbs (d : Z) : Z :=
  if 0 <=? d then d else if d =? int64_min then int64_max else - d.

(** [time.Unix(t.Int64(), 0)] *)
Definition timeUnix (t : Z) : Z := wrap64 t * Second.
