(* ===== verification/Db.v ===== *)
(** * The databases (package db, common/vjson)

    [Database] keeps offers and swaps, [RecoveryDB] what a swap needs to be taken
    up after a restart.  The key-value store is third-party code (chaindb): the
    class [ChainDB], one table per prefix, with its promise [ChainDBSpec].  Any of
    its operations may fail.  JSON coding of plain structures is the class [VJson]. *)

From stdpp Require Import base gmap list strings.
From Stdlib Require Import ZArith.
From S2P Require Import Prelude Coins Types TypesProofs Swap SwapProofs Offers Bytes Crypto Contracts External.

Open Scope Z_scope.
Open Scope go_scope.

(** ** chaindb *)

Inductive Table : Type := OfferTable | SwapTable | RecoveryTable.

#[global] Instance table_eq_dec : EqDecision Table.
Proof. solve_decision. Defined.

(** [tabIter]: the entries an iterator made now walks over, in its order. *)
Class ChainDB (S : Type) := {
  tabPut : Table → bytes → bytes → prog S (result unit);
  tabGet : Table → bytes → prog S (result bytes);
  tabHas : Table → bytes → prog S (result bool);
  tabDel : Table → bytes → prog S (result unit);
  tabFlush : Table → prog S (result unit);
  tabClose : Table → prog S (result unit);
  tabIter : Table → prog S (list (bytes * bytes))
}.

(** ** common/vjson/vjson.go

    The struct validator and encoding/json on a type. *)
Class VJson (A : Type) := {
  vValidate : A → option error;
  vMarshal : A → result bytes;
  vUnmarshal : bytes → result A
}.

Definition MarshalStruct {A} `{VJson A} (v : A) : result bytes :=
  match vValidate v with
  | Some e => Err e
  | None => vMarshal v
  end.

Definition UnmarshalStruct {A} `{VJson A} (jsonData : bytes) : result A :=
  match vUnmarshal jsonData with
  | Err e => Err e
  | Ok v => match vValidate v with Some e => Err e | None => Ok v end
  end.

(** A swap decodes with its own [UnmarshalJSON]. *)
#[export] Instance infoVJson `{InfoJson} : VJson Info := {|
  vValidate := infoValidateStruct;
  vMarshal := infoMarshal;
  vUnmarshal := Info_UnmarshalJSON
|}.

(** The JSON of an offer: of its version, and of the plain structure. *)
Class OfferJson `{TypesLib} := {
  offerVersionOf : bytes → result (option Version);
  offerUnmarshal : bytes → result Offer;
  offerValidateStruct : Offer → option error;
  offerMarshal : Offer → result bytes
}.

Definition idLength : nat := hashLen.

Section database.
Context `{Apd} `{OfferJson} `{!InfoJson} {S : Type} `{!ChainDB S}.

Definition dbUnmarshalOffer (val : bytes) : outcome (result Offer) :=
  UnmarshalOffer offerVersionOf offerUnmarshal offerValidateStruct val.

(** [vjson.MarshalStruct(offer)]: the encoder calls [offer.MarshalJSON] and wraps
    its error. *)
Definition marshalOffer (offer : Offer) : outcome (result bytes) :=
  match offerValidateStruct offer with
  | Some e => Done (Err e)
  | None =>
      r <~ Offer_MarshalJSON offerValidateStruct offerMarshal offer ;;
      Done (match r with
            | Ok val => Ok val
            | Err e => Err (Wrapf "json: error calling MarshalJSON for type *types.Offer" e)
            end)
  end.

(** ** database.go *)

Definition Database_Close : prog S (result unit) :=
  _ <-? tabClose OfferTable ;;
  _ <-? tabClose SwapTable ;;
  tabClose RecoveryTable.

Definition PutOffer (offer : Offer) : prog S (result unit) :=
  val <-? pure (marshalOffer offer) ;;
  let key := oID offer in
  _ <-? tabPut OfferTable key val ;;
  tabFlush OfferTable.

Definition DeleteOffer (id : Hash) : prog S (result unit) := tabDel OfferTable id.

Definition Database_GetOffer (id : Hash) : prog S (result Offer) :=
  val <-? tabGet OfferTable id ;;
  pure (dbUnmarshalOffer val).

Definition purgeInvalidOffer (id : bytes) : prog S (result unit) :=
  _ <-? tabDel OfferTable id ;;
  r <- tabGet SwapTable id ;;
  match r with
  | Err err => if errorsIs ErrKeyNotFound err then done (Ok tt) else done (Err err)
  | Ok _ => tabDel SwapTable id
  end.

(** The loop over the iterator. *)
Fixpoint collectOffers (entries : list (bytes * bytes)) (offers : list Offer)
  : prog S (result (list Offer)) :=
  match entries with
  | [] => done (Ok offers)
  | (id, encodedOffer) :: rest =>
      if (idLength <? length id)%nat then done (Ok offers)
      else
        r <- pure (dbUnmarshalOffer encodedOffer) ;;
        match r with
        | Err _ => _ <-? purgeInvalidOffer id ;; collectOffers rest offers
        | Ok offer => collectOffers rest (offers ++ [offer])
        end
  end.

Definition Database_GetAllOffers : prog S (result (list Offer)) :=
  entries <- tabIter OfferTable ;;
  collectOffers entries [].

Fixpoint deleteOffers (entries : list (bytes * bytes)) : prog S (result unit) :=
  match entries with
  | [] => done (Ok tt)
  | (offerID, _) :: rest => _ <-? tabDel OfferTable offerID ;; deleteOffers rest
  end.

Definition Database_ClearAllOffers : prog S (result unit) :=
  entries <- tabIter OfferTable ;;
  deleteOffers entries.

Definition PutSwap (s : Info) : prog S (result unit) :=
  val <-? done (MarshalStruct s) ;;
  let key := iOfferID s in
  _ <-? tabPut SwapTable key val ;;
  tabFlush SwapTable.

Definition HasSwap (id : Hash) : prog S (result bool) := tabHas SwapTable id.

Definition GetSwap (id : Hash) : prog S (result Info) :=
  value <-? tabGet SwapTable id ;;
  done (UnmarshalStruct value).

Fixpoint collectSwaps (entries : list (bytes * bytes)) (swaps : list Info)
  : prog S (result (list Info)) :=
  match entries with
  | [] => done (Ok swaps)
  | (id, encodedSwap) :: rest =>
      if (idLength <? length id)%nat then done (Ok swaps)
      else
        match UnmarshalInfo encodedSwap with
        | Err _ => _ <-? tabDel SwapTable id ;; collectSwaps rest swaps
        | Ok s => collectSwaps rest (swaps ++ [s])
        end
  end.

Definition Database_GetAllSwaps : prog S (result (list Info)) :=
  entries <- tabIter SwapTable ;;
  collectSwaps entries [].

End database.

(** ** recovery_db.go *)

Definition contractSwapInfoPrefix : string := "ethinfo".
Definition swapPrivateKeyPrefix : string := "privkey".
Definition counterpartySwapPrivateKeyPrefix : string := "cspriv".
Definition relayerInfoPrefix : string := "relayer".
Definition counterpartySwapKeysPrefix : string := "cskeys".
Definition newSwapTxHashPrefix : string := "newswap".

Definition getRecoveryDBKey (id : Hash) (additional : string) : bytes :=
  id ++ bytesOfString additional.

Record counterpartyKeys `{CryptoLib} : Type := mkCounterpartyKeys {
  ckPublicSpendKey : Point;
  ckPrivateViewKey : Scalar
}.

Section recovery.
Context `{CryptoLib} {S : Type} `{!ChainDB S}.
Context `{!VJson OfferExtra} `{!VJson EthereumSwapInfo} `{!VJson Scalar} `{!VJson counterpartyKeys}.

(** The code the [Put] methods share: encode, put, flush. *)
Definition putStruct {A} `{!VJson A} (key : bytes) (v : A) : prog S (result unit) :=
  val <-? done (MarshalStruct v) ;;
  _ <-? tabPut RecoveryTable key val ;;
  tabFlush RecoveryTable.

Definition getStruct {A} `{!VJson A} (key : bytes) : prog S (result A) :=
  value <-? tabGet RecoveryTable key ;;
  done (UnmarshalStruct value).

Definition PutSwapRelayerInfo (id : Hash) (info : OfferExtra) : prog S (result unit) :=
  putStruct (getRecoveryDBKey id relayerInfoPrefix) info.

Definition GetSwapRelayerInfo (id : Hash) : prog S (result OfferExtra) :=
  getStruct (getRecoveryDBKey id relayerInfoPrefix).

Definition PutContractSwapInfo (id : Hash) (info : EthereumSwapInfo) : prog S (result unit) :=
  putStruct (getRecoveryDBKey id contractSwapInfoPrefix) info.

Definition GetContractSwapInfo (id : Hash) : prog S (result EthereumSwapInfo) :=
  getStruct (getRecoveryDBKey id contractSwapInfoPrefix).

Definition PutSwapPrivateKey (id : Hash) (sk : Scalar) : prog S (result unit) :=
  putStruct (getRecoveryDBKey id swapPrivateKeyPrefix) sk.

Definition GetSwapPrivateKey (id : Hash) : prog S (result Scalar) :=
  getStruct (getRecoveryDBKey id swapPrivateKeyPrefix).

Definition PutCounterpartySwapPrivateKey (id : Hash) (kp : Scalar) : prog S (result unit) :=
  putStruct (getRecoveryDBKey id counterpartySwapPrivateKeyPrefix) kp.

Definition GetCounterpartySwapPrivateKey (id : Hash) : prog S (result Scalar) :=
  getStruct (getRecoveryDBKey id counterpartySwapPrivateKeyPrefix).

Definition PutCounterpartySwapKeys (id : Hash) (sk : Point) (vk : Scalar) : prog S (result unit) :=
  putStruct (getRecoveryDBKey id counterpartySwapKeysPrefix) (mkCounterpartyKeys _ sk vk).

Definition GetCounterpartySwapKeys (id : Hash) : prog S (result (Point * Scalar)) :=
  info <-? getStruct (getRecoveryDBKey id counterpartySwapKeysPrefix) ;;
  done (Ok (ckPublicSpendKey info, ckPrivateViewKey info)).

Definition PutNewSwapTxHash (id txHash : Hash) : prog S (result unit) :=
  let key := getRecoveryDBKey id newSwapTxHashPrefix in
  _ <-? tabPut RecoveryTable key txHash ;;
  tabFlush RecoveryTable.

Definition GetNewSwapTxHash (id : Hash) : prog S (result Hash) :=
  value <-? tabGet RecoveryTable (getRecoveryDBKey id newSwapTxHashPrefix) ;;
  done (Ok (goCopy 32 value)).

Definition RecoveryDB_DeleteSwap (id : Hash) : prog S (result unit) := done (Ok tt).

Fixpoint deleteKeys (keys : list bytes) : prog S (result unit) :=
  match keys with
  | [] => done (Ok tt)
  | key :: rest => _ <-? tabDel RecoveryTable key ;; deleteKeys rest
  end.

Definition deleteSwap (id : Hash) : prog S (result unit) :=
  deleteKeys
    [getRecoveryDBKey id relayerInfoPrefix;
     getRecoveryDBKey id contractSwapInfoPrefix;
     getRecoveryDBKey id swapPrivateKeyPrefix;
     getRecoveryDBKey id counterpartySwapPrivateKeyPrefix;
     getRecoveryDBKey id counterpartySwapKeysPrefix;
     getRecoveryDBKey id newSwapTxHashPrefix].

End recovery.
