(* ===== verification/DbProofs.v ===== *)
(** * Theorems on the databases

    What chaindb promises is [ChainDBSpec]; from it, the database discharges the
    interfaces of the swap manager and of the offer manager, and the recovery
    database is six independent maps. *)

From stdpp Require Import base gmap list strings fin_maps.
From Stdlib Require Import ZArith.
From S2P Require Import Prelude Coins RefApd CoinsProofs Types TypesProofs Swap SwapProofs Offers Bytes Crypto CryptoProofs Contracts External Db.

Open Scope Z_scope.
Open Scope go_scope.

(** ** What chaindb promises

    [contents] is what is in a table; an operation that reports an error may have
    been done.  An iterator sees the table as it was when it was made; it may run on
    into longer keys. *)
Class ChainDBSpec (S : Type) `{!ChainDB S} := {
  contents : Table → S → gmap bytes bytes;
  tabPut_runs t k v s : ∃ r s', tabPut t k v s = (Done r, s') ∧
    (∀ t', t' ≠ t → contents t' s' = contents t' s) ∧
    (contents t s' = contents t s ∨ contents t s' = <[k := v]> (contents t s)) ∧
    (r = Ok tt → contents t s' = <[k := v]> (contents t s));
  tabGet_runs t k s : ∃ r s', tabGet t k s = (Done r, s') ∧ (∀ t', contents t' s' = contents t' s) ∧
    match r with
    | Ok v => contents t s !! k = Some v
    | Err e => errorsIs ErrKeyNotFound e = true → contents t s !! k = None
    end;
  tabHas_runs t k s : ∃ r s', tabHas t k s = (Done r, s') ∧ (∀ t', contents t' s' = contents t' s) ∧
    (∀ b, r = Ok b → b = bool_decide (is_Some (contents t s !! k)));
  tabDel_runs t k s : ∃ r s', tabDel t k s = (Done r, s') ∧
    (∀ t', t' ≠ t → contents t' s' = contents t' s) ∧
    (contents t s' = contents t s ∨ contents t s' = delete k (contents t s)) ∧
    (r = Ok tt → contents t s' = delete k (contents t s));
  tabFlush_runs t s : ∃ r s', tabFlush t s = (Done r, s') ∧ (∀ t', contents t' s' = contents t' s);
  tabIter_runs t s : ∃ own rest s', tabIter t s = (Done (own ++ rest), s') ∧
    (∀ t', contents t' s' = contents t' s) ∧ own ≡ₚ map_to_list (contents t s) ∧
    (∀ e, head rest = Some e → (idLength < length e.1)%nat)
}.

(** ** What encoding/json promises

    Plain structures survive; a [types.Hash] has 32 bytes, other lists are not
    values of the type and have no encoding. *)
Class VJsonSpec (A : Type) `{!VJson A} : Prop := {
  vjson_roundtrip a b : vMarshal a = Ok b → vUnmarshal b = Ok a
}.

(** Of an offer whose amounts apd writes exactly and whose rate its decoder, which validates
    and reduces it, leaves as it is: the whole offer; of any offer: its version and its
    ID. *)
Class OfferJsonSpec `{Apd} `{OfferJson} : Prop := {
  offer_version o b : offerMarshal o = Ok b → offerVersionOf b = Ok (Some (oVersion o));
  offer_struct o b : offerOnWire o → offerMarshal o = Ok b → offerUnmarshal b = Ok o;
  offer_id o o' b : offerMarshal o = Ok b → offerUnmarshal b = Ok o' → oID o' = oID o;
  offer_typed o b : offerMarshal o = Ok b → wf_hash (oID o)
}.

Class DbJsonSpec `{Apd} `{OfferJson} `{!InfoJson} := {
  db_info_json :: InfoJsonSpec;
  db_offer_json :: OfferJsonSpec;
  info_typed i b : infoMarshal i = Ok b → wf_hash (iOfferID i)
}.

(** ** Decoding *)

Section decoding.
Context `{ApdSpec} `{OfferJson} `{!InfoJson}.

Lemma ValidatePositive_some name m v d : ValidatePositive name m v = (None, d) → is_Some d.
Proof. unfold ValidatePositive. destruct v; [|done]. repeat case_match; intros [= <-]; eauto. Qed.

(** Validation runs on any offer, and does not change its ID. *)
Lemma Offer_validate_runs o : ∃ e o', Offer_validate o = Done (e, o') ∧ oID o' = oID o.
Proof.
  unfold Offer_validate. destruct (IsHashZero (oID o)); [by eauto|].
  destruct (ValidatePositive "minAmount" _ _) as [[e|] mn] eqn:Hmn; [by eauto|].
  apply ValidatePositive_some in Hmn as [mn' ->].
  destruct (ValidatePositive "maxAmount" _ _) as [[e|] mx] eqn:Hmx; [by eauto|].
  apply ValidatePositive_some in Hmx as [mx' ->].
  cbn -[apdCmp Offer_hash RelayerFeeETH ToETH maxOfferValue].
  destruct (0 <? apdCmp mn' mx'); [by eauto|].
  destruct (oExchangeRate o) as [rate|] eqn:Hrate; [|by eauto].
  destruct (ToETH rate mn'); [|by eauto].
  destruct relayerFee_value as (fee & -> & _). cbn -[apdCmp Offer_hash maxOfferValue].
  destruct (apdCmp _ fee <=? 0); [by eauto|]. destruct (0 <? apdCmp mx' maxOfferValue); [by eauto|].
  unfold Offer_hash. cbn. rewrite Hrate. cbn. case_bool_decide; cbn; eauto.
Qed.

(** The stored form of a swap and of an offer, read back. *)
Definition decSwap (v : bytes) : option Info :=
  match UnmarshalInfo v with Ok i => Some i | Err _ => None end.

Definition decOffer (v : bytes) : option Offer :=
  match dbUnmarshalOffer v with Done (Ok o) => Some o | _ => None end.

Lemma dbUnmarshalOffer_runs v :
  ∃ r, dbUnmarshalOffer v = Done r ∧ decOffer v = match r with Ok o => Some o | Err _ => None end.
Proof.
  unfold decOffer. assert (∃ r, dbUnmarshalOffer v = Done r) as [r ->]; [|by eauto].
  unfold dbUnmarshalOffer, UnmarshalOffer, Offer_UnmarshalJSON, otry.
  destruct (offerVersionOf v) as [[w|]|]; [|by eauto..]. destruct (versionGreaterThan w _); [by eauto|].
  destruct (offerUnmarshal v) as [o|]; cbn; [|by eauto]. destruct (offerValidateStruct o); cbn; [by eauto|].
  destruct (Offer_validate_runs o) as (e & o' & -> & _). cbn. destruct e; cbn; [by eauto|].
  destruct (offerValidateStruct o'); by eauto.
Qed.

Lemma marshalOffer_runs o : ∃ r, marshalOffer o = Done r.
Proof.
  unfold marshalOffer, Offer_MarshalJSON. destruct (offerValidateStruct o); [by eauto|].
  destruct (Offer_validate_runs o) as (e & o' & -> & _). cbn. destruct e; cbn; [by eauto|].
  destruct (offerValidateStruct o'); cbn; eauto.
Qed.

(** [GetSwap] validates what [UnmarshalJSON] has validated. *)
Lemma UnmarshalStruct_info v : UnmarshalStruct v = UnmarshalInfo v.
Proof.
  unfold UnmarshalStruct, UnmarshalInfo. cbn [vUnmarshal vValidate infoVJson].
  destruct (Info_UnmarshalJSON v) as [i|] eqn:E; [|done].
  assert (infoValidateStruct i = None) as ->; [|done]. unfold Info_UnmarshalJSON in E.
  repeat case_match; congruence.
Qed.

Context `{!DbJsonSpec}.

(** Swaps and offers of a version the program knows, whose amounts and rates survive their
    texts, and offers that validation leaves as they are, are read back. *)
Definition storableSwap (i : Info) : Prop :=
  infoKept i ∧ peerKept (iPeerID i) ∧ versionGreaterThan (iVersion i) CurInfoVersion = false.

Definition storableOffer (o : Offer) : Prop :=
  offerOnWire o ∧ versionGreaterThan (oVersion o) CurOfferVersion = false.

Lemma decSwap_marshalled i b : MarshalStruct i = Ok b →
  wf_hash (iOfferID i) ∧ (∀ j, decSwap b = Some j → iOfferID j = iOfferID i) ∧
  (storableSwap i → decSwap b = Some i).
Proof.
  unfold MarshalStruct. cbn [vValidate vMarshal infoVJson].
  destruct (infoValidateStruct i) eqn:Hv; [done|]. intros Hb. split; [by eapply info_typed|].
  unfold decSwap, UnmarshalInfo, Info_UnmarshalJSON, storableSwap.
  rewrite (info_version _ _ Hb). split.
  - intros j. destruct (versionGreaterThan _ _); [done|]. destruct (infoUnmarshalStruct b) as [k|] eqn:Hk; [|done].
    destruct (infoValidateStruct k); [done|]. intros [= <-]. by eapply info_id.
  - intros (Hk & Hpe & ->). by rewrite (info_struct _ _ Hk Hpe Hb), Hv.
Qed.

Lemma decOffer_marshalled o b : marshalOffer o = Done (Ok b) →
  wf_hash (oID o) ∧ (∀ o', decOffer b = Some o' → oID o' = oID o) ∧
  (storableOffer o → decOffer b = Some o).
Proof.
  unfold marshalOffer, Offer_MarshalJSON. destruct (offerValidateStruct o) eqn:Hv; [done|].
  destruct (Offer_validate_runs o) as (e & o1 & Hval & Hid). rewrite Hval. cbn.
  destruct e; [done|]. destruct (offerValidateStruct o1) eqn:Hv1; [done|].
  cbn. destruct (offerMarshal o1) as [b'|] eqn:Hb; [|done]. intros [= ->].
  split; [rewrite <- Hid; by eapply offer_typed|].
  unfold decOffer, dbUnmarshalOffer, UnmarshalOffer, Offer_UnmarshalJSON.
  rewrite (offer_version _ _ Hb). split.
  - destruct (versionGreaterThan _ _); [done|]. destruct (offerUnmarshal b) as [o3|] eqn:Ho3; [|done].
    cbn. destruct (offerValidateStruct o3); [done|]. apply (offer_id _ _ _ Hb) in Ho3.
    destruct (Offer_validate_runs o3) as (e2 & o2 & Hval2 & Hid2). rewrite Hval2. cbn. destruct e2; [done|]. cbn.
    destruct (offerValidateStruct o2); [done|]. intros o' [= <-]. congruence.
  - intros [Hs Hver]. pose proof (ow_valid _ Hs) as Hs'. rewrite Hval in Hs'. injection Hs' as ->.
    rewrite Hver, (offer_struct _ _ Hs Hb), Hv, Hval. cbn. by rewrite Hv.
Qed.

End decoding.

(** ** The database operations *)

Section database.
Context `{ApdSpec} `{OfferJson} `{!InfoJson} `{!DbJsonSpec} {S : Type} `{!ChainDB S} `{CS : !ChainDBSpec S}.

(** Keys of offers and swaps are hashes, and what decodes is filed under its ID. *)
Record dbWf (s : S) : Prop := {
  wf_offers k v : contents OfferTable s !! k = Some v →
    length k = idLength ∧ ∀ o, decOffer v = Some o → oID o = k;
  wf_swaps k v : contents SwapTable s !! k = Some v →
    length k = idLength ∧ ∀ i, decSwap v = Some i → iOfferID i = k
}.

(** What can be read back. *)
Definition offersIn (s : S) : gmap Hash Offer := omap decOffer (contents OfferTable s).
Definition swapsIn (s : S) : gmap Hash Info := omap decSwap (contents SwapTable s).

Lemma dbWf_sub s s' : dbWf s → contents OfferTable s' ⊆ contents OfferTable s →
  contents SwapTable s' ⊆ contents SwapTable s → dbWf s'.
Proof.
  intros [Wo Ws] Ho Hs. split; intros k v Hk; [apply Wo | apply Ws]; by eapply lookup_weaken.
Qed.

(** Put and flush. *)
Lemma putFlush_run t k v s : ∃ r s', (_ <-? tabPut t k v ;; tabFlush t) s = (Done r, s') ∧
  (∀ t', t' ≠ t → contents t' s' = contents t' s) ∧
  (contents t s' = contents t s ∨ contents t s' = <[k := v]> (contents t s)) ∧
  (r = Ok tt → contents t s' = <[k := v]> (contents t s)).
Proof.
  unfold tryBind, pbind. destruct (tabPut_runs t k v s) as (r & s1 & -> & Hoth & Hor & Hok).
  destruct r as [[]|e]; [|by eexists _, s1].
  destruct (tabFlush_runs t s1) as (r2 & s2 & -> & Hsame). specialize (Hok eq_refl).
  eexists _, s2. split; [done|]. rewrite Hsame, Hok. split_and!; [|by right|done].
  intros t' Hne. rewrite Hsame. by apply Hoth.
Qed.

Lemma PutSwap_run i s : ∃ r s', PutSwap i s = (Done r, s') ∧
  contents OfferTable s' = contents OfferTable s ∧
  (∀ id, id ≠ iOfferID i → swapsIn s' !! id = swapsIn s !! id) ∧
  (r = Ok tt → storableSwap i → swapsIn s' = <[iOfferID i := i]> (swapsIn s)) ∧
  (dbWf s → dbWf s').
Proof.
  unfold PutSwap, tryBind at 1, pbind at 1, done. destruct (MarshalStruct i) as [b|e] eqn:Hb.
  2: { eexists _, s. by split_and!. }
  destruct (decSwap_marshalled i b Hb) as (Hwf & Hdec & Hst).
  destruct (putFlush_run SwapTable (iOfferID i) b s) as (r & s' & -> & Hoth & Hor & Hok).
  eexists _, s'. split; [done|]. rewrite (Hoth OfferTable) by done. split_and!; [done| | |].
  - intros id Hne. unfold swapsIn. rewrite !lookup_omap.
    destruct Hor as [-> | ->]; by rewrite ?lookup_insert_ne.
  - intros Hr Hs. unfold swapsIn. rewrite (Hok Hr). by apply omap_insert_Some, Hst.
  - intros [Wo Ws]. split; [by rewrite (Hoth OfferTable)|]. intros k v.
    destruct Hor as [-> | ->]; [apply Ws|]. rewrite lookup_insert_Some. intros [[<- <-]|[_ Hk]]; [|by apply Ws].
    split; [done|]. intros j Hj. by apply Hdec.
Qed.

Lemma PutOffer_run o s : ∃ r s', PutOffer o s = (Done r, s') ∧
  contents SwapTable s' = contents SwapTable s ∧
  (∀ id, id ≠ oID o → offersIn s' !! id = offersIn s !! id) ∧
  (r = Ok tt → storableOffer o → offersIn s' = <[oID o := o]> (offersIn s)) ∧
  (dbWf s → dbWf s').
Proof.
  unfold PutOffer, tryBind at 1, pbind at 1, pure.
  destruct (marshalOffer_runs o) as [[b|e] Hb]; rewrite Hb.
  2: { eexists _, s. by split_and!. }
  destruct (decOffer_marshalled o b Hb) as (Hwf & Hdec & Hst).
  destruct (putFlush_run OfferTable (oID o) b s) as (r & s' & -> & Hoth & Hor & Hok).
  eexists _, s'. split; [done|]. rewrite (Hoth SwapTable) by done. split_and!; [done| | |].
  - intros id Hne. unfold offersIn. rewrite !lookup_omap.
    destruct Hor as [-> | ->]; by rewrite ?lookup_insert_ne.
  - intros Hr Hs. unfold offersIn. rewrite (Hok Hr). by apply omap_insert_Some, Hst.
  - intros [Wo Ws]. split; [|by rewrite (Hoth SwapTable)]. intros k v.
    destruct Hor as [-> | ->]; [apply Wo|]. rewrite lookup_insert_Some. intros [[<- <-]|[_ Hk]]; [|by apply Wo].
    split; [done|]. intros o' Ho'. by apply Hdec.
Qed.

Lemma DeleteOffer_run id s : ∃ r s', DeleteOffer id s = (Done r, s') ∧
  contents SwapTable s' = contents SwapTable s ∧
  (∀ id', id' ≠ id → offersIn s' !! id' = offersIn s !! id') ∧
  (r = Ok tt → offersIn s' = delete id (offersIn s)) ∧ (dbWf s → dbWf s').
Proof.
  unfold DeleteOffer. destruct (tabDel_runs OfferTable id s) as (r & s' & -> & Hoth & Hor & Hok).
  eexists _, s'. split; [done|]. rewrite (Hoth SwapTable) by done. split_and!; [done| | |].
  - intros id' Hne. unfold offersIn. rewrite !lookup_omap.
    destruct Hor as [-> | ->]; by rewrite ?lookup_delete_ne.
  - intros Hr. unfold offersIn. by rewrite (Hok Hr), omap_delete.
  - intros W. apply (dbWf_sub s); [done| |by rewrite (Hoth SwapTable)].
    destruct Hor as [-> | ->]; [done | apply delete_subseteq].
Qed.

Lemma GetSwap_run id s : ∃ r s', GetSwap id s = (Done r, s') ∧ (∀ t, contents t s' = contents t s) ∧
  match r with
  | Ok i => swapsIn s !! id = Some i
  | Err e => errorsIs ErrKeyNotFound e = true → swapsIn s !! id = None
  end.
Proof.
  unfold GetSwap, tryBind, pbind. destruct (tabGet_runs SwapTable id s) as (r & s' & -> & Hsame & Hr).
  unfold swapsIn. rewrite lookup_omap. destruct r as [v|e].
  - unfold done. rewrite UnmarshalStruct_info. eexists _, s'. split_and!; [done..|]. rewrite Hr. cbn.
    unfold decSwap. by destruct (UnmarshalInfo v).
  - eexists _, s'. split_and!; [done..|]. intros He. by rewrite Hr.
Qed.

End database.

(** ** Iteration *)

Section iteration.
Context `{ApdSpec} `{OfferJson} `{!InfoJson} `{!DbJsonSpec} {S : Type} `{!ChainDB S} `{CS : !ChainDBSpec S}.

(** Outside the keys [ks] the table [t] is as it was, and at [ks] nothing new is. *)
Definition shrinksAt (t : Table) (ks : list bytes) (s s' : S) : Prop :=
  (∀ k, k ∉ ks → contents t s' !! k = contents t s !! k) ∧
  (∀ k, contents t s' !! k = contents t s !! k ∨ contents t s' !! k = None).

Lemma shrinksAt_refl t ks s s' : contents t s' = contents t s → shrinksAt t ks s s'.
Proof. intros E. split; intros k; rewrite E; auto. Qed.

Lemma shrinksAt_trans t k ks s s1 s2 :
  shrinksAt t [k] s s1 → shrinksAt t ks s1 s2 → shrinksAt t (k :: ks) s s2.
Proof.
  intros [Ha Hb] [Ha' Hb']. split; intros j.
  - intros [Hne Hj]%not_elem_of_cons. rewrite Ha', Ha; [done| |done]. by rewrite list_elem_of_singleton.
  - destruct (Hb' j) as [-> | ->]; auto.
Qed.

Lemma shrinksAt_sub t ks s s' : shrinksAt t ks s s' → contents t s' ⊆ contents t s.
Proof.
  intros [_ Hb]. apply map_subseteq_spec. intros k v Hk. destruct (Hb k); congruence.
Qed.

Lemma tabDel_shrinks t k s : ∃ r s', tabDel t k s = (Done r, s') ∧
  (∀ t', t' ≠ t → contents t' s' = contents t' s) ∧ shrinksAt t [k] s s' ∧
  (r = Ok tt → contents t s' !! k = None).
Proof.
  destruct (tabDel_runs t k s) as (r & s' & -> & Hoth & Hor & Hok). eexists _, s'.
  split_and!; [done..| |].
  - split; intros j; destruct Hor as [-> | ->]; auto.
    + intros Hj. rewrite list_elem_of_singleton in Hj. by rewrite lookup_delete_ne.
    + destruct (decide (j = k)) as [->|]; [rewrite lookup_delete_eq; auto | rewrite lookup_delete_ne; auto].
  - intros Hr. rewrite (Hok Hr). apply lookup_delete_eq.
Qed.

(** The keys of the entries that do not decode. *)
Definition invalidKeys {A} (dec : bytes → option A) (es : list (bytes * bytes)) : list bytes :=
  omap (fun e => match dec e.2 with Some _ => None | None => Some e.1 end) es.

(** What the others decode to. *)
Definition validValues {A} (dec : bytes → option A) (es : list (bytes * bytes)) : list A :=
  omap (fun e => dec e.2) es.

Lemma entries_valid {A} (dec : bytes → option A) k v a es : dec v = Some a →
  invalidKeys dec ((k, v) :: es) = invalidKeys dec es ∧
  validValues dec ((k, v) :: es) = a :: validValues dec es.
Proof. intros E. unfold invalidKeys, validValues. cbn. by rewrite E. Qed.

Lemma entries_invalid {A} (dec : bytes → option A) k v es : dec v = None →
  invalidKeys dec ((k, v) :: es) = k :: invalidKeys dec es ∧
  validValues dec ((k, v) :: es) = validValues dec es.
Proof. intros E. unfold invalidKeys, validValues. cbn. by rewrite E. Qed.

(** An iterator's entries: those of the table, then perhaps longer keys. *)
Definition fitting (es rest : list (bytes * bytes)) : Prop :=
  Forall (fun e => (length e.1 ≤ idLength)%nat) es ∧
  (∀ e, head rest = Some e → (idLength < length e.1)%nat).

Lemma fitting_tail e es rest : fitting (e :: es) rest →
  (idLength <? length e.1)%nat = false ∧ fitting es rest.
Proof.
  intros [HF Hr]. apply Forall_cons in HF as [He HF]. split; [by apply Nat.ltb_ge | done].
Qed.

Lemma collectSwaps_run es rest acc s : fitting es rest →
  ∃ r s', collectSwaps (es ++ rest) acc s = (Done r, s') ∧
    (∀ t, t ≠ SwapTable → contents t s' = contents t s) ∧
    shrinksAt SwapTable (invalidKeys decSwap es) s s' ∧
    (∀ l, r = Ok l → l = acc ++ validValues decSwap es ∧
       ∀ k, k ∈ invalidKeys decSwap es → contents SwapTable s' !! k = None).
Proof.
  revert acc s. induction es as [|[k v] es IH]; intros acc s Hf.
  { exists (Ok acc), s. split_and!; [|done|by apply shrinksAt_refl|].
    - destruct rest as [|[k v] rest]; [done|]. cbn [app collectSwaps]. destruct Hf as [_ Hr].
      specialize (Hr _ eq_refl). cbn [fst] in Hr. apply Nat.ltb_lt in Hr. by rewrite Hr.
    - intros l [= <-]. cbn. rewrite app_nil_r. split; [done|]. intros ? Hk. by apply not_elem_of_nil in Hk. }
  apply fitting_tail in Hf as [Hlen Hf]. cbn [app collectSwaps]. cbn [fst] in Hlen. rewrite Hlen.
  destruct (UnmarshalInfo v) as [i|e] eqn:Hv.
  - destruct (entries_valid decSwap k v i es) as [-> ->]; [unfold decSwap; by rewrite Hv|].
    destruct (IH (acc ++ [i]) s Hf) as (r & s' & -> & Hoth & Hsh & Hok). exists r, s'.
    split_and!; [done..|]. intros l Hr. destruct (Hok l Hr) as [-> Hnone]. by rewrite <- app_assoc.
  - destruct (entries_invalid decSwap k v es) as [-> ->]; [unfold decSwap; by rewrite Hv|].
    unfold tryBind, pbind. destruct (tabDel_shrinks SwapTable k s) as (r1 & s1 & -> & Hoth1 & Hsh1 & Hok1).
    destruct r1 as [[]|e1].
    + destruct (IH acc s1 Hf) as (r & s' & -> & Hoth & Hsh & Hok). exists r, s'. split_and!; [done| | |].
      * intros t Ht. by rewrite Hoth, Hoth1.
      * by eapply shrinksAt_trans.
      * intros l Hr. destruct (Hok l Hr) as [-> Hnone]. split; [done|].
        intros j [->|Hj]%elem_of_cons; [|by apply Hnone].
        destruct (proj2 Hsh k) as [->|]; [by apply Hok1 | done].
    + exists (Err e1), s1. split_and!; [done..| |done].
      destruct Hsh1 as [Ha Hb]. split; [|done]. intros j Hj. apply Ha.
      apply not_elem_of_cons in Hj as [Hne _]. by rewrite list_elem_of_singleton.
Qed.

Lemma shrinksAt_cons t k ks s s' : shrinksAt t [k] s s' → shrinksAt t (k :: ks) s s'.
Proof.
  intros [Ha Hb]. split; [|done]. intros j [Hne _]%not_elem_of_cons. apply Ha.
  by rewrite list_elem_of_singleton.
Qed.

Lemma purgeInvalidOffer_run k s : ∃ r s', purgeInvalidOffer k s = (Done r, s') ∧
  contents RecoveryTable s' = contents RecoveryTable s ∧
  shrinksAt OfferTable [k] s s' ∧ shrinksAt SwapTable [k] s s' ∧
  (r = Ok tt → contents OfferTable s' !! k = None ∧ contents SwapTable s' !! k = None).
Proof.
  unfold purgeInvalidOffer, tryBind, pbind.
  destruct (tabDel_shrinks OfferTable k s) as (r1 & s1 & -> & Hoth1 & Hsh1 & Hok1).
  assert (Hsw1 := Hoth1 SwapTable ltac:(done)). assert (Hrc1 := Hoth1 RecoveryTable ltac:(done)).
  destruct r1 as [[]|e1]; [|exists (Err e1), s1; by split_and!; [..|apply shrinksAt_refl|]].
  destruct (tabGet_runs SwapTable k s1) as (r2 & s2 & -> & Hsame & Hr2).
  assert (shrinksAt OfferTable [k] s s2 ∧ contents OfferTable s2 !! k = None) as [Hsh2 Hn2].
  { unfold shrinksAt. rewrite Hsame. auto. }
  rewrite <- Hsame in Hsw1, Hrc1. destruct r2 as [v|e].
  - destruct (tabDel_shrinks SwapTable k s2) as (r3 & s3 & -> & Hoth3 & Hsh3 & Hok3).
    exists r3, s3. rewrite (Hoth3 RecoveryTable), (Hoth3 OfferTable) by done.
    split_and!; [done|done| | |auto].
    + unfold shrinksAt. by rewrite (Hoth3 OfferTable).
    + unfold shrinksAt in *. by rewrite Hsw1 in Hsh3.
  - destruct (errorsIs ErrKeyNotFound e) eqn:He; cbn; eexists _, s2;
      (split_and!; [done..|by apply shrinksAt_refl|]); [|done].
    intros _. split; [done|]. rewrite Hsame. by apply Hr2.
Qed.

Lemma collectOffers_run es rest acc s : fitting es rest →
  ∃ r s', collectOffers (es ++ rest) acc s = (Done r, s') ∧
    contents RecoveryTable s' = contents RecoveryTable s ∧
    shrinksAt OfferTable (invalidKeys decOffer es) s s' ∧
    shrinksAt SwapTable (invalidKeys decOffer es) s s' ∧
    (∀ l, r = Ok l → l = acc ++ validValues decOffer es ∧
       ∀ k, k ∈ invalidKeys decOffer es →
         contents OfferTable s' !! k = None ∧ contents SwapTable s' !! k = None).
Proof.
  revert acc s. induction es as [|[k v] es IH]; intros acc s Hf.
  { exists (Ok acc), s. split_and!; [|done|by apply shrinksAt_refl..|].
    - destruct rest as [|[k v] rest]; [done|]. cbn [app collectOffers]. destruct Hf as [_ Hr].
      specialize (Hr _ eq_refl). cbn [fst] in Hr. apply Nat.ltb_lt in Hr. by rewrite Hr.
    - intros l [= <-]. cbn. rewrite app_nil_r. split; [done|]. intros ? Hk. by apply not_elem_of_nil in Hk. }
  apply fitting_tail in Hf as [Hlen Hf]. cbn [app collectOffers]. cbn [fst] in Hlen. rewrite Hlen.
  destruct (dbUnmarshalOffer_runs v) as (r0 & Hv & Hd). unfold pure, pbind at 1. rewrite Hv.
  destruct r0 as [o|e].
  - destruct (entries_valid decOffer k v o es Hd) as [-> ->].
    destruct (IH (acc ++ [o]) s Hf) as (r & s' & -> & Hoth & Hsh & Hsw & Hok). exists r, s'.
    split_and!; [done..|]. intros l Hr. destruct (Hok l Hr) as [-> Hnone]. by rewrite <- app_assoc.
  - destruct (entries_invalid decOffer k v es Hd) as [-> ->].
    unfold tryBind, pbind. destruct (purgeInvalidOffer_run k s) as (r1 & s1 & -> & Hrc1 & Hsh1 & Hsw1 & Hok1).
    destruct r1 as [[]|e1]; [|exists (Err e1), s1; by split_and!; [..|apply shrinksAt_cons|apply shrinksAt_cons|]].
    destruct (IH acc s1 Hf) as (r & s' & -> & Hrc & Hsh & Hsw & Hok). exists r, s'.
    split_and!; [done|congruence|by eapply shrinksAt_trans..|].
    intros l Hr. destruct (Hok l Hr) as [-> Hnone]. split; [done|].
    intros j [->|Hj]%elem_of_cons; [|by apply Hnone]. destruct (Hok1 eq_refl) as [Ho1 Hs1].
    split; [destruct (proj2 Hsh k) as [->|]; done | destruct (proj2 Hsw k) as [->|]; done].
Qed.

(** The values that decode, as a map. *)
Lemma validValues_omap {A} (dec : bytes → option A) (m : gmap bytes bytes) es :
  es ≡ₚ map_to_list m → validValues dec es ≡ₚ snd <$> map_to_list (omap dec m).
Proof.
  unfold validValues. intros ->. induction m as [|k v m Hk IH] using map_ind; [done|].
  rewrite map_to_list_insert by done. cbn [omap list_omap snd].
  assert (omap dec m !! k = None) as Hk' by by rewrite lookup_omap, Hk.
  destruct (dec v) as [a|] eqn:Ha.
  - rewrite (omap_insert_Some _ _ _ _ a), map_to_list_insert by done. cbn. by rewrite IH.
  - by rewrite omap_insert_None, delete_id.
Qed.

Lemma invalidKeys_spec {A} (dec : bytes → option A) (m : gmap bytes bytes) es k :
  es ≡ₚ map_to_list m → k ∈ invalidKeys dec es ↔ ∃ v, m !! k = Some v ∧ dec v = None.
Proof.
  intros E. unfold invalidKeys. rewrite list_elem_of_omap. split.
  - intros ([j v] & Hin & Hd). cbn in Hd. rewrite E in Hin. apply elem_of_map_to_list in Hin.
    destruct (dec v) eqn:Hv; [done|]. injection Hd as ->. eauto.
  - intros (v & Hk & Hv). exists (k, v). rewrite E, elem_of_map_to_list. split; [done|]. cbn. by rewrite Hv.
Qed.

(** Removing what does not decode does not change what does. *)
Lemma shrinks_decoded {A} (dec : bytes → option A) t s s' es : es ≡ₚ map_to_list (contents t s) →
  shrinksAt t (invalidKeys dec es) s s' → (omap dec (contents t s') : gmap bytes A) = omap dec (contents t s).
Proof.
  intros E [Ha Hb]. apply map_eq. intros k. rewrite !lookup_omap.
  destruct (decide (k ∈ invalidKeys dec es)) as [Hin|Hnin]; [|by rewrite Ha].
  apply (invalidKeys_spec dec _ es k E) in Hin as (v & Hk & Hv).
  destruct (Hb k) as [-> | ->]; rewrite Hk; cbn; by rewrite Hv.
Qed.

Lemma fitting_table t s own rest : own ≡ₚ map_to_list (contents t s) →
  (∀ k v, contents t s !! k = Some v → length k = idLength) →
  (∀ e, head rest = Some e → (idLength < length e.1)%nat) → fitting own rest.
Proof.
  intros E Hk Hr. split; [|done]. apply Forall_forall. intros [k v] Hin.
  rewrite E in Hin. apply elem_of_map_to_list in Hin. cbn. by rewrite (Hk _ _ Hin).
Qed.

Lemma GetAllSwaps_run s : dbWf s → ∃ r s', Database_GetAllSwaps s = (Done r, s') ∧
  contents OfferTable s' = contents OfferTable s ∧ swapsIn s' = swapsIn s ∧ dbWf s' ∧
  ∀ l, r = Ok l → l ≡ₚ snd <$> map_to_list (swapsIn s).
Proof.
  intros W. unfold Database_GetAllSwaps, pbind.
  destruct (tabIter_runs SwapTable s) as (own & rest & s1 & -> & Hsame & Hown & Hrest).
  assert (Hf : fitting own rest) by (eapply fitting_table; eauto; intros ?? Hk; by apply (wf_swaps _ W) in Hk as [? _]).
  destruct (collectSwaps_run own rest [] s1 Hf) as (r & s' & -> & Hoth & Hsh & Hok).
  rewrite <- Hsame in Hown. exists r, s'. split; [done|].
  rewrite (Hoth OfferTable), Hsame by done. split; [done|]. unfold swapsIn. split_and!.
  - by rewrite (shrinks_decoded decSwap _ _ _ _ Hown Hsh), Hsame.
  - apply (dbWf_sub s); [done|by rewrite (Hoth OfferTable), Hsame|].
    apply shrinksAt_sub in Hsh. by rewrite Hsame in Hsh.
  - intros l Hr. destruct (Hok l Hr) as [-> _]. rewrite <- Hsame. by apply validValues_omap.
Qed.

Lemma GetAllOffers_run s : dbWf s → ∃ r s', Database_GetAllOffers s = (Done r, s') ∧
  offersIn s' = offersIn s ∧ dbWf s' ∧
  (∀ k, (∃ v, contents OfferTable s !! k = Some v ∧ decOffer v = None) ∨
     contents OfferTable s' !! k = contents OfferTable s !! k ∧
     contents SwapTable s' !! k = contents SwapTable s !! k) ∧
  ∀ l, r = Ok l → l ≡ₚ snd <$> map_to_list (offersIn s) ∧
    ∀ k v, contents OfferTable s !! k = Some v → decOffer v = None →
      contents OfferTable s' !! k = None ∧ contents SwapTable s' !! k = None.
Proof.
  intros W. unfold Database_GetAllOffers, pbind.
  destruct (tabIter_runs OfferTable s) as (own & rest & s1 & -> & Hsame & Hown & Hrest).
  assert (Hf : fitting own rest) by (eapply fitting_table; eauto; intros ?? Hk; by apply (wf_offers _ W) in Hk as [? _]).
  destruct (collectOffers_run own rest [] s1 Hf) as (r & s' & -> & _ & Hsh & Hsw & Hok).
  rewrite <- Hsame in Hown. exists r, s'. split; [done|]. unfold offersIn. split_and!.
  - by rewrite (shrinks_decoded decOffer _ _ _ _ Hown Hsh), Hsame.
  - apply shrinksAt_sub in Hsh, Hsw. rewrite Hsame in Hsh, Hsw. by apply (dbWf_sub s).
  - intros k. rewrite <- !Hsame. destruct (decide (k ∈ invalidKeys decOffer own)) as [Hin|Hnin].
    + left. by apply (invalidKeys_spec decOffer _ own k Hown) in Hin.
    + right. split; [by apply Hsh | by apply Hsw].
  - intros l Hr. destruct (Hok l Hr) as [-> Hnone]. rewrite <- Hsame. split; [by apply validValues_omap|].
    intros k v Hk Hv. apply Hnone. apply (invalidKeys_spec decOffer _ own k Hown). eauto.
Qed.

Lemma deleteOffers_run es s : ∃ r s', deleteOffers es s = (Done r, s') ∧
  contents SwapTable s' = contents SwapTable s ∧ shrinksAt OfferTable (fst <$> es) s s' ∧
  (r = Ok tt → ∀ k, k ∈ fst <$> es → contents OfferTable s' !! k = None).
Proof.
  revert s. induction es as [|[k v] es IH]; intros s.
  { exists (Ok tt), s. split_and!; [done..|by apply shrinksAt_refl|]. intros _ k Hk. by apply not_elem_of_nil in Hk. }
  cbn [deleteOffers]. unfold tryBind, pbind.
  destruct (tabDel_shrinks OfferTable k s) as (r1 & s1 & -> & Hoth1 & Hsh1 & Hok1).
  destruct r1 as [[]|e1]; [|exists (Err e1), s1; split_and!; [done|by apply Hoth1|by apply shrinksAt_cons|done]].
  destruct (IH s1) as (r & s' & -> & Hsw & Hsh & Hok). exists r, s'. split_and!; [done| |by eapply shrinksAt_trans|].
  - by rewrite Hsw, Hoth1.
  - intros Hr j [->|Hj]%elem_of_cons; [|by apply Hok]. cbn [fst]. destruct (proj2 Hsh k) as [->|]; [by apply Hok1 | done].
Qed.

Lemma ClearAllOffers_run s : ∃ r s', Database_ClearAllOffers s = (Done r, s') ∧
  contents SwapTable s' = contents SwapTable s ∧ (dbWf s → dbWf s') ∧ (r = Ok tt → offersIn s' = ∅).
Proof.
  unfold Database_ClearAllOffers, pbind.
  destruct (tabIter_runs OfferTable s) as (own & rest & s1 & -> & Hsame & Hown & _).
  destruct (deleteOffers_run (own ++ rest) s1) as (r & s' & -> & Hsw & Hsh & Hok).
  exists r, s'. rewrite Hsw, Hsame. split_and!; [done..| |].
  - intros W. apply shrinksAt_sub in Hsh. rewrite Hsame in Hsh. apply (dbWf_sub s); [done..|].
    by rewrite Hsw, Hsame.
  - intros Hr. apply map_eq. intros k. unfold offersIn. rewrite lookup_omap, lookup_empty.
    destruct (contents OfferTable s !! k) as [v|] eqn:Hk.
    + rewrite (Hok Hr); [done|]. rewrite fmap_app, elem_of_app. left. rewrite Hown.
      apply list_elem_of_fmap. exists (k, v). by rewrite elem_of_map_to_list.
    + destruct (proj2 Hsh k) as [-> | ->]; [by rewrite Hsame, Hk | done].
Qed.

End iteration.
