(* ===== verification/Store.v ===== *)
(** * The managers over the database

    The daemon keeps the swap manager and the offer manager beside one database.
    Here the database of Db.v discharges what both managers were promised
    ([SwapEnvSpec], [OfferEnvSpec]), so that their theorems hold of the composition. *)

From stdpp Require Import base gmap list strings fin_maps.
From Stdlib Require Import ZArith.
From S2P Require Import Prelude Coins RefApd CoinsProofs Types TypesProofs Swap SwapProofs Offers Bytes Crypto CryptoProofs Contracts External Db DbProofs.

Open Scope Z_scope.
Open Scope go_scope.

(** The answers of the clock. *)
Class Clock := { clockAt : nat → Z }.

Section node.
Context `{ApdSpec} `{OfferJson} `{!InfoJson} `{!DbJsonSpec} {S : Type} `{!ChainDB S} `{CS : !ChainDBSpec S}.
Context `{Clock}.

(** The database is well formed from the start, and its operations keep it so. *)
Record node : Type := mkNode {
  nodeDb : {s : S | dbWf s};
  nodeManager : manager;
  nodeOffers : offerMap;
  nodeTicks : nat
}.

Definition setNodeDb (d : {s : S | dbWf s}) (n : node) : node :=
  mkNode d (nodeManager n) (nodeOffers n) (nodeTicks n).

Lemma keeps_PutSwap i : keeps (preserving dbWf) (PutSwap i).
Proof. intros s W. destruct (PutSwap_run i s) as (r & s' & -> & _ & _ & _ & K). by apply K. Qed.

Lemma keeps_GetSwap id : keeps (preserving dbWf) (GetSwap id).
Proof.
  intros s W. destruct (GetSwap_run id s) as (r & s' & -> & Hsame & _). cbn.
  apply (dbWf_sub s); [done|by rewrite Hsame..].
Qed.

Lemma keeps_GetAllSwaps : keeps (preserving dbWf) Database_GetAllSwaps.
Proof. intros s W. by destruct (GetAllSwaps_run s W) as (r & s' & -> & _ & _ & W' & _). Qed.

Lemma keeps_PutOffer o : keeps (preserving dbWf) (PutOffer o).
Proof. intros s W. destruct (PutOffer_run o s) as (r & s' & -> & _ & _ & _ & K). by apply K. Qed.

Lemma keeps_DeleteOffer id : keeps (preserving dbWf) (DeleteOffer id).
Proof. intros s W. destruct (DeleteOffer_run id s) as (r & s' & -> & _ & _ & _ & K). by apply K. Qed.

Lemma keeps_GetAllOffers : keeps (preserving dbWf) Database_GetAllOffers.
Proof. intros s W. by destruct (GetAllOffers_run s W) as (r & s' & -> & _ & W' & _). Qed.

Lemma keeps_ClearAllOffers : keeps (preserving dbWf) Database_ClearAllOffers.
Proof. intros s W. destruct (ClearAllOffers_run s) as (r & s' & -> & _ & K & _). by apply K. Qed.

(** A database operation, run on the daemon. *)
Definition onDb {A} (m : prog S A) (K : keeps (preserving dbWf) m) : prog node A :=
  zoom nodeDb setNodeDb (guarded m K).

Lemma onDb_run {A} (m : prog S A) K n o s' : m (proj1_sig (nodeDb n)) = (o, s') →
  ∃ d, onDb m K n = (o, setNodeDb d n) ∧ `d = s'.
Proof.
  intros E. destruct (guarded_run m K (nodeDb n) o s' E) as (d & Hg & Hd).
  exists d. unfold onDb, zoom. by rewrite Hg.
Qed.

#[export] Instance nodeSwapEnv : SwapEnv node := {|
  getManager := nodeManager;
  putManager := fun m n => mkNode (nodeDb n) m (nodeOffers n) (nodeTicks n);
  dbPutSwap := fun i => onDb (PutSwap i) (keeps_PutSwap i);
  dbGetSwap := fun id => onDb (GetSwap id) (keeps_GetSwap id);
  dbGetAllSwaps := onDb Database_GetAllSwaps keeps_GetAllSwaps;
  timeNow := fun n => (Done (clockAt (nodeTicks n)),
                       mkNode (nodeDb n) (nodeManager n) (nodeOffers n) (1 + nodeTicks n)%nat)
|}.

#[export] Instance nodeSwapEnvSpec : SwapEnvSpec node.
Proof.
  refine {| stored := fun n => swapsIn (proj1_sig (nodeDb n)); swapStorable := storableSwap |};
    try (by intros); try (by destruct s).
  - intros now i ([K1 K2 K3 K4 K5] & Hp & Hv). by split; [split|].
  - intros n id i. unfold swapsIn. rewrite lookup_omap. intros E. apply bind_Some in E as (v & Hv & Hd).
    by apply (wf_swaps _ (proj2_sig (nodeDb n)) _ _ Hv).
  - intros n. eexists _, _. by split_and!.
  - intros i n. destruct (PutSwap_run i (proj1_sig (nodeDb n))) as (r & s' & E & _ & Hoth & Hok & _).
    destruct (onDb_run _ (keeps_PutSwap i) n _ _ E) as (d & Hrun & <-).
    exists r, (setNodeDb d n). by split_and!.
  - intros id n. destruct (GetSwap_run id (proj1_sig (nodeDb n))) as (r & s' & E & Hsame & Hr).
    destruct (onDb_run _ (keeps_GetSwap id) n _ _ E) as (d & Hrun & <-).
    exists r, (setNodeDb d n). split_and!; [done..| |done]. cbn. unfold swapsIn. by rewrite Hsame.
  - intros n. destruct (GetAllSwaps_run (proj1_sig (nodeDb n)) (proj2_sig (nodeDb n))) as (r & s' & E & _ & Hs & _ & Hl).
    destruct (onDb_run _ keeps_GetAllSwaps n _ _ E) as (d & Hrun & <-).
    exists r, (setNodeDb d n). by split_and!.
Defined.

#[export] Instance nodeOfferEnv : OfferEnv node := {|
  getOfferMap := nodeOffers;
  putOfferMap := fun m n => mkNode (nodeDb n) (nodeManager n) m (nodeTicks n);
  dbPutOffer := fun o => onDb (PutOffer o) (keeps_PutOffer o);
  dbDeleteOffer := fun id => onDb (DeleteOffer id) (keeps_DeleteOffer id);
  dbGetAllOffers := onDb Database_GetAllOffers keeps_GetAllOffers;
  dbClearAllOffers := onDb Database_ClearAllOffers keeps_ClearAllOffers
|}.

#[export] Instance nodeOfferEnvSpec : OfferEnvSpec node.
Proof.
  refine {| storedOffers := fun n => offersIn (proj1_sig (nodeDb n)); offerStorable := storableOffer |};
    try (by intros); try (by destruct s).
  - intros n id o. unfold offersIn. rewrite lookup_omap. intros E. apply bind_Some in E as (v & Hv & Hd).
    by apply (wf_offers _ (proj2_sig (nodeDb n)) _ _ Hv).
  - intros o n. destruct (PutOffer_run o (proj1_sig (nodeDb n))) as (r & s' & E & _ & Hoth & Hok & _).
    destruct (onDb_run _ (keeps_PutOffer o) n _ _ E) as (d & Hrun & <-).
    exists r, (setNodeDb d n). by split_and!.
  - intros id n. destruct (DeleteOffer_run id (proj1_sig (nodeDb n))) as (r & s' & E & _ & Hoth & Hok & _).
    destruct (onDb_run _ (keeps_DeleteOffer id) n _ _ E) as (d & Hrun & <-).
    exists r, (setNodeDb d n). by split_and!.
  - intros n. destruct (ClearAllOffers_run (proj1_sig (nodeDb n))) as (r & s' & E & _ & _ & Hok).
    destruct (onDb_run _ keeps_ClearAllOffers n _ _ E) as (d & Hrun & <-).
    exists r, (setNodeDb d n). split; [done|]. intros Hr. split; [done | by apply Hok].
  - intros n. destruct (GetAllOffers_run (proj1_sig (nodeDb n)) (proj2_sig (nodeDb n))) as (r & s' & E & Ho & _ & _ & Hl).
    destruct (onDb_run _ keeps_GetAllOffers n _ _ E) as (d & Hrun & <-).
    exists r, (setNodeDb d n). split_and!; [done..|]. intros l Hr. by apply Hl.
Defined.

(** The operations of one manager leave what the other stored. *)
Lemma dbPutOffer_frame o (n : node) : ∃ r n', dbPutOffer o n = (Done r, n') ∧ stored n' = stored n ∧
  (r = Ok tt → storableOffer o → storedOffers n' = <[oID o := o]> (storedOffers n)).
Proof.
  destruct (PutOffer_run o (proj1_sig (nodeDb n))) as (r & s' & E & Hsw & _ & Hok & _).
  destruct (onDb_run _ (keeps_PutOffer o) n _ _ E) as (d & Hrun & <-).
  exists r, (setNodeDb d n). split_and!; [done| |done]. cbn. unfold swapsIn. by rewrite Hsw.
Qed.

Lemma NewManager_frame (n n' : node) r : NewManager n = (Done r, n') → storedOffers n' = storedOffers n ∧
  contents OfferTable (proj1_sig (nodeDb n')) = contents OfferTable (proj1_sig (nodeDb n)).
Proof.
  unfold NewManager, tryBind, pbind.
  destruct (GetAllSwaps_run (proj1_sig (nodeDb n)) (proj2_sig (nodeDb n))) as (r1 & s' & E & Ho & _).
  destruct (onDb_run _ keeps_GetAllSwaps n _ _ E) as (d & Hrun & <-).
  cbn [dbGetAllSwaps nodeSwapEnv]. rewrite Hrun.
  assert (Hd : offersIn (proj1_sig d) = offersIn (proj1_sig (nodeDb n))) by (unfold offersIn; by rewrite Ho).
  destruct r1 as [l|e]; [|by intros [= <- <-]]. unfold pure.
  destruct (loadOngoing l emptyManager); [|done..]. by intros [= <- <-].
Qed.

(** Loading the offers leaves the manager, and the swaps whose ID no unreadable offer
    has. *)
Lemma NewOfferManager_frame (n n' : node) r : NewOfferManager n = (Done r, n') →
  getManager n' = getManager n ∧
  ∀ id, (∀ v, contents OfferTable (proj1_sig (nodeDb n)) !! id = Some v → is_Some (decOffer v)) →
    stored n' !! id = stored n !! id.
Proof.
  unfold NewOfferManager, tryBind, pbind.
  destruct (GetAllOffers_run (proj1_sig (nodeDb n)) (proj2_sig (nodeDb n))) as (r1 & s' & E & _ & _ & Hk & _).
  destruct (onDb_run _ keeps_GetAllOffers n _ _ E) as (d & Hrun & <-).
  cbn [dbGetAllOffers nodeOfferEnv]. rewrite Hrun.
  assert (Hd : ∀ id, (∀ v, contents OfferTable (proj1_sig (nodeDb n)) !! id = Some v → is_Some (decOffer v)) →
    swapsIn (proj1_sig d) !! id = swapsIn (proj1_sig (nodeDb n)) !! id).
  { intros id Hid. unfold swapsIn. rewrite !lookup_omap.
    destruct (Hk id) as [(v & Hv & Hn)|[_ ->]]; [|done]. destruct (Hid v Hv) as [x Hx]. congruence. }
  destruct r1 as [l|e]; by intros [= <- <-].
Qed.

(** What a restart finds of a finished swap. *)
Lemma final_not_ongoing (n : node) (i : Info) : mgrWf (getManager n) → mirrors n →
  stored n !! iOfferID i = Some i → IsOngoing (iStatus i) = Done false → ongoing (getManager n) !! iOfferID i = None.
Proof.
  intros W Hm Hs Hf. destruct (ongoing (getManager n) !! iOfferID i) as [k|] eqn:Ho; [exfalso|done].
  destruct (wf_ongoing _ W _ _ Ho) as (j & Hj & _).
  destruct (proj2 (Hm (iOfferID i) j)) as [Hs' Hon]; [by exists k|]. congruence.
Qed.

Lemma past_reloaded (n : node) (i : Info) : stored n !! iOfferID i = Some i → past (getManager n) = ∅ →
  ∃ r n', GetPastSwap (iOfferID i) n = (Done r, n') ∧
    match r with
    | Ok l => infos (getManager n') !! l = Some i
    | Err e => dbGetSwap (iOfferID i) n = (Done (Err e), n')
    end.
Proof.
  intros Hs Hp. destruct (GetPastSwap_run (iOfferID i) n) as ([j|e] & n1 & Hr & _ & _ & Hrun); [by rewrite Hp| |].
  - destruct Hrun as [Hj Hrun]. assert (j = i) as -> by congruence. eexists _, _. split; [exact Hrun|].
    rewrite get_put. cbn. by rewrite lookup_insert_eq.
  - destruct Hrun as [Hn Hrun]. destruct (errorsIs ErrKeyNotFound e); [rewrite Hn in Hs by done; done|].
    eexists _, _. split; [exact Hrun|]. exact Hr.
Qed.

End node.

(** ** The properties *)

(** C35: refinement.  What the managers stored survives a crash.  A swap that was added,
    rewritten or completed, and an offer that was put on sale, without an error, are found
    by a restart on the same database: a swap whose status is ongoing as an ongoing swap with
    the same contents, one whose status is final by [GetPastSwap], with the same contents
    unless the database cannot be read, and the offer among those on sale.  Stored records
    and offers are ones of a version the program knows, with amounts that apd writes exactly
    and an exchange rate that its decoder leaves as it is ([storableSwap],
    [storableOffer]), and no unreadable offer has the ID of the swap, since reading the
    offers would purge the swap with it. *)
Theorem stored_survives_restart `{ApdSpec} `{OfferJson} `{!InfoJson} `{!DbJsonSpec}
    {S : Type} `{!ChainDB S} `{!ChainDBSpec S} `{Clock}
    (n n1 n2 : node) (l : nat) (i : Info) (o : Offer) (b : bool) (extra : OfferExtra) :
  writesSwap l i n n1 → storableSwap i →
  getOfferMap n1 !! oID o = None → storableOffer o → AddOffer o b n1 = (Done (Ok extra), n2) →
  (∀ id j, stored n2 !! id = Some j → iStatus j ≠ UnknownStatus) →
  (∀ v, contents OfferTable (proj1_sig (nodeDb n2)) !! iOfferID i = Some v → is_Some (decOffer v)) →
  ∃ r1 n3 r2 n4, NewManager n2 = (Done r1, n3) ∧ NewOfferManager n3 = (Done r2, n4) ∧
    (r1 = Ok tt → IsOngoing (iStatus i) = Done true →
       ∃ l', ongoing (getManager n4) !! iOfferID i = Some l' ∧ infos (getManager n4) !! l' = Some i) ∧
    (r1 = Ok tt → IsOngoing (iStatus i) = Done false →
       ongoing (getManager n4) !! iOfferID i = None ∧
       ∃ r n5, GetPastSwap (iOfferID i) n4 = (Done r, n5) ∧
         match r with
         | Ok l' => infos (getManager n5) !! l' = Some i
         | Err e => dbGetSwap (iOfferID i) n4 = (Done (Err e), n5)
         end) ∧
    (r2 = Ok tt → getOfferMap n4 !! oID o = Some (o, NewOfferExtra false)).
Proof.
  intros Hw Hst Hno Hso Hoff Hunk Hspoilt.
  pose proof (writes_stored l i n n1 Hst Hw) as Hput.
  unfold AddOffer, tryBind, pbind, gets in Hoff. rewrite Hno in Hoff.
  destruct (dbPutOffer_frame o n1) as (r & n2' & E & Hs & Ho). rewrite E in Hoff.
  destruct r as [[]|]; [|done]. cbn in Hoff. injection Hoff as _ <-.
  rewrite <- Hs in Hput.
  destruct (NewManager_mirrors _ Hunk) as (r1 & n3 & Hn & Hs3 & Hok).
  destruct (NewManager_frame _ _ _ Hn) as [Hof3 Hoc3].
  destruct (NewOfferManager_loads n3) as (r2 & n4 & Hn4 & _ & Hok2).
  destruct (NewOfferManager_frame _ _ _ Hn4) as [Hg4 Hs4].
  assert (Hs4i : stored n4 !! iOfferID i = Some i).
  { rewrite Hs4; [rewrite Hs3; exact Hput|]. intros v Hv. apply Hspoilt. rewrite <- Hv, Hoc3. reflexivity. }
  exists r1, n3, r2, n4. rewrite Hg4. split_and!; [done..| | |].
  - intros Hr Hon. destruct (Hok Hr) as (_ & _ & Hm). apply (Hm (iOfferID i) i). split; [|done]. rewrite Hs3. exact Hput.
  - intros Hr Hfin. destruct (Hok Hr) as (W & Hpast & Hm). 
    split; [apply (final_not_ongoing n3 i); [done | done | rewrite Hs3; exact Hput | done]|].
    apply (past_reloaded n4 i); [done | by rewrite Hg4, Hpast].
  - intros ->. destruct (Hok2 eq_refl) as [Hlook _].
    assert (Hx : storedOffers n2' !! oID o = Some o) by (rewrite (Ho eq_refl Hso); apply lookup_insert_eq).
    rewrite Hlook, Hof3. exact (f_equal (fmap (fun o => (o, NewOfferExtra false))) Hx).
Qed.

(** Reading all offers returns exactly the offers that decode and validate,
    leaves them stored, and removes the other entries together with the swap record
    filed under the same ID; no other offer or swap is touched, also when the disk
    fails on the way. *)
Theorem GetAllOffers_purges `{ApdSpec} `{OfferJson} `{!InfoJson} `{!DbJsonSpec}
    {S : Type} `{!ChainDB S} `{!ChainDBSpec S} (s : S) :
  dbWf s → ∃ r s', Database_GetAllOffers s = (Done r, s') ∧ dbWf s' ∧ offersIn s' = offersIn s ∧
  (∀ k, (∃ v, contents OfferTable s !! k = Some v ∧ decOffer v = None) ∨
     contents OfferTable s' !! k = contents OfferTable s !! k ∧
     contents SwapTable s' !! k = contents SwapTable s !! k) ∧
  ∀ l, r = Ok l → l ≡ₚ snd <$> map_to_list (offersIn s) ∧
    ∀ k v, contents OfferTable s !! k = Some v → decOffer v = None →
      contents OfferTable s' !! k = None ∧ contents SwapTable s' !! k = None.
Proof.
  intros W. destruct (GetAllOffers_run s W) as (r & s' & E & Ho & W' & Hf & Hl).
  exists r, s'. by split_and!.
Qed.

(** ** A disk that does not fail, for the witnesses *)

Record memDisk : Type := mkDisk { mdOffers : gmap bytes bytes; mdSwaps : gmap bytes bytes; mdRecovery : gmap bytes bytes }.

Definition diskTable (t : Table) (d : memDisk) : gmap bytes bytes :=
  match t with OfferTable => mdOffers d | SwapTable => mdSwaps d | RecoveryTable => mdRecovery d end.

Definition setDiskTable (t : Table) (m : gmap bytes bytes) (d : memDisk) : memDisk :=
  match t with
  | OfferTable => mkDisk m (mdSwaps d) (mdRecovery d)
  | SwapTable => mkDisk (mdOffers d) m (mdRecovery d)
  | RecoveryTable => mkDisk (mdOffers d) (mdSwaps d) m
  end.

Lemma diskTable_set t t' m d :
  diskTable t' (setDiskTable t m d) = if decide (t' = t) then m else diskTable t' d.
Proof. by destruct t, t'. Qed.

#[export] Instance memChainDB : ChainDB memDisk := {|
  tabPut := fun t k v d => (Done (Ok tt), setDiskTable t (<[k := v]> (diskTable t d)) d);
  tabGet := fun t k d =>
    (Done (match diskTable t d !! k with Some v => Ok v | None => Err ErrKeyNotFound end), d);
  tabHas := fun t k d => (Done (Ok (bool_decide (is_Some (diskTable t d !! k)))), d);
  tabDel := fun t k d => (Done (Ok tt), setDiskTable t (delete k (diskTable t d)) d);
  tabFlush := fun t d => (Done (Ok tt), d);
  tabClose := fun t d => (Done (Ok tt), d);
  tabIter := fun t d => (Done (map_to_list (diskTable t d)), d)
|}.

#[export] Instance memChainDBSpec : ChainDBSpec memDisk.
Proof.
  refine {| contents := diskTable |}.
  - intros t k v d. eexists _, _. split; [done|]. cbn. rewrite diskTable_set, decide_True by done.
    split_and!; [|by right|done]. intros t' Hne. by rewrite diskTable_set, decide_False.
  - intros t k d. eexists _, d. split_and!; [done..|]. by destruct (diskTable t d !! k).
  - intros t k d. eexists _, d. split_and!; [done..|]. by intros b [= <-].
  - intros t k d. eexists _, _. split; [done|]. cbn. rewrite diskTable_set, decide_True by done.
    split_and!; [|by right|done]. intros t' Hne. by rewrite diskTable_set, decide_False.
  - intros t d. by eexists _, d.
  - intros t d. exists (map_to_list (diskTable t d)), [], d. rewrite app_nil_r. by split_and!.
Defined.

#[export] Instance sampleClock : Clock := {| clockAt := fun n => 1000 + Z.of_nat n |}.

#[export] Instance offer_eq_dec : EqDecision Offer.
Proof. solve_decision. Defined.

(** A codec for the sample offer alone. *)
#[export] Instance sampleOfferJson : OfferJson := {|
  offerVersionOf := fun b => if decide (b = [Byte.x02]) then Ok (Some CurOfferVersion) else Err (errorf "bad JSON");
  offerUnmarshal := fun b => if decide (b = [Byte.x02]) then Ok sampleOffer else Err (errorf "bad JSON");
  offerValidateStruct := fun _ => None;
  offerMarshal := fun o => if decide (o = sampleOffer) then Ok [Byte.x02] else Err (errorf "not encodable")
|}.

#[export] Instance sampleOfferJsonSpec : OfferJsonSpec.
Proof.
  split; [intros o b|intros o b _|intros o o' b|intros o b]; cbn; (case_decide as Hi; [|done]); intros [= <-]; subst; try done.
  rewrite decide_True by done. by intros [= <-].
Qed.

#[export] Instance sampleDbJsonSpec : DbJsonSpec.
Proof.
  refine {| db_info_json := sampleJsonSpec; db_offer_json := sampleOfferJsonSpec |}.
  intros i b. cbn. case_decide as Hi; [|done]. by subst.
Defined.

Lemma dbWf_empty m : dbWf (mkDisk ∅ ∅ m).
Proof. split; cbn; intros k v Hk; by rewrite lookup_empty in Hk. Qed.

Definition sampleNode : node (S := memDisk) :=
  mkNode (mkDisk ∅ ∅ ∅ ↾ dbWf_empty ∅)
    (mkManager _ {[0%nat := sampleInfo XMRLocked]} 1 ∅ ∅ ∅ ∅ 0) ∅ 0.

Definition sampleNode1 : node := (AddSwap 0 sampleNode).2.
Definition sampleNode2 : node := (AddOffer sampleOffer true sampleNode1).2.

(** A run is its outcome and its final state. *)
Lemma run_pair {S A} (m : prog S A) s o : (m s).1 = o → m s = (o, (m s).2).
Proof. intros <-. by destruct (m s). Qed.

Lemma sampleOffer_onWire : offerOnWire sampleOffer.
Proof.
  split; [reflexivity | by left | intros d [= <-] | intros d [= <-] | intros r [= <-] | reflexivity].
  - unfold exactDecimal, fitsDigits, apdMaxExponent. by cbn.
  - unfold exactDecimal, fitsDigits, apdMaxExponent. by cbn.
  - split; [unfold exactDecimal, fitsDigits, apdMaxExponent; by cbn | reflexivity].
Qed.

Lemma stored_survives_restart_witness :
  ∃ r1 n3 r2 n4, NewManager sampleNode2 = (Done r1, n3) ∧ NewOfferManager n3 = (Done r2, n4) ∧
    (r1 = Ok tt → IsOngoing XMRLocked = Done true →
       ∃ l', ongoing (getManager n4) !! repeat Byte.x07 32 = Some l' ∧
         infos (getManager n4) !! l' = Some (sampleInfo XMRLocked)) ∧
    (r1 = Ok tt → IsOngoing XMRLocked = Done false →
       ongoing (getManager n4) !! repeat Byte.x07 32 = None ∧
       ∃ r n5, GetPastSwap (repeat Byte.x07 32) n4 = (Done r, n5) ∧
         match r with
         | Ok l' => infos (getManager n5) !! l' = Some (sampleInfo XMRLocked)
         | Err e => dbGetSwap (repeat Byte.x07 32) n4 = (Done (Err e), n5)
         end) ∧
    (r2 = Ok tt → getOfferMap n4 !! oID sampleOffer = Some (sampleOffer, NewOfferExtra false)).
Proof.
  apply (stored_survives_restart sampleNode sampleNode1 sampleNode2 0 (sampleInfo XMRLocked)
    sampleOffer true (NewOfferExtra true)).
  - split; [reflexivity|]. left. apply run_pair. vm_compute. reflexivity.
  - split; [apply sampleInfo_kept|]. split; [exact I | reflexivity].
  - reflexivity.
  - split; [apply sampleOffer_onWire | reflexivity].
  - apply run_pair. vm_compute. reflexivity.
  - intros id j Hj. assert (map_Forall (fun _ j => iStatus j ≠ UnknownStatus) (stored sampleNode2)) as HF.
    { refine (bool_decide_eq_true_1 _ _). vm_compute. reflexivity. }
    exact (HF id j Hj).
  - intros v Hv. assert (Hn : contents OfferTable (proj1_sig (nodeDb sampleNode2)) !! repeat Byte.x07 32 = None)
      by reflexivity. unfold sampleInfo in Hv. cbn [iOfferID NewInfo] in Hv. rewrite Hn in Hv. discriminate Hv.
Defined.

(** An entry that does not decode, and a swap record with its ID. *)
Definition sampleSpoilt : memDisk :=
  mkDisk {[repeat Byte.x07 32 := [Byte.x09]]} {[repeat Byte.x07 32 := [Byte.x01]]} ∅.

Lemma sampleSpoilt_wf : dbWf sampleSpoilt.
Proof.
  split; cbn; intros k v Hk; apply lookup_singleton_Some in Hk as [<- <-]; (split; [done|]).
  - intros o Ho. assert (E : None = Some o) by exact Ho. discriminate E.
  - intros i Hi. assert (E : Some (sampleInfo XMRLocked) = Some i) by exact Hi. by injection E as <-.
Qed.

Lemma GetAllOffers_purges_witness :
  ∃ r s', Database_GetAllOffers sampleSpoilt = (Done r, s') ∧ dbWf s' ∧ offersIn s' = offersIn sampleSpoilt ∧
  (∀ k, (∃ v, contents OfferTable sampleSpoilt !! k = Some v ∧ decOffer v = None) ∨
     contents OfferTable s' !! k = contents OfferTable sampleSpoilt !! k ∧
     contents SwapTable s' !! k = contents SwapTable sampleSpoilt !! k) ∧
  ∀ l, r = Ok l → l ≡ₚ snd <$> map_to_list (offersIn sampleSpoilt) ∧
    ∀ k v, contents OfferTable sampleSpoilt !! k = Some v → decOffer v = None →
      contents OfferTable s' !! k = None ∧ contents SwapTable s' !! k = None.
Proof. apply (GetAllOffers_purges sampleSpoilt). apply sampleSpoilt_wf. Defined.

(** The record of an unfinished swap is lost with its spoilt offer. *)
Example spoilt_offer_takes_its_swap :
  swapsIn sampleSpoilt !! repeat Byte.x07 32 = Some (sampleInfo XMRLocked) ∧
  swapsIn (Database_GetAllOffers sampleSpoilt).2 !! repeat Byte.x07 32 = None.
Proof. split; reflexivity. Qed.
