(* ===== verification/RecoveryProofs.v ===== *)
(** * The recovery database as six independent maps

    Six kinds of entries share one table, under the key "ID ++ name of the kind".
    The abstract view [recStored] is one map per kind from swap IDs to values; every
    operation acts on that view alone. *)

From stdpp Require Import base gmap list strings fin_maps.
From Stdlib Require Import ZArith.
From S2P Require Import Prelude Coins RefApd Types TypesProofs Swap SwapProofs Offers Bytes Crypto CryptoProofs Contracts External Db DbProofs Store.

Open Scope Z_scope.
Open Scope go_scope.

Inductive recKind : Type :=
| RecRelayer | RecContract | RecPrivate | RecCounterpartyPrivate | RecCounterpartyKeys | RecTxHash.

#[global] Instance recKind_eq_dec : EqDecision recKind.
Proof. solve_decision. Defined.

Definition recName (k : recKind) : string :=
  match k with
  | RecRelayer => relayerInfoPrefix
  | RecContract => contractSwapInfoPrefix
  | RecPrivate => swapPrivateKeyPrefix
  | RecCounterpartyPrivate => counterpartySwapPrivateKeyPrefix
  | RecCounterpartyKeys => counterpartySwapKeysPrefix
  | RecTxHash => newSwapTxHashPrefix
  end.

(** Keys of different kinds or IDs are different: an ID has a fixed length. *)
Lemma recoveryKey_inj k k' (id id' : Hash) : wf_hash id → wf_hash id' →
  getRecoveryDBKey id (recName k) = getRecoveryDBKey id' (recName k') → k = k' ∧ id = id'.
Proof.
  unfold wf_hash, getRecoveryDBKey. intros Hl Hl' E. apply app_inj_len in E as [-> E]; [|congruence].
  split; [|done]. by destruct k, k'.
Qed.

Section recovery.
Context `{CryptoLib} {S : Type} `{!ChainDB S} `{!ChainDBSpec S}.
Context `{!VJson OfferExtra} `{!VJson EthereumSwapInfo} `{!VJson Scalar} `{!VJson counterpartyKeys}.
Context `{!VJsonSpec OfferExtra} `{!VJsonSpec EthereumSwapInfo} `{!VJsonSpec Scalar} `{!VJsonSpec counterpartyKeys}.

Definition recVal (k : recKind) : Type :=
  match k with
  | RecRelayer => OfferExtra
  | RecContract => EthereumSwapInfo
  | RecPrivate | RecCounterpartyPrivate => Scalar
  | RecCounterpartyKeys => Point * Scalar
  | RecTxHash => Hash
  end.

(** The operations of the package, by kind. *)
Definition recPut (k : recKind) (id : Hash) : recVal k → prog S (result unit) :=
  match k with
  | RecRelayer => fun v => PutSwapRelayerInfo id v
  | RecContract => fun v => PutContractSwapInfo id v
  | RecPrivate => fun v => PutSwapPrivateKey id v
  | RecCounterpartyPrivate => fun v => PutCounterpartySwapPrivateKey id v
  | RecCounterpartyKeys => fun v => PutCounterpartySwapKeys id v.1 v.2
  | RecTxHash => fun v => PutNewSwapTxHash id v
  end.

Definition recGet (k : recKind) (id : Hash) : prog S (result (recVal k)) :=
  match k with
  | RecRelayer => GetSwapRelayerInfo id
  | RecContract => GetContractSwapInfo id
  | RecPrivate => GetSwapPrivateKey id
  | RecCounterpartyPrivate => GetCounterpartySwapPrivateKey id
  | RecCounterpartyKeys => GetCounterpartySwapKeys id
  | RecTxHash => GetNewSwapTxHash id
  end.

Definition recEnc (k : recKind) : recVal k → result bytes :=
  match k with
  | RecRelayer | RecContract | RecPrivate | RecCounterpartyPrivate => MarshalStruct
  | RecCounterpartyKeys => fun v => MarshalStruct (mkCounterpartyKeys _ v.1 v.2)
  | RecTxHash => fun v => Ok v
  end.

Definition recDec (k : recKind) : bytes → result (recVal k) :=
  match k with
  | RecRelayer | RecContract | RecPrivate | RecCounterpartyPrivate => UnmarshalStruct
  | RecCounterpartyKeys => fun b =>
      match UnmarshalStruct b with
      | Ok info => Ok (ckPublicSpendKey info, ckPrivateViewKey info)
      | Err e => Err e
      end
  | RecTxHash => fun b => Ok (goCopy 32 b)
  end.

(** A transaction hash has 32 bytes. *)
Definition recTyped (k : recKind) : recVal k → Prop :=
  match k with RecTxHash => fun v => wf_hash v | _ => fun _ => True end.

Lemma struct_roundtrip {A} `{VJsonSpec A} (v : A) b : MarshalStruct v = Ok b → UnmarshalStruct b = Ok v.
Proof.
  unfold MarshalStruct, UnmarshalStruct. destruct (vValidate v) eqn:Hv; [done|].
  intros Hb. by rewrite (vjson_roundtrip _ _ Hb), Hv.
Qed.

Lemma recDec_enc k v b : recTyped k v → recEnc k v = Ok b → recDec k b = Ok v.
Proof.
  destruct k; cbn; intros Ht Hb; try (by apply struct_roundtrip).
  - rewrite (struct_roundtrip _ _ Hb). by destruct v.
  - injection Hb as ->. by rewrite goCopy_id.
Qed.

Lemma recPut_unfold k id v s : recPut k id v s =
  (val <-? done (recEnc k v) ;;
   _ <-? tabPut RecoveryTable (getRecoveryDBKey id (recName k)) val ;;
   tabFlush RecoveryTable) s.
Proof. by destruct k. Qed.

Lemma recGet_unfold k id s : recGet k id s =
  (value <-? tabGet RecoveryTable (getRecoveryDBKey id (recName k)) ;; done (recDec k value)) s.
Proof.
  destruct k; try done. cbn [recGet recDec recName].
  unfold GetCounterpartySwapKeys, getStruct, tryBind, pbind, done.
  destruct (tabGet _ _ s) as [[[v|e]|?| |] s']; try done. by destruct (UnmarshalStruct v).
Qed.

(** What is stored of a kind for a swap. *)
Definition recStored (s : S) (k : recKind) (id : Hash) : option (recVal k) :=
  contents RecoveryTable s !! getRecoveryDBKey id (recName k) ≫= fun b =>
    match recDec k b with Ok v => Some v | Err _ => None end.

(** The other tables. *)
Definition recFrame (s s' : S) : Prop := ∀ t, t ≠ RecoveryTable → contents t s' = contents t s.

Lemma recPut_run k id v s : wf_hash id → recTyped k v →
  ∃ r s', recPut k id v s = (Done r, s') ∧ recFrame s s' ∧
    (r = Ok tt → recStored s' k id = Some v) ∧
    (∀ k' id', wf_hash id' → (k', id') ≠ (k, id) → recStored s' k' id' = recStored s k' id').
Proof.
  intros Hid Hv. rewrite recPut_unfold. unfold tryBind at 1, pbind at 1, done.
  destruct (recEnc k v) as [b|e] eqn:Hb; [|by exists (Err e), s].
  destruct (putFlush_run RecoveryTable (getRecoveryDBKey id (recName k)) b s)
    as (r & s' & -> & Hoth & Hor & Hok).
  exists r, s'. split_and!; [done..| |].
  - intros Hr. unfold recStored. rewrite (Hok Hr), lookup_insert_eq. cbn. by rewrite (recDec_enc _ _ _ Hv Hb).
  - intros k' id' Hid' Hne. unfold recStored. f_equal. destruct Hor as [-> | ->]; [done|].
    apply lookup_insert_ne. intros E. apply recoveryKey_inj in E as [-> ->]; done.
Qed.

Lemma recGet_run k id s : ∃ r s', recGet k id s = (Done r, s') ∧
  (∀ t, contents t s' = contents t s) ∧
  match r with
  | Ok v => recStored s k id = Some v
  | Err e => e = ErrKeyNotFound → recStored s k id = None
  end.
Proof.
  rewrite recGet_unfold. unfold tryBind, pbind.
  destruct (tabGet_runs RecoveryTable (getRecoveryDBKey id (recName k)) s) as (r & s' & -> & Hsame & Hr).
  unfold recStored. destruct r as [v|e].
  - exists (recDec k v), s'. split_and!; [done..|]. rewrite Hr. cbn. by destruct (recDec k v).
  - exists (Err e), s'. split_and!; [done..|]. intros ->. by rewrite Hr by reflexivity.
Qed.

Lemma deleteKeys_run ks s : ∃ r s', deleteKeys ks s = (Done r, s') ∧ recFrame s s' ∧
  shrinksAt RecoveryTable ks s s' ∧
  (r = Ok tt → ∀ k, k ∈ ks → contents RecoveryTable s' !! k = None).
Proof.
  revert s. induction ks as [|k ks IH]; intros s.
  { exists (Ok tt), s. split_and!; [done..|by apply shrinksAt_refl|]. intros _ k Hk. by apply not_elem_of_nil in Hk. }
  cbn [deleteKeys]. unfold tryBind, pbind.
  destruct (tabDel_shrinks RecoveryTable k s) as (r1 & s1 & -> & Hoth1 & Hsh1 & Hok1).
  destruct r1 as [[]|e1]; [|exists (Err e1), s1; split_and!; [done..|by apply shrinksAt_cons|done]].
  destruct (IH s1) as (r & s' & -> & Hfr & Hsh & Hok). exists r, s'. split_and!; [done| |by eapply shrinksAt_trans|].
  - intros t Ht. by rewrite Hfr, Hoth1.
  - intros Hr j [->|Hj]%elem_of_cons; [|by apply Hok]. destruct (proj2 Hsh k) as [->|]; [by apply Hok1 | done].
Qed.

(** C36: the recovery database is six independent maps from swap IDs: a successful
    [Put] stores the value under its kind and ID, and whatever its outcome it changes no
    other kind, no other ID and no other table; a successful [Get] returns what is
    stored, and "key not found" means that nothing readable is. *)
Theorem recovery_refines_maps (k : recKind) (id : Hash) (v : recVal k) (s : S) :
  wf_hash id → recTyped k v →
  (∃ r s', recPut k id v s = (Done r, s') ∧ recFrame s s' ∧
    (r = Ok tt → recStored s' k id = Some v) ∧
    (∀ k' id', wf_hash id' → (k', id') ≠ (k, id) → recStored s' k' id' = recStored s k' id')) ∧
  (∃ r s', recGet k id s = (Done r, s') ∧ (∀ t, contents t s' = contents t s) ∧
    match r with
    | Ok v' => recStored s k id = Some v'
    | Err e => e = ErrKeyNotFound → recStored s k id = None
    end).
Proof. intros Hid Hv. split; [by apply recPut_run | apply recGet_run]. Qed.

(** [deleteSwap], when it succeeds, removes all six entries of the swap and no entry
    of another swap; the exported [DeleteSwap] does nothing. *)
Theorem deleteSwap_effect (id : Hash) (s : S) :
  wf_hash id →
  RecoveryDB_DeleteSwap id s = (Done (Ok tt), s) ∧
  ∃ r s', deleteSwap id s = (Done r, s') ∧ recFrame s s' ∧
    (r = Ok tt → ∀ k, recStored s' k id = None) ∧
    (∀ k id', wf_hash id' → id' ≠ id → recStored s' k id' = recStored s k id').
Proof.
  intros Hid. split; [done|]. unfold deleteSwap.
  destruct (deleteKeys_run [getRecoveryDBKey id relayerInfoPrefix; getRecoveryDBKey id contractSwapInfoPrefix;
    getRecoveryDBKey id swapPrivateKeyPrefix; getRecoveryDBKey id counterpartySwapPrivateKeyPrefix;
    getRecoveryDBKey id counterpartySwapKeysPrefix; getRecoveryDBKey id newSwapTxHashPrefix] s)
    as (r & s' & -> & Hfr & Hsh & Hok).
  exists r, s'. split_and!; [done..| |].
  - intros Hr k. unfold recStored. rewrite (Hok Hr); [done|]. destruct k; cbn [recName]; set_solver.
  - intros k id' Hid' Hne. unfold recStored. f_equal. apply (proj1 Hsh).
    assert (Hk : ∀ k', getRecoveryDBKey id' (recName k) ≠ getRecoveryDBKey id (recName k')).
    { intros k' E. by apply recoveryKey_inj in E as [_ ->]. }
    rewrite !not_elem_of_cons. split_and!; [apply (Hk RecRelayer) | apply (Hk RecContract) | apply (Hk RecPrivate)
      | apply (Hk RecCounterpartyPrivate) | apply (Hk RecCounterpartyKeys) | apply (Hk RecTxHash) | apply not_elem_of_nil].
Qed.

End recovery.

(** ** Concrete codecs *)

#[export] Instance ethereumSwapInfo_eq_dec : EqDecision EthereumSwapInfo.
Proof. solve_decision. Defined.

Definition sampleEthInfo : EthereumSwapInfo :=
  mkEthInfo 100 (repeat Byte.x05 32)
    (mkSwap (repeat Byte.x01 20) (repeat Byte.x02 20) (repeat Byte.x03 32) (repeat Byte.x04 32) 10 20 zeroAddress 7 9)
    (repeat Byte.x06 20).

#[export] Instance extraVJson : VJson OfferExtra := {|
  vValidate := fun _ => None;
  vMarshal := fun e => Ok [if oeUseRelayer e then Byte.x01 else Byte.x00];
  vUnmarshal := fun b => Ok (NewOfferExtra (bool_decide (b = [Byte.x01])))
|}.

#[export] Instance ethInfoVJson : VJson EthereumSwapInfo := {|
  vValidate := fun _ => None;
  vMarshal := fun i => if decide (i = sampleEthInfo) then Ok [Byte.x01] else Err (errorf "not encodable");
  vUnmarshal := fun _ => Ok sampleEthInfo
|}.

#[export] Instance scalarVJson : VJson Scalar := {|
  vValidate := fun _ => None;
  vMarshal := fun k => Ok (scalarBytes k);
  vUnmarshal := scalarSetCanonicalBytes
|}.

#[export] Instance keysVJson : VJson counterpartyKeys := {|
  vValidate := fun _ => None;
  vMarshal := fun k => Ok (pointBytes (ckPublicSpendKey k) ++ scalarBytes (ckPrivateViewKey k));
  vUnmarshal := fun b =>
    match pointSetBytes (take 32 b), scalarSetCanonicalBytes (drop 32 b) with
    | Ok p, Ok k => Ok (mkCounterpartyKeys _ p k)
    | _, _ => Err (errorf "bad keys")
    end
|}.

#[export] Instance extraVJsonSpec : VJsonSpec OfferExtra.
Proof. split. intros [[]] b [= <-]; reflexivity. Qed.

#[export] Instance ethInfoVJsonSpec : VJsonSpec EthereumSwapInfo.
Proof. split. intros i b. cbn. case_decide as Hi; [|done]. by subst. Qed.

#[export] Instance scalarVJsonSpec : VJsonSpec Scalar.
Proof. split. intros k b [= <-]. exact (residueSet_bytes k). Qed.

#[export] Instance keysVJsonSpec : VJsonSpec counterpartyKeys.
Proof.
  split. intros [p k] b Hb. cbn [vMarshal keysVJson ckPublicSpendKey ckPrivateViewKey] in Hb.
  apply (f_equal (fun r => match r with Ok x => x | Err _ => b end)) in Hb. subst b.
  cbn [vUnmarshal keysVJson].
  rewrite take_app_length', drop_app_length' by by rewrite pointBytes_length.
  by rewrite point_bytes, canonical_bytes.
Qed.

Definition sampleDisk : memDisk := mkDisk ∅ ∅ ∅.

Definition sampleKey : recVal (H := refCrypto) RecPrivate := residueOf 5.

Lemma recovery_refines_maps_witness :
  (∃ r s', recPut RecPrivate (repeat Byte.x07 32) sampleKey sampleDisk = (Done r, s') ∧ recFrame sampleDisk s' ∧
    (r = Ok tt → recStored s' RecPrivate (repeat Byte.x07 32) = Some sampleKey) ∧
    (∀ k' id', wf_hash id' → (k', id') ≠ (RecPrivate, repeat Byte.x07 32) →
       recStored s' k' id' = recStored sampleDisk k' id')) ∧
  (∃ r s', recGet RecPrivate (repeat Byte.x07 32) sampleDisk = (Done r, s') ∧
    (∀ t, contents t s' = contents t sampleDisk) ∧
    match r with
    | Ok v' => recStored sampleDisk RecPrivate (repeat Byte.x07 32) = Some v'
    | Err e => e = ErrKeyNotFound → recStored sampleDisk RecPrivate (repeat Byte.x07 32) = None
    end).
Proof.
  apply (recovery_refines_maps RecPrivate (repeat Byte.x07 32) sampleKey sampleDisk); [reflexivity | exact I].
Defined.

Lemma deleteSwap_effect_witness :
  RecoveryDB_DeleteSwap (repeat Byte.x07 32) sampleDisk = (Done (Ok tt), sampleDisk) ∧
  ∃ r s', deleteSwap (repeat Byte.x07 32) sampleDisk = (Done r, s') ∧ recFrame sampleDisk s' ∧
    (r = Ok tt → ∀ k, recStored s' k (repeat Byte.x07 32) = None) ∧
    (∀ k id', wf_hash id' → id' ≠ repeat Byte.x07 32 → recStored s' k id' = recStored sampleDisk k id').
Proof. apply (deleteSwap_effect (repeat Byte.x07 32) sampleDisk). reflexivity. Defined.
