(* ===== verification/Relayer.v ===== *)
(** * Relayed claims (package relayer)

    A claimer without ETH for gas signs a request; a relayer checks it, simulates
    the call and sends it, for a fee paid by the contract.  Signing and recovery are
    third-party code (go-ethereum/crypto): the class [SigLib].  The [*big.Int] fields of
    a request are taken to be present. *)

From stdpp Require Import base gmap list strings.
From Stdlib Require Import ZArith Strings.Byte.
From S2P Require Import Prelude Coins Types Swap Offers Bytes Crypto Contracts External.

Open Scope Z_scope.
Open Scope go_scope.

Class SigLib := {
  EthKey : Type;
  EthPub : Type;
  (* ethcrypto.Sign(digest, key), Ecrecover(digest, sig), UnmarshalPubkey *)
  ethSign : EthKey → bytes → result bytes;
  ecrecover : bytes → bytes → result bytes;
  unmarshalPubkey : bytes → result EthPub;
  publicKey : EthKey → EthPub;
  pubkeyToAddress : EthPub → Address;
  (* contracts.SwapCreatorParsedABI.Pack("claimRelayer", ..) *)
  packClaimRelayer : SwapCreatorRelaySwap → bytes → Address → Z → Z → bytes → bytes → result bytes
}.

Module Relayer.
Section relayer.
Context `{World} `{!AbiLib} `{!Apd} `{!InfoJson} `{SigLib}.

(** ** claim_request.go *)

(** [sig[64] += d], modulo 256; panics on a shorter slice. *)
Definition addToByte64 (d : Z) (sig : bytes) : outcome bytes :=
  match sig !! 64%nat with
  | None => Panicked "index out of range"
  | Some v => Done (<[64%nat := zByte (byteZ v + d)]> sig)
  end.

Definition Sign (key : EthKey) (digest : Hash) : outcome (result bytes) :=
  match ethSign key digest with
  | Err e => Done (Err e)
  | Ok sig => sig <~ addToByte64 27 sig ;; Done (Ok sig)
  end.

Definition createRelayClaimSignature (claimerEthKey : EthKey) (relaySwap : SwapCreatorRelaySwap)
  : outcome (result bytes) :=
  let signerAddress := pubkeyToAddress (publicKey claimerEthKey) in
  if negb (bool_decide (swClaimer (rsSwap relaySwap) = signerAddress))
  then Done (Err (errorf "signing key does not match claimer"))
  else
    h <~ RelaySwap_Hash relaySwap ;;
    r <~ Sign claimerEthKey h ;;
    Done (match r with
          | Ok sig => Ok sig
          | Err e => Err (Wrapf "failed to sign relay request" e)
          end).

Definition CreateRelayClaimRequest (claimerEthKey : EthKey) (relaySwap : SwapCreatorRelaySwap)
    (secret : bytes) : outcome (result RelayClaimRequest) :=
  signature <~? createRelayClaimSignature claimerEthKey relaySwap ;;
  Done (Ok (mkRelayRequest None (relaySwapMsg relaySwap) secret signature)).

(** ** validate.go

    [RelayerFeeWei.Cmp(x)] panics when [x] is nil, and so does packing a nil integer. *)

(** The asset of the zero swap is the zero address. *)
Definition assetOf (rs : RelaySwapMsg) : Address :=
  match rmSwap rs with Some s => swAsset s | None => zeroAddress end.

Definition validateClaimValues (expectedCode : bytes) (request : RelayClaimRequest)
    (ourAddress : Address) (salt : bytes) (ourSwapCreatorAddr : Address) : prog Sys (result unit) :=
  let isTakerRelay := bool_decide (is_Some (rqOfferID request)) in
  let rs := rqRelaySwap request in
  _ <-? (if negb (bool_decide (rmSwapCreator rs = ourSwapCreatorAddr)) then
           if isTakerRelay then done (Err (errorf "taker claim swap creator mismatch"))
           else CheckSwapCreatorContractCode expectedCode (rmSwapCreator rs)
         else done (Ok tt)) ;;
  if negb (bool_decide (assetOf rs = EthAssetETH))
  then done (Err (errorf "relaying for ETH Asset is not supported"))
  else
    value <- pure (deref (swValue <$> rmSwap rs)) ;;
    if value <=? RelayerFeeWei
    then done (Err (errorf "swap value is too low to support relayer fee"))
    else
      let hash := ethKeccak256 (ourAddress ++ salt) in
      if negb (bool_decide (rmRelayerHash rs = hash))
      then done (Err (errorf "relay request payout address hash does not match expected"))
      else
        fee <- pure (deref (rmFee rs)) ;;
        if fee <? RelayerFeeWei
        then done (Err (errorf "relayer fee is less than expected"))
        else done (Ok tt).

Definition validateClaimSignature (request : RelayClaimRequest) : outcome (result unit) :=
  rs <~ wholeRelaySwap (rqRelaySwap request) ;;
  msg <~ RelaySwap_Hash rs ;;
  sig <~ addToByte64 (-27) (goCopy 65 (rqSignature request)) ;;
  match ecrecover msg sig with
  | Err e => Done (Err e)
  | Ok signer =>
      match unmarshalPubkey signer with
      | Err e => Done (Err e)
      | Ok pubkey =>
          if negb (bool_decide (pubkeyToAddress pubkey = swClaimer (rsSwap rs)))
          then Done (Err (errorf "signer of message is not swap claimer"))
          else Done (Ok tt)
      end
  end.

Definition validateClaimRequest (expectedCode : bytes) (request : RelayClaimRequest)
    (ourAddress : Address) (salt : bytes) (ourSwapCreatorAddr : Address) : prog Sys (result unit) :=
  _ <-? validateClaimValues expectedCode request ourAddress salt ourSwapCreatorAddr ;;
  pure (validateClaimSignature request).

(** ** submit_transaction.go *)

Definition maxClaimRelayerETHGas : Z := 100000.

Definition checkForMinClaimBalance : prog Sys (result Z) :=
  balance <-? ext ETHBalance ;;
  gasPrice <-? ext SuggestGasPrice ;;
  let txCost := gasPrice * maxClaimRelayerETHGas in
  b <- pure (WeiAmount_BigInt balance) ;;
  if b <? txCost then done (Err (errorf "balance is under the minimum to relay claim"))
  else done (Ok gasPrice).

Definition simulateClaimRelayer (gas gasPrice : Z) (relaySwap : SwapCreatorRelaySwap) (secret : bytes)
    (relayer : Address) (salt v : Z) (r s : bytes) : prog Sys (result unit) :=
  packed <-? done (packClaimRelayer relaySwap secret relayer salt v r s) ;;
  ext (CallContract (rsSwapCreator relaySwap) gas gasPrice packed).

(** [[32]byte(slice)] panics on a shorter slice and drops the rest of a longer one. *)
Definition toArray32 (slice : bytes) : outcome bytes :=
  if (length slice <? 32)%nat then Panicked "cannot convert slice to array" else Done (take 32 slice).

(** [sig[64]], [[32]byte(sig[:32])], [[32]byte(sig[32:64])] *)
Definition splitSignature (sig : bytes) : outcome (Z * bytes * bytes) :=
  match sig !! 64%nat with
  | None => Panicked "index out of range"
  | Some v => Done (byteZ v, take 32 sig, take 32 (drop 32 sig))
  end.

(** [ec.Address()] is a field of the client that never changes: it is read once.  A validated
    request has no nil integers left: [wholeRelaySwap] does not panic here. *)
Definition ValidateAndSendTransaction (expectedCode : bytes) (req : RelayClaimRequest)
    (ourSwapCreatorAddr : Address) (salt : bytes) : prog Sys (result Hash) :=
  ourAddress <- ext ETHAddress ;;
  _ <-? validateClaimRequest expectedCode req ourAddress salt ourSwapCreatorAddr ;;
  rs <- pure (wholeRelaySwap (rqRelaySwap req)) ;;
  _ <-? ext (NewSwapCreator (rsSwapCreator rs)) ;;
  secret <- pure (toArray32 (rqSecret req)) ;;
  gasPrice <-? checkForMinClaimBalance ;;
  ext ETHLock ;;;
  deferring (ext ETHUnlock)
    (_ <-? ext ETHTxOpts ;;
     let gas := maxClaimRelayerETHGas in
     vrs <- pure (splitSignature (rqSignature req)) ;;
     let '(v, r, s) := vrs in
     let saltU32 := bigSetBytes salt in
     _ <-? simulateClaimRelayer gas gasPrice rs secret ourAddress saltU32 v r s ;;
     tx <-? ext (ContractClaimRelayer (rsSwapCreator rs) gas gasPrice rs
                   secret ourAddress saltU32 v r s) ;;
     _ <-? ext (WaitForReceipt tx) ;;
     done (Ok tx)).

End relayer.
End Relayer.
