(* ===== verification/Message.v ===== *)
(** * The messages between daemons (package net/message)

    A message is a type byte followed by the JSON of a structure.  encoding/json on the
    structures is the class [MsgJson]; what the validator checks of their fields, the
    [validate] tags of the structures, is [msgValidate]. *)

From stdpp Require Import base gmap list strings.
From Stdlib Require Import ZArith Strings.Byte.
From S2P Require Import Prelude Coins RefApd Types TypesProofs Swap SwapProofs Offers Bytes Crypto CryptoProofs Contracts External Db DbProofs Store Relayer.

Open Scope Z_scope.
Open Scope go_scope.

Definition Unknown : byte := x00.
Definition QueryResponseType : byte := x01.
Definition RelayerQueryResponseType : byte := x02.
Definition RelayClaimRequestType : byte := x03.
Definition RelayClaimResponseType : byte := x04.
Definition SendKeysType : byte := x05.
Definition NotifyETHLockedType : byte := x06.

Definition TypeToString (t : byte) : string :=
  if bool_decide (t = QueryResponseType) then "QueryResponse"
  else if bool_decide (t = SendKeysType) then "SendKeysMessage"
  else if bool_decide (t = NotifyETHLockedType) then "NotifyETHLocked"
  else if bool_decide (t = RelayerQueryResponseType) then "RelayerQueryResponseType"
  else if bool_decide (t = RelayClaimRequestType) then "RelayClaimRequestType"
  else if bool_decide (t = RelayClaimResponseType) then "RelayClaimResponse"
  else ("Unknown(" +:+ pretty.pretty (byteZ t) +:+ ")")%string.

(** The structures that implement [common.Message]. *)
Inductive netMessage `{TypesLib} `{CryptoLib} : Type :=
| MQueryResponse (offers : list Offer)
| MRelayerQueryResponse (addressHash : bytes)
| MRelayClaimRequest (req : RelayClaimRequest)
| MRelayClaimResponse (txHash : Hash)
| MSendKeys (m : SendKeysMessage)
| MNotifyETHLocked (m : NotifyETHLocked).

Class MsgJson `{TypesLib} `{CryptoLib} := {
  msgMarshal : netMessage → result bytes;
  (* into a new structure of the type with this byte *)
  msgUnmarshal : byte → bytes → result netMessage
}.

Section message.
Context `{OfferJson} `{CryptoLib} `{!MsgJson}.

Definition Message_Type (m : netMessage) : byte :=
  match m with
  | MQueryResponse _ => QueryResponseType
  | MRelayerQueryResponse _ => RelayerQueryResponseType
  | MRelayClaimRequest _ => RelayClaimRequestType
  | MRelayClaimResponse _ => RelayClaimResponseType
  | MSendKeys _ => SendKeysType
  | MNotifyETHLocked _ => NotifyETHLockedType
  end.

(** The tags [required], [len=n] and [dive]: a required array is not zero, a required
    pointer not nil.  A required field whose type here has no nil (the proof, the
    secp256k1 key, the structures of the contract) is one [msgUnmarshal] fails without. *)
Definition required (ok : bool) (field : string) : option error :=
  if ok then None else Some (errorf (field +:+ " failed on the 'required' or 'len' tag")%string).

Definition nonZero (a : bytes) : bool := existsb (fun b => negb (bool_decide (b = x00))) a.

Fixpoint firstError (checks : list (option error)) : option error :=
  match checks with
  | [] => None
  | Some e :: _ => Some e
  | None :: rest => firstError rest
  end.

Definition msgValidate (m : netMessage) : option error :=
  match m with
  | MQueryResponse offers => firstError (offerValidateStruct <$> offers)
  | MRelayerQueryResponse h => required (bool_decide (length h = 32%nat)) "AddressHash"
  | MRelayClaimRequest r =>
      firstError [required (bool_decide (length (rqSecret r) = 32%nat)) "Secret";
                  required (bool_decide (length (rqSignature r) = 65%nat)) "Signature"]
  | MRelayClaimResponse tx => required (nonZero tx) "TxHash"
  | MSendKeys k =>
      firstError [required (bool_decide (is_Some (skProvidedAmount k))) "ProvidedAmount";
                  required (bool_decide (is_Some (skPublicSpendKey k))) "PublicSpendKey";
                  required (bool_decide (is_Some (skPrivateViewKey k))) "PrivateViewKey"]
  | MNotifyETHLocked n =>
      firstError [required (nonZero (nlAddress n)) "Address"; required (nonZero (nlTxHash n)) "TxHash";
                  required (nonZero (nlContractSwapID n)) "ContractSwapID"]
  end.

(** [vjson.MarshalStruct], and the byte of the type before it. *)
Definition encodeAs (t : byte) (m : netMessage) : result bytes :=
  match msgValidate m with
  | Some e => Err e
  | None =>
      match msgMarshal m with
      | Err e => Err e
      | Ok b => Ok (t :: b)
      end
  end.

Definition QueryResponse_Encode offers : result bytes := encodeAs QueryResponseType (MQueryResponse offers).
Definition RelayerQueryResponse_Encode h : result bytes := encodeAs RelayerQueryResponseType (MRelayerQueryResponse h).
Definition RelayClaimRequest_Encode r : result bytes := encodeAs RelayClaimRequestType (MRelayClaimRequest r).
Definition RelayClaimResponse_Encode tx : result bytes := encodeAs RelayClaimResponseType (MRelayClaimResponse tx).
Definition SendKeysMessage_Encode k : result bytes := encodeAs SendKeysType (MSendKeys k).
Definition NotifyETHLocked_Encode n : result bytes := encodeAs NotifyETHLockedType (MNotifyETHLocked n).

(** [common.Message.Encode] *)
Definition Encode (m : netMessage) : result bytes :=
  match m with
  | MQueryResponse offers => QueryResponse_Encode offers
  | MRelayerQueryResponse h => RelayerQueryResponse_Encode h
  | MRelayClaimRequest r => RelayClaimRequest_Encode r
  | MRelayClaimResponse tx => RelayClaimResponse_Encode tx
  | MSendKeys k => SendKeysMessage_Encode k
  | MNotifyETHLocked n => NotifyETHLocked_Encode n
  end.

Definition knownType (t : byte) : bool :=
  bool_decide (t ∈ [QueryResponseType; RelayerQueryResponseType; RelayClaimRequestType;
                    RelayClaimResponseType; SendKeysType; NotifyETHLockedType]).

Definition DecodeMessage (b : bytes) : result netMessage :=
  if (length b <? 3)%nat then Err (errorf "invalid message bytes")
  else
    match b with
    | [] => Err (errorf "invalid message bytes")
    | msgType :: msgJSON =>
        if negb (knownType msgType) then Err (errorf "invalid message type")
        else
          let failed := Wrapf ("failed to decode " +:+ TypeToString msgType +:+ " message")%string in
          match msgUnmarshal msgType msgJSON with
          | Err e => Err (failed e)
          | Ok m => match msgValidate m with Some e => Err (failed e) | None => Ok m end
          end
    end.

End message.

(** ** What the JSON of messages promises

    A structure is decoded as the type that was asked for and, if it is [sendable], gives
    back what was encoded; an object has at least its two braces.  WireProofs.v proves
    this of the fields of the structures. *)
Class MsgJsonSpec `{MsgJson} (sendable : netMessage → Prop) : Prop := {
  msg_roundtrip m b : sendable m → msgMarshal m = Ok b → msgUnmarshal (Message_Type m) b = Ok m;
  msg_braces m b : msgMarshal m = Ok b → (2 ≤ length b)%nat;
  msg_type t b m : msgUnmarshal t b = Ok m → Message_Type m = t
}.

Section proofs.
Context `{OfferJson} `{CryptoLib} `{!MsgJson} {sendable : netMessage → Prop} `{!MsgJsonSpec sendable}.

Lemma knownType_Type m : knownType (Message_Type m) = true.
Proof. by destruct m. Qed.

Lemma Encode_type m : Encode m = encodeAs (Message_Type m) m.
Proof. by destruct m. Qed.

Lemma firstError_None cs : firstError cs = None → Forall (fun c => c = None) cs.
Proof. induction cs as [|[e|] cs IH]; cbn; [constructor | done |]. intros E. constructor; auto. Qed.

Lemma required_None b f : required b f = None → b = true.
Proof. by destruct b. Qed.

(** What the validate tags give.  Of a relay request they cover the lengths of the secret
    and of the signature only: its swap and its fee, which the relayer dereferences, may be
    missing. *)
Definition wellFormed (m : netMessage) : Prop :=
  match m with
  | MRelayerQueryResponse h => length h = 32%nat
  | MRelayClaimRequest r => length (rqSecret r) = 32%nat ∧ length (rqSignature r) = 65%nat
  | MSendKeys k => is_Some (skProvidedAmount k) ∧ is_Some (skPublicSpendKey k) ∧ is_Some (skPrivateViewKey k)
  | MNotifyETHLocked n => nlAddress n ≠ zeroAddress ∧ nlContractSwapID n ≠ EmptyHash
  | _ => True
  end.

Lemma nonZero_repeat n : nonZero (repeat x00 n) = false.
Proof. induction n; [done | by cbn]. Qed.

Lemma nonZero_not_repeat a n : nonZero a = true → a ≠ repeat x00 n.
Proof. intros Ha ->. by rewrite nonZero_repeat in Ha. Qed.

Lemma required_len n (b : bytes) f : required (bool_decide (length b = n)) f = None → length b = n.
Proof. intros Hr. by apply required_None, bool_decide_eq_true_1 in Hr. Qed.

Lemma required_ptr {A} (p : option A) f : required (bool_decide (is_Some p)) f = None → is_Some p.
Proof. intros Hr. by apply required_None, bool_decide_eq_true_1 in Hr. Qed.

Lemma required_array a n f : required (nonZero a) f = None → a ≠ repeat x00 n.
Proof. intros Hr. by apply nonZero_not_repeat, (required_None _ f). Qed.

Lemma msgValidate_wf m : msgValidate m = None → wellFormed m.
Proof.
  destruct m as [o|h|r|tx|k|n]; intros E; [done | | | done | |]; cbn [msgValidate] in E; cbn [wellFormed].
  - by apply required_len in E.
  - apply firstError_None in E. decompose_Forall. split; eapply required_len; eauto.
  - apply firstError_None in E. decompose_Forall. split_and!; eapply required_ptr; eauto.
  - apply firstError_None in E. decompose_Forall. split; eapply required_array; eauto.
Qed.

Lemma Decode_inv b m : DecodeMessage b = Ok m →
  head b = Some (Message_Type m) ∧ msgUnmarshal (Message_Type m) (tail b) = Ok m ∧ msgValidate m = None.
Proof.
  unfold DecodeMessage. destruct (length b <? 3)%nat; [done|]. destruct b as [|t j]; [done|].
  destruct (knownType t); [|done]. cbn [negb]. destruct (msgUnmarshal t j) as [m'|] eqn:Hu; [|done].
  destruct (msgValidate m') eqn:Hv; [done|]. intros [= ->]. rewrite (msg_type _ _ _ Hu). by split_and!.
Qed.

(** A message survives the wire: what [Encode] produces decodes to the same message,
    and whatever decodes has the type of its first byte and what the validate tags of its
    fields ask for ([wellFormed]). *)
Theorem message_roundtrip (m : netMessage) (b : bytes) :
  (sendable m → Encode m = Ok b → DecodeMessage b = Ok m) ∧
  (DecodeMessage b = Ok m → head b = Some (Message_Type m) ∧ wellFormed m).
Proof.
  split.
  - intros Hs. rewrite Encode_type. unfold encodeAs. destruct (msgValidate m) eqn:Hv; [done|].
    destruct (msgMarshal m) as [j|] eqn:Hj; [|done]. intros [= <-]. unfold DecodeMessage.
    pose proof (msg_braces _ _ Hj) as Hl. cbn [length].
    replace (S (length j) <? 3)%nat with false by (symmetry; apply Nat.ltb_ge; lia).
    by rewrite knownType_Type, (msg_roundtrip _ _ Hs Hj), Hv.
  - intros Hd. apply Decode_inv in Hd as (Hh & _ & Hv). split; [done | by apply msgValidate_wf].
Qed.

(** A decoded relay request cannot make the relayer slice out of range. *)
Lemma decoded_request_slices `{!SigLib} b r : DecodeMessage b = Ok (MRelayClaimRequest r) →
  Relayer.toArray32 (rqSecret r) = Done (rqSecret r) ∧
  ∃ v, Relayer.splitSignature (rqSignature r) =
    Done (v, take 32 (rqSignature r), take 32 (drop 32 (rqSignature r))).
Proof.
  intros Hd. apply Decode_inv in Hd as (_ & _ & Hv). apply msgValidate_wf in Hv as [Hs Hg].
  unfold Relayer.toArray32, Relayer.splitSignature. rewrite Hs. split; [by rewrite firstn_all2 by lia|].
  destruct (rqSignature r !! 64%nat) as [v|] eqn:Hk; [by eauto|].
  apply lookup_ge_None in Hk. lia.
Qed.

End proofs.

(** ** Concrete messages *)

Definition sampleTxHash : Hash := repeat x09 32.

#[export] Instance sampleMsgJson : MsgJson := {|
  msgMarshal := fun m =>
    match m with MRelayClaimResponse tx => if bool_decide (tx = sampleTxHash) then Ok [x7b; x7d] else Err (errorf "not encodable")
            | _ => Err (errorf "not encodable") end;
  msgUnmarshal := fun t b =>
    if bool_decide (t = RelayClaimResponseType) then Ok (MRelayClaimResponse sampleTxHash) else Err (errorf "bad JSON")
|}.

#[export] Instance sampleMsgJsonSpec : MsgJsonSpec (fun _ => True).
Proof.
  split.
  - intros [] b _; cbn; try done. case_bool_decide; [|done]. by subst.
  - intros [] b; cbn; try done. case_bool_decide; [|done]. intros [= <-]. cbn. lia.
  - intros t b m. cbn. case_bool_decide; [|done]. intros [= <-]. by subst.
Qed.

Lemma message_roundtrip_witness :
  DecodeMessage [RelayClaimResponseType; x7b; x7d] = Ok (MRelayClaimResponse sampleTxHash) ∧
  (head [RelayClaimResponseType; x7b; x7d] = Some RelayClaimResponseType ∧ True).
Proof.
  split.
  - apply (message_roundtrip (MRelayClaimResponse sampleTxHash)); [exact I | reflexivity].
  - apply (message_roundtrip (MRelayClaimResponse sampleTxHash)). reflexivity.
Defined.
