(* ===== verification/Net.v ===== *)
(** * The network host (package net)

    [Host] keeps, per offer ID, the stream of the ongoing swap.  libp2p and go-p2p-net are
    calls of [netCall], answered by [NetWorld] and recorded in a trace; the maker, the
    relayer and the swap states are the interfaces [MakerHandler], [RelayHandler] and
    [SwapStateNet] of net/types.go, over a state of their own.

    The host's handlers run concurrently and share [swaps] under [swapMu].  Each is written
    as the sequence of its critical sections; [threadStep] runs one section of one handler
    and [netStep] interleaves them with the calls the daemon makes. *)

From stdpp Require Import base gmap list strings relations.
From Stdlib Require Import ZArith Strings.Byte.
From S2P Require Import Prelude Coins Types Swap Offers Bytes Crypto Contracts External Db Relayer Message.

Open Scope Z_scope.
Open Scope go_scope.

Module Net.

Definition errBootnodeCannotRelay : error := Sentinel "errBootnodeCannotRelay" "bootnode cannot be a relayer".
Definition errNilHandler : error := Sentinel "errNilHandler" "handler is nil".
Definition errNoOngoingSwap : error := Sentinel "errNoOngoingSwap" "no swap currently happening".
Definition errSwapAlreadyInProgress : error :=
  Sentinel "errSwapAlreadyInProgress" "swap is already in progress".

Definition baseProtocolID : string := "/atomic-swap".
Definition p2pAPIVersion : Z := 2.
Definition maxMessageSize : Z := Z.shiftl 1 17.
Definition maxRelayMessageSize : Z := 2048.
Definition swapProtocolID : string := "/swap".
Definition queryProtocolID : string := "/query".
Definition relayProtocolID : string := "/relay".
Definition relayerQueryProtocolID : string := "/relayerquery".
Definition RelayerProvidesStr : string := "relayer".

(** A stream and [stream.Conn().RemotePeer()]. *)
Record Stream : Type := mkStream { streamID : nat; remotePeer : string }.

(** [swap]: the swap state is a handle, nil until the maker has answered. *)
Record swap : Type := mkSwap {
  swapState : option nat;
  stream : Stream;
  streamClosed : bool
}.

Record Host : Type := mkHost {
  isRelayer : bool;
  isBootnode : bool;
  (* [SetHandlers] has been called *)
  handlersSet : bool;
  swaps : gmap Hash swap
}.

(** What the host calls of libp2p, of go-p2p-net and of the timers. *)
Inductive netCall `{TypesLib} `{CryptoLib} : Type → Type :=
| P2pNewHost (protocolID : string) : netCall (option error)
| P2pStart : netCall (option error)
| P2pStop : netCall (option error)
| P2pAdvertise : netCall unit
| P2pDiscover (provides : string) : netCall (result (list string))
| SetStreamHandler (protocolID : string) : netCall unit
| Connectedness (who : string) : netCall bool
| Connect (who : string) : netCall (option error)
| NewStream (who : string) (protocolID : string) : netCall (result Stream)
| WriteStreamMessage (s : Stream) (m : netMessage) (who : string) : netCall (option error)
| ReadStreamMessage (s : Stream) (max : Z) : netCall (result bytes)
| CloseStream (s : Stream) : netCall unit
(* whether the timer fires before a message of the stream arrives *)
| TimerFirst : netCall bool.

Inductive netObs `{TypesLib} `{CryptoLib} : Type :=
| NetObs {A : Type} (c : netCall A) (a : A).

Class NetWorld `{TypesLib} `{CryptoLib} := { netAnswer : ∀ A, nat → netCall A → A }.

(** net/types.go *)
Class MakerHandler (S : Type) `{TypesLib} `{CryptoLib} := {
  GetOffers : prog S (list Offer);
  HandleInitiateMessage : string → SendKeysMessage → prog S (result nat)
}.

Class RelayHandler (S : Type) := {
  GetRelayerAddressHash : prog S (result Hash);
  HandleRelayClaimRequest : string → RelayClaimRequest → prog S (result Hash);
  HasOngoingSwapAsTaker : string → prog S (result unit)
}.

(** common.SwapStateNet, of the swap state with a handle. *)
Class SwapStateNet (S : Type) `{TypesLib} `{CryptoLib} := {
  OfferIDOf : nat → Hash;
  HandleProtocolMessage : nat → netMessage → prog S (option error);
  NotifyStreamClosed : nat → prog S unit
}.

Record netSys (S : Type) `{TypesLib} `{CryptoLib} : Type := mkNet {
  nsHost : Host;
  nsInner : S;
  nsClock : nat;
  nsTrace : list netObs
}.

Section net.
Context {S : Type} `{NetWorld} `{!OfferJson} `{!MsgJson}.
Context `{!MakerHandler S} `{!RelayHandler S} `{!SwapStateNet S}.

Definition net {A} (c : netCall A) : prog (netSys S) A := fun n =>
  let a := netAnswer A (nsClock _ n) c in
  (Done a, mkNet _ _ _ (nsHost _ n) (nsInner _ n) (Datatypes.S (nsClock _ n)) (NetObs c a :: nsTrace _ n)).

(** A call of a handler. *)
Definition handler {A} (m : prog S A) : prog (netSys S) A :=
  zoom (nsInner S) (fun i n => mkNet _ _ _ (nsHost _ n) i (nsClock _ n) (nsTrace _ n)) m.

Definition getHost {A} (f : Host → A) : prog (netSys S) A := gets (fun n => f (nsHost _ n)).

Definition setSwaps (m : gmap Hash swap) (h : Host) : Host :=
  mkHost (isRelayer h) (isBootnode h) (handlersSet h) m.

Definition modHost (f : Host → Host) : prog (netSys S) unit :=
  modify (fun n => mkNet _ _ _ (f (nsHost _ n)) (nsInner _ n) (nsClock _ n) (nsTrace _ n)).

Definition modSwaps (f : gmap Hash swap → gmap Hash swap) : prog (netSys S) unit :=
  modHost (fun h => setSwaps (f (swaps h)) h).

(** ** net/host.go *)

Definition ChainProtocolID (env : Environment) : outcome string :=
  name <~ ChainNameFromEnv env ;;
  Done (baseProtocolID +:+ "/" +:+ name +:+ "/" +:+ pretty.pretty p2pAPIVersion)%string.

(** The host that [NewHost] returns is the host of the state. *)
Definition NewHost (env : Environment) (relayer : bool) : prog (netSys S) (result unit) :=
  let boot := bool_decide (env = Bootnode) in
  if boot && relayer then done (Err errBootnodeCannotRelay)
  else
    protocolID <- pure (ChainProtocolID env) ;;
    err <- net (P2pNewHost protocolID) ;;
    match err with
    | Some e => done (Err e)
    | None => modHost (fun _ => mkHost relayer boot false ∅) ;;; done (Ok tt)
    end.

(** [GetOffers] of a nil handler panics; a bootnode does not get so far. *)
Definition advertisedNamespaces : prog (netSys S) (list string) :=
  h <- getHost id ;;
  offers <- (if isBootnode h then done []
             else if handlersSet h then handler GetOffers
             else panic "nil pointer dereference") ;;
  done ([""%string]
        ++ (if negb (isBootnode h) && (0 <? length offers)%nat then [ProvidesXMR] else [])
        ++ (if negb (isBootnode h) && isRelayer h then [RelayerProvidesStr] else [])).

Definition SetHandlers : prog (netSys S) unit :=
  modHost (fun h => mkHost (isRelayer h) (isBootnode h) true (swaps h)) ;;;
  net (SetStreamHandler queryProtocolID) ;;;
  net (SetStreamHandler relayProtocolID) ;;;
  net (SetStreamHandler relayerQueryProtocolID) ;;;
  net (SetStreamHandler swapProtocolID).

Definition Start : prog (netSys S) (option error) :=
  h <- getHost id ;;
  if negb (handlersSet h) && negb (isBootnode h) then done (Some errNilHandler)
  else net P2pStart.

Definition Stop : prog (netSys S) (option error) := net P2pStop.

Definition SendSwapMessage (msg : netMessage) (id : Hash) : prog (netSys S) (option error) :=
  e <- getHost (fun h => swaps h !! id) ;;
  match e with
  | None => done (Some errNoOngoingSwap)
  | Some sw => net (WriteStreamMessage (stream sw) msg (remotePeer (stream sw)))
  end.

Definition CloseProtocolStream (offerID : Hash) : prog (netSys S) unit :=
  e <- getHost (fun h => swaps h !! offerID) ;;
  match e with
  | None => done tt
  | Some sw =>
      if streamClosed sw then done tt
      else
        modSwaps <[offerID := mkSwap (swapState sw) (stream sw) true]> ;;;
        net (CloseStream (stream sw))
  end.

(** An entry whose stream is open is deleted too, with a line in the log. *)
Definition DeleteOngoingSwap (offerID : Hash) : prog (netSys S) unit :=
  e <- getHost (fun h => swaps h !! offerID) ;;
  match e with
  | None => done tt
  | Some _ => modSwaps (delete offerID)
  end.

Definition Advertise : prog (netSys S) unit := net P2pAdvertise.

Definition Discover (provides : string) : prog (netSys S) (result (list string)) := net (P2pDiscover provides).

Definition readStreamMessage (s : Stream) (max : Z) : prog (netSys S) (result netMessage) :=
  msgBytes <-? net (ReadStreamMessage s max) ;;
  done (DecodeMessage msgBytes).

(** What the select between [nextStreamMessage]'s channel and a timer receives: the timer,
    a closed channel, or a message.  The goroutine goes on reading afterwards; what it
    reads then nobody receives. *)
Definition selectMessage (s : Stream) (max : Z) : prog (netSys S) (option (option netMessage)) :=
  t <- net TimerFirst ;;
  if t : bool then done None
  else
    r <- readStreamMessage s max ;;
    done (Some (match r with Ok m => Some m | Err _ => None end)).

(** ** net/initiate.go *)

Definition handleProtocolStreamClose (st : Stream) (s : nat) : prog (netSys S) unit :=
  net (CloseStream st) ;;; handler (NotifyStreamClosed s).

(** The loop, [fuel] messages of it. *)
Fixpoint streamLoop (fuel : nat) (st : Stream) (s : nat) : prog (netSys S) unit :=
  match fuel with
  | O => nofuel
  | Datatypes.S fuel' =>
      r <- readStreamMessage st maxMessageSize ;;
      match r with
      | Err _ => done tt
      | Ok msg =>
          err <- handler (HandleProtocolMessage s msg) ;;
          match err with
          | Some _ => done tt
          | None => streamLoop fuel' st s
          end
      end
  end.

Definition handleProtocolStreamInner (fuel : nat) (st : Stream) (s : nat) : prog (netSys S) unit :=
  deferring (handleProtocolStreamClose st s) (streamLoop fuel st s).

(** Everything up to [go h.receiveInitiateResponse(stream, s)]: the stream it is given.
    [swapMu] is held throughout. *)
Definition Initiate (who : string) (msg : netMessage) (s : nat) : prog (netSys S) (result Stream) :=
  let id := OfferIDOf s in
  e <- getHost (fun h => swaps h !! id) ;;
  if bool_decide (is_Some e) then done (Err errSwapAlreadyInProgress)
  else
    connected <- net (Connectedness who) ;;
    err <- (if connected : bool then done None else net (Connect who)) ;;
    match err with
    | Some err => done (Err err)
    | None =>
        st <-? mapErr (Wrapf "failed to open stream with peer") (net (NewStream who swapProtocolID)) ;;
        err <- net (WriteStreamMessage st msg who) ;;
        match err with
        | Some err => done (Err err)
        | None =>
            modSwaps <[id := mkSwap (Some s) st false]> ;;;
            done (Ok st)
        end
    end.

(** The response is handled, or the stream is given up. *)
Definition receiveFirst (st : Stream) (s : nat) : prog (netSys S) bool :=
  r <- selectMessage st maxMessageSize ;;
  match r with
  | Some (Some msg) =>
      err <- handler (HandleProtocolMessage s msg) ;;
      done (bool_decide (err = None))
  | _ => done false
  end.

Definition receiveInitiateResponse (fuel : nat) (st : Stream) (s : nat) : prog (netSys S) unit :=
  deferring (handleProtocolStreamClose st s)
    (ok <- receiveFirst st s ;;
     if ok : bool then handleProtocolStreamInner fuel st s else done tt).

(** The sections of [handleProtocolStream]: reading the first message, *)
Definition readInitiation (st : Stream) : prog (netSys S) (option SendKeysMessage) :=
  set <- getHost handlersSet ;;
  if negb set then net (CloseStream st) ;;; done None
  else
    r <- readStreamMessage st maxMessageSize ;;
    match r with
    | Ok (MSendKeys im) => done (Some im)
    | _ => net (CloseStream st) ;;; done None
    end.

(** registering the stream, unless its offer has one, *)
Definition registerStream (st : Stream) (im : SendKeysMessage) : prog (netSys S) bool :=
  e <- getHost (fun h => swaps h !! skOfferID im) ;;
  if bool_decide (is_Some e) then net (CloseStream st) ;;; done false
  else modSwaps <[skOfferID im := mkSwap None st false]> ;;; done true.

(** the maker's answer, *)
Definition callMaker (st : Stream) (im : SendKeysMessage) : prog (netSys S) (option nat) :=
  r <- handler (HandleInitiateMessage (remotePeer st) im) ;;
  match r with
  | Err _ => net (CloseStream st) ;;; done None
  | Ok s => done (Some s)
  end.

Definition deregister (im : SendKeysMessage) : prog (netSys S) unit := modSwaps (delete (skOfferID im)).

(** and [h.swaps[im.OfferID].swapState = s], of an entry that may be nil. *)
Definition attachState (im : SendKeysMessage) (s : nat) : prog (netSys S) unit :=
  e <- getHost (fun h => swaps h !! skOfferID im) ;;
  match e with
  | None => panic "nil pointer dereference"
  | Some sw => modSwaps <[skOfferID im := mkSwap (Some s) (stream sw) (streamClosed sw)]>
  end.

Definition handleProtocolStream (fuel : nat) (st : Stream) : prog (netSys S) unit :=
  im <- readInitiation st ;;
  match im with
  | None => done tt
  | Some im =>
      registered <- registerStream st im ;;
      if negb registered then done tt
      else
        s <- callMaker st im ;;
        match s with
        | None => deregister im
        | Some s => attachState im s ;;; handleProtocolStreamInner fuel st s
        end
  end.

(** ** net/query.go *)

Definition handleQueryStream (st : Stream) : prog (netSys S) unit :=
  deferring (net (CloseStream st))
    (set <- getHost handlersSet ;;
     offers <- (if set : bool then handler GetOffers else panic "nil pointer dereference") ;;
     net (WriteStreamMessage st (MQueryResponse offers) (remotePeer st)) ;;; done tt).

Definition receiveQueryResponse (st : Stream) : prog (netSys S) (result (list Offer)) :=
  r <- selectMessage st maxMessageSize ;;
  match r with
  | None => done (Err (errorf "timed out waiting for QueryResponse"))
  | Some None => done (Err (errorf "failed to read QueryResponse"))
  | Some (Some (MQueryResponse offers)) => done (Ok offers)
  | Some (Some m) => done (Err (errorf ("expected " +:+ TypeToString QueryResponseType +:+
      " message but received " +:+ TypeToString (Message_Type m))%string))
  end.

(** [Connect], then [NewStream]. *)
Definition dial (who protocolID : string) : prog (netSys S) (result Stream) :=
  err <- net (Connect who) ;;
  match err with
  | Some e => done (Err e)
  | None => mapErr (Wrapf "failed to open stream with peer") (net (NewStream who protocolID))
  end.

Definition Query (who : string) : prog (netSys S) (result (list Offer)) :=
  st <-? dial who queryProtocolID ;;
  deferring (net (CloseStream st)) (receiveQueryResponse st).

(** ** net/relay.go *)

Definition DiscoverRelayers : prog (netSys S) (result (list string)) := Discover RelayerProvidesStr.

Definition handleRelayerQueryStream (st : Stream) : prog (netSys S) unit :=
  deferring (net (CloseStream st))
    (relayer <- getHost isRelayer ;;
     allowed <- (if relayer : bool then done (Ok tt) else handler (HasOngoingSwapAsTaker (remotePeer st))) ;;
     match allowed with
     | Err _ => done tt
     | Ok _ =>
         r <- handler GetRelayerAddressHash ;;
         match r with
         | Err _ => done tt
         | Ok hash => net (WriteStreamMessage st (MRelayerQueryResponse hash) (remotePeer st)) ;;; done tt
         end
     end).

(** [[32]byte(resp.AddressHash)] panics on a short slice. *)
Definition receiveRelayerQueryResponse (st : Stream) : prog (netSys S) (result Hash) :=
  r <- selectMessage st maxRelayMessageSize ;;
  match r with
  | None => done (Err (errorf "timed out waiting for QueryResponse"))
  | Some None => done (Err (errorf "failed to read RelayerQueryResponse"))
  | Some (Some (MRelayerQueryResponse h)) => a <- pure (Relayer.toArray32 h) ;; done (Ok a)
  | Some (Some m) => done (Err (errorf ("expected " +:+ TypeToString RelayClaimResponseType +:+
      " message but received " +:+ TypeToString (Message_Type m))%string))
  end.

(** The stream is not closed. *)
Definition QueryRelayerAddress (relayerID : string) : prog (netSys S) (result Hash) :=
  st <-? dial relayerID relayerQueryProtocolID ;;
  receiveRelayerQueryResponse st.

Definition handleRelayStream (st : Stream) : prog (netSys S) unit :=
  deferring (net (CloseStream st))
    (r <- readStreamMessage st maxRelayMessageSize ;;
     match r with
     | Ok (MRelayClaimRequest req) =>
         relayer <- getHost isRelayer ;;
         if bool_decide (rqOfferID req = None) && negb relayer then done tt
         else
           resp <- handler (HandleRelayClaimRequest (remotePeer st) req) ;;
           match resp with
           | Err _ => done tt
           | Ok txHash =>
               net (WriteStreamMessage st (MRelayClaimResponse txHash) (remotePeer st)) ;;; done tt
           end
     | _ => done tt
     end).

Definition receiveRelayClaimResponse (st : Stream) : prog (netSys S) (result Hash) :=
  r <- selectMessage st maxMessageSize ;;
  match r with
  | None => done (Err (errorf "timed out waiting for QueryResponse"))
  | Some None => done (Err (errorf "failed to read RelayClaimResponse"))
  | Some (Some (MRelayClaimResponse h)) => done (Ok h)
  | Some (Some m) => done (Err (errorf ("expected " +:+ TypeToString RelayClaimResponseType +:+
      " message but received " +:+ TypeToString (Message_Type m))%string))
  end.

Definition SubmitRelayRequest (relayerID : string) (request : RelayClaimRequest)
  : prog (netSys S) (result Hash) :=
  st <-? dial relayerID relayProtocolID ;;
  deferring (net (CloseStream st))
    (err <- net (WriteStreamMessage st (MRelayClaimRequest request) relayerID) ;;
     match err with
     | Some e => done (Err e)
     | None => receiveRelayClaimResponse st
     end).

End net.
End Net.
