(* ===== verification/NetMachine.v ===== *)
(** * The host's handlers, interleaved

    A handler is a [thread], whose position is the next of its critical sections;
    [threadStep] runs that section.  [run] interleaves the sections of any number of
    handlers with new streams, initiated swaps and the calls of the swap states.  The
    theorems hold at every machine [reachable] by such steps. *)

From stdpp Require Import base gmap list strings relations.
From Stdlib Require Import ZArith Strings.Byte.
From S2P Require Import Prelude Coins Types Swap Offers Bytes Crypto Contracts External Db Relayer Message Net.

Open Scope Z_scope.
Open Scope go_scope.

Module NetMachine.
Import Net.

Inductive thread `{TypesLib} `{CryptoLib} : Type :=
| Incoming (st : Stream)
| Registering (st : Stream) (im : SendKeysMessage)
| Asking (st : Stream) (im : SendKeysMessage)
| Failed (im : SendKeysMessage)
| Attaching (st : Stream) (im : SendKeysMessage) (s : nat)
| Receiving (st : Stream) (s : nat)
(* with so many deferred [handleProtocolStreamClose] *)
| Looping (st : Stream) (s : nat) (defers : nat)
| Closing (st : Stream) (s : nat) (defers : nat).

Record machine (S : Type) `{TypesLib} `{CryptoLib} : Type := mkMachine {
  sys : netSys S;
  threads : gmap nat thread;
  nextThread : nat;
  crashed : bool
}.

Inductive label `{TypesLib} `{CryptoLib} : Type :=
| LThread (i : nat)
| LIncoming (st : Stream)
| LInitiate (who : string) (m : netMessage) (s : nat)
| LSend (m : netMessage) (id : Hash)
| LClose (id : Hash)
| LDelete (id : Hash).

Section machine.
Context {S : Type} `{NetWorld} `{!OfferJson} `{!MsgJson}.
Context `{!MakerHandler S} `{!RelayHandler S} `{!SwapStateNet S}.

(** One iteration of the loop of [handleProtocolStreamInner]: whether it goes on. *)
Definition loopOnce (st : Stream) (s : nat) : prog (netSys S) bool :=
  r <- readStreamMessage st maxMessageSize ;;
  match r with
  | Err _ => done false
  | Ok msg => err <- handler (HandleProtocolMessage s msg) ;; done (bool_decide (err = None))
  end.

Definition threadStep (t : thread) : prog (netSys S) (option thread) :=
  match t with
  | Incoming st => im <- readInitiation st ;; done (Registering st <$> im)
  | Registering st im => ok <- registerStream st im ;; done (if ok : bool then Some (Asking st im) else None)
  | Asking st im =>
      r <- callMaker st im ;;
      done (Some (match r with Some s => Attaching st im s | None => Failed im end))
  | Failed im => deregister im ;;; done None
  | Attaching st im s => attachState im s ;;; done (Some (Looping st s 1))
  | Receiving st s =>
      ok <- receiveFirst st s ;; done (Some (if ok : bool then Looping st s 2 else Closing st s 1))
  | Looping st s n =>
      ok <- loopOnce st s ;; done (Some (if ok : bool then Looping st s n else Closing st s n))
  | Closing st s (Datatypes.S n) => handleProtocolStreamClose st s ;;; done (Some (Closing st s n))
  | Closing st s O => done None
  end.

(** A panic of a handler ends the daemon; a handler that waits for ever does not run again. *)
Definition runThread (i : nat) (m : machine S) : machine S :=
  match threads _ m !! i with
  | None => m
  | Some t =>
      match threadStep t (sys _ m) with
      | (Done (Some t'), n) => mkMachine _ _ _ n (<[i := t']> (threads _ m)) (nextThread _ m) false
      | (Panicked _, n) => mkMachine _ _ _ n (delete i (threads _ m)) (nextThread _ m) true
      | (_, n) => mkMachine _ _ _ n (delete i (threads _ m)) (nextThread _ m) false
      end
  end.

Definition spawn (t : thread) (n : netSys S) (m : machine S) : machine S :=
  mkMachine _ _ _ n (<[nextThread _ m := t]> (threads _ m)) (Datatypes.S (nextThread _ m)) (crashed _ m).

Definition withSys (n : netSys S) (m : machine S) : machine S :=
  mkMachine _ _ _ n (threads _ m) (nextThread _ m) (crashed _ m).

Definition run (l : label) (m : machine S) : machine S :=
  if crashed _ m then m
  else
    match l with
    | LThread i => runThread i m
    | LIncoming st => spawn (Incoming st) (sys _ m) m
    | LInitiate who msg s =>
        match Initiate who msg s (sys _ m) with
        | (Done (Ok st), n) => spawn (Receiving st s) n m
        | (_, n) => withSys n m
        end
    | LSend msg id => withSys (SendSwapMessage msg id (sys _ m)).2 m
    | LClose id => withSys (CloseProtocolStream id (sys _ m)).2 m
    | LDelete id => withSys (DeleteOngoingSwap id (sys _ m)).2 m
    end.

(** A host with its handlers set and no swaps. *)
Definition initial (m : machine S) : Prop :=
  swaps (nsHost _ (sys _ m)) = ∅ ∧ threads _ m = ∅ ∧ crashed _ m = false.

Inductive reachable : machine S → Prop :=
| reachable_initial m : initial m → reachable m
| reachable_run l m : reachable m → reachable (run l m).

Fixpoint runs (ls : list label) (m : machine S) : machine S :=
  match ls with [] => m | l :: ls => runs ls (run l m) end.

(** ** The trace of the host grows *)

Implicit Types n : netSys S.

Definition swapsOf n : gmap Hash swap := swaps (nsHost _ n).

Definition grows n n' : Prop := ∃ os, nsTrace _ n' = os ++ nsTrace _ n.

#[global] Instance grows_preorder : PreOrder grows.
Proof.
  split.
  - intros n. by exists [].
  - intros a b c [os E] [os' E']. exists (os' ++ os). by rewrite E', E, (assoc_L (++)).
Qed.

(** The swaps stay as they are. *)
Definition quiet n n' : Prop := grows n n' ∧ swapsOf n' = swapsOf n.

#[global] Instance quiet_preorder : PreOrder quiet.
Proof.
  split; [intros n; by split|]. intros a b c [G E] [G' E']. split; [by etrans | congruence].
Qed.

Lemma quiet_net {A} (c : netCall A) : keeps quiet (net c).
Proof. intros n. split; [by eexists [_] | done]. Qed.

Lemma quiet_handler {A} (m : prog S A) : keeps quiet (handler m).
Proof. apply keeps_zoom. intros n. split; [by exists [] | done]. Qed.

Lemma quiet_getHost {A} (f : Host → A) : keeps quiet (getHost f).
Proof. apply keeps_gets, quiet_preorder. Qed.

Hint Resolve quiet_net quiet_handler quiet_getHost : keeps.

Lemma quiet_read st max : keeps quiet (readStreamMessage st max).
Proof. unfold readStreamMessage. keeps_auto. Qed.

Hint Resolve quiet_read : keeps.

Lemma quiet_readInitiation st : keeps quiet (readInitiation st).
Proof. unfold readInitiation. keeps_auto. Qed.

Lemma quiet_callMaker st im : keeps quiet (callMaker st im).
Proof. unfold callMaker. keeps_auto. Qed.

Lemma quiet_receiveFirst st s : keeps quiet (receiveFirst st s).
Proof. unfold receiveFirst, selectMessage. keeps_auto. Qed.

Lemma quiet_loopOnce st s : keeps quiet (loopOnce st s).
Proof. unfold loopOnce. keeps_auto. Qed.

Lemma quiet_close st s : keeps quiet (handleProtocolStreamClose st s).
Proof. unfold handleProtocolStreamClose. keeps_auto. Qed.

Lemma quiet_send msg id : keeps quiet (SendSwapMessage msg id).
Proof. unfold SendSwapMessage. keeps_auto. Qed.

Hint Resolve quiet_readInitiation quiet_callMaker quiet_receiveFirst quiet_loopOnce quiet_close : keeps.

(** ** Where an entry comes from *)

Definition observed {A} n (c : netCall A) (a : A) : Prop := NetObs c a ∈ nsTrace _ n.

(** The peer of the stream sent the first message of the swap, on this stream. *)
Definition receivedOn n (id : Hash) (st : Stream) : Prop :=
  ∃ b im, observed n (ReadStreamMessage st maxMessageSize) (Ok b) ∧
    DecodeMessage b = Ok (MSendKeys im) ∧ skOfferID im = id.

Lemma observed_mono {A} n n' (c : netCall A) a : grows n n' → observed n c a → observed n' c a.
Proof. intros [os E] Ho. unfold observed. rewrite E. apply elem_of_app. by right. Qed.

Lemma receivedOn_mono n n' id st : grows n n' → receivedOn n id st → receivedOn n' id st.
Proof. intros G (b & im & Ho & ?). exists b, im. split; [by eapply observed_mono | done]. Qed.

Definition threadOk n (t : thread) : Prop :=
  match t with Registering st im => receivedOn n (skOfferID im) st | _ => True end.

(** How one section changes the swaps: an entry that is there before and after it keeps
    its stream. *)
Definition moves n n' : Prop :=
  grows n n' ∧ ∀ id e e', swapsOf n !! id = Some e → swapsOf n' !! id = Some e' → stream e' = stream e.

Lemma quiet_moves n n' : quiet n n' → moves n n'.
Proof. intros [G E]. split; [done|]. intros id e e'. rewrite E. congruence. Qed.

Lemma quiet_bind_moves {A B} (m : prog (netSys S) A) (k : A → prog (netSys S) B) n :
  keeps quiet m → (∀ a n1, m n = (Done a, n1) → quiet n n1 → moves n1 (k a n1).2) →
  moves n (pbind m k n).2.
Proof.
  intros Km Hk. specialize (Km n). unfold pbind. destruct (m n) as [[a|?| |] n1] eqn:E; cbn [snd] in *;
    try by apply quiet_moves.
  destruct (Hk a n1 eq_refl Km) as [G Hm]. destruct Km as [G1 E1]. split; [by etrans|]. by rewrite <- E1.
Qed.

Lemma moves_bind_quiet {A B} (m : prog (netSys S) A) (k : A → prog (netSys S) B) n :
  moves n (m n).2 → (∀ a, keeps quiet (k a)) → moves n (pbind m k n).2.
Proof.
  intros [G Hm] Kk. unfold pbind. destruct (m n) as [[a|?| |] n1] eqn:E; cbn [snd] in *; [|done..].
  destruct (Kk a n1) as [G1 E1]. split; [by etrans|]. intros id e e' He He'. rewrite E1 in He'. by eapply Hm.
Qed.

(** Changes of the map that replace no stream. *)
Lemma moves_insert n id e :
  (∀ e0, swapsOf n !! id = Some e0 → stream e = stream e0) → moves n (modSwaps <[id := e]> n).2.
Proof.
  intros He. split; [by exists []|]. intros j e0 e' Hj0 Hj. unfold swapsOf in Hj. cbn in Hj.
  destruct (decide (id = j)) as [<-|Hne].
  - rewrite lookup_insert_eq in Hj. injection Hj as <-. by apply He.
  - rewrite lookup_insert_ne in Hj by done. unfold swapsOf in Hj0. congruence.
Qed.

Lemma moves_delete n id : moves n (modSwaps (delete id) n).2.
Proof.
  split; [by exists []|]. intros j e0 e' Hj0 Hj. unfold swapsOf in Hj. cbn in Hj.
  apply lookup_delete_Some in Hj as [_ Hj]. unfold swapsOf in Hj0. congruence.
Qed.

Lemma moves_register st im n : moves n (registerStream st im n).2.
Proof.
  unfold registerStream. apply quiet_bind_moves; [apply quiet_getHost|].
  intros e n1 [= <- <-] _. fold (swapsOf n). case_bool_decide as He.
  - apply quiet_moves. assert (K : keeps quiet (net (CloseStream st) ;;; done false)) by keeps_auto. apply K.
  - apply moves_bind_quiet; [|keeps_auto]. apply moves_insert. intros e0 H0'. destruct He. by eexists.
Qed.

Lemma moves_attach im s n : moves n (attachState im s n).2.
Proof.
  unfold attachState. apply quiet_bind_moves; [apply quiet_getHost|]. intros e n1 [= <- <-] _.
  fold (swapsOf n). destruct (swapsOf n !! skOfferID im) as [e|] eqn:He; [|by apply quiet_moves].
  apply moves_insert. cbn. congruence.
Qed.

Lemma moves_deregister im n : moves n (deregister im n).2.
Proof. apply moves_delete. Qed.

Lemma moves_DeleteOngoingSwap id n : moves n (DeleteOngoingSwap id n).2.
Proof.
  unfold DeleteOngoingSwap. apply quiet_bind_moves; [apply quiet_getHost|]. intros e n1 [= <- <-] _.
  destruct (swaps _ !! id); [apply moves_delete | by apply quiet_moves].
Qed.

Lemma moves_CloseProtocolStream id n : moves n (CloseProtocolStream id n).2.
Proof.
  unfold CloseProtocolStream. apply quiet_bind_moves; [apply quiet_getHost|]. intros e n1 [= <- <-] _.
  fold (swapsOf n). destruct (swapsOf n !! id) as [e|] eqn:He; [|by apply quiet_moves].
  destruct (streamClosed e); [by apply quiet_moves|].
  apply moves_bind_quiet; [|intros _; apply quiet_net]. apply moves_insert. cbn. congruence.
Qed.

Lemma net_observed {A} (c : netCall A) n a n' : net c n = (Done a, n') → observed n' c a.
Proof. unfold net. intros [= <- <-]. unfold observed. cbn [nsTrace]. constructor. Qed.

Lemma moves_Initiate who msg s n : moves n (Initiate who msg s n).2.
Proof.
  unfold Initiate. apply quiet_bind_moves; [apply quiet_getHost|]. intros e n1 [= <- <-] _.
  fold (swapsOf n). case_bool_decide as He; [by apply quiet_moves|]. apply eq_None_not_Some in He.
  apply quiet_bind_moves; [apply quiet_net|]. intros connected n1 _ [_ E1].
  apply quiet_bind_moves; [destruct connected; keeps_auto|]. intros [err|] n2 _ [_ E2]; [by apply quiet_moves|].
  unfold tryBind. apply quiet_bind_moves; [keeps_auto|]. intros [st|e] n3 _ [_ E3]; [|by apply quiet_moves].
  apply quiet_bind_moves; [apply quiet_net|]. intros [err|] n4 _ [_ E4]; [by apply quiet_moves|].
  apply moves_bind_quiet; [|keeps_auto]. apply moves_insert. rewrite E4, E3, E2, E1. congruence.
Qed.

(** A handler that is about to register a stream has read the first message of the swap
    from it. *)
Definition netInv (m : machine S) : Prop := ∀ i t, threads _ m !! i = Some t → threadOk (sys _ m) t.

Lemma readInitiation_received st n im n' :
  readInitiation st n = (Done (Some im), n') → receivedOn n' (skOfferID im) st.
Proof.
  unfold readInitiation. intros E. apply pbind_inv_Done in E as (b & n1 & Hg & E). injection Hg as <- <-.
  destruct (handlersSet _); cbn [negb] in E; [|by apply pbind_inv_Done in E as (? & ? & ? & [= ?])].
  apply pbind_inv_Done in E as (r & n1 & Hr & E).
  destruct r as [[| | | |im'|]|]; try by apply pbind_inv_Done in E as (? & ? & ? & [= ?]).
  injection E as -> <-. unfold readStreamMessage in Hr.
  apply pbind_inv_Done in Hr as ([b|e] & n2 & Hn & Hd); [|done]. injection Hd as Hd <-.
  exists b, im. by split_and!; [eapply net_observed | |].
Qed.

Lemma threadStep_moves t n : moves n (threadStep t n).2.
Proof.
  destruct t as [st|st im|st im|im|st im s|st s|st s k|st s [|k]]; cbn [threadStep];
    [| by apply moves_bind_quiet; [apply moves_register | keeps_auto] |
     | by apply moves_bind_quiet; [apply moves_deregister | keeps_auto]
     | by apply moves_bind_quiet; [apply moves_attach | keeps_auto] | | | |];
    apply quiet_moves;
    match goal with |- quiet ?n (?m ?n).2 => assert (K : keeps quiet m) by keeps_auto; apply K end.
Qed.

Lemma threadStep_ok t n t' n' : threadStep t n = (Done (Some t'), n') → threadOk n' t'.
Proof.
  intros E. destruct t as [st|st im|st im|im|st im s|st s|st s k|st s [|k]]; cbn [threadStep] in E;
    [..|done|]; apply pbind_inv_Done in E as (a & n1 & Ha & E); injection E as E <-.
  - destruct a as [im|]; [|done]. injection E as <-. by eapply readInitiation_received.
  - destruct a; [by injection E as <- | done].
  - subst t'. by destruct a.
  - done.
  - by subst t'.
  - subst t'. by destruct a.
  - subst t'. by destruct a.
  - by subst t'.
Qed.

Lemma threadOk_mono n n' t : grows n n' → threadOk n t → threadOk n' t.
Proof. destruct t; cbn; auto. apply receivedOn_mono. Qed.

(** The host after a step. *)
Lemma run_moves l m : moves (sys _ m) (sys _ (run l m)).
Proof.
  unfold run. destruct (crashed _ m); [by apply quiet_moves|].
  destruct l as [i|st|who msg s|msg id|id|id].
  - unfold runThread. destruct (threads _ m !! i) as [t|] eqn:Ht; [|by apply quiet_moves].
    pose proof (threadStep_moves t (sys _ m)) as Hm.
    by destruct (threadStep t (sys _ m)) as [[[t'|]|?| |] n'].
  - by apply quiet_moves.
  - pose proof (moves_Initiate who msg s (sys _ m)) as Hm.
    by destruct (Initiate who msg s (sys _ m)) as [[[st|e]|?| |] n'].
  - apply quiet_moves, quiet_send.
  - apply moves_CloseProtocolStream.
  - apply moves_DeleteOngoingSwap.
Qed.

(** The threads after a step are those before it and one more, which is in order. *)
Lemma run_threads l m i t : threads _ (run l m) !! i = Some t →
  threads _ m !! i = Some t ∨ threadOk (sys _ (run l m)) t.
Proof.
  unfold run. destruct (crashed _ m); [by left|].
  assert (Hs : ∀ t0 n0, threadOk n0 t0 → threads _ (spawn t0 n0 m) !! i = Some t →
    threads _ m !! i = Some t ∨ threadOk n0 t).
  { intros t0 n0 Hok. cbn. destruct (decide (nextThread _ m = i)) as [<-|Hne].
    - rewrite lookup_insert_eq. intros [= <-]. by right.
    - rewrite lookup_insert_ne by done. by left. }
  destruct l as [j|st|who msg s|msg id|id|id]; [| by apply Hs | |by left..].
  - unfold runThread. destruct (threads _ m !! j) as [t0|] eqn:Hj; [|by left].
    destruct (threadStep t0 (sys _ m)) as [[[t'|]|?| |] n'] eqn:E; cbn;
      try (intros Hd; left; by apply lookup_delete_Some in Hd as [_ Hd]).
    destruct (decide (j = i)) as [<-|Hne]; [|rewrite lookup_insert_ne by done; by left].
    rewrite lookup_insert_eq. intros [= <-]. right. by eapply threadStep_ok.
  - destruct (Initiate who msg s (sys _ m)) as [[[st|e]|?| |] n']; [by apply Hs | by left..].
Qed.

Lemma run_netInv l m : netInv m → netInv (run l m).
Proof.
  intros I i t Ht. destruct (run_moves l m) as [G _].
  apply run_threads in Ht as [Ht|]; [|done]. eapply threadOk_mono; [done | by eapply I].
Qed.

Lemma reachable_netInv m : reachable m → netInv m.
Proof.
  induction 1 as [m (Hs & Ht & _)|l m _ IH]; [|by apply run_netInv].
  intros i t. by rewrite Ht, lookup_empty.
Qed.

(** ** The steps that register a stream *)

(** The step is a handler that registers the stream [st] under [id], which its peer named
    in the first message it sent on [st]; or the initiation of a swap whose state has the
    ID [id], which opened [st] to the peer in question and wrote the message to it. *)
Definition registers (id : Hash) (st : Stream) (l : label) (m : machine S) : Prop :=
  (∃ i im, l = LThread i ∧ threads _ m !! i = Some (Registering st im) ∧ skOfferID im = id ∧
     receivedOn (sys _ m) id st) ∨
  (∃ who msg s os, l = LInitiate who msg s ∧ OfferIDOf s = id ∧
     nsTrace _ (sys _ (run l m)) = os ++ nsTrace _ (sys _ m) ∧
     NetObs (NewStream who swapProtocolID) (Ok st) ∈ os ∧ NetObs (WriteStreamMessage st msg who) None ∈ os).

(** Nothing is registered. *)
Definition noNew n n' : Prop := ∀ id, swapsOf n !! id = None → swapsOf n' !! id = None.

#[global] Instance noNew_preorder : PreOrder noNew.
Proof. split; unfold noNew; [intros n; done | intros a b c; auto]. Qed.

Lemma noNew_quiet {A} (p : prog (netSys S) A) : keeps quiet p → keeps noNew p.
Proof. apply keeps_weaken. intros n n' [_ E] id. by rewrite E. Qed.

Lemma noNew_delete id : keeps noNew (modSwaps (delete id) : prog (netSys S) unit).
Proof. intros n j Hj. unfold swapsOf in *. cbn. apply lookup_delete_None. by right. Qed.

Lemma noNew_update n id e e' : swapsOf n !! id = Some e → noNew n (modSwaps <[id := e']> n).2.
Proof.
  intros He j Hj. unfold swapsOf in *. cbn. rewrite lookup_insert_ne; [done|]. intros ->. congruence.
Qed.

Lemma noNew_attach im s n : noNew n (attachState im s n).2.
Proof.
  unfold attachState, pbind, getHost, gets. fold (swapsOf n).
  destruct (swapsOf n !! skOfferID im) as [e|] eqn:He; [by eapply noNew_update | done].
Qed.

Lemma noNew_Close id n : noNew n (CloseProtocolStream id n).2.
Proof.
  unfold CloseProtocolStream. unfold pbind at 1, getHost, gets. fold (swapsOf n).
  destruct (swapsOf n !! id) as [e|] eqn:He; [|done]. destruct (streamClosed e); [done|].
  unfold pbind. eapply (transitivity (R := noNew)); [by eapply noNew_update|].
  apply (noNew_quiet (net (CloseStream (stream e)))), quiet_net.
Qed.

Lemma noNew_Delete id n : noNew n (DeleteOngoingSwap id n).2.
Proof.
  unfold DeleteOngoingSwap, pbind, getHost, gets. destruct (swaps _ !! id); [apply noNew_delete | done].
Qed.

Hint Resolve noNew_quiet noNew_delete : keeps.

Lemma noNew_thread t n : (∀ st im, t ≠ Registering st im) → noNew n (threadStep t n).2.
Proof.
  intros Ht. destruct t as [st|st im|st im|im|st im s|st s|st s k|st s [|k]]; cbn [threadStep];
    [| by destruct (Ht st im) | | | | | | |].
  all: try match goal with |- noNew ?n (?p ?n).2 =>
    assert (K : keeps noNew p) by (unfold deregister; keeps_auto; by apply noNew_quiet; keeps_auto); apply K end.
  pose proof (noNew_attach im s n) as Ha. unfold pbind. by destruct (attachState im s n) as [[[]|?| |] n1].
Qed.

(** The one entry that an insertion adds. *)
Lemma insert_new n id j e0 e : swapsOf n !! id = None →
  swapsOf (modSwaps <[j := e0]> n).2 !! id = Some e → j = id ∧ e = e0.
Proof.
  unfold swapsOf. cbn. intros Hn He. destruct (decide (j = id)) as [->|Hne].
  - rewrite lookup_insert_eq in He. by injection He.
  - rewrite lookup_insert_ne in He by done. congruence.
Qed.

Lemma registerStream_new st im n id e :
  swapsOf n !! id = None → swapsOf (registerStream st im n).2 !! id = Some e →
  skOfferID im = id ∧ stream e = st.
Proof.
  intros Hn. unfold registerStream. unfold pbind at 1, getHost, gets. fold (swapsOf n).
  case_bool_decide; [unfold pbind; cbn; unfold swapsOf in *; cbn; congruence|]. unfold pbind. intros He.
  apply insert_new in He as [<- ->]; done.
Qed.

(** An entry that is there after a quiet program and what follows it was added by what
    follows. *)
Lemma quiet_bind_new {A B} (m : prog (netSys S) A) (k : A → prog (netSys S) B) n o n' id e :
  keeps quiet m → pbind m k n = (o, n') → swapsOf n !! id = None → swapsOf n' !! id = Some e →
  ∃ a n1, m n = (Done a, n1) ∧ grows n n1 ∧ swapsOf n1 !! id = None ∧ k a n1 = (o, n').
Proof.
  intros Km E Hn He. destruct (Km n) as [G Es]. unfold pbind in E.
  destruct (m n) as [[a|?| |] n1]; cbn [snd] in *; [|injection E as <- <-; congruence..].
  exists a, n1. split_and!; [done | done | congruence | done].
Qed.

(** An initiation that registers has opened the stream and written to it. *)
Lemma Initiate_new who msg s n o n' id e :
  Initiate who msg s n = (o, n') → swapsOf n !! id = None → swapsOf n' !! id = Some e →
  OfferIDOf s = id ∧ ∃ os, nsTrace _ n' = os ++ nsTrace _ n ∧
    NetObs (NewStream who swapProtocolID) (Ok (stream e)) ∈ os ∧
    NetObs (WriteStreamMessage (stream e) msg who) None ∈ os.
Proof.
  intros E Hn He. unfold Initiate in E.
  apply quiet_bind_new with (id := id) (e := e) in E as (e0 & n0 & [= <- <-] & _ & _ & E); [|keeps_auto|done..].
  fold (swapsOf n) in E. case_bool_decide; [injection E as <- <-; congruence|].
  apply quiet_bind_new with (id := id) (e := e) in E as (c & n1 & _ & [os1 G1] & Hn1 & E); [|keeps_auto|done..].
  apply quiet_bind_new with (id := id) (e := e) in E as (err & n2 & _ & [os2 G2] & Hn2 & E);
    [|destruct c; keeps_auto|done..].
  destruct err; [injection E as <- <-; congruence|]. unfold tryBind in E.
  apply quiet_bind_new with (id := id) (e := e) in E as (r & n3 & Hst & _ & Hn3 & E); [|keeps_auto|done..].
  destruct r as [st|err]; [|injection E as <- <-; congruence].
  unfold mapErr in Hst. apply pbind_inv_Done in Hst as (r0 & n3' & Hst & Hr).
  destruct r0 as [st'|]; [|done]. injection Hr as -> ->.
  unfold net in Hst. injection Hst as Hst <-.
  apply quiet_bind_new with (id := id) (e := e) in E as (err & n4 & Hw & _ & Hn4 & E); [|keeps_auto|done..].
  destruct err; [injection E as <- <-; congruence|]. unfold net in Hw. injection Hw as Hw Ew.
  unfold pbind in E. injection E as <- <-. apply insert_new in He as [<- ->]; [|done]. split; [done|].
  exists ([NetObs (WriteStreamMessage st msg who) None; NetObs (NewStream who swapProtocolID) (Ok st)] ++ os2 ++ os1).
  split; [rewrite <- Ew; cbn in Hw |- *; rewrite Hst, G2, G1; rewrite <- (assoc_L (++)); by rewrite <- Hw|].
  split; set_solver.
Qed.

(** An entry that a step adds was registered by that step. *)
Lemma run_registers l m id e : netInv m →
  swapsOf (sys _ m) !! id = None → swapsOf (sys _ (run l m)) !! id = Some e → registers id (stream e) l m.
Proof.
  intros I Hn He. unfold registers. pose proof (eq_refl (run l m)) as Er.
  unfold run in He, Er at 2. destruct (crashed _ m); [congruence|].
  destruct l as [i|st|who msg s|msg j|j|j].
  - left. unfold runThread in He. destruct (threads _ m !! i) as [t|] eqn:Ht; [|congruence].
    assert (Hs : swapsOf (threadStep t (sys _ m)).2 !! id = Some e)
      by (by destruct (threadStep t (sys _ m)) as [[[t'|]|?| |] n']). clear He.
    destruct t as [st|st im|st im|im|st im s|st s|st s k|st s k];
      try (exfalso; rewrite (noNew_thread _ _) in Hs by done; congruence).
    cbn [threadStep] in Hs. exists i, im.
    assert (Hr : swapsOf (registerStream st im (sys _ m)).2 !! id = Some e)
      by (revert Hs; unfold pbind; by destruct (registerStream st im (sys _ m)) as [[b|?| |] n']).
    destruct (registerStream_new _ _ _ _ _ Hn Hr) as [<- <-]. split_and!; try done. exact (I _ _ Ht).
  - cbn in He. congruence.
  - right. destruct (Initiate who msg s (sys _ m)) as [o n'] eqn:Ei.
    assert (Es : sys _ (run (LInitiate who msg s) m) = n') by (rewrite Er; by destruct o as [[st|err]|?| |]).
    rewrite <- Er, Es in He.
    destruct (Initiate_new _ _ _ _ _ _ _ _ Ei Hn He) as (Hid & os & Et & Ho & Hw).
    exists who, msg, s, os. by rewrite Es.
  - unfold withSys in He. cbn [sys] in He. rewrite (noNew_quiet _ (quiet_send msg j)) in He by done. congruence.
  - unfold withSys in He. cbn [sys] in He. rewrite noNew_Close in He by done. congruence.
  - unfold withSys in He. cbn [sys] in He. rewrite noNew_Delete in He by done. congruence.
Qed.

End machine.
End NetMachine.
