(* ===== verification/NetProofs.v ===== *)
(** * Theorems on the network host *)

From stdpp Require Import base gmap list strings relations.
From Stdlib Require Import ZArith Strings.Byte.
From S2P Require Import Prelude Coins Types Swap Offers Bytes Crypto Contracts External Db Relayer Message Net NetMachine.

Open Scope Z_scope.
Open Scope go_scope.

Module NetProofs.
Import Net NetMachine.

Section proofs.
Context {S : Type} `{NetWorld} `{!OfferJson} `{!MsgJson}.
Context `{!MakerHandler S} `{!RelayHandler S} `{!SwapStateNet S}.

Implicit Types (n : netSys S) (m : machine S).

(** The entry is there before and after, if it was before. *)
Definition keepsEntry (id : Hash) n n' : Prop := is_Some (swapsOf n !! id) → is_Some (swapsOf n' !! id).

#[global] Instance keepsEntry_preorder id : PreOrder (keepsEntry id).
Proof. split; unfold keepsEntry; [intros n; done | intros a b c; auto]. Qed.

Lemma keepsEntry_quiet {A} id (m : prog (netSys S) A) : keeps quiet m → keeps (keepsEntry id) m.
Proof. apply keeps_weaken. intros n n' [_ E]. unfold keepsEntry. by rewrite E. Qed.

Lemma keepsEntry_insert id j e : keeps (keepsEntry id) (modSwaps <[j := e]> : prog (netSys S) unit).
Proof. intros n Hs. apply lookup_insert_is_Some'. by right. Qed.

Hint Resolve quiet_net quiet_handler quiet_getHost quiet_read quiet_readInitiation quiet_callMaker
  quiet_receiveFirst quiet_loopOnce quiet_close quiet_send : keeps.
Hint Resolve keepsEntry_quiet keepsEntry_insert : keeps.

Lemma keepsEntry_delete id n j : id ≠ j → keepsEntry id n (modSwaps (delete j) n).2.
Proof. intros Hne Hs. unfold swapsOf. cbn. by rewrite lookup_delete_ne. Qed.

Lemma keepsEntry_thread id t n :
  (∀ im, t = Failed im → skOfferID im ≠ id) → keepsEntry id n (threadStep t n).2.
Proof.
  intros Hf. destruct t as [st|st im|st im|im|st im s|st s|st s k|st s [|k]]; cbn [threadStep];
    try match goal with |- keepsEntry _ ?n (?m ?n).2 =>
      assert (K : keeps (keepsEntry id) m) by
        (unfold registerStream, attachState; keeps_auto; by apply keepsEntry_quiet); apply K end.
  apply (related_bind (keepsEntry id)); [|done]. apply keepsEntry_delete. intros ->. by eapply Hf.
Qed.

Lemma keepsEntry_Close id j : keeps (keepsEntry id) (CloseProtocolStream j : prog (netSys S) unit).
Proof. unfold CloseProtocolStream. keeps_auto; by apply keepsEntry_quiet. Qed.

Lemma keepsEntry_Initiate id who msg s : keeps (keepsEntry id) (Initiate who msg s : prog (netSys S) _).
Proof. unfold Initiate. keeps_auto; try apply keepsEntry_quiet; keeps_auto. Qed.

(** The steps that may remove the entry of an ID: its swap's, and a handler whose
    initiation failed. *)
Definition removes (id : Hash) (l : label) m : Prop :=
  l = LDelete id ∨ ∃ i im, l = LThread i ∧ threads _ m !! i = Some (Failed im) ∧ skOfferID im = id.

Lemma run_keepsEntry id l m : ¬ removes id l m → keepsEntry id (sys _ m) (sys _ (run l m)).
Proof.
  intros Hr. unfold run. destruct (crashed _ m); [done|].
  destruct l as [i|st|who msg s|msg j|j|j].
  - unfold runThread. destruct (threads _ m !! i) as [t|] eqn:Ht; [|done].
    assert (K : keepsEntry id (sys _ m) (threadStep t (sys _ m)).2).
    { apply keepsEntry_thread. intros im -> Hid. apply Hr. right. by exists i, im. }
    by destruct (threadStep t (sys _ m)) as [[[t'|]|?| |] n'].
  - done.
  - pose proof (keepsEntry_Initiate id who msg s (sys _ m)) as K.
    by destruct (Initiate who msg s (sys _ m)) as [[[st|e]|?| |] n'].
  - apply (keepsEntry_quiet id _ (quiet_send msg j)).
  - apply keepsEntry_Close.
  - unfold DeleteOngoingSwap, pbind, getHost, gets. cbn. destruct (swaps _ !! j); [|done].
    apply keepsEntry_delete. intros ->. apply Hr. by left.
Qed.

(** No step of the schedule removes the entry of the ID. *)
Fixpoint noRemoval (id : Hash) (ls : list label) m : Prop :=
  match ls with [] => True | l :: ls => ¬ removes id l m ∧ noRemoval id ls (run l m) end.

Lemma runs_keepStream id ls m e : swapsOf (sys _ m) !! id = Some e → noRemoval id ls m →
  ∃ e', swapsOf (sys _ (runs ls m)) !! id = Some e' ∧ stream e' = stream e.
Proof.
  revert m e. induction ls as [|l ls IH]; intros m e He; [by exists e|]. intros [Hr Hrs]. cbn [runs].
  destruct (run_keepsEntry id l m Hr) as [e1 He1]; [by eexists|].
  destruct (run_moves l m) as [_ Hm]. rewrite <- (Hm _ _ _ He He1). by apply IH.
Qed.

(** C24: safety.  The stream of a swap is not taken over: whatever the handlers and the
    swaps do, in any interleaving and for any number of steps of which none is the deletion
    of the swap or the failure of an initiation with its ID, the entry of the ID keeps its
    stream; a peer that then asks for the same ID has its stream closed, and an initiation
    with the same ID is refused before anybody is dialled. *)
Theorem swap_stream_not_replaced (m : machine S) (ls : list label) (id : Hash) (e : swap) :
  swapsOf (sys _ m) !! id = Some e → noRemoval id ls m →
  let n := sys _ (runs ls m) in
  (∃ e', swapsOf n !! id = Some e' ∧ stream e' = stream e) ∧
  (∀ st im, skOfferID im = id →
     ∃ n', registerStream st im n = (Done false, n') ∧ swapsOf n' = swapsOf n ∧
       nsTrace _ n' = NetObs (CloseStream st) tt :: nsTrace _ n) ∧
  (∀ who msg s, OfferIDOf s = id → Initiate who msg s n = (Done (Err errSwapAlreadyInProgress), n)).
Proof.
  intros He Hr. destruct (runs_keepStream id ls m e He Hr) as (e' & He' & Hst). cbn zeta.
  split_and!; [by exists e' | intros st im <- | intros who msg s <-].
  - unfold registerStream, pbind, getHost, gets. unfold swapsOf in He'. rewrite He'.
    rewrite bool_decide_eq_true_2 by done. eexists. split_and!; [done..|]. cbn. by destruct (netAnswer _ _ _).
  - unfold Initiate, pbind, getHost, gets. unfold swapsOf in He'. rewrite He'.
    by rewrite bool_decide_eq_true_2.
Qed.

(** C25: safety.  What a swap sends goes to its counterparty.  Before an entry for the ID
    is there [SendSwapMessage] reports that there is no such swap and writes nothing.  The
    step that adds the entry is a handler whose peer named the ID in the first message it
    sent on the stream, or the initiation of the swap with the ID, which opened the stream
    to the peer and wrote to it.  From then on, through any steps of which none removes the
    entry, [SendSwapMessage] writes the message once, to that stream and to the peer at its
    other end. *)
Theorem swap_messages_reach_counterparty (m : machine S) (l : label) (ls : list label)
    (msg : netMessage) (id : Hash) (e : swap) :
  reachable m → swapsOf (sys _ m) !! id = None → swapsOf (sys _ (run l m)) !! id = Some e →
  noRemoval id ls (run l m) →
  SendSwapMessage msg id (sys _ m) = (Done (Some errNoOngoingSwap), sys _ m) ∧
  registers id (stream e) l m ∧
  let n := sys _ (runs ls (run l m)) in
  ∃ r n', SendSwapMessage msg id n = (Done r, n') ∧
    nsTrace _ n' = NetObs (WriteStreamMessage (stream e) msg (remotePeer (stream e))) r :: nsTrace _ n.
Proof.
  intros Hm Hn He Hr. destruct (runs_keepStream id ls (run l m) e He Hr) as (e' & He' & Hst).
  split_and!; [| by apply run_registers; [apply reachable_netInv | ..] |].
  - unfold SendSwapMessage, pbind, getHost, gets. unfold swapsOf in Hn. by rewrite Hn.
  - cbn zeta. unfold SendSwapMessage, pbind, getHost, gets. unfold swapsOf in He'. rewrite He', <- Hst.
    by do 2 eexists.
Qed.

(** ** Panics *)

Definition panicFree {T A} (p : prog T A) : Prop := ∀ t msg, (p t).1 ≠ Panicked msg.

Lemma panicFree_bind {T A B} (p : prog T A) (k : A → prog T B) :
  panicFree p → (∀ a, panicFree (k a)) → panicFree (pbind p k).
Proof.
  intros Hp Hk t msg. unfold pbind. specialize (Hp t). destruct (p t) as [[a|?| |] t1]; cbn in *; try done.
  - apply Hk.
  - intros [= ->]. by eapply Hp.
Qed.

Lemma panicFree_handler {A} (p : prog S A) : panicFree p → panicFree (handler p).
Proof. intros Hp n msg. unfold handler, zoom. specialize (Hp (nsInner _ n) msg). by destruct (p _). Qed.

Class HandlersPanicFree : Prop := {
  initiate_panicFree who im : panicFree (HandleInitiateMessage who im);
  message_panicFree s msg : panicFree (HandleProtocolMessage s msg);
  closed_panicFree s : panicFree (NotifyStreamClosed s)
}.

Ltac panicFree_step :=
  match goal with
  | |- ∀ _, _ => intro
  | |- panicFree (pbind _ _) => apply panicFree_bind
  | |- panicFree (tryBind _ _) => apply panicFree_bind
  | |- panicFree (mapErr _ _) => apply panicFree_bind
  | |- panicFree (handler _) => apply panicFree_handler
  | |- panicFree (if ?b then _ else _) => destruct b
  | |- panicFree (match ?x with _ => _ end) => destruct x
  | |- panicFree (done _) => done
  | |- panicFree (net _) => done
  | |- panicFree (getHost _) => done
  | |- panicFree (modSwaps _) => done
  | |- panicFree _ => first [apply initiate_panicFree | apply message_panicFree | apply closed_panicFree]
  end.

Lemma threadStep_panicFree `{!HandlersPanicFree} t n msg : (threadStep t n).1 = Panicked msg →
  ∃ st im s, t = Attaching st im s ∧ swapsOf n !! skOfferID im = None.
Proof.
  destruct t as [st|st im|st im|im|st im s|st s|st s k|st s [|k]]; cbn [threadStep]; intros E;
    try (exfalso; revert E; match goal with |- (?p ?n).1 = _ → _ => enough (panicFree p) as Hp by apply Hp end;
      unfold readInitiation, registerStream, callMaker, deregister, receiveFirst, selectMessage, loopOnce,
        readStreamMessage, handleProtocolStreamClose; by repeat panicFree_step).
  exists st, im, s. split; [done|]. revert E. unfold attachState, pbind, getHost, gets.
  fold (swapsOf n). by destruct (swapsOf n !! skOfferID im).
Qed.

(** Error.  With handlers that do not panic, the daemon dies in the host in one way
    only: an initiation whose entry was deleted while the maker answered it dereferences
    nil. *)
Theorem host_panics_only_without_entry `{!HandlersPanicFree} (m : machine S) (l : label) :
  crashed _ m = false → crashed _ (run l m) = true →
  ∃ i st im s, l = LThread i ∧ threads _ m !! i = Some (Attaching st im s) ∧
    swapsOf (sys _ m) !! skOfferID im = None.
Proof.
  intros Hc. unfold run. rewrite Hc. destruct l as [i|st|who msg s|msg j|j|j]; [| cbn; congruence | | cbn; congruence ..].
  - unfold runThread. destruct (threads _ m !! i) as [t|] eqn:Ht; [|congruence].
    destruct (threadStep t (sys _ m)) as [[[t'|]|msg| |] n'] eqn:E; cbn; try done. intros _.
    destruct (threadStep_panicFree t (sys _ m) msg) as (st & im & s & -> & Hn); [by rewrite E|].
    by exists i, st, im, s.
  - destruct (Initiate who msg s (sys _ m)) as [[[st|e]|?| |] n']; cbn; congruence.
Qed.

(** ** The handlers are their sections *)

(** A thread that runs to its end without being interrupted. *)
Inductive solo : thread → netSys S → netSys S → Prop :=
| solo_end t n n' : threadStep t n = (Done None, n') → solo t n n'
| solo_next t t' n n1 n' : threadStep t n = (Done (Some t'), n1) → solo t' n1 n' → solo t n n'.

(** So many deferred closes. *)
Fixpoint closes (k : nat) (st : Stream) (s : nat) : prog (netSys S) unit :=
  match k with O => done tt | Datatypes.S k => handleProtocolStreamClose st s ;;; closes k st s end.

Lemma solo_inv t n n' : solo t n n' →
  threadStep t n = (Done None, n') ∨ ∃ t' n1, threadStep t n = (Done (Some t'), n1) ∧ solo t' n1 n'.
Proof. destruct 1; eauto. Qed.

Lemma solo_closing st s k n n' : solo (Closing st s k) n n' ↔ closes k st s n = (Done tt, n').
Proof.
  revert n. induction k as [|k IH]; intros n.
  - split; [intros Hs; apply solo_inv in Hs as [[= ->]|(? & ? & [=] & _)]; done | intros [= ->]; by apply solo_end].
  - cbn [closes]. split.
    + intros Hs. apply solo_inv in Hs as [E|(t' & n1 & E & Hs)]; cbn [threadStep] in E;
        apply pbind_inv_Done in E as ([] & n2 & Hc & E); [done|]. injection E as <- <-.
      rewrite (pbind_Done _ _ _ _ _ Hc). by apply IH.
    + intros E. apply pbind_inv_Done in E as ([] & n1 & Hc & E). eapply solo_next; [|by apply IH].
      cbn [threadStep]. by rewrite (pbind_Done _ _ _ _ _ Hc).
Qed.

(** One turn of the loop. *)
Lemma streamLoop_S fuel st s n :
  streamLoop (Datatypes.S fuel) st s n = (ok <- loopOnce st s ;; if ok : bool then streamLoop fuel st s else done tt) n.
Proof.
  cbn [streamLoop]. unfold loopOnce, pbind. destruct (readStreamMessage st maxMessageSize n) as [[[msg|e]|?| |] n1]; [|done..].
  by destruct (handler (HandleProtocolMessage s msg) n1) as [[[e|]|?| |] n2].
Qed.

Lemma solo_looping st s k n n' : solo (Looping st s k) n n' ↔
  ∃ fuel n1, streamLoop fuel st s n = (Done tt, n1) ∧ closes k st s n1 = (Done tt, n').
Proof.
  split.
  - intros Hs. remember (Looping st s k) as t eqn:Et. induction Hs as [t n n' E|t t' n n1 n' E Hs IH]; subst t;
      cbn [threadStep] in E; apply pbind_inv_Done in E as (ok & n2 & Ho & E); injection E as E; [done|].
    subst n2 t'. destruct ok.
    + destruct IH as (fuel & n2 & Hl & Hc); [done|]. exists (Datatypes.S fuel), n2. split; [|done].
      by rewrite streamLoop_S, (pbind_Done _ _ _ _ _ Ho).
    + apply solo_closing in Hs. exists 1%nat, n1. split; [|done]. by rewrite streamLoop_S, (pbind_Done _ _ _ _ _ Ho).
  - intros (fuel & n1 & Hl & Hc). revert n Hl. induction fuel as [|fuel IH]; intros n Hl; [done|].
    rewrite streamLoop_S in Hl. apply pbind_inv_Done in Hl as (ok & n2 & Ho & Hl).
    eapply solo_next; [cbn [threadStep]; by rewrite (pbind_Done _ _ _ _ _ Ho)|].
    destruct ok; [by apply IH|]. injection Hl as ->. by apply solo_closing.
Qed.

Lemma closes_1 st s n n' : closes 1 st s n = (Done tt, n') ↔ handleProtocolStreamClose st s n = (Done tt, n').
Proof.
  cbn [closes]. split.
  - intros E. apply pbind_inv_Done in E as ([] & n1 & E & Hd). injection Hd as <-. done.
  - intros E. by rewrite (pbind_Done _ _ _ _ _ E).
Qed.

Lemma solo_inner st s n n' : solo (Looping st s 1) n n' ↔
  ∃ fuel, handleProtocolStreamInner fuel st s n = (Done tt, n').
Proof.
  rewrite solo_looping. unfold handleProtocolStreamInner. setoid_rewrite deferring_Done_iff.
  by setoid_rewrite closes_1.
Qed.

(** A section that goes on, and one that ends the thread. *)
Lemma solo_go t t' n n1 n' : threadStep t n = (Done (Some t'), n1) → solo t n n' ↔ solo t' n1 n'.
Proof.
  intros E. split; [|by apply solo_next].
  intros Hs. apply solo_inv in Hs as [E'|(t2 & n2 & E' & Hs)]; rewrite E in E'; [done | by injection E' as -> ->].
Qed.

Lemma solo_stop t n n1 n' : threadStep t n = (Done None, n1) → solo t n n' ↔ n1 = n'.
Proof.
  intros E. split; [|intros <-; by apply solo_end].
  intros Hs. apply solo_inv in Hs as [E'|(t2 & n2 & E' & Hs)]; rewrite E in E'; [by injection E' | done].
Qed.

Lemma solo_stuck t n n' : (∀ o, (threadStep t n).1 ≠ Done o) → ¬ solo t n n'.
Proof. intros Ho Hs. apply solo_inv in Hs as [E|(? & ? & E & _)]; rewrite E in Ho; by eapply Ho. Qed.

(** The next section of a handler [p] and of its thread run together. *)
Lemma solo_section {A B} t (p : prog (netSys S) A) (next : A → option thread) (k : B → A → prog (netSys S) unit) n n' :
  inhabited B →
  (∀ n, threadStep t n = (a <- p ;; done (next a)) n) →
  (∀ a n1, p n = (Done a, n1) → match next a with
    | Some t' => solo t' n1 n' ↔ ∃ b, k b a n1 = (Done tt, n')
    | None => ∀ b, k b a n1 = (Done tt, n1)
    end) →
  solo t n n' ↔ ∃ b, pbind p (k b) n = (Done tt, n').
Proof.
  intros [b0] Ht Hk. specialize (Ht n). destruct (p n) as [[a|msg| |] n1] eqn:E.
  - assert (Hp : threadStep t n = (Done (next a), n1)) by (rewrite Ht; by rewrite (pbind_Done _ _ _ _ _ E)).
    specialize (Hk a n1 eq_refl). setoid_rewrite (fun b => pbind_Done p (k b) n a n1 E).
    destruct (next a) as [t'|]; [rewrite (solo_go _ _ _ _ _ Hp); exact Hk|]. rewrite (solo_stop _ _ _ _ Hp).
    split; [intros <-; exists b0; apply Hk | intros [b Hb]; rewrite Hk in Hb; by injection Hb].
  - split; [intros Hs; exfalso; revert Hs; apply solo_stuck; intros o; by rewrite Ht; unfold pbind; rewrite E
           | intros [b Hb]; unfold pbind in Hb; by rewrite E in Hb].
  - split; [intros Hs; exfalso; revert Hs; apply solo_stuck; intros o; by rewrite Ht; unfold pbind; rewrite E
           | intros [b Hb]; unfold pbind in Hb; by rewrite E in Hb].
  - split; [intros Hs; exfalso; revert Hs; apply solo_stuck; intros o; by rewrite Ht; unfold pbind; rewrite E
           | intros [b Hb]; unfold pbind in Hb; by rewrite E in Hb].
Qed.

Lemma solo_incoming st n n' : solo (Incoming st) n n' ↔ ∃ fuel, handleProtocolStream fuel st n = (Done tt, n').
Proof.
  unfold handleProtocolStream.
  apply (solo_section _ (readInitiation st) (fun im => Registering st <$> im)); [exact (inhabits O) | done |].
  intros [im|] n1 _; cbn [fmap option_fmap option_map]; [|done].
  apply (solo_section _ (registerStream st im) (fun ok : bool => if ok then Some (Asking st im) else None));
    [exact (inhabits O) | done |].
  intros [] n2 _; cbn [negb]; [|done].
  apply (solo_section _ (callMaker st im)
    (fun r => Some (match r with Some s => Attaching st im s | None => Failed im end))); [exact (inhabits O) | done |].
  intros [s|] n3 _; cbn beta iota.
  - apply (solo_section _ (attachState im s) (fun _ => Some (Looping st s 1))); [exact (inhabits O) | done |].
    intros _ n4 _. apply solo_inner.
  - rewrite (solo_stop _ _ (deregister im n3).2) by done. cbn. split; [intros <-; by exists O | by intros [_ [= ->]]].
Qed.

Lemma solo_receiving st s n n' :
  solo (Receiving st s) n n' ↔ ∃ fuel, receiveInitiateResponse fuel st s n = (Done tt, n').
Proof.
  unfold receiveInitiateResponse. setoid_rewrite deferring_Done_iff. split.
  - intros Hs. apply solo_inv in Hs as [E|(t' & n1 & E & Hs)]; cbn [threadStep] in E;
      apply pbind_inv_Done in E as (ok & n2 & Ho & E); [done|]. injection E as <- <-. destruct ok.
    + apply solo_looping in Hs as (fuel & n3 & Hl & Hc). cbn [closes] in Hc.
      apply pbind_inv_Done in Hc as ([] & n4 & Hc & Hd). apply closes_1 in Hd.
      exists fuel, n4. split; [|done]. rewrite (pbind_Done _ _ _ _ _ Ho).
      unfold handleProtocolStreamInner. apply deferring_Done_iff. by exists n3.
    + apply solo_closing, closes_1 in Hs. exists O, n2. by rewrite (pbind_Done _ _ _ _ _ Ho).
  - intros (fuel & n1 & E & Hc). apply pbind_inv_Done in E as (ok & n2 & Ho & E).
    eapply solo_next; [cbn [threadStep]; by rewrite (pbind_Done _ _ _ _ _ Ho)|]. destruct ok.
    + unfold handleProtocolStreamInner in E. apply deferring_Done_iff in E as (n3 & Hl & Hc').
      apply solo_looping. exists fuel, n3. split; [done|]. cbn [closes].
      rewrite (pbind_Done _ _ _ _ _ Hc'). by apply closes_1.
    + injection E as ->. by apply solo_closing, closes_1.
Qed.

(** Equivalence.  The interleaved machine runs the code's handlers: a thread that is
    not interrupted goes through exactly the states of [handleProtocolStream], or of
    [receiveInitiateResponse], and ends when it does. *)
Theorem sections_compose_to_handlers (st : Stream) (s : nat) (n n' : netSys S) :
  (solo (Incoming st) n n' ↔ ∃ fuel, handleProtocolStream fuel st n = (Done tt, n')) ∧
  (solo (Receiving st s) n n' ↔ ∃ fuel, receiveInitiateResponse fuel st s n = (Done tt, n')).
Proof. split; [apply solo_incoming | apply solo_receiving]. Qed.

(** ** The handlers end *)

(** The connection is lost at some time: from then on reading from the stream fails. *)
Definition lostAt (st : Stream) (k : nat) : Prop :=
  ∀ i, (k ≤ i)%nat → ∃ e, netAnswer _ i (ReadStreamMessage st maxMessageSize) = Err e.

(** A message was read from the stream last, and the swap state never returned from
    handling it. *)
Definition stillHandling (st : Stream) (s : nat) n : Prop :=
  ∃ b msg rest x, nsTrace _ n = NetObs (ReadStreamMessage st maxMessageSize) (Ok b) :: rest ∧
    DecodeMessage b = Ok msg ∧
    (HandleProtocolMessage s msg x = (Blocked, nsInner _ n) ∨ HandleProtocolMessage s msg x = (OutOfFuel, nsInner _ n)).

Definition returned {A} (o : outcome A) : bool :=
  match o with Done _ | Panicked _ => true | Blocked | OutOfFuel => false end.

Lemma read_run st max n : ∃ n', readStreamMessage st max n =
    (Done (match netAnswer _ (nsClock _ n) (ReadStreamMessage st max) with Ok b => DecodeMessage b | Err e => Err e end), n') ∧
  nsClock _ n' = Datatypes.S (nsClock _ n).
Proof.
  unfold readStreamMessage, tryBind, pbind, net. by destruct (netAnswer _ (nsClock _ n) (ReadStreamMessage st max)); eexists.
Qed.

(** A turn of the loop takes time, and it is the last one when reading fails. *)
Lemma loopOnce_run st s n o n' : loopOnce st s n = (o, n') →
  nsClock _ n' = Datatypes.S (nsClock _ n) ∧
  (returned o = false → stillHandling st s n') ∧
  (∀ e, netAnswer _ (nsClock _ n) (ReadStreamMessage st maxMessageSize) = Err e → o = Done false).
Proof.
  unfold loopOnce, readStreamMessage, tryBind, pbind, net.
  destruct (netAnswer _ (nsClock _ n) (ReadStreamMessage st maxMessageSize)) as [b|e] eqn:Hb;
    [|by intros [= <- <-]]. cbn -[handler].
  destruct (DecodeMessage b) as [msg|e] eqn:Hd; [|by intros [= <- <-]].
  unfold handler, zoom. cbn [nsInner]. destruct (HandleProtocolMessage s msg (nsInner _ n)) as [o' x'] eqn:Eh.
  destruct o' as [r|?| |]; intros [= <- <-]; (split; [done|]); (split; [|done]); try done; intros _;
    exists b, msg, (nsTrace _ n), (nsInner _ n); split_and!; try done; rewrite Eh; auto.
Qed.

Lemma streamLoop_ends st s k d n o n' : lostAt st k → (k ≤ nsClock _ n + d)%nat →
  streamLoop (Datatypes.S d) st s n = (o, n') → returned o = false → stillHandling st s n'.
Proof.
  intros Hl. revert n. induction d as [|d IH]; intros n Hd; rewrite streamLoop_S; unfold pbind;
    destruct (loopOnce st s n) as [ok n1] eqn:Ho; apply loopOnce_run in Ho as (Hc & Hs & Hf).
  - destruct (Hl (nsClock _ n)) as [e He]; [lia|]. rewrite (Hf e He). by intros [= <- <-].
  - destruct ok as [[]|?| |]; [apply IH; lia | intros [= <- <-]; auto..].
Qed.

Lemma streamLoop_quiet f st s : keeps quiet (streamLoop f st s).
Proof. induction f as [|f IH]; cbn [streamLoop]; keeps_auto. Qed.

(** C27: liveness.  A swap learns that its connection is gone.  Once reading from its stream
    fails, the loop over its messages takes at most as many turns as calls were made until
    then and one: either the swap state never returns from handling the message read last,
    or the loop ends, because it returns or because the swap state panics, and then the
    stream is closed and the last thing that happens is the notification of the swap
    state. *)
Theorem lost_stream_is_notified (st : Stream) (s k : nat) (n : netSys S) :
  lostAt st k →
  let n2 := (handleProtocolStreamInner (Datatypes.S k) st s n).2 in
  stillHandling st s n2 ∨
  ∃ o n1, streamLoop (Datatypes.S k) st s n = (o, n1) ∧ returned o = true ∧ grows n n1 ∧
    nsTrace _ n2 = NetObs (CloseStream st) tt :: nsTrace _ n1 ∧
    (NotifyStreamClosed s (nsInner _ n1)).2 = nsInner _ n2.
Proof.
  intros Hl. cbn zeta. unfold handleProtocolStreamInner, deferring.
  pose proof (streamLoop_quiet (Datatypes.S k) st s n) as [G _].
  destruct (streamLoop (Datatypes.S k) st s n) as [o n1] eqn:El.
  assert (Hs : returned o = false → stillHandling st s n1) by (apply (streamLoop_ends st s k k n o n1 Hl); [lia | done]).
  destruct (returned o) eqn:Ho; [right | left; specialize (Hs eq_refl); by destruct o].
  exists o, n1. split_and!; [done..| |]; destruct o; try done;
    unfold handleProtocolStreamClose, pbind, net, handler, zoom; cbn [nsInner];
    destruct (NotifyStreamClosed s (nsInner _ n1)) as [[[]|?| |] x']; cbn;
    try done; by destruct (netAnswer _ _ _).
Qed.

End proofs.
End NetProofs.
