(* ===== verification/Backend.v ===== *)
(** * The backend shared by maker and taker (package protocol/backend)

    The backend holds the relayer's address hashes, the per-swap deposit addresses and
    the swap timeout beside the daemon's [Sys]; its other getters forward to the clients
    and are calls of [Sys]. *)

From stdpp Require Import base gmap list strings.
From Stdlib Require Import ZArith Strings.Byte.
From S2P Require Import Prelude Coins Types Swap Offers Bytes Crypto Contracts External Relayer.

Open Scope Z_scope.
Open Scope go_scope.

Module Backend.

Definition errNilSwapContractOrAddress : error :=
  Sentinel "errNilSwapContractOrAddress" "must provide swap contract and address".

(** The fields that change. A deposit address may be nil. *)
Record backendFields : Type := mkFields {
  perSwapXMRDepositAddr : gmap Hash (option bytes);
  swapTimeout : Z;
  relayerHash : gmap Hash bytes
}.

Record backend `{TypesLib} `{CryptoLib} : Type := mkBackend {
  bkSys : Sys;
  bkFields : backendFields
}.

Section backend.
Context `{World} `{!AbiLib} `{!Apd} `{!InfoJson} `{SigLib}.
Context (expectedCode : bytes) (privateKey : option EthKey).

Definition onSys {A} (m : prog Sys A) : prog backend A :=
  zoom bkSys (fun s b => mkBackend _ _ s (bkFields b)) m.

Definition getB {A} (f : backendFields → A) : prog backend A := gets (fun b => f (bkFields b)).

Definition modB (f : backendFields → backendFields) : prog backend unit :=
  modify (fun b => mkBackend _ _ (bkSys b) (f (bkFields b))).

Definition setRelayerHash (m : gmap Hash bytes) (f : backendFields) : backendFields :=
  mkFields (perSwapXMRDepositAddr f) (swapTimeout f) m.

Definition setDepositAddrs (m : gmap Hash (option bytes)) (f : backendFields) : backendFields :=
  mkFields m (swapTimeout f) (relayerHash f).

Definition NewBackend : prog Sys (result backendFields) :=
  if bool_decide (SwapCreatorAddr = zeroAddress) then done (Err errNilSwapContractOrAddress)
  else
    _ <-? ext (NewSwapCreator SwapCreatorAddr) ;;
    timeout <- pure (SwapTimeoutFromEnv Env) ;;
    done (Ok (mkFields ∅ timeout ∅)).

Definition SetSwapTimeout (timeout : Z) : prog backend unit :=
  modB (fun f => mkFields (perSwapXMRDepositAddr f) timeout (relayerHash f)).

(** A nil offer ID is [None]. *)
Definition XMRDepositAddress (offerID : option Hash) : prog backend (option bytes) :=
  addr <- getB (fun f => offerID ≫= fun id => perSwapXMRDepositAddr f !! id) ;;
  match addr with
  | Some a => done a
  | None => onSys (ext XMRPrimaryAddress)
  end.

Definition SetXMRDepositAddress (addr : option bytes) (offerID : Hash) : prog backend unit :=
  modB (fun f => setDepositAddrs (<[offerID := addr]> (perSwapXMRDepositAddr f)) f).

Definition ClearXMRDepositAddress (offerID : Hash) : prog backend unit :=
  modB (fun f => setDepositAddrs (delete offerID (perSwapXMRDepositAddr f)) f).

(** The loop over the snapshots. *)
Fixpoint anyAsTaker (remotePeer : string) (swaps : list nat) : prog Sys (result unit) :=
  match swaps with
  | [] => done (Err (errorf "do not have an ongoing swap with peer as taker"))
  | l :: rest =>
      i <- readInfo l ;;
      if negb (bool_decide (iPeerID i = remotePeer)) then anyAsTaker remotePeer rest
      else if IsTaker i then done (Ok tt)
      else anyAsTaker remotePeer rest
  end.

Definition HasOngoingSwapAsTaker (remotePeer : string) : prog backend (result unit) :=
  onSys (swaps <-? GetOngoingSwapsSnapshot ;; anyAsTaker remotePeer swaps).

Definition clearRelayerAddressHash (hash : Hash) : prog backend unit :=
  modB (fun f => setRelayerHash (delete hash (relayerHash f)) f).

(** The swap of a request that names one is ongoing, and this peer's. *)
Definition checkTakerSwap (remotePeer : string) (offerID : Hash) : prog Sys (result unit) :=
  has <- HasOngoingSwap offerID ;;
  if negb has then done (Err (errorf "cannot relay taker-specific claim request; no ongoing swap"))
  else
    l <-? GetOngoingSwapSnapshot offerID ;;
    info <- readInfo l ;;
    if negb (IsTaker info)
    then done (Err (errorf "cannot relay taker-specific claim request; not the xmr-taker"))
    else if negb (bool_decide (remotePeer = iPeerID info))
    then done (Err (errorf "cannot relay taker-specific claim request from peer; unexpected peer"))
    else done (Ok tt).

Definition checkTakerSwapID (request : RelayClaimRequest) (offerID : Hash) : prog Sys (result unit) :=
  swapInfo <-? mapErr (Wrapf "swap info for taker claim request not found")
                 (ext (GetContractSwapInfo offerID)) ;;
  swap <- pure (deref (rmSwap (rqRelaySwap request))) ;;
  id <- pure (SwapID swap) ;;
  if negb (bool_decide (esSwapID swapInfo = id))
  then done (Err (errorf "counterparty claim request has invalid swap ID"))
  else done (Ok tt).

(** A missing entry of the map gives the zero salt. *)
Definition HandleRelayClaimRequest (remotePeer : string) (request : RelayClaimRequest)
  : prog backend (result Hash) :=
  deferring (clearRelayerAddressHash (rmRelayerHash (rqRelaySwap request)))
    (_ <-? onSys (match rqOfferID request with
                  | Some id => checkTakerSwap remotePeer id
                  | None => done (Ok tt)
                  end) ;;
     _ <-? onSys (match rqOfferID request with
                  | Some id => checkTakerSwapID request id
                  | None => done (Ok tt)
                  end) ;;
     salt <- getB (fun f => default (repeat x00 4) (relayerHash f !! rmRelayerHash (rqRelaySwap request))) ;;
     onSys (Relayer.ValidateAndSendTransaction expectedCode request SwapCreatorAddr salt)).

Definition GetRelayerAddressHash : prog backend (result Hash) :=
  address <- onSys (ext ETHAddress) ;;
  salt <-? onSys (ext (RandRead 4)) ;;
  let hash := ethKeccak256 (address ++ salt) in
  modB (fun f => setRelayerHash (<[hash := salt]> (relayerHash f)) f) ;;;
  done (Ok hash).

(** The request carries the relayer's hash; the caller's structure is changed too, and
    not read again. *)
Definition SubmitClaimToRelayer (relayerID : string) (offerID : option Hash)
    (relaySwap : SwapCreatorRelaySwap) (secret : bytes) : prog backend (result Hash) :=
  relayerAddrHash <-? onSys (ext (QueryRelayerAddress relayerID)) ;;
  let relaySwap := mkRelaySwap (rsSwap relaySwap) (rsFee relaySwap) relayerAddrHash (rsSwapCreator relaySwap) in
  key <- pure (deref privateKey) ;;
  req <-? pure (Relayer.CreateRelayClaimRequest key relaySwap secret) ;;
  let req := match offerID with
             | Some _ => mkRelayRequest offerID (rqRelaySwap req) (rqSecret req) (rqSignature req)
             | None => req
             end in
  onSys (ext (SubmitRelayRequest relayerID req)).

End backend.
End Backend.
