(* ===== verification/SampleWorld.v ===== *)
(** * A concrete world

    Concrete answers to every call the daemon makes, and the contract bindings
    they need, for the witnesses and the example runs. *)

From stdpp Require Import base gmap list strings.
From Stdlib Require Import ZArith Strings.Byte.
From S2P Require Import Prelude Coins RefApd Types TypesProofs Bytes Swap Offers Crypto CryptoProofs Contracts External.

Open Scope Z_scope.
Open Scope go_scope.

(** ** The contract's bindings: the New event in the static ABI encoding *)

Definition newTopic : Hash :=
  GetTopic "New(bytes32,bytes32,bytes32,uint256,uint256,address,uint256)".

Definition word (n : nat) (data : bytes) : bytes := take 32 (drop (32 * n) data).
Definition wordZ (n : nat) (data : bytes) : Z := bigSetBytes (word n data).

Definition parseNew (l : Log) : result SwapCreatorNew :=
  match lgTopics l with
  | [t] =>
      if bool_decide (t = newTopic) && bool_decide (length (lgData l) = 224%nat)
      then let d := lgData l in
           Ok (mkNew (word 0 d) (word 1 d) (word 2 d) (wordZ 3 d) (wordZ 4 d)
                 (drop 12 (word 5 d)) (wordZ 6 d))
      else Err (errorf "event signature mismatch")
  | _ => Err (errorf "event signature mismatch")
  end.

(** newSwap(claimCommitment, refundCommitment, claimer, timeout1, timeout2, asset, value, nonce) *)
Definition unpackNewSwap (d : bytes) : result (Address * Hash * Hash * Address * Z * Z) :=
  if bool_decide (length d = 256%nat)
  then Ok (drop 12 (word 2 d), word 0 d, word 1 d, drop 12 (word 5 d), wordZ 6 d, wordZ 7 d)
  else Err (errorf "abi: improperly formatted input").

(** The parameters of the New event. *)
Definition unpackEvent (name : string) (d : bytes) : result (list abiValue) :=
  if bool_decide (name = "New"%string) && bool_decide (length d = 224%nat)
  then Ok [AbiBytes32 (word 0 d); AbiBytes32 (word 1 d); AbiBytes32 (word 2 d); AbiUint256 (wordZ 3 d);
           AbiUint256 (wordZ 4 d); AbiAddress (drop 12 (word 5 d)); AbiUint256 (wordZ 6 d)]
  else Err (errorf "abi: cannot unpack").

#[export] Instance bindings : AbiLib := {|
  abiPack := fun vs => Ok (concat (map abiWord vs));
  abiUnpack := unpackEvent;
  abiEventID := fun name => if bool_decide (name = "New"%string) then newTopic else EmptyHash;
  abiParseNew := parseNew;
  abiUnpackNewSwap := unpackNewSwap
|}.

(** The log of a New event of a swap. *)
Definition newLogOf (addr : Address) (id : Hash) (sw : SwapCreatorSwap) : Log :=
  mkLog addr [newTopic]
    (concat (map abiWord [AbiBytes32 id; AbiBytes32 (swClaimCommitment sw); AbiBytes32 (swRefundCommitment sw);
       AbiUint256 (swTimeout1 sw); AbiUint256 (swTimeout2 sw); AbiAddress (swAsset sw); AbiUint256 (swValue sw)]))
    (repeat x09 32) 100 false.

(** ** The world *)

Definition code : bytes := [x60; x80; x60; x40].
Definition contractAt : Address := repeat xaa 20.
Definition takerAddr : Address := repeat xbb 20.
Definition makerAddr : Address := repeat xcc 20.
Definition lockTx : Hash := repeat x09 32.
Definition wallet : bytes := repeat x18 69.
Definition nowNs : Z := 1700000000 * Second.

(** Answers that let everything succeed, [receipt] being that of the taker's
    transaction. *)
Definition goodAnswer (receipt : Receipt) (A : Type) (c : call A) : A :=
  match c in call B return B with
  | Now => nowNs
  | SleepWithContext => None
  | SelectReady => true
  | GenerateSecret => Ok sampleSecret
  | GenerateNonce => 7
  | PutSwap _ => Ok tt
  | GetSwap _ => Err ErrKeyNotFound
  | GetAllSwaps => Ok []
  | PutOffer _ => Ok tt
  | DbDeleteOffer _ => Ok tt
  | GetAllOffers => Ok []
  | DbClearAllOffers => Ok tt
  | PutSwapRelayerInfo _ _ => Ok tt
  | GetSwapRelayerInfo _ => Err ErrKeyNotFound
  | PutContractSwapInfo _ _ => Ok tt
  | GetContractSwapInfo _ => Err ErrKeyNotFound
  | PutSwapPrivateKey _ _ => Ok tt
  | GetSwapPrivateKey _ => Err ErrKeyNotFound
  | PutCounterpartySwapPrivateKey _ _ => Ok tt
  | GetCounterpartySwapPrivateKey _ => Err ErrKeyNotFound
  | PutCounterpartySwapKeys _ _ _ => Ok tt
  | GetCounterpartySwapKeys _ => Err ErrKeyNotFound
  | PutNewSwapTxHash _ _ => Ok tt
  | GetNewSwapTxHash _ => Err ErrKeyNotFound
  | RecoveryDeleteSwap _ => Ok tt
  | XMRGetHeight => Ok 3000
  | XMRGetBalance => Ok (5 * 10 ^ 12, 5 * 10 ^ 12)
  | XMRTransfer _ _ _ => Ok tt
  | XMRPrimaryAddress => Some wallet
  | XMRDepositAddress _ => Some wallet
  | XMRCreateSpendWallet _ _ => Ok tt
  | XMRCreateViewWallet _ _ _ => Ok tt
  | XMRViewBalance => Ok (5 * 10 ^ 12, 5 * 10 ^ 12)
  | XMRCloseWallet => tt
  | XMRCloseAndRemoveWallet => tt
  | XMRSweepAll _ _ => Ok tt
  | ETHAddress => makerAddr
  | ETHHasPrivateKey => true
  | ETHBalance => Ok (NewWeiAmount (10 ^ 18))
  | ERC20Balance t => Ok (ERC20TokenAmount (apdNew 1 3) (mkToken t 18 "Token" "TKN"))
  | ERC20Info t => Ok (mkToken t 18 "Token" "TKN")
  | SuggestGasPrice => Ok (10 ^ 9)
  | HeaderByNumber => Ok 100
  | LatestBlockTimestamp => Ok nowNs
  | WaitForTimestamp _ => None
  | TransactionReceipt _ => Ok receipt
  | TransactionByHash _ => Ok (mkTx (Some contractAt) 0 (10 ^ 9) [] (Ok takerAddr), false)
  | WaitForReceipt _ => Ok receipt
  | ErrorFromBlock _ => errorf "reverted"
  | CodeAt _ => Ok code
  | FilterLogs _ _ _ => Ok []
  | ContractSwaps _ _ => Ok StagePending
  | ETHTxOpts => Ok tt
  | ContractRefund _ _ _ => Ok (repeat x0a 32)
  | CancelTxWithNonce _ _ => Ok receipt
  | NewIERC20 _ => Ok tt
  | NewTxSender _ => Ok tt
  | NewSwapCreator _ => Ok tt
  | StartWatcher _ _ => Ok tt
  | StopReadyWatcher => tt
  | SenderSetSwapCreator _ => tt
  | SenderNewSwap _ _ _ _ _ _ => Ok lockTx
  | SenderSetReady _ => Ok receipt
  | SenderClaim _ _ => Ok receipt
  | SenderRefund _ _ => Ok receipt
  | SendSwapMessage _ _ => Ok tt
  | CloseProtocolStream _ => tt
  | DeleteOngoingSwap _ => tt
  | DiscoverRelayers => Ok []
  | SubmitClaimToRelayer _ _ _ _ => Ok lockTx
  | Advertise => tt
  | RandRead n => Ok (repeat x5a n)
  | ETHLock => tt
  | ETHUnlock => tt
  | CallContract _ _ _ _ => Ok tt
  | ContractClaimRelayer _ _ _ _ _ _ _ _ _ _ => Ok lockTx
  | QueryRelayerAddress _ => Ok (repeat x0b 32)
  | SubmitRelayRequest _ _ => Ok lockTx
  end.

Definition worldWith (receipt : Receipt) : World := {|
  answer := fun A _ c => goodAnswer receipt A c;
  Env := Stagenet;
  SwapCreatorAddr := contractAt;
  SwapTimeout := Hour
|}.
