(* ===== verification/Maker.v ===== *)
(** * The XMR maker (package protocol/xmrmaker)

    A swap of the maker is a [swapState]; its handlers are programs over the
    daemon's [Sys] and this state.  The handlers of one swap run one at a time:
    the model interleaves whole handlers, not their instructions.  [eventCh]
    holds the events sent to the swap in the order in which they are received,
    the ones that arrive while a handler waits for the next event included; a
    receive from it when nothing will ever be sent blocks for ever.  The sender
    of an event reads its error channel once: a second send blocks for ever, a
    send or close after a close panics.  Logging is left out, and so are the
    numbers and names that only appear in error texts. *)

From stdpp Require Import base gmap list strings.
From Stdlib Require Import ZArith Strings.Byte.
From S2P Require Import Prelude Coins Types Swap Offers Bytes Crypto Contracts External.

Open Scope Z_scope.
Open Scope go_scope.

Module Maker.

(** ** errors.go *)

Definition errUnexpectedMessageType : error :=
  Sentinel "xmrmaker.errUnexpectedMessageType" "unexpected message type".
Definition errMissingKeys : error :=
  Sentinel "xmrmaker.errMissingKeys" "did not receive XMRTaker's public spend or view key".
Definition errMissingAddress : error :=
  Sentinel "xmrmaker.errMissingAddress" "got empty contract address".
Definition errNilContractSwapID : error :=
  Sentinel "errNilContractSwapID" "expected swapID in NotifyETHLocked message".
Definition errCannotFindNewLog : error := Sentinel "errCannotFindNewLog" "cannot find New log".
Definition errUnexpectedSwapID : error :=
  Sentinel "errUnexpectedSwapID" "unexpected swap ID was emitted by New log".
Definition errSwapIDMismatch : error :=
  Sentinel "errSwapIDMismatch" "hash of swap struct does not match swap ID".
Definition errLockTxReverted : error :=
  Sentinel "errLockTxReverted" "other party failed to lock ETH asset (transaction reverted)".
Definition errInvalidETHLockedTransaction : error :=
  Sentinel "errInvalidETHLockedTransaction" "eth locked tx was not to correct contract address".
Definition errInvalidT1 : error :=
  Sentinel "errInvalidT1" "invalid t1 value; asset was locked too far in the past".
Definition errInvalidT2 : error :=
  Sentinel "errInvalidT2" "invalid swap timeout set by counterparty".
Definition errRelayingWithNonEthAsset : error :=
  Sentinel "errRelayingWithNonEthAsset" "relayers with ERC20 token swaps are not currently supported".
Definition errSwapDoesNotExist : error :=
  Sentinel "errSwapDoesNotExist" "contract swap ID does not exist".
Definition errProtocolAlreadyInProgress : error :=
  Sentinel "xmrmaker.errProtocolAlreadyInProgress" "protocol already in progress".
Definition errMakerOfferIDNotSet : error :=
  Sentinel "xmrmaker.errOfferIDNotSet" "offer ID was not set".
Definition errInvalidStageForRecovery : error :=
  Sentinel "xmrmaker.errInvalidStageForRecovery"
    "cannot create ongoing swap state if stage is not XMRLocked".
Definition errBalanceTooLow : error := errorf "balance is below provided amount".
Definition errAmountProvidedTooLow : error := errorf "provided by taker is under offer minimum".
Definition errAmountProvidedTooHigh : error := errorf "provided by taker is over offer maximum".
Definition errUnlockedBalanceTooLow : error := errorf "balance is too low for maximum offer amount".
Definition errETHBalanceTooLowForTokenSwap : error := errorf "balance insufficient for token swap".

(** ** event.go: events *)

Inductive EventType : Type :=
| EventETHLockedType | EventContractReadyType | EventETHRefundedType | EventExitType | EventNoneType.

#[global] Instance eventType_eq_dec : EqDecision EventType.
Proof. solve_decision. Defined.

Definition nextExpectedEventFromStatus (s : Status) : EventType :=
  match s with
  | ExpectingKeys | KeysExchanged => EventETHLockedType
  | XMRLocked => EventContractReadyType
  | _ => EventExitType
  end.

Definition getStatus (t : EventType) : Status :=
  match t with
  | EventETHLockedType => KeysExchanged
  | EventContractReadyType => XMRLocked
  | _ => UnknownStatus
  end.

(** An event with its error channel. *)
Inductive Event `{CryptoLib} : Type :=
| EventETHLocked (message : NotifyETHLocked) (errCh : nat)
| EventContractReady (errCh : nat)
| EventETHRefunded (sk : Scalar) (errCh : nat)
| EventExit (errCh : nat).

Definition Event_Type `{CryptoLib} (e : Event) : EventType :=
  match e with
  | EventETHLocked _ _ => EventETHLockedType
  | EventContractReady _ => EventContractReadyType
  | EventETHRefunded _ _ => EventETHRefundedType
  | EventExit _ => EventExitType
  end.

(** ** swap_state.go: the state of a swap *)

Record swapState `{TypesLib} `{CryptoLib} : Type := mkState {
  info : nat;
  offer : Offer;
  offerExtra : OfferExtra;
  dleqProof : option DLEqProof;
  secp256k1Pub : option Secp256k1PublicKey;
  privkeys : option PrivateKeyPair;
  pubkeys : option PublicKeyPair;
  swapCreatorAddr : Address;
  contractSwapID : Hash;
  contractSwap : option SwapCreatorSwap;
  t1 : Z;
  t2 : Z;
  xmrtakerPublicSpendKey : option Point;
  xmrtakerPrivateViewKey : option Scalar;
  xmrtakerSecp256K1PublicKey : option Secp256k1PublicKey;
  moneroStartHeight : Z;
  nextExpectedEvent : EventType;
  eventCh : list Event;
  errChs : gmap nat errChan;
  nextCh : nat;
  readyClosed : bool;
  doneClosed : bool;
  cancelled : bool
}.

(** The daemon together with one swap. *)
Record MS `{TypesLib} `{CryptoLib} : Type := mkMS { sys : Sys; sst : swapState }.

Section setters.
Context `{TypesLib} `{CryptoLib}.

Definition setInfo (x : nat) (s : swapState) : swapState :=
  mkState _ _ x (offer s) (offerExtra s) (dleqProof s) (secp256k1Pub s) (privkeys s) (pubkeys s)
    (swapCreatorAddr s) (contractSwapID s) (contractSwap s) (t1 s) (t2 s)
    (xmrtakerPublicSpendKey s) (xmrtakerPrivateViewKey s) (xmrtakerSecp256K1PublicKey s)
    (moneroStartHeight s) (nextExpectedEvent s) (eventCh s) (errChs s) (nextCh s) (readyClosed s)
    (doneClosed s) (cancelled s).
Definition setOffer (x : Offer) (s : swapState) : swapState :=
  mkState _ _ (info s) x (offerExtra s) (dleqProof s) (secp256k1Pub s) (privkeys s) (pubkeys s)
    (swapCreatorAddr s) (contractSwapID s) (contractSwap s) (t1 s) (t2 s)
    (xmrtakerPublicSpendKey s) (xmrtakerPrivateViewKey s) (xmrtakerSecp256K1PublicKey s)
    (moneroStartHeight s) (nextExpectedEvent s) (eventCh s) (errChs s) (nextCh s) (readyClosed s)
    (doneClosed s) (cancelled s).
Definition setOfferExtra (x : OfferExtra) (s : swapState) : swapState :=
  mkState _ _ (info s) (offer s) x (dleqProof s) (secp256k1Pub s) (privkeys s) (pubkeys s)
    (swapCreatorAddr s) (contractSwapID s) (contractSwap s) (t1 s) (t2 s)
    (xmrtakerPublicSpendKey s) (xmrtakerPrivateViewKey s) (xmrtakerSecp256K1PublicKey s)
    (moneroStartHeight s) (nextExpectedEvent s) (eventCh s) (errChs s) (nextCh s) (readyClosed s)
    (doneClosed s) (cancelled s).
Definition setDleqProof (x : option DLEqProof) (s : swapState) : swapState :=
  mkState _ _ (info s) (offer s) (offerExtra s) x (secp256k1Pub s) (privkeys s) (pubkeys s)
    (swapCreatorAddr s) (contractSwapID s) (contractSwap s) (t1 s) (t2 s)
    (xmrtakerPublicSpendKey s) (xmrtakerPrivateViewKey s) (xmrtakerSecp256K1PublicKey s)
    (moneroStartHeight s) (nextExpectedEvent s) (eventCh s) (errChs s) (nextCh s) (readyClosed s)
    (doneClosed s) (cancelled s).
Definition setSecp256k1Pub (x : option Secp256k1PublicKey) (s : swapState) : swapState :=
  mkState _ _ (info s) (offer s) (offerExtra s) (dleqProof s) x (privkeys s) (pubkeys s)
    (swapCreatorAddr s) (contractSwapID s) (contractSwap s) (t1 s) (t2 s)
    (xmrtakerPublicSpendKey s) (xmrtakerPrivateViewKey s) (xmrtakerSecp256K1PublicKey s)
    (moneroStartHeight s) (nextExpectedEvent s) (eventCh s) (errChs s) (nextCh s) (readyClosed s)
    (doneClosed s) (cancelled s).
Definition setPrivkeys (x : option PrivateKeyPair) (s : swapState) : swapState :=
  mkState _ _ (info s) (offer s) (offerExtra s) (dleqProof s) (secp256k1Pub s) x (pubkeys s)
    (swapCreatorAddr s) (contractSwapID s) (contractSwap s) (t1 s) (t2 s)
    (xmrtakerPublicSpendKey s) (xmrtakerPrivateViewKey s) (xmrtakerSecp256K1PublicKey s)
    (moneroStartHeight s) (nextExpectedEvent s) (eventCh s) (errChs s) (nextCh s) (readyClosed s)
    (doneClosed s) (cancelled s).
Definition setPubkeys (x : option PublicKeyPair) (s : swapState) : swapState :=
  mkState _ _ (info s) (offer s) (offerExtra s) (dleqProof s) (secp256k1Pub s) (privkeys s) x
    (swapCreatorAddr s) (contractSwapID s) (contractSwap s) (t1 s) (t2 s)
    (xmrtakerPublicSpendKey s) (xmrtakerPrivateViewKey s) (xmrtakerSecp256K1PublicKey s)
    (moneroStartHeight s) (nextExpectedEvent s) (eventCh s) (errChs s) (nextCh s) (readyClosed s)
    (doneClosed s) (cancelled s).
Definition setSwapCreatorAddr (x : Address) (s : swapState) : swapState :=
  mkState _ _ (info s) (offer s) (offerExtra s) (dleqProof s) (secp256k1Pub s) (privkeys s)
    (pubkeys s) x (contractSwapID s) (contractSwap s) (t1 s) (t2 s) (xmrtakerPublicSpendKey s)
    (xmrtakerPrivateViewKey s) (xmrtakerSecp256K1PublicKey s) (moneroStartHeight s)
    (nextExpectedEvent s) (eventCh s) (errChs s) (nextCh s) (readyClosed s) (doneClosed s)
    (cancelled s).
Definition setContractSwapID (x : Hash) (s : swapState) : swapState :=
  mkState _ _ (info s) (offer s) (offerExtra s) (dleqProof s) (secp256k1Pub s) (privkeys s)
    (pubkeys s) (swapCreatorAddr s) x (contractSwap s) (t1 s) (t2 s) (xmrtakerPublicSpendKey s)
    (xmrtakerPrivateViewKey s) (xmrtakerSecp256K1PublicKey s) (moneroStartHeight s)
    (nextExpectedEvent s) (eventCh s) (errChs s) (nextCh s) (readyClosed s) (doneClosed s)
    (cancelled s).
Definition setContractSwap (x : option SwapCreatorSwap) (s : swapState) : swapState :=
  mkState _ _ (info s) (offer s) (offerExtra s) (dleqProof s) (secp256k1Pub s) (privkeys s)
    (pubkeys s) (swapCreatorAddr s) (contractSwapID s) x (t1 s) (t2 s) (xmrtakerPublicSpendKey s)
    (xmrtakerPrivateViewKey s) (xmrtakerSecp256K1PublicKey s) (moneroStartHeight s)
    (nextExpectedEvent s) (eventCh s) (errChs s) (nextCh s) (readyClosed s) (doneClosed s)
    (cancelled s).
Definition setT1 (x : Z) (s : swapState) : swapState :=
  mkState _ _ (info s) (offer s) (offerExtra s) (dleqProof s) (secp256k1Pub s) (privkeys s)
    (pubkeys s) (swapCreatorAddr s) (contractSwapID s) (contractSwap s) x (t2 s)
    (xmrtakerPublicSpendKey s) (xmrtakerPrivateViewKey s) (xmrtakerSecp256K1PublicKey s)
    (moneroStartHeight s) (nextExpectedEvent s) (eventCh s) (errChs s) (nextCh s) (readyClosed s)
    (doneClosed s) (cancelled s).
Definition setT2 (x : Z) (s : swapState) : swapState :=
  mkState _ _ (info s) (offer s) (offerExtra s) (dleqProof s) (secp256k1Pub s) (privkeys s)
    (pubkeys s) (swapCreatorAddr s) (contractSwapID s) (contractSwap s) (t1 s) x
    (xmrtakerPublicSpendKey s) (xmrtakerPrivateViewKey s) (xmrtakerSecp256K1PublicKey s)
    (moneroStartHeight s) (nextExpectedEvent s) (eventCh s) (errChs s) (nextCh s) (readyClosed s)
    (doneClosed s) (cancelled s).
Definition setXmrtakerPublicSpendKey (x : option Point) (s : swapState) : swapState :=
  mkState _ _ (info s) (offer s) (offerExtra s) (dleqProof s) (secp256k1Pub s) (privkeys s)
    (pubkeys s) (swapCreatorAddr s) (contractSwapID s) (contractSwap s) (t1 s) (t2 s) x
    (xmrtakerPrivateViewKey s) (xmrtakerSecp256K1PublicKey s) (moneroStartHeight s)
    (nextExpectedEvent s) (eventCh s) (errChs s) (nextCh s) (readyClosed s) (doneClosed s)
    (cancelled s).
Definition setXmrtakerPrivateViewKey (x : option Scalar) (s : swapState) : swapState :=
  mkState _ _ (info s) (offer s) (offerExtra s) (dleqProof s) (secp256k1Pub s) (privkeys s)
    (pubkeys s) (swapCreatorAddr s) (contractSwapID s) (contractSwap s) (t1 s) (t2 s)
    (xmrtakerPublicSpendKey s) x (xmrtakerSecp256K1PublicKey s) (moneroStartHeight s)
    (nextExpectedEvent s) (eventCh s) (errChs s) (nextCh s) (readyClosed s) (doneClosed s)
    (cancelled s).
Definition setXmrtakerSecp256K1PublicKey (x : option Secp256k1PublicKey) (s : swapState) : swapState :=
  mkState _ _ (info s) (offer s) (offerExtra s) (dleqProof s) (secp256k1Pub s) (privkeys s)
    (pubkeys s) (swapCreatorAddr s) (contractSwapID s) (contractSwap s) (t1 s) (t2 s)
    (xmrtakerPublicSpendKey s) (xmrtakerPrivateViewKey s) x (moneroStartHeight s)
    (nextExpectedEvent s) (eventCh s) (errChs s) (nextCh s) (readyClosed s) (doneClosed s)
    (cancelled s).
Definition setMoneroStartHeight (x : Z) (s : swapState) : swapState :=
  mkState _ _ (info s) (offer s) (offerExtra s) (dleqProof s) (secp256k1Pub s) (privkeys s)
    (pubkeys s) (swapCreatorAddr s) (contractSwapID s) (contractSwap s) (t1 s) (t2 s)
    (xmrtakerPublicSpendKey s) (xmrtakerPrivateViewKey s) (xmrtakerSecp256K1PublicKey s) x
    (nextExpectedEvent s) (eventCh s) (errChs s) (nextCh s) (readyClosed s) (doneClosed s)
    (cancelled s).
Definition setNextExpectedEvent (x : EventType) (s : swapState) : swapState :=
  mkState _ _ (info s) (offer s) (offerExtra s) (dleqProof s) (secp256k1Pub s) (privkeys s)
    (pubkeys s) (swapCreatorAddr s) (contractSwapID s) (contractSwap s) (t1 s) (t2 s)
    (xmrtakerPublicSpendKey s) (xmrtakerPrivateViewKey s) (xmrtakerSecp256K1PublicKey s)
    (moneroStartHeight s) x (eventCh s) (errChs s) (nextCh s) (readyClosed s) (doneClosed s)
    (cancelled s).
Definition setEventCh (x : list Event) (s : swapState) : swapState :=
  mkState _ _ (info s) (offer s) (offerExtra s) (dleqProof s) (secp256k1Pub s) (privkeys s)
    (pubkeys s) (swapCreatorAddr s) (contractSwapID s) (contractSwap s) (t1 s) (t2 s)
    (xmrtakerPublicSpendKey s) (xmrtakerPrivateViewKey s) (xmrtakerSecp256K1PublicKey s)
    (moneroStartHeight s) (nextExpectedEvent s) x (errChs s) (nextCh s) (readyClosed s)
    (doneClosed s) (cancelled s).
Definition setErrChs (x : gmap nat errChan) (s : swapState) : swapState :=
  mkState _ _ (info s) (offer s) (offerExtra s) (dleqProof s) (secp256k1Pub s) (privkeys s)
    (pubkeys s) (swapCreatorAddr s) (contractSwapID s) (contractSwap s) (t1 s) (t2 s)
    (xmrtakerPublicSpendKey s) (xmrtakerPrivateViewKey s) (xmrtakerSecp256K1PublicKey s)
    (moneroStartHeight s) (nextExpectedEvent s) (eventCh s) x (nextCh s) (readyClosed s)
    (doneClosed s) (cancelled s).
Definition setNextCh (x : nat) (s : swapState) : swapState :=
  mkState _ _ (info s) (offer s) (offerExtra s) (dleqProof s) (secp256k1Pub s) (privkeys s)
    (pubkeys s) (swapCreatorAddr s) (contractSwapID s) (contractSwap s) (t1 s) (t2 s)
    (xmrtakerPublicSpendKey s) (xmrtakerPrivateViewKey s) (xmrtakerSecp256K1PublicKey s)
    (moneroStartHeight s) (nextExpectedEvent s) (eventCh s) (errChs s) x (readyClosed s)
    (doneClosed s) (cancelled s).
Definition setReadyClosed (x : bool) (s : swapState) : swapState :=
  mkState _ _ (info s) (offer s) (offerExtra s) (dleqProof s) (secp256k1Pub s) (privkeys s)
    (pubkeys s) (swapCreatorAddr s) (contractSwapID s) (contractSwap s) (t1 s) (t2 s)
    (xmrtakerPublicSpendKey s) (xmrtakerPrivateViewKey s) (xmrtakerSecp256K1PublicKey s)
    (moneroStartHeight s) (nextExpectedEvent s) (eventCh s) (errChs s) (nextCh s) x (doneClosed s)
    (cancelled s).
Definition setDoneClosed (x : bool) (s : swapState) : swapState :=
  mkState _ _ (info s) (offer s) (offerExtra s) (dleqProof s) (secp256k1Pub s) (privkeys s)
    (pubkeys s) (swapCreatorAddr s) (contractSwapID s) (contractSwap s) (t1 s) (t2 s)
    (xmrtakerPublicSpendKey s) (xmrtakerPrivateViewKey s) (xmrtakerSecp256K1PublicKey s)
    (moneroStartHeight s) (nextExpectedEvent s) (eventCh s) (errChs s) (nextCh s) (readyClosed s)
    x (cancelled s).
Definition setCancelled (x : bool) (s : swapState) : swapState :=
  mkState _ _ (info s) (offer s) (offerExtra s) (dleqProof s) (secp256k1Pub s) (privkeys s)
    (pubkeys s) (swapCreatorAddr s) (contractSwapID s) (contractSwap s) (t1 s) (t2 s)
    (xmrtakerPublicSpendKey s) (xmrtakerPrivateViewKey s) (xmrtakerSecp256K1PublicKey s)
    (moneroStartHeight s) (nextExpectedEvent s) (eventCh s) (errChs s) (nextCh s) (readyClosed s)
    (doneClosed s) x.

End setters.

Section operations.
Context `{World} `{!InfoJson} `{Apd} `{AbiLib} (expectedSwapCreatorCode : bytes).

Definition onSys {A} (m : prog Sys A) : prog MS A := zoom sys (fun x s => mkMS _ _ x (sst s)) m.
Definition getS {A} (f : swapState → A) : prog MS A := gets (fun s => f (sst s)).
Definition modS (f : swapState → swapState) : prog MS unit :=
  modify (fun s => mkMS _ _ (sys s) (f (sst s))).
Definition extS {A} (c : call A) : prog MS A := onSys (ext c).
Definition derefS {A} (f : swapState → option A) : prog MS A := x <- getS f ;; pure (deref x).

(** The swap's [Info], through its pointer. *)
Definition readS : prog MS Info := l <- getS info ;; onSys (readInfo l).
Definition OfferID : prog MS Hash := i <- readS ;; done (iOfferID i).

(** ** Channels *)

Definition newErrCh : prog MS nat :=
  c <- getS nextCh ;;
  modS (fun s => setNextCh (S c) (setErrChs (<[c := mkErrChan None false]> (errChs s)) s)) ;;;
  done c.

(** [e.errCh <- err] *)
Definition sendErr (c : nat) (e : error) : prog MS unit :=
  ch <- derefS (fun s => errChs s !! c) ;;
  if chClosed ch then panic "send on closed channel"
  else
    match delivered ch with
    | Some _ => block
    | None => modS (fun s => setErrChs (<[c := mkErrChan (Some (Some e)) false]> (errChs s)) s)
    end.

(** [close(e.errCh)]: a receiver that still waits gets nil. *)
Definition closeErr (c : nat) : prog MS unit :=
  ch <- derefS (fun s => errChs s !! c) ;;
  if chClosed ch then panic "close of closed channel"
  else
    modS (fun s => setErrChs (<[c := mkErrChan (Some (default None (delivered ch))) true]> (errChs s)) s).

Definition sendEvent (e : Event) : prog MS unit :=
  modS (fun s => setEventCh (eventCh s ++ [e]) s).

(** [event := <-s.eventCh] *)
Definition recvEvent : prog MS Event :=
  q <- getS eventCh ;;
  match q with
  | e :: rest => modS (setEventCh rest) ;;; done e
  | [] => block
  end.

Definition closeReadyCh : prog MS unit :=
  b <- getS readyClosed ;;
  if b : bool then panic "close of closed channel" else modS (setReadyClosed true).

Definition closeDone : prog MS unit :=
  b <- getS doneClosed ;;
  if b : bool then panic "close of closed channel" else modS (setDoneClosed true).

(** ** Status updates (swap_state.go, message_handler.go) *)

Definition updateStatus (status : Status) : prog MS unit :=
  l <- getS info ;;
  onSys (Info_SetStatus l status) ;;;
  id <- OfferID ;;
  onSys (PushNewStatus id status).

Definition clearNextExpectedEvent (status : Status) : prog MS unit :=
  modS (setNextExpectedEvent EventNoneType) ;;;
  updateStatus status.

Definition setNextExpected (event : EventType) : prog MS (result unit) :=
  cur <- getS nextExpectedEvent ;;
  if bool_decide (cur = EventNoneType) then panic "cannot set next expected event to EventNoneType"
  else if bool_decide (event = cur) then panic "cannot set next expected event to same as current"
  else
    modS (setNextExpectedEvent event) ;;;
    let status := getStatus event in
    if bool_decide (status = UnknownStatus)
    then panic "status corresponding to event cannot be UnknownStatus"
    else
      updateStatus status ;;;
      l <- getS info ;;
      onSys (WriteSwapToDB l).

(** ** Waiting for receipts (message_handler.go, claim.go)

    Both polling loops ask at most [n] times and go on only on NotFound. *)

Fixpoint pollReceipt {A} (n : nat) (txHash : Hash) (use : Receipt → prog MS (result A))
    : prog MS (result A) :=
  match n with
  | O => done (Err NotFound)
  | S n' =>
      r <- extS (TransactionReceipt txHash) ;;
      match r with
      | Ok receipt => use receipt
      | Err e =>
          if negb (errorsIs e NotFound) then done (Err e)
          else
            stopped <- extS SleepWithContext ;;
            match stopped with
            | Some e' => done (Err e')
            | None => pollReceipt n' txHash use
            end
      end
  end.

Definition waitForNewSwapReceipt (txHash : Hash) : prog MS (result Receipt) :=
  pollReceipt 10 txHash (fun receipt =>
    if negb (rcStatus receipt =? 1) then done (Err (errorf "received newSwap tx was reverted"))
    else done (Ok receipt)).

Definition validateClaimRelayerReceipt (receipt : Receipt) (contractAddr : Address)
    (swapID secret : Hash) : prog MS (result Receipt) :=
  if negb (rcStatus receipt =? 1) then
    e <- extS (ErrorFromBlock receipt) ;;
    done (Err (Wrapf "relayer's claim transaction failed" e))
  else
    match rcLogs receipt with
    | [] => done (Err (errorf "relayer's claim transaction had no logs"))
    | log :: _ =>
        match checkClaimedLog log contractAddr swapID secret with
        | Err e => done (Err (Wrapf "relayer's claim had logs error" e))
        | Ok _ => done (Ok receipt)
        end
    end.

Definition waitForClaimRelayerReceipt (txHash : Hash) (contractAddr : Address)
    (swapID secret : Hash) : prog MS (result Receipt) :=
  pollReceipt 10 txHash (fun receipt =>
    validateClaimRelayerReceipt receipt contractAddr swapID secret).

(** ** checks.go and ethereum_asset_amount.go *)

Definition getEthAssetAmount (amt : Decimal) (asset : Address) : prog MS (result EthAssetAmount) :=
  if IsToken asset then
    token <-? mapErr (Wrapf "failed to get ERC20 info") (extS (ERC20Info asset)) ;;
    let '(exceeds, amt') := ExceedsDecimals amt (tokNumDecimals token) in
    if exceeds : bool then done (Err (errorf "value can not be represented in the token's decimals"))
    else a <- pure (NewTokenAmountFromDecimals amt' token) ;; done (Ok a)
  else
    let '(exceeds, amt') := ExceedsDecimals amt NumEtherDecimals in
    if exceeds : bool then done (Err (errorf "value can not be represented in ETH's decimals"))
    else w <- pure (EtherToWei amt') ;; done (Ok (WeiAmount w)).

(** The first log that parses as [New]. *)
Fixpoint findNewLog (logs : list Log) : option SwapCreatorNew :=
  match logs with
  | [] => None
  | log :: rest =>
      match abiParseNew log with
      | Ok event => Some event
      | Err _ => findNewLog rest
      end
  end.

Definition checkContract (txHash : Hash) : prog MS (result unit) :=
  txp <-? mapErr (Wrapf "failed to get newSwap transaction by hash") (extS (TransactionByHash txHash)) ;;
  addr <- getS swapCreatorAddr ;;
  if negb (bool_decide (txTo txp.1 = Some addr)) then done (Err errInvalidETHLockedTransaction)
  else
  receipt <-? mapErr (Wrapf "failed to get receipt for New transaction") (extS (WaitForReceipt txHash)) ;;
  if rcStatus receipt =? 0 then done (Err errLockTxReverted)
  else
  match findNewLog (rcLogs receipt) with
  | None => done (Err errCannotFindNewLog)
  | Some event =>
      id <- getS contractSwapID ;;
      if negb (bool_decide (evSwapID event = id)) then done (Err errUnexpectedSwapID)
      else
      ours <- derefS secp256k1Pub ;;
      if negb (bool_decide (evClaimKey event = Secp256k1_Keccak256 ours))
      then done (Err (errorf "contract claim key is not expected"))
      else
      theirs <- derefS xmrtakerSecp256K1PublicKey ;;
      if negb (bool_decide (evRefundKey event = Secp256k1_Keccak256 theirs))
      then done (Err (errorf "contract refund key is not expected"))
      else
      swap <- derefS contractSwap ;;
      if negb (bool_decide (swAsset swap = evAsset event))
      then done (Err (errorf "swap asset is not expected"))
      else if negb (swValue swap =? evValue event)
      then done (Err (errorf "swap value and event value don't match"))
      else
      i <- readS ;;
      expectedAmount <-? getEthAssetAmount (iExpectedAmount i) (swAsset swap) ;;
      expected <- pure (EthAssetAmount_BigInt expectedAmount) ;;
      if negb (swValue swap =? expected) then done (Err (errorf "swap value is not expected"))
      else done (Ok tt)
  end.

(** The timeouts are stored in the swap and, by reference, in its [Info]. *)
Definition setTimeouts (a b : Z) : prog MS unit :=
  modS (setT1 (timeUnix a)) ;;;
  modS (setT2 (timeUnix b)) ;;;
  l <- getS info ;;
  onSys (updateInfo (SetTimeouts (Some (timeUnix a)) (Some (timeUnix b))) l).

Definition checkAndSetTimeouts (a b : Z) : prog MS (result unit) :=
  setTimeouts a b ;;;
  if bool_decide (Env = Development) then done (Ok tt)
  else
    expectedTimeout <- pure (SwapTimeoutFromEnv Env) ;;
    let allowableTimeDiff := expectedTimeout / 20 in
    x1 <- getS t1 ;;
    x2 <- getS t2 ;;
    if negb (timeSub x2 x1 =? expectedTimeout) then done (Err errInvalidT2)
    else
      now <- extS Now ;;
      if allowableTimeDiff <? durationAbs (timeSub (now + expectedTimeout) x1)
      then done (Err errInvalidT1)
      else done (Ok tt).

Definition setContract (address : Address) : prog MS (result unit) :=
  modS (setSwapCreatorAddr address) ;;;
  _ <-? extS (NewSwapCreator address) ;;
  extS (SenderSetSwapCreator address) ;;;
  done (Ok tt).

(** ** Locking the XMR *)

Definition lockFunds (amount : Decimal) : prog MS (result unit) :=
  takerSpend <- derefS xmrtakerPublicSpendKey ;;
  takerView <- derefS xmrtakerPrivateViewKey ;;
  ours <- derefS pubkeys ;;
  let xmrtakerPublicKeys := NewPublicKeyPair takerSpend (Public takerView) in
  swapDestAddr <- pure (PublicKeyPair_Address (SumSpendAndViewKeys xmrtakerPublicKeys ours) Env) ;;
  _ <-? extS XMRGetBalance ;;
  _ <-? mapErr (Wrapf "failed to set next expected event to EventContractReadyType")
          (setNextExpected EventContractReadyType) ;;
  extS (XMRTransfer swapDestAddr amount MinSpendConfirmations).

(** The goroutine started at the end waits for t1: see [handleT1Expired]. *)
Definition handleNotifyETHLocked (msg : NotifyETHLocked) : prog MS (result unit) :=
  if bool_decide (nlAddress msg = zeroAddress) then done (Err errMissingAddress)
  else if IsHashZero (nlContractSwapID msg) then done (Err errNilContractSwapID)
  else
  swapID <- pure (SwapID (nlContractSwap msg)) ;;
  if negb (bool_decide (swapID = nlContractSwapID msg)) then done (Err errSwapIDMismatch)
  else
  modS (setContractSwapID (nlContractSwapID msg)) ;;;
  modS (setContractSwap (Some (nlContractSwap msg))) ;;;
  receipt <-? waitForNewSwapReceipt (nlTxHash msg) ;;
  let contractAddr := nlAddress msg in
  _ <-? onSys (CheckSwapCreatorContractCode expectedSwapCreatorCode contractAddr) ;;
  _ <-? mapErr (Wrapf "failed to instantiate contract instance") (setContract contractAddr) ;;
  id <- OfferID ;;
  _ <-? extS (PutContractSwapInfo id (mkEthInfo (rcBlockNumber receipt) (nlContractSwapID msg)
                (nlContractSwap msg) contractAddr)) ;;
  _ <-? checkContract (nlTxHash msg) ;;
  _ <-? checkAndSetTimeouts (swTimeout1 (nlContractSwap msg)) (swTimeout2 (nlContractSwap msg)) ;;
  i <- readS ;;
  amount <- pure (MoneroToPiconero (iProvidedAmount i)) ;;
  mapErr (Wrapf "failed to lock funds") (lockFunds amount).

(** ** Claiming the ETH (claim.go) *)

Definition getSecret : prog MS bytes :=
  p <- getS dleqProof ;;
  match p with
  | Some proof => done (Proof_Secret proof)
  | None => kp <- derefS privkeys ;; done (goCopy 32 (Reverse (SpendKeyBytes kp)))
  end.

Definition checkForMinClaimBalance : prog MS (result bool) :=
  balance <-? extS ETHBalance ;;
  if apdIsZero balance then done (Ok false)
  else
    gasPrice <-? extS SuggestGasPrice ;;
    let txCost := gasPrice * 50000 in
    b <- pure (WeiAmount_BigInt balance) ;;
    done (Ok (negb (b <? txCost))).

Definition relaySwapOf : prog MS SwapCreatorRelaySwap :=
  swap <- derefS contractSwap ;;
  addr <- getS swapCreatorAddr ;;
  done (mkRelaySwap swap RelayerFeeWei EmptyHash addr).

(** Submit the claim to one relayer and wait for its transaction; [wrap] is what the caller
    makes of an error of the wait. *)
Definition submitAndWait (wrap : error → error) (relayer : string) (offerID : option Hash)
    (relaySwap : SwapCreatorRelaySwap) (secret : bytes) : prog MS (result Receipt) :=
  txHash <-? extS (SubmitClaimToRelayer relayer offerID relaySwap secret) ;;
  addr <- getS swapCreatorAddr ;;
  id <- getS contractSwapID ;;
  secret' <- getSecret ;;
  mapErr wrap (waitForClaimRelayerReceipt txHash addr id secret').

Definition relayClaimWithXMRTaker : prog MS (result Receipt) :=
  secret <- getSecret ;;
  relaySwap <- relaySwapOf ;;
  i <- readS ;;
  o <- getS offer ;;
  submitAndWait (fun e => errorf ("failed to get receipt of relayer's tx: " +:+ errorText e)%string)
    (iPeerID i) (Some (oID o)) relaySwap secret.

Fixpoint tryRelayers (relayers : list string) (counterparty : string)
    (relaySwap : SwapCreatorRelaySwap) (secret : bytes) : prog MS (result Receipt) :=
  match relayers with
  | [] => done (Err (errorf "failed to relay claim with any non-counterparty relayer"))
  | relayer :: rest =>
      if bool_decide (relayer = counterparty) then tryRelayers rest counterparty relaySwap secret
      else
        r <- submitAndWait id relayer None relaySwap secret ;;
        match r with
        | Ok receipt => done (Ok receipt)
        | Err _ => tryRelayers rest counterparty relaySwap secret
        end
  end.

Definition claimWithAdvertisedRelayers : prog MS (result Receipt) :=
  secret <- getSecret ;;
  relaySwap <- relaySwapOf ;;
  relayers <-? extS DiscoverRelayers ;;
  match relayers with
  | [] => done (Err (errorf "no relayers found to submit claim to"))
  | _ => i <- readS ;; tryRelayers relayers (iPeerID i) relaySwap secret
  end.

Definition claimWithRelay : prog MS (result Receipt) :=
  r <- claimWithAdvertisedRelayers ;;
  receipt <-? (match r with
               | Ok receipt => done (Ok receipt)
               | Err _ => relayClaimWithXMRTaker
               end) ;;
  l <- getS info ;;
  fee <- pure RelayerFeeETH ;;
  onSys (updateInfo (SetRelayerFee (Some fee)) l) ;;;
  _ <-? onSys (WriteSwapToDB l) ;;
  done (Ok receipt).

(** The balances before and after the claim are only logged, their errors count. *)
Definition checkAssetBalance (asset : Address) : prog MS (result unit) :=
  if bool_decide (asset = EthAssetETH) then
    _ <-? extS ETHBalance ;; done (Ok tt)
  else
    _ <-? extS (ERC20Balance asset) ;; done (Ok tt).

Definition claimFunds : prog MS (result Receipt) :=
  _ <-? extS ETHBalance ;;
  swap <- derefS contractSwap ;;
  _ <-? (if bool_decide (swAsset swap = EthAssetETH) then done (Ok tt)
         else
           _ <-? extS (ERC20Balance (swAsset swap)) ;;
           done (Ok tt)) ;;
  hasBalanceToClaim <-? checkForMinClaimBalance ;;
  extra <- getS offerExtra ;;
  receipt <-? (if oeUseRelayer extra || negb hasBalanceToClaim
               then mapErr (Wrapf "failed to claim using relayers") claimWithRelay
               else
                 sc <- getSecret ;;
                 r <- extS (SenderClaim swap sc) ;;
                 match r with
                 | Ok receipt => done (Ok receipt)
                 | Err e =>
                     if stringsContains (errorText e) "insufficient funds for gas * price + value"
                     then mapErr (Wrapf "failed to claim using relayers") claimWithRelay
                     else done (Err e)
                 end) ;;
  _ <-? checkAssetBalance (swAsset swap) ;;
  done (Ok receipt).

(** ** Reclaiming the XMR *)

Definition reclaimMonero (skA : Scalar) : prog MS (result unit) :=
  id <- OfferID ;;
  _ <-? extS (PutCounterpartySwapPrivateKey id skA) ;;
  pk <- getS xmrtakerPublicSpendKey ;;
  vk <- getS xmrtakerPrivateViewKey ;;
  _ <-? (match pk, vk with
         | Some _, Some _ => done (Ok tt)
         | _, _ =>
             keys <-? mapErr (Wrapf "failed to get counterparty public keypair")
                        (extS (GetCounterpartySwapKeys id)) ;;
             modS (setXmrtakerPublicSpendKey (Some keys.1)) ;;;
             modS (setXmrtakerPrivateViewKey (Some keys.2)) ;;;
             done (Ok tt)
         end) ;;
  kp <- derefS privkeys ;;
  vkA <- derefS xmrtakerPrivateViewKey ;;
  let kpAB := GetClaimKeypair skA (kpSpend kp) vkA (kpView kp) in
  addr <- extS XMRPrimaryAddress ;;
  l <- getS info ;;
  onSys (ClaimMonero l kpAB addr false).

Definition handleEventETHRefunded (sk : Scalar) : prog MS (result unit) :=
  _ <-? reclaimMonero sk ;;
  clearNextExpectedEvent CompletedRefund ;;;
  done (Ok tt).

(** ** Exiting (swap_state.go) and handling events (event.go) *)

(** The deferred function of [exit]. *)
Definition exitCleanup : prog MS unit :=
  id <- OfferID ;;
  extS (CloseProtocolStream id) ;;;
  l <- getS info ;;
  r <- onSys (CompleteOngoingSwap l) ;;
  match r with
  | Err _ => done tt
  | Ok _ =>
      i <- readS ;;
      o <- getS offer ;;
      extra <- getS offerExtra ;;
      (if negb (bool_decide (iStatus i = CompletedSuccess)) && IsSet o
       then onSys (AddOffer o (oeUseRelayer extra)) ;;; done tt
       else if bool_decide (iStatus i = CompletedSuccess)
       then onSys (OfferManager_DeleteOffer (oID o)) ;;; done tt
       else done tt) ;;;
      extS (DeleteOngoingSwap (oID o)) ;;;
      extS (RecoveryDeleteSwap (oID o)) ;;;
      modS (setCancelled true) ;;;
      closeDone
  end.

(** [exitK] is the call of [exit] on a failed claim. *)
Definition handleEventContractReady (exitK : prog MS (result unit)) : prog MS (result unit) :=
  closeReadyCh ;;;
  extS StopReadyWatcher ;;;
  r <- claimFunds ;;
  match r with
  | Err e =>
      r2 <- exitK ;;
      match r2 with
      | Err e2 => done (Err (Wrapf "failed to exit after failing to claim" e2))
      | Ok _ => done (Err (Wrapf "failed to claim" e))
      end
  | Ok _ => clearNextExpectedEvent CompletedSuccess ;;; done (Ok tt)
  end.

(** [exit] and [handleEventContractReady] call each other; each nested [exit]
    has received one more event. *)
Fixpoint exit (fuel : nat) : prog MS (result unit) :=
  match fuel with
  | O => nofuel
  | S fuel' =>
      deferring exitCleanup
        (cur <- getS nextExpectedEvent ;;
         match cur with
         | EventETHLockedType => clearNextExpectedEvent CompletedAbort ;;; done (Ok tt)
         | EventContractReadyType =>
             event <- recvEvent ;;
             match event with
             | EventETHRefunded sk ch => deferring (closeErr ch) (handleEventETHRefunded sk)
             | EventContractReady ch =>
                 deferring (closeErr ch) (handleEventContractReady (exit fuel'))
             | _ => done (Ok tt)
             end
         | EventNoneType => done (Ok tt)
         | _ =>
             clearNextExpectedEvent CompletedAbort ;;;
             done (Err errUnexpectedMessageType)
         end)
  end.

Definition handleEvent (fuel : nat) (event : Event) : prog MS unit :=
  match event with
  | EventETHLocked message ch =>
      deferring (closeErr ch)
        (cur <- getS nextExpectedEvent ;;
         if negb (bool_decide (cur = EventETHLockedType))
         then sendErr ch (errorf "nextExpectedEvent was not EventETHLockedType")
         else
           r <- handleNotifyETHLocked message ;;
           match r with
           | Err e =>
               sendErr ch (Wrapf "failed to handle EventETHLocked" e) ;;;
               exit fuel ;;; done tt
           | Ok _ => done tt
           end ;;;
           id <- OfferID ;;
           extS (CloseProtocolStream id))
  | EventContractReady ch =>
      deferring (closeErr ch)
        (cur <- getS nextExpectedEvent ;;
         if negb (bool_decide (cur = EventContractReadyType))
         then sendErr ch (errorf "nextExpectedEvent was not EventContractReadyType")
         else
           r <- handleEventContractReady (exit fuel) ;;
           match r with
           | Err e => sendErr ch (Wrapf "failed to handle EventContractReady" e)
           | Ok _ => done tt
           end)
  | EventETHRefunded sk ch =>
      deferring (closeErr ch)
        (r <- handleEventETHRefunded sk ;;
         match r with
         | Err e => sendErr ch (Wrapf "failed to handle EventETHRefunded" e)
         | Ok _ => exit fuel ;;; done tt
         end)
  | EventExit ch =>
      deferring (closeErr ch)
        (r <- exit fuel ;;
         match r with
         | Err e => sendErr ch (Wrapf "failed to handle EventExit" e)
         | Ok _ => done tt
         end)
  end.

(** One turn of [runHandleEvents]: a cancelled swap handles nothing more. *)
Definition runHandleEvent : prog MS unit :=
  stop <- getS cancelled ;;
  if stop : bool then done tt
  else
    q <- getS eventCh ;;
    match q with
    | [] => done tt
    | e :: rest => modS (setEventCh rest) ;;; handleEvent (S (length rest)) e
    end.

(** ** The senders of events

    Each returns the error channel its goroutine then waits on. *)

Definition Exit : prog MS nat :=
  ch <- newErrCh ;; sendEvent (EventExit ch) ;;; done ch.

Definition NotifyStreamClosed : prog MS (option nat) :=
  cur <- getS nextExpectedEvent ;;
  match cur with
  | EventETHLockedType => ch <- Exit ;; done (Some ch)
  | _ => done None
  end.

Definition HandleProtocolMessage (msg : Message) : prog MS (result nat) :=
  stop <- getS cancelled ;;
  if stop : bool then done (Err (errorf "protocol exited"))
  else
    match msg with
    | MsgNotifyETHLocked m =>
        ch <- newErrCh ;; sendEvent (EventETHLocked m ch) ;;; done (Ok ch)
    | _ => done (Err errUnexpectedMessageType)
    end.

Definition handleT1Expired : prog MS nat :=
  ch <- newErrCh ;; sendEvent (EventContractReady ch) ;;; done ch.

(** The goroutine of [handleNotifyETHLocked]: it gives up when t2 has passed, and
    otherwise waits for t1 unless the contract is ready or the swap is over. *)
Definition runT1ExpirationHandler : prog MS (option nat) :=
  now <- extS Now ;;
  x2 <- getS t2 ;;
  if timeSub x2 now <? 0 then done None
  else
    x1 <- getS t1 ;;
    r <- extS (WaitForTimestamp x1) ;;
    stop <- getS cancelled ;;
    ready <- getS readyClosed ;;
    if (stop : bool) || ready then done None
    else
      match r with
      | Some _ => done None
      | None => ch <- handleT1Expired ;; done (Some ch)
      end.

Definition handleReadyLogs (l : Log) : prog MS (result (option nat)) :=
  id <- getS contractSwapID ;;
  match CheckSwapID l readyTopic id with
  | Err e => done (if errorsIs e ErrLogNotForUs then Ok None else Err e)
  | Ok _ => ch <- newErrCh ;; sendEvent (EventContractReady ch) ;;; done (Ok (Some ch))
  end.

Definition handleRefundLogs (l : Log) : prog MS (result (option nat)) :=
  id <- getS contractSwapID ;;
  match CheckSwapID l refundedTopic id with
  | Err e => done (if errorsIs e ErrLogNotForUs then Ok None else Err e)
  | Ok _ =>
      match GetSecretFromLog l refundedTopic with
      | Err e => done (Err e)
      | Ok sk => ch <- newErrCh ;; sendEvent (EventETHRefunded sk ch) ;;; done (Ok (Some ch))
      end
  end.

Definition handleClaimedLogs (l : Log) : prog MS (result (option nat)) :=
  id <- getS contractSwapID ;;
  match CheckSwapID l claimedTopic id with
  | Err e => done (if errorsIs e ErrLogNotForUs then Ok None else Err e)
  | Ok _ =>
      clearNextExpectedEvent CompletedSuccess ;;;
      ch <- newErrCh ;; sendEvent (EventExit ch) ;;; done (Ok (Some ch))
  end.

(** One turn of [runContractEventWatcher]: [readyEventSent] is its local
    variable, the second result says whether the goroutine returns. *)
Inductive watchedLog : Type := LogReady (l : Log) | LogRefunded (l : Log) | LogClaimed (l : Log).

Definition watchLog (readyEventSent : bool) (w : watchedLog) : prog MS (bool * bool) :=
  match w with
  | LogReady l =>
      if readyEventSent then done (readyEventSent, false)
      else
        r <- handleReadyLogs l ;;
        done (match r with Ok (Some _) => true | _ => false end, false)
  | LogRefunded l =>
      r <- handleRefundLogs l ;;
      done (readyEventSent, match r with Ok (Some _) => true | _ => false end)
  | LogClaimed l =>
      r <- handleClaimedLogs l ;;
      done (readyEventSent, match r with Ok (Some _) => true | _ => false end)
  end.

End operations.

End Maker.
