(* ===== verification/MakerInstance.v ===== *)
(** * The XMR maker's instance (protocol/xmrmaker: instance.go, net.go,
    min_balance.go, backend_offers.go, and the constructors of swap_state.go)

    [swapStates] maps an offer ID to a pointer into the heap of swap states, and
    each started swap has a goroutine that waits for its [done] channel and then
    deletes the map entry.  The instance's lock makes [HandleInitiateMessage] one
    step. *)

From stdpp Require Import base gmap list strings.
From Stdlib Require Import ZArith Strings.Byte.
From S2P Require Import Prelude Coins Types Swap Offers Bytes Crypto Contracts External Maker.

Open Scope Z_scope.
Open Scope go_scope.

Module MakerInstance.
Import Maker.

Record Instance_ `{TypesLib} `{CryptoLib} : Type := mkInst {
  isys : Sys;
  states : gmap nat swapState;
  nextState : nat;
  swapStates : gmap Hash nat;
  doneWatchers : list (nat * Hash)
}.

Section operations.
Context `{World} `{!InfoJson} `{Apd} `{AbiLib}.

(** Run a method of a swap state that is not shared yet. *)
Definition inState {A} (ss : swapState) (m : prog MS A) : prog Sys (A * swapState) := fun s =>
  match m (mkMS _ _ s ss) with
  | (Done a, ms) => (Done (a, sst ms), sys ms)
  | (o, ms) => (abort o, sys ms)
  end.

(** ** swap_state.go: constructors *)

Definition newSwapState (o : Offer) (extra : OfferExtra) (ethStartNumber moneroStartNumber : Z)
    (l : nat) : prog Sys (result swapState) :=
  _ <-? (if IsToken (oEthAsset o) then
           _ <-? ext (NewIERC20 (oEthAsset o)) ;; ext (NewTxSender (oEthAsset o))
         else ext (NewTxSender (oEthAsset o))) ;;
  _ <-? ext (StartWatcher readyTopic ethStartNumber) ;;
  _ <-? ext (StartWatcher refundedTopic ethStartNumber) ;;
  _ <-? ext (StartWatcher claimedTopic ethStartNumber) ;;
  i <- readInfo l ;;
  done (Ok (mkState _ _ l o extra None None None None zeroAddress EmptyHash None 0 0 None None None
              moneroStartNumber (nextExpectedEventFromStatus (iStatus i)) [] ∅ 0 false false false)).

Definition generateAndSetKeys : prog MS (result unit) :=
  kp <- getS privkeys ;;
  match kp with
  | Some _ => panic "generateAndSetKeys should only be called once"
  | None =>
      rnd <- extS GenerateSecret ;;
      keysAndProof <-? pure (GenerateKeysAndProof rnd) ;;
      modS (setDleqProof (Some (kpProof keysAndProof))) ;;;
      modS (setSecp256k1Pub (Some (kpSecp256k1 keysAndProof))) ;;;
      modS (setPrivkeys (Some (kpPrivate keysAndProof))) ;;;
      modS (setPubkeys (Some (kpPublic keysAndProof))) ;;;
      id <- OfferID ;;
      extS (PutSwapPrivateKey id (kpSpend (kpPrivate keysAndProof)))
  end.

Definition setXMRTakerKeys (sk : Point) (vk : Scalar) (secp : Secp256k1PublicKey)
    : prog MS (result unit) :=
  modS (setXmrtakerPublicSpendKey (Some sk)) ;;;
  modS (setXmrtakerPrivateViewKey (Some vk)) ;;;
  modS (setXmrtakerSecp256K1PublicKey (Some secp)) ;;;
  id <- OfferID ;;
  extS (PutCounterpartySwapKeys id sk vk).

Definition handleSendKeysMessage (msg : SendKeysMessage) : prog MS (result unit) :=
  match skPublicSpendKey msg, skPrivateViewKey msg with
  | Some spend, Some view =>
      verifyResult <-? pure (VerifyKeysAndProof (skDLEqProof msg) (skSecp256k1PublicKey msg) spend) ;;
      setXMRTakerKeys spend view verifyResult.1
  | _, _ => done (Err errMissingKeys)
  end.

(** The message the maker answers with. *)
Definition makeSendKeysMessage : prog MS SendKeysMessage :=
  i <- readS ;;
  pub <- derefS pubkeys ;;
  priv <- derefS privkeys ;;
  proof <- derefS dleqProof ;;
  secp <- derefS secp256k1Pub ;;
  addr <- extS ETHAddress ;;
  done (mkSendKeys _ EmptyHash (Some (iProvidedAmount i)) (Some (pkSpend pub)) (Some (kpView priv))
          (proofBytes proof) secp addr).

Definition newSwapStateFromStart (takerPeerID : string) (o : Offer) (extra : OfferExtra)
    (providesAmount : Decimal) (desiredAmount : EthAssetAmount) : prog Sys (result swapState) :=
  _ <-? (if oeUseRelayer extra then ext (PutSwapRelayerInfo (oID o) extra) else done (Ok tt)) ;;
  height <-? ext XMRGetHeight ;;
  let moneroStart := if MinSpendConfirmations <=? height then height - MinSpendConfirmations else height in
  ethHeader <-? ext HeaderByNumber ;;
  provided <- pure (AsMonero providesAmount) ;;
  expected <- pure (AsStd desiredAmount) ;;
  now1 <- ext Now ;;
  now2 <- ext Now ;;
  l <- newInfoObject (NewInfo now1 now2 takerPeerID (oID o) ProvidesXMR provided expected
                        (oExchangeRate o) (oEthAsset o) KeysExchanged moneroStart) ;;
  _ <-? AddSwap l ;;
  s <-? newSwapState o extra ethHeader moneroStart l ;;
  r <- inState s generateAndSetKeys ;;
  match r.1 with
  | Err e => done (Err e)
  | Ok _ => PushNewStatus (oID o) KeysExchanged ;;; done (Ok r.2)
  end.

(** ** swap_state.go: recovery *)

(** The loop over the filtered logs. [l.Topics[0]] panics on a log without topics. *)
Fixpoint findClaimedLog (logs : list Log) (id : Hash) : outcome bool :=
  match logs with
  | [] => Done false
  | l :: rest =>
      match lgTopics l with
      | [] => Panicked "index out of range"
      | topic :: _ =>
          if negb (bool_decide (topic = claimedTopic)) then findClaimedLog rest id
          else if lgRemoved l then findClaimedLog rest id
          else
            match CheckSwapID l claimedTopic id with
            | Err e => if errorsIs e ErrLogNotForUs then findClaimedLog rest id else Done true
            | Ok _ => Done true
            end
      end
  end.

Definition checkIfAlreadyClaimed (ethSwapInfo : EthereumSwapInfo) : prog Sys (result bool) :=
  _ <-? ext (NewSwapCreator (esSwapCreatorAddr ethSwapInfo)) ;;
  stage <-? ext (ContractSwaps (esSwapCreatorAddr ethSwapInfo) (esSwapID ethSwapInfo)) ;;
  if stage =? StageInvalid then done (Err (Wrapf "contract swap ID" errSwapDoesNotExist))
  else if (stage =? StagePending) || (stage =? StageReady) then done (Ok false)
  else if stage =? StageCompleted then
    logs <-? mapErr (Wrapf "failed to filter logs for topic")
               (ext (FilterLogs (esSwapCreatorAddr ethSwapInfo) (Some (esStartNumber ethSwapInfo)) [])) ;;
    found <- pure (findClaimedLog logs (esSwapID ethSwapInfo)) ;;
    done (Ok found)
  else panic "Unhandled stage value".

Definition completeSwap (l : nat) : prog Sys (result unit) :=
  Info_SetStatus l CompletedSuccess ;;;
  i <- readInfo l ;;
  PushNewStatus (iOfferID i) CompletedSuccess ;;;
  _ <-? mapErr (Wrapf "failed to mark swap as completed") (CompleteOngoingSwap l) ;;
  _ <-? mapErr (Wrapf "failed to delete offer from db") (OfferManager_DeleteOffer (iOfferID i)) ;;
  mapErr (Wrapf "failed to delete temporary swap info from db") (ext (RecoveryDeleteSwap (iOfferID i))).

Definition newSwapStateFromOngoing (o : Offer) (extra : OfferExtra) (ethSwapInfo : EthereumSwapInfo)
    (l : nat) (sk : PrivateKeyPair) : prog Sys (result swapState) :=
  alreadyClaimed <-? checkIfAlreadyClaimed ethSwapInfo ;;
  if alreadyClaimed : bool then
    _ <-? mapErr (Wrapf "failed to complete swap") (completeSwap l) ;;
    done (Err (errorf "swap was already completed successfully"))
  else
  i <- readInfo l ;;
  if negb (bool_decide (iStatus i = XMRLocked)) then done (Err errInvalidStageForRecovery)
  else
  s <-? newSwapState o extra (esStartNumber ethSwapInfo) (iMoneroStartHeight i) l ;;
  r <- inState s
         (_ <-? setContract (esSwapCreatorAddr ethSwapInfo) ;;
          setTimeouts (swTimeout1 (esSwap ethSwapInfo)) (swTimeout2 (esSwap ethSwapInfo)) ;;;
          modS (setPrivkeys (Some sk)) ;;;
          modS (setPubkeys (Some (PrivateKeyPair_PublicKeyPair sk))) ;;;
          modS (setContractSwapID (esSwapID ethSwapInfo)) ;;;
          modS (setContractSwap (Some (esSwap ethSwapInfo))) ;;;
          done (Ok tt)) ;;
  match r.1 with
  | Err e => done (Err e)
  | Ok _ => done (Ok r.2)
  end.

(** ** The instance *)

Definition onInst {A} (m : prog Sys A) : prog Instance_ A :=
  zoom isys (fun x i => mkInst _ _ x (states i) (nextState i) (swapStates i) (doneWatchers i)) m.
Definition extI {A} (c : call A) : prog Instance_ A := onInst (ext c).

(** A method of the swap state at a pointer. *)
Definition onState {A} (p : nat) (m : prog MS A) : prog Instance_ A := fun i =>
  match states i !! p with
  | None => (Panicked "nil pointer dereference", i)
  | Some ss =>
      let '(o, ms) := m (mkMS _ _ (isys i) ss) in
      (o, mkInst _ _ (sys ms) (<[p := sst ms]> (states i)) (nextState i) (swapStates i) (doneWatchers i))
  end.

(** The pointer of a new swap state, with the goroutine that waits for its end. *)
Definition startState (ss : swapState) (id : Hash) : prog Instance_ nat := fun i =>
  (Done (nextState i),
   mkInst _ _ (isys i) (<[nextState i := ss]> (states i)) (S (nextState i)) (swapStates i)
     ((nextState i, id) :: doneWatchers i)).

Definition putSwapState (id : Hash) (p : nat) : prog Instance_ unit :=
  modify (fun i => mkInst _ _ (isys i) (states i) (nextState i) (<[id := p]> (swapStates i)) (doneWatchers i)).

(** The goroutine of [startState] when the swap is done. *)
Definition reapDone (w : nat * Hash) : prog Instance_ unit := fun i =>
  match states i !! w.1 with
  | Some ss =>
      if doneClosed ss
      then (Done tt, mkInst _ _ (isys i) (states i) (nextState i) (delete w.2 (swapStates i))
                       (filter (fun x => x ≠ w) (doneWatchers i)))
      else (Blocked, i)
  | None => (Blocked, i)
  end.

(** ** instance.go *)

Definition abortOngoingSwap (l : nat) : prog Sys (result unit) :=
  updateInfo (assignStatus CompletedAbort) l ;;;
  _ <-? CompleteOngoingSwap l ;;
  i <- readInfo l ;;
  ext (RecoveryDeleteSwap (iOfferID i)).

(** [Instance.completeSwap]: reclaim the XMR with the stored secrets. *)
Definition Instance_completeSwap (l : nat) (skA : Scalar) : prog Sys (result unit) :=
  i <- readInfo l ;;
  skB <-? ext (GetSwapPrivateKey (iOfferID i)) ;;
  vkB <-? done (View skB) ;;
  keys <-? ext (GetCounterpartySwapKeys (iOfferID i)) ;;
  let kpAB := GetClaimKeypair skA skB keys.2 vkB in
  addr <- ext XMRPrimaryAddress ;;
  _ <-? ClaimMonero l kpAB addr false ;;
  updateInfo (assignStatus CompletedRefund) l ;;;
  mapErr (Wrapf "failed to mark swap as completed") (CompleteOngoingSwap l).

Definition createOngoingSwap (l : nat) : prog Instance_ (result unit) :=
  i <- onInst (readInfo l) ;;
  let id := iOfferID i in
  r <- extI (GetCounterpartySwapPrivateKey id) ;;
  match r with
  | Ok skA => onInst (Instance_completeSwap l skA)
  | Err _ =>
      oe <-? mapErr (Wrapf "failed to get offer for ongoing swap") (onInst (TakeOffer id)) ;;
      ethSwapInfo <-? mapErr (Wrapf "failed to get contract info for ongoing swap")
                        (extI (GetContractSwapInfo id)) ;;
      sk <-? mapErr (Wrapf "failed to get private key for ongoing swap") (extI (GetSwapPrivateKey id)) ;;
      kp <-? done (AsPrivateKeyPair sk) ;;
      rel <- extI (GetSwapRelayerInfo id) ;;
      let relayerInfo := match rel with Ok e => e | Err _ => NewOfferExtra false end in
      ss <-? mapErr (Wrapf "failed to create new swap state for ongoing swap")
               (onInst (newSwapStateFromOngoing oe.1 relayerInfo ethSwapInfo l kp)) ;;
      p <- startState ss (oID oe.1) ;;
      putSwapState id p ;;;
      done (Ok tt)
  end.

(** The loop body of [checkForOngoingSwaps]. *)
Definition recoverSwap (l0 : nat) : prog Instance_ (result unit) :=
  i0 <- onInst (readInfo l0) ;;
  l <-? onInst (GetOngoingSwap (iOfferID i0)) ;;
  i <- onInst (readInfo l) ;;
  if negb (bool_decide (iProvides i = ProvidesXMR)) then done (Ok tt)
  else if bool_decide (iStatus i = KeysExchanged ∨ iStatus i = ExpectingKeys) then
    mapErr (Wrapf "failed to abort ongoing swap") (onInst (abortOngoingSwap l))
  else if bool_decide (iStatus i = SweepingXMR) then
    onInst (updateInfo (assignStatus CompletedRefund) l) ;;;
    mapErr (Wrapf "failed to mark swap as completed") (onInst (CompleteOngoingSwap l))
  else
    createOngoingSwap l ;;; done (Ok tt).

Fixpoint recoverSwaps (ls : list nat) : prog Instance_ (result unit) :=
  match ls with
  | [] => done (Ok tt)
  | l :: rest => _ <-? recoverSwap l ;; recoverSwaps rest
  end.

Definition checkForOngoingSwaps : prog Instance_ (result unit) :=
  ongoingIDs <-? onInst GetOngoingSwapOfferIDs ;;
  recoverSwaps ongoingIDs.

Definition NewInstance : prog Instance_ (result unit) :=
  _ <-? onInst NewOfferManager ;;
  n <- onInst NumOffers ;;
  (if bool_decide (0 < n)%nat then extI Advertise else done tt) ;;;
  modify (fun i => mkInst _ _ (isys i) ∅ 0 ∅ []) ;;;
  checkForOngoingSwaps.

Definition GetOngoingSwapState (id : Hash) : prog Instance_ (option nat) :=
  gets (fun i => swapStates i !! id).

(** ** net.go *)

(** Handle the next [n] events of a swap. *)
Fixpoint handleEvents (code : bytes) (n : nat) : prog MS unit :=
  match n with
  | O => done tt
  | S n' => runHandleEvent code ;;; handleEvents code n'
  end.

(** [s.Exit()] from a goroutine that waits for the answer: the events ahead of
    the exit event are handled first. *)
Definition callExit (code : bytes) : prog MS unit :=
  ch <- Exit ;;
  q <- getS eventCh ;;
  handleEvents code (length q) ;;;
  c <- derefS (fun s => errChs s !! ch) ;;
  match delivered c with
  | Some _ => done tt
  | None => block
  end.

Definition initiate (code : bytes) (takerPeerID : string) (o : Offer) (extra : OfferExtra)
    (providesAmount : Decimal) (desiredAmount : EthAssetAmount) : prog Instance_ (result nat) :=
  cur <- gets (fun i => swapStates i !! oID o) ;;
  match cur with
  | Some _ => done (Err errProtocolAlreadyInProgress)
  | None =>
      balance <-? extI XMRGetBalance ;;
      let unlockedBal := NewPiconeroAmount balance.2 in
      if apdCmp unlockedBal providesAmount <=? 0 then done (Err errBalanceTooLow)
      else
      _ <-? onInst (TakeOffer (oID o)) ;;
      s <-? onInst (newSwapStateFromStart takerPeerID o extra providesAmount desiredAmount) ;;
      p <- startState s (oID o) ;;
      symbol <- onInst (AssetSymbol (oEthAsset o)) ;;
      match symbol with
      | Err e => onState p (callExit code) ;;; done (Err e)
      | Ok _ => putSwapState (oID o) p ;;; done (Ok p)
      end
  end.

(** The XMR the maker would provide for the amount in a taker's message. *)
Definition priceTake (msg : SendKeysMessage) (o : Offer)
    : prog Instance_ (result (EthAssetAmount * Decimal)) :=
  token <-? (if IsToken (oEthAsset o) then
               t <-? extI (ERC20Info (oEthAsset o)) ;; done (Ok (Some t))
             else done (Ok None)) ;;
  let maxDecimals := match token with Some t => tokNumDecimals t | None => NumEtherDecimals end in
  let '(err, provided) := ValidatePositive "providedAmount" maxDecimals (skProvidedAmount msg) in
  match err with
  | Some e => done (Err e)
  | None =>
      amt <- pure (deref provided) ;;
      expectedAmount <- pure (NewEthAssetAmount amt token) ;;
      rate <- pure (deref (oExchangeRate o)) ;;
      providedAmtAsXMR <-? pure (ToXMR rate expectedAmount) ;;
      minAmount <- pure (deref (oMinAmount o)) ;;
      if apdCmp providedAmtAsXMR minAmount <? 0 then done (Err errAmountProvidedTooLow)
      else
      maxAmount <- pure (deref (oMaxAmount o)) ;;
      if 0 <? apdCmp providedAmtAsXMR maxAmount then done (Err errAmountProvidedTooHigh)
      else
        providedPiconero <- pure (MoneroToPiconero providedAmtAsXMR) ;;
        done (Ok (expectedAmount, providedPiconero))
  end.

Definition HandleInitiateMessage (code : bytes) (takerPeerID : string) (msg : SendKeysMessage)
    : prog Instance_ (result nat) :=
  if IsHashZero (skOfferID msg) then done (Err errMakerOfferIDNotSet)
  else
  oe <-? onInst (GetOffer (skOfferID msg)) ;;
  amounts <-? priceTake msg oe.1 ;;
  p <-? initiate code takerPeerID oe.1 oe.2 amounts.2 amounts.1 ;;
  r <- onState p (handleSendKeysMessage msg) ;;
  match r with
  | Err e => onState p (callExit code) ;;; done (Err e)
  | Ok _ =>
      resp <- onState p makeSendKeysMessage ;;
      sent <- extI (SendSwapMessage (MsgSendKeys resp) (oID oe.1)) ;;
      match sent with
      | Err e =>
          onState p (callExit code) ;;;
          done (Err (Wrapf "failed to send SendKeysMessage to remote peer" e))
      | Ok _ => done (Ok p)
      end
  end.

(** ** min_balance.go and backend_offers.go *)

Definition MaxClaimTokenGas : Z := 48416.

Definition validateMinBalance (offerMaxAmt : option Decimal) (ethAsset : Address) : prog Sys (result unit) :=
  piconeroBalance <-? ext XMRGetBalance ;;
  unlockedBalance <- pure (AsMonero (NewPiconeroAmount piconeroBalance.2)) ;;
  maxAmount <- pure (deref offerMaxAmt) ;;
  if apdCmp unlockedBalance maxAmount <=? 0 then done (Err errUnlockedBalanceTooLow)
  else if IsToken ethAsset then
    gasPriceWei <-? ext SuggestGasPrice ;;
    requiredETHToClaimTokens <- pure (AsEther (NewWeiAmount (MaxClaimTokenGas * gasPriceWei))) ;;
    weiBalance <-? ext ETHBalance ;;
    ethBalance <- pure (AsEther weiBalance) ;;
    if apdCmp ethBalance requiredETHToClaimTokens <=? 0 then done (Err errETHBalanceTooLowForTokenSwap)
    else done (Ok tt)
  else done (Ok tt).

Definition MakeOffer (o : Offer) (useRelayer : bool) : prog Sys (result OfferExtra) :=
  _ <-? validateMinBalance (oMaxAmount o) (oEthAsset o) ;;
  _ <-? (if IsToken (oEthAsset o) then
           if useRelayer then done (Err errRelayingWithNonEthAsset)
           else
             token <-? ext (ERC20Info (oEthAsset o)) ;;
             rate <- pure (deref (oExchangeRate o)) ;;
             minAmount <- pure (deref (oMinAmount o)) ;;
             _ <-? pure (ToERC20Amount rate minAmount token) ;;
             maxAmount <- pure (deref (oMaxAmount o)) ;;
             _ <-? pure (ToERC20Amount rate maxAmount token) ;;
             done (Ok tt)
         else done (Ok tt)) ;;
  extra <-? AddOffer o useRelayer ;;
  ext Advertise ;;;
  done (Ok extra).

Definition ClearOffers (offerIDs : list Hash) : prog Sys (result unit) :=
  match offerIDs with
  | [] => ClearAllOffers
  | _ => ClearOfferIDs offerIDs
  end.

End operations.

End MakerInstance.
