(* ===== verification/TraceLogic.v ===== *)
(** * Reasoning about the trace of calls

    A run only ever adds observations to the trace.  [emits p s s'] says that the
    observations added between two states all satisfy [p]; it is a preorder, so
    the [keeps] rules of the prelude apply to it.  [reaches] is the converse: a
    composite program that emitted something its first part cannot emit has
    completed its first part. *)

From stdpp Require Import base gmap list strings.
From Stdlib Require Import ZArith.
From S2P Require Import Prelude Coins Types Swap Offers Bytes Crypto Contracts External.

Open Scope Z_scope.
Open Scope go_scope.

(** States that contain the daemon's. *)
Class HasSys `{TypesLib} `{CryptoLib} (S : Type) := sysOf : S → Sys.

Section trace.
Context `{World} {S : Type} `{!HasSys S}.

Definition emits (p : obs → bool) (s s' : S) : Prop :=
  ∃ new, trace (sysOf s') = new ++ trace (sysOf s) ∧ forallb p new = true.

(** The observations made between two states, the latest first. *)
Definition newObs (s s' : S) : list obs :=
  take (length (trace (sysOf s')) - length (trace (sysOf s))) (trace (sysOf s')).

#[export] Instance emits_preorder p : PreOrder (emits p).
Proof.
  split.
  - intros s. by exists [].
  - intros a b c (n1 & E1 & F1) (n2 & E2 & F2). exists (n2 ++ n1).
    rewrite E2, E1, app_assoc. split; [done |]. by rewrite forallb_app, F1, F2.
Qed.

Lemma newObs_app s s' new :
  trace (sysOf s') = new ++ trace (sysOf s) → newObs s s' = new.
Proof.
  intros E. unfold newObs. rewrite E, length_app.
  replace (length new + length (trace (sysOf s)) - length (trace (sysOf s)))%nat with (length new) by lia.
  apply take_app_length.
Qed.

Lemma emits_newObs p s s' : emits p s s' → forallb p (newObs s s') = true.
Proof. intros (new & E & F). by rewrite (newObs_app s s' new). Qed.

(** A run with an observation is not one without. *)
Lemma not_emitted (p : obs → bool) s s' :
  existsb p (newObs s s') = true → ¬ emits (fun o => negb (p o)) s s'.
Proof.
  intros He Hem. apply emits_newObs in Hem. apply existsb_exists in He as (o & Ho & Hp).
  rewrite forallb_forall in Hem. specialize (Hem o Ho). cbn beta in Hem. by rewrite Hp in Hem.
Qed.

Lemma newObs_same s : newObs s s = [].
Proof. by apply newObs_app. Qed.

Lemma emits_weaken (p q : obs → bool) s s' :
  (∀ o, p o = true → q o = true) → emits p s s' → emits q s s'.
Proof.
  intros Hpq (new & E & F). exists new. split; [done |].
  rewrite forallb_forall in F |- *. auto.
Qed.

(** Everything runs forward. *)
Definition forward : S → S → Prop := emits (fun _ => true).

Lemma emits_forward p s s' : emits p s s' → forward s s'.
Proof. apply emits_weaken. done. Qed.

(** The call [c] was made between two states, and answered [a]. *)
Definition saw {A} (c : call A) (a : A) (s s' : S) : Prop :=
  ∃ post pre, trace (sysOf s') = post ++ Obs c a :: pre ++ trace (sysOf s).

Lemma saw_later {A} (c : call A) a s s1 s2 : saw c a s s1 → forward s1 s2 → saw c a s s2.
Proof.
  intros (post & pre & E) (new & E2 & _). exists (new ++ post), pre.
  by rewrite E2, E, <- app_assoc.
Qed.

Lemma saw_earlier {A} (c : call A) a s s1 s2 : forward s s1 → saw c a s1 s2 → saw c a s s2.
Proof.
  intros (new & E2 & _) (post & pre & E). exists post, (pre ++ new).
  by rewrite E, E2, <- app_assoc.
Qed.

Lemma saw_widen {A} (c : call A) a s0 s1 s2 s3 :
  saw c a s1 s2 → forward s0 s1 → forward s2 s3 → saw c a s0 s3.
Proof. intros Hs F G. eapply saw_later; [| exact G]. by eapply saw_earlier. Qed.

(** A program that emitted something its first part cannot emit has gone on. *)
Lemma emits_bind_inv {A B} p (m : prog S A) (k : A → prog S B) s :
  keeps (emits p) m → ¬ emits p s (pbind m k s).2 →
  ∃ a s1, m s = (Done a, s1) ∧ emits p s s1 ∧ ¬ emits p s1 (k a s1).2 ∧
          pbind m k s = k a s1.
Proof.
  intros Hm Hn. specialize (Hm s). unfold pbind in *.
  destruct (m s) as [[a|?| |] s1] eqn:E; simpl in *; try contradiction.
  exists a, s1. split; [done |]. split; [done |]. split; [| done].
  intros Hk. apply Hn. by etrans.
Qed.

Lemma emits_try_inv {A B} p (m : prog S (result A)) (k : A → prog S (result B)) s :
  keeps (emits p) m → ¬ emits p s (tryBind m k s).2 →
  ∃ a s1, m s = (Done (Ok a), s1) ∧ emits p s s1 ∧ ¬ emits p s1 (k a s1).2 ∧
          tryBind m k s = k a s1.
Proof.
  intros Hm Hn.
  destruct (emits_bind_inv p m _ s Hm Hn) as ([a|e] & s1 & E & Hs & Hk & Eq).
  - eauto 10.
  - destruct Hk. simpl. reflexivity.
Qed.

(** The second part of a program adds to what the first part did. *)
Lemma bind_after {A B} (R : S → S → Prop) `{!PreOrder R} (m : prog S A) (k : A → prog S B) s :
  (∀ a, keeps R (k a)) → R (m s).2 (pbind m k s).2.
Proof.
  intros Hk. unfold pbind. destruct (m s) as [[a|?| |] s1]; simpl; try reflexivity. apply Hk.
Qed.

Lemma try_after {A B} (R : S → S → Prop) `{!PreOrder R} (m : prog S (result A)) (k : A → prog S (result B)) s :
  (∀ a, keeps R (k a)) → R (m s).2 (tryBind m k s).2.
Proof. intros Hk. unfold tryBind. apply bind_after; [done |]. intros [a|e]; [apply Hk | by apply keeps_done]. Qed.

Lemma mapErr_after {A} f (m : prog S (result A)) s : (mapErr f m s).2 = (m s).2.
Proof. unfold mapErr, pbind. by destruct (m s) as [[?|?| |] ?]. Qed.

Lemma emits_mapErr_inv {A} p f (m : prog S (result A)) s :
  ¬ emits p s (mapErr f m s).2 → ¬ emits p s (m s).2.
Proof.
  intros Hn Hm. apply Hn. unfold mapErr, pbind. destruct (m s) as [[a|?| |] s1]; exact Hm.
Qed.

End trace.

(** ** Calls and the managers *)

Section sys_trace.
Context `{World} `{!InfoJson}.

#[export] Instance sysHasSys : HasSys Sys := id.

Lemma returning_ext {A} (c : call A) : returning (ext c).
Proof. done. Qed.

Lemma keeps_ext {A} p (c : call A) : (∀ a, p (Obs c a) = true) → keeps (emits p) (ext c).
Proof. intros Hp s. exists [Obs c (answer A (clock s) c)]. simpl. by rewrite Hp. Qed.

(** The observations a swap manager or an offer manager may make. *)
Definition isDbObs (o : obs) : bool :=
  match o with
  | Obs (PutSwap _) _ | Obs (GetSwap _) _ | Obs GetAllSwaps _ | Obs Now _
  | Obs (PutOffer _) _ | Obs (DbDeleteOffer _) _ | Obs GetAllOffers _ | Obs DbClearAllOffers _ => true
  | _ => false
  end.

Context (p : obs → bool) (Hp : ∀ o, isDbObs o = true → p o = true).

Lemma keeps_dbPutSwap i : keeps (emits p) (dbPutSwap i : prog Sys _).
Proof using Hp. apply keeps_ext. intros a. by apply Hp. Qed.
Lemma keeps_timeNow : keeps (emits p) (timeNow : prog Sys _).
Proof using Hp. apply keeps_ext. intros a. by apply Hp. Qed.
Lemma keeps_dbPutOffer o : keeps (emits p) (dbPutOffer o : prog Sys _).
Proof using Hp. apply keeps_ext. intros a. by apply Hp. Qed.
Lemma keeps_dbDeleteOffer i : keeps (emits p) (dbDeleteOffer i : prog Sys _).
Proof using Hp. apply keeps_ext. intros a. by apply Hp. Qed.

(** Changes of the state that make no call. *)
Lemma keeps_silent {A} (m : prog Sys A) : (∀ s, trace (m s).2 = trace s) → keeps (emits p) m.
Proof using. intros Hm s. exists []. split; [exact (Hm s) | done]. Qed.

Lemma emits_readInfo l : keeps (emits p) (readInfo l : prog Sys _).
Proof using.
  apply keeps_silent. intros s. unfold readInfo. by destruct (infos _ !! l).
Qed.

Lemma emits_withManager f : keeps (emits p) (withManager f : prog Sys _).
Proof using. apply keeps_silent. done. Qed.
Lemma emits_onManager {A} (f : manager → A * manager) : keeps (emits p) (onManager f : prog Sys _).
Proof using.
  apply keeps_silent. intros s. unfold onManager, zoom. by destruct (f _).
Qed.
Lemma emits_withOffers f : keeps (emits p) (withOffers f : prog Sys _).
Proof using. apply keeps_silent. done. Qed.

Hint Resolve keeps_dbPutSwap keeps_timeNow keeps_dbPutOffer keeps_dbDeleteOffer emits_readInfo
  emits_withManager emits_onManager emits_withOffers : keeps.

Lemma emits_updateInfo f l : keeps (emits p) (updateInfo f l : prog Sys _).
Proof using. unfold updateInfo. keeps_auto. Qed.
Hint Resolve emits_updateInfo : keeps.

Lemma emits_Info_SetStatus l st : keeps (emits p) (Info_SetStatus l st : prog Sys _).
Proof using Hp. unfold Info_SetStatus. keeps_auto. Qed.

Lemma emits_PushNewStatus id st : keeps (emits p) (PushNewStatus id st : prog Sys _).
Proof using. unfold PushNewStatus, sendStatus, getStatusChan, newStatusChannel, DeleteStatusChan. keeps_auto. Qed.

Lemma emits_WriteSwapToDB l : keeps (emits p) (WriteSwapToDB l : prog Sys _).
Proof using Hp. unfold WriteSwapToDB. keeps_auto. Qed.

Lemma emits_AddSwap l : keeps (emits p) (AddSwap l : prog Sys _).
Proof using Hp. unfold AddSwap. keeps_auto. Qed.

Lemma emits_CompleteOngoingSwap l : keeps (emits p) (CompleteOngoingSwap l : prog Sys _).
Proof using Hp. unfold CompleteOngoingSwap. keeps_auto. Qed.

Lemma emits_AddOffer o b : keeps (emits p) (AddOffer o b : prog Sys _).
Proof using Hp. unfold AddOffer. keeps_auto. Qed.

Lemma emits_TakeOffer id : keeps (emits p) (TakeOffer id : prog Sys _).
Proof using. unfold TakeOffer. keeps_auto. Qed.

Lemma emits_DeleteOffer id : keeps (emits p) (OfferManager_DeleteOffer id : prog Sys _).
Proof using Hp. unfold OfferManager_DeleteOffer. keeps_auto. Qed.

End sys_trace.

(** ** The swaps' records *)

Section sys_infos.
Context `{World} `{!InfoJson}.

(** The [Info] objects are left alone. *)
Definition sameInfos : Sys → Sys → Prop := agreeing (fun s => infos (mgr s)).

Lemma sameInfos_silent {A} (m : prog Sys A) : (∀ s, infos (mgr (m s).2) = infos (mgr s)) → keeps sameInfos m.
Proof. intros Hm s. apply Hm. Qed.

Lemma sameInfos_ext {A} (c : call A) : keeps sameInfos (ext c).
Proof. done. Qed.

Lemma sameInfos_PushNewStatus id st : keeps sameInfos (PushNewStatus id st : prog Sys _).
Proof.
  unfold PushNewStatus, sendStatus, getStatusChan, newStatusChannel, DeleteStatusChan, onManager, withManager.
  keeps_auto; first [apply keeps_modify; done | apply keeps_zoom; done].
Qed.

Lemma readInfo_inv l s i s1 :
  readInfo l s = (Done i, s1) → infos (mgr s) !! l = Some i ∧ s1 = s.
Proof.
  unfold readInfo. simpl. destruct (infos (mgr s) !! l); intros [= <- <-]; auto.
Qed.

Lemma updateInfo_inv f l s s1 :
  updateInfo f l s = (Done tt, s1) →
  ∃ i, infos (mgr s) !! l = Some i ∧ s1 = setMgr (setInfos (<[l := f i]> (infos (mgr s))) (mgr s)) s.
Proof.
  unfold updateInfo. intros Hr. apply pbind_inv_Done in Hr as (i & s2 & Hr & Hw).
  apply readInfo_inv in Hr as [Hi ->]. exists i. split; [done |]. by inversion Hw.
Qed.

Lemma Info_SetStatus_inv l st s s1 :
  Info_SetStatus l st s = (Done tt, s1) →
  ∃ now i, infos (mgr s) !! l = Some i ∧ infos (mgr s1) !! l = Some (SetStatus now st i) ∧
           trace s1 = Obs Now now :: trace s.
Proof.
  unfold Info_SetStatus. intros Hr. apply pbind_inv_Done in Hr as (now & s2 & Hn & Hu).
  apply updateInfo_inv in Hu as (i & Hi & ->). inversion Hn; subst.
  exists (answer Z (clock s) Now), i. simpl in *. rewrite lookup_insert_eq. auto.
Qed.

Lemma WriteSwapToDB_inv l s r s1 :
  WriteSwapToDB l s = (Done r, s1) →
  ∃ i, infos (mgr s) !! l = Some i ∧ trace s1 = Obs (PutSwap i) r :: trace s.
Proof.
  unfold WriteSwapToDB. intros Hr. apply pbind_inv_Done in Hr as (i & s2 & Hr & Hw).
  apply readInfo_inv in Hr as [Hi ->]. exists i. split; [done |]. by inversion Hw.
Qed.

(** There is room in the status channel of a swap. *)
Definition statusRoom (id : Hash) (m : manager) : Prop :=
  (length (default [] (statusChannels m !! id ≫= (chans m !!.))) < statusChSize)%nat.

(** The swaps a manager knows. *)
Definition sameSwaps (m m' : manager) : Prop :=
  infos m' = infos m ∧ ongoing m' = ongoing m ∧ past m' = past m.

Lemma PushNewStatus_sys id st b s :
  IsOngoing st = Done b → statusRoom id (mgr s) →
  ∃ m', PushNewStatus id st s = (Done tt, setMgr m' s) ∧ sameSwaps (mgr s) m'.
Proof.
  intros Hb Hroom. unfold PushNewStatus, getStatusChan, sendStatus, newStatusChannel, onManager,
    withManager, DeleteStatusChan, pbind, gets, modify, zoom, statusRoom in *. simpl in *.
  destruct (statusChannels (mgr s) !! id) as [c|] eqn:Hc; simpl in *.
  - assert ((length (default [] (chans (mgr s) !! c)) <? statusChSize)%nat = true) as -> by (by apply Nat.ltb_lt).
    unfold pure. rewrite Hb. simpl. destruct b; simpl; eexists; split; [reflexivity | done | reflexivity | done].
  - rewrite lookup_insert_eq. simpl. unfold pure. rewrite Hb.
    destruct b; simpl; eexists; split; [reflexivity | done | reflexivity | done].
Qed.

Lemma CompleteOngoingSwap_sys l i k s :
  infos (mgr s) !! l = Some i → ongoing (mgr s) !! iOfferID i = Some k →
  ∃ now r s', CompleteOngoingSwap l s = (Done r, s') ∧
    r = answer _ (S (clock s)) (PutSwap (MarkSwapComplete now i)) ∧ clock s' = S (S (clock s)) ∧
    infos (mgr s') = <[l := MarkSwapComplete now i]> (infos (mgr s)) ∧
    ongoing (mgr s') = delete (iOfferID i) (ongoing (mgr s)) ∧
    past (mgr s') = <[iOfferID i := l]> (past (mgr s)) ∧
    statusChannels (mgr s') = statusChannels (mgr s) ∧ chans (mgr s') = chans (mgr s) ∧
    offerCache s' = offerCache s.
Proof.
  intros Hl Hk. unfold CompleteOngoingSwap, updateInfo, readInfo, withManager, pbind, gets, modify, timeNow.
  simpl. rewrite Hl. simpl. rewrite Hk. simpl. rewrite Hl. simpl. rewrite lookup_insert_eq. simpl.
  eexists _, _, _. split; [reflexivity |]. done.
Qed.

End sys_infos.
