(* ===== verification/RelayerProofs.v ===== *)
(** * Theorems on relayed claims *)

From stdpp Require Import base gmap list strings.
From Stdlib Require Import ZArith Strings.Byte.
From S2P Require Import Prelude Coins Types Swap Offers Bytes Crypto Contracts External TraceLogic Relayer.

Open Scope Z_scope.
Open Scope go_scope.

(** What the signature library promises: "the produced signature is in the
    [[R || S || V]] format where V is 0 or 1", and the public key recovered from a
    signature is the signer's. *)
Class SigSpec `{SigLib} : Prop := {
  sign_format k d sig : ethSign k d = Ok sig →
    ∃ rs v, sig = rs ++ [v] ∧ length rs = 64%nat ∧ 0 ≤ byteZ v ≤ 1;
  sign_recover k d sig : ethSign k d = Ok sig →
    ∃ pub, ecrecover d sig = Ok pub ∧ unmarshalPubkey pub = Ok (publicKey k)
}.

Module RelayerProofs.
Import Relayer.

(** ** Signatures *)

Section signatures.
Context `{AL : AbiLib} `{SigSpec}.

Lemma addToByte64_snoc d rs v : length rs = 64%nat →
  addToByte64 d (rs ++ [v]) = Done (rs ++ [zByte (byteZ v + d)]).
Proof.
  intros Hl. unfold addToByte64.
  rewrite lookup_app_r, Hl by lia. cbn. rewrite insert_app_r_alt, Hl by lia. done.
Qed.

(** Adding 27 and taking it away again. *)
Lemma addToByte64_back rs v : length rs = 64%nat →
  addToByte64 (-27) (rs ++ [zByte (byteZ v + 27)]) = Done (rs ++ [v]).
Proof.
  intros Hl. rewrite addToByte64_snoc by done. do 4 f_equal.
  rewrite byteZ_zByte, <- zByte_mod, Zplus_mod_idemp_l, zByte_mod.
  replace (byteZ v + 27 + -27) with (byteZ v) by lia. apply zByte_byteZ.
Qed.

End signatures.

Section proofs.
Context `{World} `{!AbiLib} `{!Apd} `{!InfoJson} `{SL : SigLib}.

(** ** Validation *)

(** What a relayer checked of a request for the address hash of [salt]. *)
Record relayChecks (code : bytes) (req : RelayClaimRequest) (rs : SwapCreatorRelaySwap)
    (our : Address) (salt : bytes) (creator : Address) (s s' : Sys) : Prop := {
  rk_whole : rqRelaySwap req = relaySwapMsg rs;
  rk_creator : rsSwapCreator rs = creator ∨
    rqOfferID req = None ∧ saw (CodeAt (rsSwapCreator rs)) (Ok code) s s';
  rk_asset : swAsset (rsSwap rs) = EthAssetETH;
  rk_value : RelayerFeeWei < swValue (rsSwap rs);
  rk_hash : rsRelayerHash rs = ethKeccak256 (our ++ salt);
  rk_fee : RelayerFeeWei ≤ rsFee rs;
  rk_signed : ∃ msg sig signer pub, RelaySwap_Hash rs = Done msg ∧
    addToByte64 (-27) (goCopy 65 (rqSignature req)) = Done sig ∧ ecrecover msg sig = Ok signer ∧
    unmarshalPubkey signer = Ok pub ∧ pubkeyToAddress pub = swClaimer (rsSwap rs)
}.

Lemma wholeRelaySwap_inv m rs : wholeRelaySwap m = Done rs → m = relaySwapMsg rs.
Proof.
  destruct m as [[sw|] [fee|] h a]; try done. cbn. intros [= <-]. done.
Qed.

Lemma wholeRelaySwap_msg rs : wholeRelaySwap (relaySwapMsg rs) = Done rs.
Proof. by destruct rs. Qed.

Lemma ext_saw {A} (c : call A) s a s1 : ext c s = (Done a, s1) → saw c a s s1 ∧ forward s s1.
Proof. intros [= <- <-]. split; [by exists [], [] | by exists [Obs c (answer A (clock s) c)]]. Qed.

Lemma CheckCode_saw code addr s s' :
  CheckSwapCreatorContractCode code addr s = (Done (Ok tt), s') → saw (CodeAt addr) (Ok code) s s' ∧ forward s s'.
Proof.
  unfold CheckSwapCreatorContractCode, checkCode. intros E.
  apply pbind_inv_Done in E as ([c|e] & s1 & Hm & E); [|done].
  apply mapErr_Ok_run in Hm. apply ext_saw in Hm as [Hs Hf].
  destruct (bool_decide (length c = length code)); [|done]. cbn in E.
  destruct (bool_decide_reflect (code = c)) as [->|]; [|done]. injection E as <-. done.
Qed.

Lemma validateClaimSignature_inv req : validateClaimSignature req = Done (Ok tt) →
  ∃ rs, rqRelaySwap req = relaySwapMsg rs ∧ ∃ msg sig signer pub, RelaySwap_Hash rs = Done msg ∧
    addToByte64 (-27) (goCopy 65 (rqSignature req)) = Done sig ∧ ecrecover msg sig = Ok signer ∧
    unmarshalPubkey signer = Ok pub ∧ pubkeyToAddress pub = swClaimer (rsSwap rs).
Proof.
  unfold validateClaimSignature. destruct (wholeRelaySwap _) as [rs| | |] eqn:Ew; [|done..].
  apply wholeRelaySwap_inv in Ew. cbn [obind].
  destruct (RelaySwap_Hash rs) as [msg| | |] eqn:Eh; [|done..]. cbn [obind].
  destruct (addToByte64 _ _) as [sig| | |] eqn:Ea; [|done..]. cbn [obind].
  destruct (ecrecover msg sig) as [signer|] eqn:Er; [|done].
  destruct (unmarshalPubkey signer) as [pub|] eqn:Eu; [|done].
  case_bool_decide; [|done]. intros _. exists rs. split; [done|]. by exists msg, sig, signer, pub.
Qed.

Lemma validateClaimRequest_inv code req our salt creator s s' :
  validateClaimRequest code req our salt creator s = (Done (Ok tt), s') →
  ∃ rs, relayChecks code req rs our salt creator s s' ∧ forward s s'.
Proof.
  unfold validateClaimRequest. intros E.
  apply pbind_inv_Done in E as ([[]|e] & s1 & Hm & E); [|done]. injection E as Hsig <-.
  apply validateClaimSignature_inv in Hsig as (rs & Hrs & Hsig). unfold validateClaimValues in Hm.
  rewrite Hrs in Hm. apply pbind_inv_Done in Hm as ([[]|e] & s2 & Hc & Hm); [|done].
  unfold assetOf in Hm. cbn [relaySwapMsg rmSwap rmFee rmRelayerHash rmSwapCreator] in Hm, Hc.
  destruct (bool_decide_reflect (swAsset (rsSwap rs) = EthAssetETH)); [|done]. cbn in Hm.
  destruct (Z.leb_spec (swValue (rsSwap rs)) RelayerFeeWei); [done|].
  destruct (bool_decide_reflect (rsRelayerHash rs = ethKeccak256 (our ++ salt))); [|done].
  cbn in Hm. destruct (Z.ltb_spec (rsFee rs) RelayerFeeWei); [done|].
  injection Hm as <-. exists rs.
  destruct (bool_decide_reflect (rsSwapCreator rs = creator)); cbn [negb] in Hc.
  - injection Hc as <-. split; [|reflexivity]. constructor; auto.
  - destruct (rqOfferID req) as [id|] eqn:Hid; [done|]. rewrite bool_decide_false in Hc by by intros [].
    apply CheckCode_saw in Hc as [Hs Hf]. split; [|done]. constructor; auto.
Qed.

(** ** Sending *)

Definition isRelayTx (o : obs) : bool :=
  match o with Obs (ContractClaimRelayer _ _ _ _ _ _ _ _ _ _) _ => true | _ => false end.

Definition noRelayTx (o : obs) : bool := negb (isRelayTx o).

Lemma emits_ext_noRelay {A} (c : call A) : (∀ a, noRelayTx (Obs c a) = true) → keeps (emits noRelayTx) (ext c).
Proof. apply keeps_ext. Qed.

Hint Extern 1 (keeps (emits noRelayTx) (ext _)) => (apply emits_ext_noRelay; reflexivity) : keeps.

Lemma emits_CheckCode code addr : keeps (emits noRelayTx) (CheckSwapCreatorContractCode code addr).
Proof. unfold CheckSwapCreatorContractCode, checkCode. keeps_auto. Qed.
Hint Resolve emits_CheckCode : keeps.

Lemma emits_validateClaimRequest code req our salt creator :
  keeps (emits noRelayTx) (validateClaimRequest code req our salt creator).
Proof. unfold validateClaimRequest, validateClaimValues. keeps_auto. Qed.

Lemma emits_minBalance : keeps (emits noRelayTx) checkForMinClaimBalance.
Proof. unfold checkForMinClaimBalance. keeps_auto. Qed.

Lemma emits_simulate gas gp rs sec our salt v r s :
  keeps (emits noRelayTx) (simulateClaimRelayer gas gp rs sec our salt v r s).
Proof. unfold simulateClaimRelayer. keeps_auto. Qed.

Hint Resolve emits_validateClaimRequest emits_minBalance emits_simulate : keeps.

(** The lock of the wallet. *)
Definition isUnlock (o : obs) : bool := match o with Obs ETHUnlock _ => true | _ => false end.
Definition noUnlock (o : obs) : bool := negb (isUnlock o).

(** The lock was taken since [s] and not given back. *)
Definition lockHeld (s s' : Sys) : Prop :=
  ∃ mid pre, trace s' = mid ++ Obs ETHLock tt :: pre ++ trace s ∧ forallb noUnlock mid = true.

Lemma noUnlock_ext {A} (c : call A) s a s' : (∀ a, noUnlock (Obs c a) = true) → ext c s = (Done a, s') → emits noUnlock s s'.
Proof. intros Hc E. pose proof (keeps_ext noUnlock c Hc s) as K. by rewrite E in K. Qed.

(** What a deferred call does comes after its body. *)
Lemma deferring_after {S A} (R : S → S → Prop) `{!PreOrder R} (c : prog S unit) (b : prog S A) s :
  keeps R c → R (b s).2 (deferring c b s).2.
Proof.
  intros Hc. unfold deferring. destruct (b s) as [[a|?| |] s1]; cbn; try reflexivity;
    specialize (Hc s1); by destruct (c s1) as [[?|?| |] s2].
Qed.

Lemma emits_deferring_inv {A} p (c : prog Sys unit) (b : prog Sys A) s :
  keeps (emits p) c → ¬ emits p s (deferring c b s).2 → ¬ emits p s (b s).2.
Proof.
  intros Hc Hn Hb. apply Hn. etrans; [exact Hb | by apply (deferring_after (emits p))].
Qed.

Lemma minBalance_inv s gp s' : checkForMinClaimBalance s = (Done (Ok gp), s') →
  (∃ bal b, saw ETHBalance (Ok bal) s s' ∧ WeiAmount_BigInt bal = Done b ∧ gp * maxClaimRelayerETHGas ≤ b)
  ∧ forward s s'.
Proof.
  unfold checkForMinClaimBalance. intros E.
  apply pbind_inv_Done in E as ([bal|e] & s1 & Hb & E); [|done]. apply ext_saw in Hb as [Hb F1].
  apply pbind_inv_Done in E as ([g|e] & s2 & Hg & E); [|done]. apply ext_saw in Hg as [_ F2].
  apply pbind_inv_Done in E as (b & s3 & Hp & E). injection Hp as Hb' <-.
  destruct (Z.ltb_spec b (g * maxClaimRelayerETHGas)); [done|]. injection E as <- <-.
  split; [|by etrans]. exists bal, b. split_and!; [by eapply saw_later | done | done].
Qed.

(** The transaction a relayer sends for a request. *)
Definition relayTx (rs : SwapCreatorRelaySwap) (our : Address) (salt : bytes) (gp : Z) (sec : bytes)
    (v : Z) (r sg : bytes) : call (result Hash) :=
  ContractClaimRelayer (rsSwapCreator rs) maxClaimRelayerETHGas gp rs
    sec our (bigSetBytes salt) v r sg.

(** The body under the lock: the simulated call is the call that is sent. *)
Lemma relay_body_inv req rs our salt gp sec (s : Sys) :
  let body :=
    (_ <-? ext ETHTxOpts ;;
     vrs <- pure (splitSignature (rqSignature req)) ;;
     let '(v, r, sg) := vrs in
     _ <-? simulateClaimRelayer maxClaimRelayerETHGas gp rs sec our (bigSetBytes salt) v r sg ;;
     tx <-? ext (relayTx rs our salt gp sec v r sg) ;;
     _ <-? ext (WaitForReceipt tx) ;;
     done (Ok tx)) in
  ¬ emits noRelayTx s (body s).2 →
  ∃ v r sg packed ans s1, splitSignature (rqSignature req) = Done (v, r, sg) ∧
    packClaimRelayer rs sec our (bigSetBytes salt) v r sg = Ok packed ∧
    saw (CallContract (rsSwapCreator rs) maxClaimRelayerETHGas gp packed) (Ok tt) s s1 ∧
    emits noUnlock s s1 ∧ emits noRelayTx s s1 ∧
    ∃ post, trace (body s).2 = post ++ Obs (relayTx rs our salt gp sec v r sg) ans :: trace s1.
Proof.
  intros body Hn. unfold body in *. clear body.
  apply emits_try_inv in Hn as ([] & s1 & Hm & Hf1 & Hn & ->); [|auto with keeps]. 
  assert (U1 : emits noUnlock s s1) by (by eapply noUnlock_ext; [|exact Hm]). apply ext_saw in Hm as [_ F1].
  apply emits_bind_inv in Hn as ([[v r] sg] & s2 & Hm & _ & Hn & ->); [|keeps_auto]. injection Hm as Hv <-.
  apply emits_try_inv in Hn as ([] & s2 & Hm & Hf2 & Hn & ->); [|auto with keeps].
  unfold simulateClaimRelayer in Hm. apply pbind_inv_Done in Hm as ([packed|e] & s3 & Hp & Hm); [|done].
  injection Hp as Hp <-.
  assert (U2 : emits noUnlock s1 s2) by (by eapply noUnlock_ext; [|exact Hm]). apply ext_saw in Hm as [Hc F2].
  set (tx := relayTx rs our salt gp sec v r sg) in *.
  exists v, r, sg, packed, (answer _ (clock s2) tx), s2. split_and!; [done..| | | |].
  - by eapply saw_earlier.
  - by etrans.
  - by etrans.
  - assert (F : forward (ext tx s2).2 (tryBind (ext tx) (fun tx0 => _ <-? ext (WaitForReceipt tx0) ;; done (Ok tx0)) s2).2)
      by (apply (try_after forward); intros a; unfold forward; keeps_auto; by apply keeps_ext).
    destruct F as (post & E & _). by exists post.
Qed.

(** A relayed claim, with what was checked before it. *)
Definition relayedAfterChecks (code : bytes) (req : RelayClaimRequest) (creator : Address) (salt : bytes)
    (s s' : Sys) : Prop :=
  ∃ rs our gp bal b sec v r sg packed ans s1,
    relayChecks code req rs our salt creator s s1 ∧
    toArray32 (rqSecret req) = Done sec ∧ splitSignature (rqSignature req) = Done (v, r, sg) ∧
    saw ETHAddress our s s1 ∧ saw ETHBalance (Ok bal) s s1 ∧ WeiAmount_BigInt bal = Done b ∧
    gp * maxClaimRelayerETHGas ≤ b ∧ lockHeld s s1 ∧
    packClaimRelayer rs sec our (bigSetBytes salt) v r sg = Ok packed ∧
    saw (CallContract (rsSwapCreator rs) maxClaimRelayerETHGas gp packed) (Ok tt) s s1 ∧
    emits noRelayTx s s1 ∧
    ∃ post, trace s' = post ++ Obs (relayTx rs our salt gp sec v r sg) ans :: trace s1.

Lemma relayChecks_widen code req rs our salt creator s0 s1 s2 s3 :
  relayChecks code req rs our salt creator s1 s2 → forward s0 s1 → forward s2 s3 →
  relayChecks code req rs our salt creator s0 s3.
Proof.
  intros [C0 C1 C2 C3 C4 C5 C6] F G. constructor; auto.
  destruct C1 as [|[? Hs]]; [by left | right]. split; [done|]. by eapply saw_widen.
Qed.

Lemma ValidateAndSend_inv code req creator salt (s : Sys) :
  ¬ emits noRelayTx s (ValidateAndSendTransaction code req creator salt s).2 →
  relayedAfterChecks code req creator salt s (ValidateAndSendTransaction code req creator salt s).2.
Proof.
  unfold ValidateAndSendTransaction. intros Hn.
  apply emits_bind_inv in Hn as (our & s1 & Hm & E1 & Hn & ->); [|auto with keeps]. apply ext_saw in Hm as [Ho F1].
  apply emits_try_inv in Hn as ([] & s2 & Hm & E2 & Hn & ->); [|auto with keeps].
  apply validateClaimRequest_inv in Hm as (rs & Hc & F2).
  apply emits_bind_inv in Hn as (rs' & s2' & Hm & _ & Hn & ->); [|keeps_auto]. injection Hm as Hrs <-.
  rewrite (rk_whole _ _ _ _ _ _ _ _ Hc), wholeRelaySwap_msg in Hrs. injection Hrs as <-.
  apply emits_try_inv in Hn as ([] & s3 & Hm & E3 & Hn & ->); [|auto with keeps]. apply ext_saw in Hm as [_ F3].
  apply emits_bind_inv in Hn as (sec & s4 & Hm & _ & Hn & ->); [|keeps_auto]. injection Hm as Hsec <-.
  apply emits_try_inv in Hn as (gp & s4 & Hm & E4 & Hn & ->); [|auto with keeps].
  apply minBalance_inv in Hm as [(bal & b & Hbal & Hb & Hle) F4].
  apply emits_bind_inv in Hn as ([] & s5 & Hm & E5 & Hn & ->); [|auto with keeps]. 
  assert (T5 : trace s5 = Obs ETHLock tt :: trace s4) by (injection Hm as Hm <-; cbn; by rewrite Hm).
  apply ext_saw in Hm as [_ F5].
  pose proof Hn as Hn'. apply emits_deferring_inv in Hn'; [|auto with keeps].
  apply relay_body_inv in Hn' as (v & r & sg & packed & ans & s6 & Hv & Hp & Hcall & U6 & E6 & post & Htx).
  pose proof (emits_forward _ _ _ U6) as F6.
  assert (F02 : forward s s2) by exact (transitivity F1 F2).
  assert (F24 : forward s2 s4) by exact (transitivity F3 F4).
  assert (F46 : forward s4 s6) by exact (transitivity F5 F6).
  assert (F04 : forward s s4) by exact (transitivity F02 F24).
  assert (F16 : forward s1 s6) by exact (transitivity F2 (transitivity F24 F46)).
  exists rs, our, gp, bal, b, sec, v, r, sg, packed, ans, s6. split_and!; try done.
  - exact (relayChecks_widen _ _ _ _ _ _ _ _ _ _ Hc F1 (transitivity F24 F46)).
  - exact (saw_later _ _ _ _ _ Ho F16).
  - exact (saw_widen _ _ _ _ _ _ Hbal (transitivity F02 F3) F46).
  - destruct U6 as (mid & Emid & Hmid), F04 as (pre & Epre & _). unfold sysOf, sysHasSys, id in Emid, Epre.
    exists mid, pre. by rewrite Emid, T5, Epre.
  - exact (saw_earlier _ _ _ _ _ (transitivity F04 F5) Hcall).
  - etrans; [exact E1|]. etrans; [exact E2|]. etrans; [exact E3|]. etrans; [exact E4|]. by etrans.
  - match goal with |- ∃ p, trace (deferring ?c ?b s5).2 = _ =>
      assert (F : forward (b s5).2 (deferring c b s5).2) by (apply (deferring_after forward); by apply keeps_ext) end.
    destruct F as (post' & E' & _). unfold sysOf, sysHasSys, id in E'. exists (post' ++ post). rewrite E'.
    etrans; [exact (f_equal (app post') Htx) | apply app_assoc].
Qed.

Lemma ValidateAndSend_forward code req creator salt :
  keeps forward (ValidateAndSendTransaction code req creator salt).
Proof.
  unfold ValidateAndSendTransaction, checkForMinClaimBalance, simulateClaimRelayer,
    validateClaimRequest, validateClaimValues, CheckSwapCreatorContractCode, checkCode, forward.
  keeps_auto; by apply keeps_ext.
Qed.

(** A run with such an observation is not one without. *)
Lemma relay_not_emitted (s s' : Sys) :
  existsb isRelayTx (newObs s s') = true → ¬ emits noRelayTx s s'.
Proof. apply not_emitted. Qed.

End proofs.

(** ** The properties *)

(** C21: safety.  A relayer sends a claim transaction only when the request is complete, it
    names the relayer's own contract (or, for a request that is not tied to a swap, one with the expected code),
    the asset is ETH, the value exceeds the standard fee, the fee is at least the standard one, the
    address hash is the relayer's own with the salt, the claimer signed the request, the
    balance covers the gas, and the same call, with the same arguments, was simulated
    without an error.  The wallet's lock is held then: it was taken, and not given back
    before the transaction was made. *)
Theorem claim_relayed_only_after_checks `{World} `{!AbiLib} `{!Apd} `{!InfoJson} `{SigLib}
    (code : bytes) (req : RelayClaimRequest) (creator : Address) (salt : bytes) (s : Sys) :
  let s' := (ValidateAndSendTransaction code req creator salt s).2 in
  existsb isRelayTx (newObs s s') = true → relayedAfterChecks code req creator salt s s'.
Proof.
  intros s' Hex. by apply ValidateAndSend_inv, relay_not_emitted.
Qed.

(** C22: a request that [CreateRelayClaimRequest] made for a swap of ETH, with a fee that
    is at least the standard one and less than the value of the swap, for the relayer's
    address hash and contract, passes the relayer's validation, without any call: the
    signature it carries, with its last byte shifted for the contract, is recovered to
    the claimer. *)
Theorem signed_request_accepted `{World} `{!AbiLib} `{!Apd} `{!InfoJson} `{SigSpec}
    (key : EthKey) (rs : SwapCreatorRelaySwap) (secret : bytes) (req : RelayClaimRequest)
    (code our salt : bytes) (offerID : option Hash) (s : Sys) :
  CreateRelayClaimRequest key rs secret = Done (Ok req) →
  swAsset (rsSwap rs) = EthAssetETH → RelayerFeeWei ≤ rsFee rs → rsFee rs < swValue (rsSwap rs) →
  rsRelayerHash rs = ethKeccak256 (our ++ salt) →
  validateClaimRequest code (mkRelayRequest offerID (rqRelaySwap req) (rqSecret req) (rqSignature req))
    our salt (rsSwapCreator rs) s = (Done (Ok tt), s) ∧
  length (rqSignature req) = 65%nat ∧ rqSecret req = secret.
Proof.
  unfold CreateRelayClaimRequest, createRelayClaimSignature. intros E Ha Hf Hv Hh.
  destruct (bool_decide_reflect (swClaimer (rsSwap rs) = pubkeyToAddress (publicKey key))) as [Hcl|]; [|done].
  cbn [negb] in E. destruct (RelaySwap_Hash rs) as [h| | |] eqn:Eh; [|done..].
  unfold otry, obind, Sign in E. destruct (ethSign key h) as [sig|] eqn:Es; [|done].
  destruct (sign_format _ _ _ Es) as (rr & v & -> & Hl & _).
  rewrite addToByte64_snoc in E by done. cbn in E. injection E as <-. cbn [rqRelaySwap rqSecret rqSignature].
  assert (length (rr ++ [zByte (byteZ v + 27)]) = 65%nat) as Hlen by (rewrite length_app, Hl; done).
  split_and!; [|done|done].
  unfold validateClaimRequest, validateClaimValues, tryBind, pbind. cbn [rqOfferID rqRelaySwap rqSignature].
  unfold assetOf. cbn [relaySwapMsg rmSwap rmFee rmRelayerHash rmSwapCreator].
  rewrite (bool_decide_true (rsSwapCreator rs = rsSwapCreator rs)) by done. cbn [negb].
  unfold done. rewrite Ha, (bool_decide_true (EthAssetETH = EthAssetETH)) by done. cbn [negb pure deref fmap option_fmap option_map].
  destruct (Z.leb_spec (swValue (rsSwap rs)) RelayerFeeWei); [lia|].
  rewrite Hh, (bool_decide_true (ethKeccak256 _ = _)) by done. cbn [negb].
  destruct (Z.ltb_spec (rsFee rs) RelayerFeeWei); [lia|].
  unfold pure, validateClaimSignature. cbn [rqRelaySwap rqSignature]. rewrite wholeRelaySwap_msg. cbn [obind]. rewrite Eh. cbn [obind].
  rewrite goCopy_id, addToByte64_back by done. cbn [obind].
  destruct (sign_recover _ _ _ Es) as (pub & -> & ->). by rewrite Hcl, bool_decide_true.
Qed.

End RelayerProofs.
