(* ===== verification/BackendProofs.v ===== *)
(** * Theorems on the backend: relaying for counterparties *)

From stdpp Require Import base gmap list strings.
From Stdlib Require Import ZArith Strings.Byte.
From S2P Require Import Prelude Coins RefApd Types TypesProofs Swap SwapProofs Offers Bytes Crypto CryptoProofs Contracts External TraceLogic Relayer RelayerProofs Backend SampleWorld.

Open Scope Z_scope.
Open Scope go_scope.

Module BackendProofs.
Import Relayer RelayerProofs Backend.

#[export] Instance backendHasSys `{TypesLib} `{CryptoLib} : HasSys backend := bkSys.

Section proofs.
Context `{World} `{!AbiLib} `{!Apd} `{!InfoJson} `{SigLib}.
Context (code : bytes).

Lemma onSys_run {A} (m : prog Sys A) b :
  onSys m b = ((m (bkSys b)).1, mkBackend _ _ (m (bkSys b)).2 (bkFields b)).
Proof. unfold onSys, zoom. by destruct (m (bkSys b)). Qed.

Lemma emits_onSys {A} p (m : prog Sys A) : keeps (emits p) m → keeps (emits p) (onSys m : prog backend A).
Proof. intros K b. rewrite onSys_run. exact (K (bkSys b)). Qed.

Lemma emits_modB p f : keeps (emits p) (modB f).
Proof. intros b. by exists []. Qed.

Lemma emits_getB {A} p (f : backendFields → A) : keeps (emits p) (getB f : prog backend A).
Proof. intros b. by exists []. Qed.

Lemma emits_Snapshot p id : keeps (emits p) (GetOngoingSwapSnapshot id : prog Sys _).
Proof.
  unfold GetOngoingSwapSnapshot, GetOngoingSwap, newInfoObject.
  keeps_auto; first [apply emits_readInfo | apply emits_onManager].
Qed.

Lemma emits_checkTakerSwap peer id : keeps (emits noRelayTx) (checkTakerSwap peer id).
Proof.
  unfold checkTakerSwap, HasOngoingSwap. keeps_auto; first [apply emits_Snapshot | apply emits_readInfo].
Qed.

Lemma emits_checkTakerSwapID req id : keeps (emits noRelayTx) (checkTakerSwapID req id).
Proof. unfold checkTakerSwapID. keeps_auto. by apply keeps_ext. Qed.

(** A snapshot holds what the codec makes of the live record. *)
Lemma Snapshot_inv id (s : Sys) l' s' : GetOngoingSwapSnapshot id s = (Done (Ok l'), s') →
  ∃ l i i', ongoing (mgr s) !! id = Some l ∧ infos (mgr s) !! l = Some i ∧ DeepCopy i = Ok i' ∧
    infos (mgr s') !! l' = Some i'.
Proof.
  unfold GetOngoingSwapSnapshot, GetOngoingSwap, tryBind, pbind, gets. cbn [getManager sysSwapEnv].
  destruct (ongoing (mgr s) !! id) as [l|] eqn:Hl; [|done]. unfold done, readInfo.
  cbn [getManager sysSwapEnv]. destruct (infos (mgr s) !! l) as [i|] eqn:Hi; [|done].
  destruct (DeepCopy i) as [i'|] eqn:Hd; [|done]. intros [= <- <-].
  exists l, i, i'. split_and!; [done..|]. cbn. apply lookup_insert_eq.
Qed.

Lemma checkTakerSwap_inv peer id (s s' : Sys) : checkTakerSwap peer id s = (Done (Ok tt), s') →
  ∃ l i i', ongoing (mgr s) !! id = Some l ∧ infos (mgr s) !! l = Some i ∧ DeepCopy i = Ok i' ∧
    IsTaker i' = true ∧ iPeerID i' = peer.
Proof.
  unfold checkTakerSwap. intros E. apply pbind_inv_Done in E as (has & s1 & Hh & E). injection Hh as <- <-.
  case_bool_decide; [|done]. cbn [negb] in E.
  apply pbind_inv_Done in E as ([l'|e] & s2 & Hs & E); [|done].
  apply Snapshot_inv in Hs as (l & i & i' & Hl & Hi & Hd & Hi').
  apply pbind_inv_Done in E as (j & s3 & Hr & E). apply readInfo_inv in Hr as [Hj ->].
  assert (j = i') as -> by congruence. destruct (IsTaker i') eqn:Ht; [|done]. cbn [negb] in E.
  destruct (bool_decide_reflect (peer = iPeerID i')) as [->|]; [|done]. by exists l, i, i'.
Qed.

Lemma checkTakerSwapID_inv req id (s s' : Sys) : checkTakerSwapID req id s = (Done (Ok tt), s') →
  ∃ info sw, saw (GetContractSwapInfo id) (Ok info) s s' ∧
    rmSwap (rqRelaySwap req) = Some sw ∧ SwapID sw = Done (esSwapID info).
Proof.
  unfold checkTakerSwapID. intros E. apply pbind_inv_Done in E as ([info|e] & s1 & Hm & E); [|done].
  apply mapErr_Ok_run, ext_saw in Hm as [Hm _].
  apply pbind_inv_Done in E as (sw & s2 & Hd & E). injection Hd as Hd <-.
  apply pbind_inv_Done in E as (sid & s2 & Hp & E). injection Hp as Hp <-.
  destruct (bool_decide_reflect (esSwapID info = sid)) as [<-|]; [|done]. injection E as <-.
  exists info, sw. split_and!; [done | | done]. destruct (rmSwap (rqRelaySwap req)); by inversion Hd.
Qed.

(** What was established when a claim is relayed for a request. *)
Record relayedFor (peer : string) (req : RelayClaimRequest) (b b' : backend) : Prop := {
  rf_swap id : rqOfferID req = Some id → ∃ l i i', ongoing (mgr (bkSys b)) !! id = Some l ∧
    infos (mgr (bkSys b)) !! l = Some i ∧ DeepCopy i = Ok i' ∧ IsTaker i' = true ∧ iPeerID i' = peer;
  rf_id id : rqOfferID req = Some id → ∃ info sw, saw (GetContractSwapInfo id) (Ok info) b b' ∧
    rmSwap (rqRelaySwap req) = Some sw ∧ SwapID sw = Done (esSwapID info);
  rf_checked : ∃ s1, forward (bkSys b) s1 ∧ relayedAfterChecks code req SwapCreatorAddr
    (default (repeat x00 4) (relayerHash (bkFields b) !! rmRelayerHash (rqRelaySwap req))) s1 (bkSys b')
}.

Lemma onSys_try_inv {A B} p (m : prog Sys (result A)) (k : A → prog backend (result B)) b :
  keeps (emits p) m → ¬ emits p b (tryBind (onSys m) k b).2 →
  ∃ a s1, m (bkSys b) = (Done (Ok a), s1) ∧ emits p (bkSys b) s1 ∧
    ¬ emits p (mkBackend _ _ s1 (bkFields b)) (k a (mkBackend _ _ s1 (bkFields b))).2 ∧
    tryBind (onSys m) k b = k a (mkBackend _ _ s1 (bkFields b)).
Proof.
  intros Km Hn. apply emits_try_inv in Hn as (a & b1 & Hm & He & Hn & Eq); [|by apply emits_onSys].
  rewrite onSys_run in Hm. injection Hm as Hm1 Hm2. subst b1.
  exists a, (m (bkSys b)).2. split_and!; [|exact He|exact Hn|exact Eq].
  rewrite <- Hm1. by destruct (m (bkSys b)).
Qed.

Lemma HandleRelay_inv peer req (b : backend) :
  ¬ emits noRelayTx b (HandleRelayClaimRequest code peer req b).2 →
  relayedFor peer req b (HandleRelayClaimRequest code peer req b).2.
Proof.
  unfold HandleRelayClaimRequest. set (c := clearRelayerAddressHash _). set (body := tryBind _ _). intros Hn.
  assert (Kc : keeps (emits noRelayTx) c) by apply emits_modB.
  assert (Hb : bkSys (deferring c body b).2 = bkSys (body b).2).
  { unfold deferring. by destruct (body b) as [[?|?| |] b1]. }
  assert (Hn' : ¬ emits noRelayTx b (body b).2).
  { intros He. apply Hn. unfold emits, sysOf, backendHasSys. by rewrite Hb. }
  assert (Ht : ∀ (x : Sys) f, bkSys (mkBackend _ _ x f) = x) by done.
  clear Hn. unfold body in Hn'.
  apply onSys_try_inv in Hn' as ([] & s1 & Hm & E1 & Hn & Eq1).
  2: { destruct (rqOfferID req); [apply emits_checkTakerSwap | apply keeps_done, emits_preorder]. }
  apply onSys_try_inv in Hn as ([] & s2 & Hm2 & E2 & Hn & Eq2).
  2: { destruct (rqOfferID req); [apply emits_checkTakerSwapID | apply keeps_done, emits_preorder]. }
  apply emits_bind_inv in Hn as (salt & b2 & Hg & _ & Hn & Eq3); [|apply emits_getB].
  cbn in Hg. injection Hg as <- <-. cbn [bkFields bkSys] in *.
  rewrite onSys_run in Hn, Eq3. cbn [snd bkSys bkFields] in Hn, Eq3.
  assert (Hlast : bkSys (body b).2 = (ValidateAndSendTransaction code req SwapCreatorAddr
    (default (repeat x00 4) (relayerHash (bkFields b) !! rmRelayerHash (rqRelaySwap req))) s2).2).
  { unfold body. by rewrite Eq1, Eq2, Eq3. }
  apply ValidateAndSend_inv in Hn as Hrel.
  apply emits_forward in E1 as F1, E2 as F2.
  split.
  - intros id Hid. rewrite Hid in Hm. by eapply checkTakerSwap_inv.
  - intros id Hid. rewrite Hid in Hm2. apply checkTakerSwapID_inv in Hm2 as (info & sw & Hs & Hsw & Hsid).
    exists info, sw. split; [|done]. unfold saw, sysOf, backendHasSys. rewrite Hb, Hlast.
    apply (saw_widen (S := Sys) _ _ _ _ _ _ Hs F1).
    exact (ValidateAndSend_forward _ _ _ _ s2).
  - exists s2. split; [by etrans|]. rewrite Hb, Hlast. exact Hrel.
Qed.

(** ** Handling a request returns, and forgets its hash *)

Hint Resolve returning_ext : returning.

Lemma returning_onSys {A} (m : prog Sys A) : returning m → returning (onSys m : prog backend A).
Proof. apply returning_zoom. Qed.

Lemma oreturning_BigInt a : oreturning (WeiAmount_BigInt a).
Proof. unfold WeiAmount_BigInt. returning_auto. Qed.

Lemma oreturning_signature req : oreturning (validateClaimSignature req).
Proof. unfold validateClaimSignature, wholeRelaySwap, deref, RelaySwap_Hash, addToByte64. returning_auto. Qed.

Lemma returning_readInfo l : returning (readInfo l : prog Sys _).
Proof. intros s. unfold readInfo. by destruct (infos _ !! l). Qed.

Hint Resolve oreturning_BigInt oreturning_signature returning_readInfo : returning.

Lemma returning_ValidateAndSend req creator salt : returning (ValidateAndSendTransaction code req creator salt).
Proof.
  unfold ValidateAndSendTransaction, validateClaimRequest, validateClaimValues, CheckSwapCreatorContractCode, checkCode,
    checkForMinClaimBalance, simulateClaimRelayer, wholeRelaySwap, deref, toArray32, splitSignature. returning_auto.
Qed.

Lemma returning_checkTakerSwap peer id : returning (checkTakerSwap peer id).
Proof.
  unfold checkTakerSwap, HasOngoingSwap, GetOngoingSwapSnapshot, GetOngoingSwap. returning_auto.
  intros s. unfold newInfoObject, onManager, zoom. by destruct (allocInfo _ _).
Qed.

Lemma returning_checkTakerSwapID req id : returning (checkTakerSwapID req id).
Proof. unfold checkTakerSwapID, deref, SwapID. returning_auto. Qed.

Hint Resolve returning_ValidateAndSend returning_checkTakerSwap returning_checkTakerSwapID : returning.

Lemma HandleRelay_forgets peer req (b : backend) :
  relayerHash (bkFields (HandleRelayClaimRequest code peer req b).2)
  = delete (rmRelayerHash (rqRelaySwap req)) (relayerHash (bkFields b)).
Proof.
  unfold HandleRelayClaimRequest. set (body := tryBind _ _).
  assert (Hr : returning body).
  { unfold body, getB. returning_auto; apply returning_onSys; returning_auto. }
  assert (Hf : keeps (agreeing bkFields) body).
  { assert (Ko : ∀ A (m : prog Sys A), keeps (agreeing bkFields) (onSys m : prog backend A)).
    { intros A m b'. by rewrite onSys_run. }
    unfold body, getB. keeps_auto; apply Ko. }
  unfold deferring. specialize (Hr b). specialize (Hf b). unfold agreeing in Hf.
  destruct (body b) as [[r|msg| |] b1]; cbn in *; try done; by rewrite Hf.
Qed.

End proofs.

(** ** The properties *)

(** Safety.  A claim is relayed for a request that names a swap only when that swap is
    ongoing, this daemon is its taker and the requesting peer its counterparty, and the
    contract swap of the request is the one recorded for it; every check of the relayer
    has been made with the salt of the request's address hash. *)
Theorem taker_relays_only_own_swap `{World} `{!AbiLib} `{!Apd} `{!InfoJson} `{SigLib}
    (code : bytes) (peer : string) (req : RelayClaimRequest) (b : backend) :
  let b' := (HandleRelayClaimRequest code peer req b).2 in
  existsb isRelayTx (newObs b b') = true → relayedFor code peer req b b'.
Proof.
  intros b' Hex. by apply HandleRelay_inv, not_emitted.
Qed.

(** An address hash serves one request: handling a request forgets its hash, however
    the handling ends, so that a later request with the same hash is relayed only if the
    hash is also that of the zero salt. *)
Theorem relayer_hash_single_use `{World} `{!AbiLib} `{!Apd} `{!InfoJson} `{SigLib}
    (code : bytes) (peer peer2 : string) (req req2 : RelayClaimRequest) (b : backend) :
  let h := rmRelayerHash (rqRelaySwap req) in
  let b1 := (HandleRelayClaimRequest code peer req b).2 in
  let b2 := (HandleRelayClaimRequest code peer2 req2 b1).2 in
  rmRelayerHash (rqRelaySwap req2) = h → existsb isRelayTx (newObs b1 b2) = true →
  relayerHash (bkFields b1) = delete h (relayerHash (bkFields b)) ∧
  ∃ our, h = ethKeccak256 (our ++ repeat x00 4).
Proof.
  intros h b1 b2 Hh Hex.
  assert (Hb1 : relayerHash (bkFields b1) = delete h (relayerHash (bkFields b))) by apply HandleRelay_forgets.
  split; [done|].
  assert (Hr : relayedFor code peer2 req2 b1 b2).
  { by apply HandleRelay_inv, not_emitted. }
  destruct Hr as [_ _ (s1 & _ & rs & our & gp & bal & bb & sec & v & r & sg & packed & ans & s2 & [Hw _ _ _ Hk _ _] & _)].
  rewrite Hw in Hh, Hk. cbn [relaySwapMsg rmRelayerHash] in Hh, Hk. exists our. rewrite Hh, Hb1, lookup_delete_eq in Hk. exact Hk.
Qed.

End BackendProofs.
