(* ===== verification/RelayWitness.v ===== *)
(** * Relayed claims at concrete runs

    A signature scheme with the promised laws, a taker's backend in a world where
    everything succeeds, and the theorems on relayed claims at runs in it. *)

From stdpp Require Import base gmap list strings.
From Stdlib Require Import ZArith Strings.Byte.
From S2P Require Import Prelude Coins RefApd Types TypesProofs Swap SwapProofs Offers Bytes Crypto CryptoProofs Contracts External TraceLogic Relayer RelayerProofs Backend BackendProofs SampleWorld.

Open Scope Z_scope.
Open Scope go_scope.

Module RelayWitness.
Import Relayer RelayerProofs Backend BackendProofs.

(** A key signs by writing its address down. *)
#[export] Instance refSig : SigLib := {|
  EthKey := bytes;
  EthPub := bytes;
  ethSign := fun k d => Ok (goCopy 64 (goCopy 20 k) ++ [x01]);
  ecrecover := fun d sig =>
    match sig !! 64%nat with
    | Some v => if byteZ v <=? 1 then Ok (take 20 sig) else Err (errorf "invalid signature recovery id")
    | None => Err (errorf "invalid signature length")
    end;
  unmarshalPubkey := fun b => Ok b;
  publicKey := goCopy 20;
  pubkeyToAddress := fun p => p;
  packClaimRelayer := fun rs sec rel salt v r s => Ok (sec ++ rel ++ r ++ s)
|}.

#[export] Instance refSigSpec : SigSpec.
Proof.
  split; cbn.
  - intros k d sig [= <-]. exists (goCopy 64 (goCopy 20 k)), x01. rewrite goCopy_length. by repeat split.
  - intros k d sig [= <-]. eexists. split; [|reflexivity].
    rewrite lookup_app_r, goCopy_length by (rewrite goCopy_length; lia). cbn. f_equal.
    unfold goCopy at 1. rewrite (firstn_all2 (goCopy 20 k)) by (rewrite goCopy_length; lia).
    rewrite <- !app_assoc, take_app_length' by (by rewrite goCopy_length). done.
Qed.

(** The taker's swap, and the contract swap recorded for it. *)
Definition swapKey : bytes := repeat xcd 20.

Definition contractSwap0 : SwapCreatorSwap :=
  mkSwap takerAddr swapKey (repeat x11 32) (repeat x12 32) 100 200 zeroAddress (10 ^ 17) 5.

Definition theID : Hash := repeat x07 32.

Definition takerInfo : Info :=
  NewInfo 5 5 "peer" theID ProvidesETH (apdNew 1 0) (apdNew 2 (-1)) None EthAssetETH ContractReady 100.

#[export] Instance takerJson : InfoJson := {|
  infoMarshal := fun i => if decide (i = takerInfo) then Ok [x01] else Err (errorf "not encodable");
  infoVersionOf := fun _ => Ok (Some CurInfoVersion);
  infoUnmarshalStruct := fun _ => Ok takerInfo;
  infoValidateStruct := fun _ => None
|}.

Definition swapIDOf (sw : SwapCreatorSwap) : Hash := match SwapID sw with Done h => h | _ => EmptyHash end.

#[export] Instance relayWorld : World := {|
  answer := fun A _ c =>
    match c in call B return B with
    | GetContractSwapInfo _ => Ok (mkEthInfo 90 (swapIDOf contractSwap0) contractSwap0 contractAt)
    | c' => goodAnswer (mkReceipt 1 [] lockTx 100) _ c'
    end;
  Env := Stagenet;
  SwapCreatorAddr := contractAt;
  SwapTimeout := Hour
|}.

Definition saltHash : Hash := ethKeccak256 (makerAddr ++ repeat x5a 4).

Definition relaySwap0 : SwapCreatorRelaySwap := mkRelaySwap contractSwap0 RelayerFeeWei saltHash contractAt.

Definition request0 : RelayClaimRequest :=
  mkRelayRequest (Some theID) (relaySwapMsg relaySwap0) (repeat x33 32) (goCopy 64 swapKey ++ [zByte 28]).

Definition relaySys : Sys :=
  mkSys _ _ 0 [] (mkManager _ {[0%nat := takerInfo]} 1 {[theID := 0%nat]} ∅ ∅ ∅ 0) ∅.

Definition backend0 : backend :=
  mkBackend _ _ relaySys (mkFields ∅ Hour {[saltHash := repeat x5a 4]}).

(** The request is the one the claimer signs for the relayer's hash. *)
Example request0_signed :
  CreateRelayClaimRequest swapKey relaySwap0 (repeat x33 32)
  = Done (Ok (mkRelayRequest None (relaySwapMsg relaySwap0) (repeat x33 32) (rqSignature request0))).
Proof. vm_compute. reflexivity. Qed.

Example backend0_relays :
  (HandleRelayClaimRequest code "peer" request0 backend0).1 = Done (Ok lockTx) ∧
  (HandleRelayClaimRequest code "other peer" request0 backend0).1
    = Done (Err (errorf "cannot relay taker-specific claim request from peer; unexpected peer")).
Proof. split; vm_compute; reflexivity. Qed.

Lemma claim_relayed_only_after_checks_witness :
  relayedAfterChecks code request0 contractAt (repeat x5a 4) relaySys
    (ValidateAndSendTransaction code request0 contractAt (repeat x5a 4) relaySys).2.
Proof.
  apply (claim_relayed_only_after_checks code request0 contractAt (repeat x5a 4) relaySys).
  vm_compute. reflexivity.
Defined.

Lemma signed_request_accepted_witness :
  validateClaimRequest code (mkRelayRequest None (relaySwapMsg relaySwap0) (repeat x33 32) (rqSignature request0))
    makerAddr (repeat x5a 4) contractAt relaySys = (Done (Ok tt), relaySys) ∧
  length (rqSignature request0) = 65%nat ∧ repeat x33 32 = repeat x33 32.
Proof.
  apply (signed_request_accepted (swapKey : @EthKey refSig) relaySwap0 (repeat x33 32)
    (mkRelayRequest None (relaySwapMsg relaySwap0) (repeat x33 32) (rqSignature request0)) code makerAddr (repeat x5a 4) None relaySys).
  - vm_compute. reflexivity.
  - reflexivity.
  - vm_compute. discriminate.
  - vm_compute. reflexivity.
  - reflexivity.
Defined.

Lemma taker_relays_only_own_swap_witness :
  relayedFor code "peer" request0 backend0 (HandleRelayClaimRequest code "peer" request0 backend0).2.
Proof.
  apply (taker_relays_only_own_swap code "peer" request0 backend0). vm_compute. reflexivity.
Defined.

(** A request with the hash of the zero salt, which no query has to have issued. *)
Definition zeroSaltHash : Hash := ethKeccak256 (makerAddr ++ repeat x00 4).

Definition request1 : RelayClaimRequest :=
  mkRelayRequest None (relaySwapMsg (mkRelaySwap contractSwap0 RelayerFeeWei zeroSaltHash contractAt)) (repeat x33 32)
    (rqSignature request0).

Lemma relayer_hash_single_use_witness :
  relayerHash (bkFields (HandleRelayClaimRequest code "peer" request1 backend0).2)
    = delete zeroSaltHash (relayerHash (bkFields backend0)) ∧
  ∃ our, zeroSaltHash = ethKeccak256 (our ++ repeat x00 4).
Proof.
  apply (relayer_hash_single_use code "peer" "peer" request1 request1 backend0); [reflexivity|].
  vm_compute. reflexivity.
Defined.

(** The fee of a request is not compared with the value of its swap. *)
Definition greedyRequest : RelayClaimRequest :=
  mkRelayRequest None (relaySwapMsg (mkRelaySwap contractSwap0 (10 ^ 18) saltHash contractAt)) (repeat x33 32)
    (rqSignature request0).

Example fee_above_value_validates :
  (validateClaimRequest code greedyRequest makerAddr (repeat x5a 4) contractAt relaySys).1 = Done (Ok tt) ∧
  swValue contractSwap0 < 10 ^ 18 ∧ rmFee (rqRelaySwap greedyRequest) = Some (10 ^ 18).
Proof. split_and!; vm_compute; reflexivity. Qed.

(** A request whose relay swap names the relayer's contract and nothing else, as a peer can
    send it: the value of its swap is nil, and comparing it panics. *)
Definition emptyRequest : RelayClaimRequest :=
  mkRelayRequest None (mkRelaySwapMsg None None EmptyHash contractAt) (repeat x33 32) (rqSignature request0).

Example empty_request_panics :
  (HandleRelayClaimRequest code "any peer" emptyRequest backend0).1 = Panicked "nil pointer dereference".
Proof. vm_compute. reflexivity. Qed.

End RelayWitness.
