(* ===== verification/NetRelay.v ===== *)
(** * The relay stream in front of the backend

    The backend is the host's [RelayHandler]; what a peer can make the daemon relay by
    writing to a relay stream is what the backend relays, less the requests that name no
    swap when the daemon is not a relayer. *)

From stdpp Require Import base gmap list strings.
From Stdlib Require Import ZArith Strings.Byte.
From S2P Require Import Prelude Coins Types Swap Offers Bytes Crypto Contracts External TraceLogic Db Relayer RelayerProofs Message Net NetMachine NetProofs Backend BackendProofs.

Open Scope Z_scope.
Open Scope go_scope.

Module NetRelay.
Import Relayer RelayerProofs Backend BackendProofs Net NetMachine NetProofs.

Section relay.
Context `{World} `{!AbiLib} `{!Apd} `{!InfoJson} `{SigLib}.
Context `{!NetWorld} `{!OfferJson} `{!MsgJson}.
Context (code : bytes).

#[export] Instance backendRelayHandler : Net.RelayHandler backend := {|
  Net.GetRelayerAddressHash := Backend.GetRelayerAddressHash;
  Net.HandleRelayClaimRequest := Backend.HandleRelayClaimRequest code;
  Net.HasOngoingSwapAsTaker := Backend.HasOngoingSwapAsTaker
|}.

Implicit Types n : netSys backend.

(** The backend's state stays as it is. *)
Definition sameInner n n' : Prop := nsInner _ n' = nsInner _ n.

#[global] Instance sameInner_preorder : PreOrder sameInner.
Proof. split; unfold sameInner; [intros n; done | intros a b c; congruence]. Qed.

Lemma sameInner_net {A} (c : netCall A) : keeps sameInner (net c).
Proof. by intros n. Qed.

Lemma sameInner_getHost {A} (f : Host → A) : keeps sameInner (getHost f).
Proof. by intros n. Qed.

Hint Resolve sameInner_net sameInner_getHost : keeps.

Lemma sameInner_read st max : keeps sameInner (readStreamMessage st max).
Proof. unfold readStreamMessage. keeps_auto. Qed.

Lemma inner_deferring {A} (c : prog (netSys backend) unit) (b : prog (netSys backend) A) n :
  keeps sameInner c → nsInner _ (deferring c b n).2 = nsInner _ (b n).2.
Proof.
  intros Kc. unfold deferring. destruct (b n) as [[a|msg| |] n1]; try done;
    specialize (Kc n1); by destruct (c n1) as [[?|?| |] n2].
Qed.

Lemma inner_bind {A B} (p : prog (netSys backend) A) (k : A → prog (netSys backend) B) n :
  (∀ a, keeps sameInner (k a)) → nsInner _ (pbind p k n).2 = nsInner _ (p n).2.
Proof.
  intros Kk. unfold pbind. destruct (p n) as [[a|msg| |] n1]; try done. apply Kk.
Qed.

Lemma inner_handler {A} (p : prog backend A) n : nsInner _ (handler p n).2 = (p (nsInner _ n)).2.
Proof. unfold handler, zoom. by destruct (p (nsInner _ n)). Qed.

Lemma read_bytes st max n r n' : readStreamMessage st max n = (Done (Ok r), n') →
  ∃ b, observed n' (ReadStreamMessage st max) (Ok b) ∧ DecodeMessage b = Ok r.
Proof.
  unfold readStreamMessage. intros E. apply pbind_inv_Done in E as ([b|e] & n1 & Hb & E); [|done].
  injection E as E <-. exists b. split; [by eapply net_observed | done].
Qed.

(** What a relay stream makes the backend do: nothing, or one request it handles. *)
Lemma handleRelayStream_inner st n :
  nsInner _ (handleRelayStream st n).2 = nsInner _ n ∨
  ∃ b req, netAnswer _ (nsClock _ n) (ReadStreamMessage st maxRelayMessageSize) = Ok b ∧
    DecodeMessage b = Ok (MRelayClaimRequest req) ∧ (rqOfferID req ≠ None ∨ isRelayer (nsHost _ n) = true) ∧
    nsInner _ (handleRelayStream st n).2 = (Backend.HandleRelayClaimRequest code (remotePeer st) req (nsInner _ n)).2.
Proof.
  unfold handleRelayStream. rewrite inner_deferring by apply sameInner_net.
  destruct (read_run st maxRelayMessageSize n) as (n1 & Hr & _).
  assert (Hi : nsInner _ n1 = nsInner _ n).
  { pose proof (sameInner_read st maxRelayMessageSize n) as Hs. by rewrite Hr in Hs. }
  assert (Hh : nsHost _ n1 = nsHost _ n).
  { revert Hr. unfold readStreamMessage, tryBind, pbind, net.
    by destruct (netAnswer _ (nsClock _ n) (ReadStreamMessage st maxRelayMessageSize)); intros [= <-]. }
  rewrite (pbind_Done _ _ _ _ _ Hr).
  destruct (netAnswer _ (nsClock _ n) (ReadStreamMessage st maxRelayMessageSize)) as [b|e] eqn:Hb; [|by left].
  destruct (DecodeMessage b) as [[| |req| | |]|e] eqn:Hd; try by left.
  rewrite (pbind_Done (getHost isRelayer) _ n1 (isRelayer (nsHost _ n)) n1) by (unfold getHost, gets; by rewrite Hh).
  destruct (bool_decide (rqOfferID req = None) && negb (isRelayer (nsHost _ n))) eqn:Hg; [by left|].
  right. exists b, req. split_and!; [done | done | |].
  - apply andb_false_iff in Hg as [Hg|Hg]; [left; by apply bool_decide_eq_false_1 in Hg | right].
    by apply negb_false_iff in Hg.
  - rewrite inner_bind; [by rewrite inner_handler, Hi|]. intros [tx|e]; keeps_auto.
Qed.

(** C23: safety.  A daemon that is not a relayer pays for nobody else's claim: if a claim
    transaction is sent because of a relay stream, the stream's peer is the counterparty of
    an ongoing swap whose taker this daemon is, the request names that swap and claims the
    contract swap recorded for it, and it passed every check of the relayer. *)
Theorem non_relayer_relays_only_own_swap (st : Stream) (n : netSys backend) :
  let b := nsInner _ n in
  let b' := nsInner _ (handleRelayStream st n).2 in
  isRelayer (nsHost _ n) = false → existsb isRelayTx (newObs b b') = true →
  ∃ bs req id, netAnswer _ (nsClock _ n) (ReadStreamMessage st maxRelayMessageSize) = Ok bs ∧
    DecodeMessage bs = Ok (MRelayClaimRequest req) ∧ rqOfferID req = Some id ∧
    relayedFor code (remotePeer st) req b b'.
Proof.
  intros b b' Hrel Hex. subst b b'.
  destruct (handleRelayStream_inner st n) as [E|(bs & req & Hb & Hd & Ho & E)].
  { rewrite E, newObs_same in Hex. done. }
  destruct Ho as [Ho|Ho]; [|congruence]. destruct (rqOfferID req) as [id|] eqn:Hid; [|done].
  exists bs, req, id. split_and!; [done..|]. rewrite E in *. by apply HandleRelay_inv, not_emitted.
Qed.

End relay.
End NetRelay.
