(* ===== verification/NetWitness.v ===== *)
(** * The network host at concrete runs *)

From stdpp Require Import base gmap list strings.
From Stdlib Require Import ZArith Strings.Byte.
From S2P Require Import Prelude Coins RefApd Types TypesProofs Swap SwapProofs Offers Bytes Crypto CryptoProofs Contracts External Db DbProofs Store TraceLogic Relayer RelayerProofs Message Net NetMachine NetProofs Backend BackendProofs SampleWorld RelayWitness NetRelay.

Open Scope Z_scope.
Open Scope go_scope.

Module NetWitness.
Import Net NetMachine NetProofs NetRelay BackendProofs RelayWitness.

Definition firstKeys : SendKeysMessage :=
  mkSendKeys _ theID (Some (apdNew 1 0)) (Some (pkSpend (kpPublic sampleKeys)))
    (Some (kpView (kpPrivate sampleKeys))) [x01] sampleSecp zeroAddress.

#[local] Instance wireJson : MsgJson := {|
  msgMarshal := fun _ => Err (errorf "not encodable");
  msgUnmarshal := fun t _ =>
    if bool_decide (t = SendKeysType) then Ok (MSendKeys firstKeys)
    else if bool_decide (t = RelayClaimRequestType) then Ok (MRelayClaimRequest request0)
    else Err (errorf "bad JSON")
|}.

Definition theStream : Stream := mkStream 0 "peer".
Definition otherStream : Stream := mkStream 1 "other peer".
Definition relayStream : Stream := mkStream 2 "peer".

(** Every connection is lost at the tenth call. *)
#[local] Instance wireWorld : NetWorld := {|
  netAnswer := fun A i c =>
    match c in netCall B return B with
    | P2pNewHost _ | P2pStart | P2pStop => None
    | P2pAdvertise => tt
    | P2pDiscover _ => Ok []
    | SetStreamHandler _ => tt
    | Connectedness _ => true
    | Connect _ => None
    | NewStream who _ => Ok (mkStream i who)
    | WriteStreamMessage _ _ _ => None
    | ReadStreamMessage st _ =>
        if (10 <=? i)%nat then Err (errorf "EOF")
        else if (streamID st =? 2)%nat then Ok [RelayClaimRequestType; x7b; x7d]
        else Ok [SendKeysType; x7b; x7d]
    | CloseStream _ => tt
    | TimerFirst => false
    end
|}.

(** A maker that accepts, and a swap that handles everything. *)
#[local] Instance politeMaker : MakerHandler nat := {|
  Net.GetOffers := done [];
  HandleInitiateMessage := fun _ _ => done (Ok 7%nat)
|}.

#[local] Instance politeRelayer : RelayHandler nat := {|
  Net.GetRelayerAddressHash := done (Ok theID);
  Net.HandleRelayClaimRequest := fun _ _ => done (Err (errorf "no"));
  Net.HasOngoingSwapAsTaker := fun _ => done (Ok tt)
|}.

(** The state counts the notifications. *)
#[local] Instance politeSwap : SwapStateNet nat := {|
  OfferIDOf := fun _ => theID;
  HandleProtocolMessage := fun _ _ => done None;
  NotifyStreamClosed := fun _ => modify S
|}.

#[local] Instance polite_panicFree : HandlersPanicFree (S := nat).
Proof. by split. Qed.

Definition host0 : netSys nat := mkNet _ _ _ (mkHost false false true ∅) 0%nat 0 [].
Definition machine0 : machine nat := mkMachine _ _ _ host0 ∅ 0 false.

Lemma reachable_runs ls (m : machine nat) : reachable m → reachable (runs ls m).
Proof. revert m. induction ls as [|l ls IH]; intros m Hm; [done|]. by apply IH, reachable_run. Qed.

Lemma reachable_machine0 : reachable machine0.
Proof. by apply reachable_initial. Qed.

(** A peer asks for a swap; its stream is registered; a second peer asks for the same. *)
Definition asked : machine nat := runs [LIncoming theStream; LThread 0] machine0.
Definition secondPeer : list label := [LIncoming otherStream; LThread 1; LThread 1].

(** A thread that has not failed removes nothing. *)
Lemma not_removes id i (m : machine nat) :
  match threads _ m !! i with Some (Failed _) => false | _ => true end = true → ¬ removes id (LThread i) m.
Proof. intros Ht [[=]|(j & im & [= <-] & Hf & _)]. by rewrite Hf in Ht. Qed.

Lemma secondPeer_removes_nothing : noRemoval theID secondPeer (run (LThread 0) asked).
Proof.
  split; [intros [[=]|(j & im & [=] & _)]|].
  split; [by apply not_removes; vm_compute|]. split; [by apply not_removes; vm_compute | exact I].
Qed.

Lemma swap_stream_not_replaced_witness :
  let n := sys _ (runs secondPeer (run (LThread 0) asked)) in
  (∃ e', swapsOf n !! theID = Some e' ∧ stream e' = theStream) ∧
  (∀ st im, skOfferID im = theID →
     ∃ n', registerStream st im n = (Done false, n') ∧ swapsOf n' = swapsOf n ∧
       nsTrace _ n' = NetObs (CloseStream st) tt :: nsTrace _ n) ∧
  (∀ who msg s, OfferIDOf s = theID → Initiate who msg s n = (Done (Err errSwapAlreadyInProgress), n)).
Proof.
  apply (swap_stream_not_replaced (run (LThread 0) asked) secondPeer theID (Net.mkSwap None theStream false)).
  - vm_compute. reflexivity.
  - apply secondPeer_removes_nothing.
Defined.

Lemma swap_messages_reach_counterparty_witness :
  SendSwapMessage (MSendKeys firstKeys) theID (sys _ asked) = (Done (Some errNoOngoingSwap), sys _ asked) ∧
  registers theID theStream (LThread 0) asked ∧
  let n := sys _ (runs secondPeer (run (LThread 0) asked)) in
  ∃ r n', SendSwapMessage (MSendKeys firstKeys) theID n = (Done r, n') ∧
    nsTrace _ n' = NetObs (WriteStreamMessage theStream (MSendKeys firstKeys) "peer"%string) r :: nsTrace _ n.
Proof.
  apply (swap_messages_reach_counterparty asked (LThread 0) secondPeer (MSendKeys firstKeys) theID
    (Net.mkSwap None theStream false)).
  - apply reachable_runs, reachable_machine0.
  - vm_compute. reflexivity.
  - vm_compute. reflexivity.
  - apply secondPeer_removes_nothing.
Defined.

(** The swap is deleted between the maker's answer and the moment its state is recorded. *)
Definition deletedTooEarly : list label :=
  [LIncoming theStream; LThread 0; LThread 0; LThread 0; LDelete theID].

Lemma host_panics_only_without_entry_witness :
  crashed _ (run (LThread 0) (runs deletedTooEarly machine0)) = true ∧
  ∃ i st im s, LThread 0 = LThread i ∧ threads _ (runs deletedTooEarly machine0) !! i = Some (Attaching st im s) ∧
    swapsOf (sys _ (runs deletedTooEarly machine0)) !! skOfferID im = None.
Proof.
  split; [vm_compute; reflexivity|].
  apply (host_panics_only_without_entry (runs deletedTooEarly machine0) (LThread 0)); vm_compute; reflexivity.
Defined.

(** A failed initiation removes the entry of its ID, whoever's it is: here the entry that
    another peer registered after the first swap was deleted. *)
#[local] Instance rudeMaker : MakerHandler nat := {|
  Net.GetOffers := done [];
  HandleInitiateMessage := fun _ _ => done (Err (errorf "failed to send SendKeysMessage to remote peer"))
|}.

Definition stolenEntry : list label :=
  [LIncoming theStream; LThread 0; LThread 0; LThread 0; LDelete theID;
   LIncoming otherStream; LThread 1; LThread 1].

Example failed_initiation_removes_another_entry :
  stream <$> swapsOf (sys _ (runs (MakerHandler0 := rudeMaker) stolenEntry machine0)) !! theID = Some otherStream ∧
  swapsOf (sys _ (runs (MakerHandler0 := rudeMaker) (stolenEntry ++ [LThread 0]) machine0)) !! theID = None.
Proof. split; vm_compute; reflexivity. Qed.

Lemma lost_stream_is_notified_witness :
  let n2 := (handleProtocolStreamInner 11 theStream 7 host0).2 in
  stillHandling theStream 7 n2 ∨
  ∃ o n1, streamLoop 11 theStream 7 host0 = (o, n1) ∧ returned o = true ∧ grows host0 n1 ∧
    nsTrace _ n2 = NetObs (CloseStream theStream) tt :: nsTrace _ n1 ∧
    (NotifyStreamClosed 7 (nsInner _ n1)).2 = nsInner _ n2.
Proof.
  apply (lost_stream_is_notified theStream 7 10 host0). intros i Hi. exists (errorf "EOF").
  apply Nat.leb_le in Hi. unfold netAnswer, wireWorld. rewrite Hi. reflexivity.
Defined.

(** Here the swap is told. *)
Example lost_stream_told : nsInner _ (handleProtocolStreamInner 11 theStream 7 host0).2 = 1%nat.
Proof. vm_compute. reflexivity. Qed.

(** The taker's backend behind a host that is not a relayer. *)
Definition relayHost : netSys Backend.backend := mkNet _ _ _ (mkHost false false true ∅) backend0 0 [].

Lemma non_relayer_relays_only_own_swap_witness :
  ∃ bs req id, netAnswer _ 0%nat (ReadStreamMessage relayStream maxRelayMessageSize) = Ok bs ∧
    DecodeMessage bs = Ok (MRelayClaimRequest req) ∧ rqOfferID req = Some id ∧
    relayedFor code "peer" req backend0
      (nsInner _ (handleRelayStream (RelayHandler0 := backendRelayHandler code) relayStream relayHost).2).
Proof.
  apply (non_relayer_relays_only_own_swap code relayStream relayHost); [reflexivity|].
  vm_compute. reflexivity.
Defined.

End NetWitness.
