(* ===== verification/Json.v ===== *)
(** * encoding/json and encoding/base64

    What the program uses of Go's JSON: the trees that a text stands for, how
    [json.Marshal] prints them and how [json.Unmarshal] reads them, the quoting of
    strings with its UTF-8 handling, and the base64 text of byte slices.

    A string or an object key is kept as the raw text between its quotes, because the
    [UnmarshalJSON] of some types reads that text; [unquote] gives what it denotes.  The
    parser has fuel for twice the length of the text, which is always enough
    ([jsonParse_fuel] in JsonProofs.v). *)

From stdpp Require Import base list strings.
From Stdlib Require Import ZArith Strings.Byte.
From S2P Require Import Prelude Coins Types Bytes.

Open Scope Z_scope.

Module Json.

#[warning="-automation"]
Inductive json : Type :=
| JNull
| JBool (b : bool)
| JNumber (lit : bytes)
| JString (raw : bytes)
| JArray (elems : list json)
| JObject (members : list (bytes * json)).

Local Notation "c ≟ d" := (bool_decide (c = d)) (at level 70).

(** ** Printing *)

Definition quoted (raw : bytes) : bytes := x22 :: raw ++ [x22].

Fixpoint commaSep (items : list bytes) : bytes :=
  match items with
  | [] => []
  | [i] => i
  | i :: rest => i ++ x2c :: commaSep rest
  end.

Fixpoint jsonPrint (j : json) : bytes :=
  match j with
  | JNull => bytesOfString "null"
  | JBool true => bytesOfString "true"
  | JBool false => bytesOfString "false"
  | JNumber lit => lit
  | JString raw => quoted raw
  | JArray elems => x5b :: commaSep (map jsonPrint elems) ++ [x5d]
  | JObject members =>
      x7b :: commaSep (map (fun m => quoted m.1 ++ x3a :: jsonPrint m.2) members) ++ [x7d]
  end.

(** ** Scanning *)

Definition inRange (lo hi : Z) (c : byte) : bool := (lo <=? byteZ c) && (byteZ c <=? hi).

Definition isDigit : byte → bool := inRange 48 57.

Definition isHex (c : byte) : bool := isDigit c || inRange 97 102 c || inRange 65 70 c.

Definition isSpace (c : byte) : bool :=
  bool_decide (c ∈ [x20; x09; x0a; x0d]).

Fixpoint skipSpace (s : bytes) : bytes :=
  match s with
  | c :: r => if isSpace c then skipSpace r else s
  | [] => []
  end.

Fixpoint takeDigits (s : bytes) : bytes * bytes :=
  match s with
  | c :: r => if isDigit c then let '(d, rest) := takeDigits r in (c :: d, rest) else ([], s)
  | [] => ([], [])
  end.

(** At least one digit. *)
Definition digits1 (s : bytes) : option (bytes * bytes) :=
  match takeDigits s with
  | ([], _) => None
  | dr => Some dr
  end.

Definition scanInt (s : bytes) : option (bytes * bytes) :=
  match s with
  | c :: r => if c ≟ x30 then Some ([c], r) else digits1 s
  | [] => None
  end.

Definition scanFrac (s : bytes) : option (bytes * bytes) :=
  match s with
  | c :: r => if c ≟ x2e then '(d, rest) ← digits1 r; Some (c :: d, rest) else Some ([], s)
  | [] => Some ([], [])
  end.

Definition scanSign (s : bytes) : bytes * bytes :=
  match s with
  | c :: r => if (c ≟ x2b) || (c ≟ x2d) then ([c], r) else ([], s)
  | [] => ([], [])
  end.

Definition scanExp (s : bytes) : option (bytes * bytes) :=
  match s with
  | c :: r =>
      if (c ≟ x65) || (c ≟ x45)
      then let '(sg, r) := scanSign r in '(d, rest) ← digits1 r; Some (c :: sg ++ d, rest)
      else Some ([], s)
  | [] => Some ([], [])
  end.

Definition scanMinus (s : bytes) : bytes * bytes :=
  match s with
  | c :: r => if c ≟ x2d then ([c], r) else ([], s)
  | [] => ([], [])
  end.

Definition scanNumber (s : bytes) : option (bytes * bytes) :=
  let '(sign, s) := scanMinus s in
  '(i, s) ← scanInt s;
  '(f, s) ← scanFrac s;
  '(e, s) ← scanExp s;
  Some (sign ++ i ++ f ++ e, s).

(** The text up to the closing quote: no control characters, known escapes only. *)
Fixpoint scanString (s : bytes) : option (bytes * bytes) :=
  match s with
  | [] => None
  | c :: r =>
      if c ≟ x22 then Some ([], r)
      else if c ≟ x5c then
        match r with
        | [] => None
        | e :: r =>
            if e ≟ x75 then
              match r with
              | h1 :: h2 :: h3 :: h4 :: r =>
                  if isHex h1 && isHex h2 && isHex h3 && isHex h4
                  then '(raw, rest) ← scanString r; Some (c :: e :: h1 :: h2 :: h3 :: h4 :: raw, rest)
                  else None
              | _ => None
              end
            else if bool_decide (e ∈ [x62; x66; x6e; x72; x74; x5c; x2f; x22])
            then '(raw, rest) ← scanString r; Some (c :: e :: raw, rest)
            else None
        end
      else if byteZ c <? 32 then None
      else '(raw, rest) ← scanString r; Some (c :: raw, rest)
  end.

Fixpoint stripPrefix (p s : bytes) : option bytes :=
  match p, s with
  | [], _ => Some s
  | a :: p', b :: s' => if bool_decide (a = b) then stripPrefix p' s' else None
  | _, [] => None
  end.

(** ** Parsing

    [depth] is the number of arrays and objects around the value. *)

Definition maxNestingDepth : Z := 10000.

Definition literal (text : string) (j : json) (s : bytes) : option (json * bytes) :=
  rest ← stripPrefix (bytesOfString text) s; Some (j, rest).

(** The rest of a list after one item: the next one, or the closing bracket. *)
Definition afterItem {A} (closing : byte) (next : bytes → option (list A * bytes)) (item : A) (s : bytes)
  : option (list A * bytes) :=
  match skipSpace s with
  | c :: r =>
      if c ≟ x2c then '(items, rest) ← next r; Some (item :: items, rest)
      else if c ≟ closing then Some ([item], r)
      else None
  | [] => None
  end.

(** A list that may be empty. *)
Definition bracketed {A} (closing : byte) (items : bytes → option (list A * bytes)) (s : bytes)
  : option (list A * bytes) :=
  match skipSpace s with
  | c :: r => if c ≟ closing then Some ([], r) else items s
  | [] => None
  end.

Fixpoint parseValue (fuel : nat) (depth : Z) (s : bytes) : option (json * bytes) :=
  match fuel, skipSpace s with
  | O, _ | _, [] => None
  | S f, c :: r =>
      if c ≟ x22 then '(raw, rest) ← scanString r; Some (JString raw, rest)
      else if c ≟ x5b then
        if maxNestingDepth <? depth + 1 then None
        else '(elems, rest) ← bracketed x5d (parseElems f (depth + 1)) r; Some (JArray elems, rest)
      else if c ≟ x7b then
        if maxNestingDepth <? depth + 1 then None
        else '(ms, rest) ← bracketed x7d (parseMembers f (depth + 1)) r; Some (JObject ms, rest)
      else if c ≟ x6e then literal "null" JNull (c :: r)
      else if c ≟ x74 then literal "true" (JBool true) (c :: r)
      else if c ≟ x66 then literal "false" (JBool false) (c :: r)
      else '(lit, rest) ← scanNumber (c :: r); Some (JNumber lit, rest)
  end
with parseElems (fuel : nat) (depth : Z) (s : bytes) : option (list json * bytes) :=
  match fuel with
  | O => None
  | S f => '(j, rest) ← parseValue f depth s; afterItem x5d (parseElems f depth) j rest
  end
with parseMembers (fuel : nat) (depth : Z) (s : bytes) : option (list (bytes * json) * bytes) :=
  match fuel, skipSpace s with
  | O, _ | _, [] => None
  | S f, c :: r =>
      if c ≟ x22 then
        '(key, rest) ← scanString r;
        match skipSpace rest with
        | c :: r =>
            if c ≟ x3a
            then '(j, rest) ← parseValue f depth r; afterItem x7d (parseMembers f depth) (key, j) rest
            else None
        | [] => None
        end
      else None
  end.

(** The whole text is one value. *)
Definition jsonParse (data : bytes) : option json :=
  '(j, rest) ← parseValue (2 * length data + 2) 0 data;
  match skipSpace rest with [] => Some j | _ => None end.

(** ** Runes (unicode/utf8) *)

Definition RuneError : Z := 65533.

Definition encodeRune (r : Z) : bytes :=
  if (0 <=? r) && (r <? 128) then [zByte r]
  else if (0 <=? r) && (r <? 2048) then [zByte (192 + r / 64); zByte (128 + r mod 64)]
  else if (r <? 0) || (1114111 <? r) || ((55296 <=? r) && (r <=? 57343)) then [xef; xbf; xbd]
  else if r <? 65536
  then [zByte (224 + r / 4096); zByte (128 + r / 64 mod 64); zByte (128 + r mod 64)]
  else [zByte (240 + r / 262144); zByte (128 + r / 4096 mod 64); zByte (128 + r / 64 mod 64);
        zByte (128 + r mod 64)].

Definition isCont : byte → bool := inRange 128 191.

(** The range of the second byte after a given first byte of three or four. *)
Definition secondOk (b0 b1 : byte) : bool :=
  if bool_decide (b0 = xe0) then inRange 160 191 b1
  else if bool_decide (b0 = xed) then inRange 128 159 b1
  else if bool_decide (b0 = xf0) then inRange 144 191 b1
  else if bool_decide (b0 = xf4) then inRange 128 143 b1
  else isCont b1.

(** The first rune of a text and its width; an invalid byte is [RuneError] of width one. *)
Definition decodeRune (s : bytes) : Z * nat :=
  match s with
  | [] => (RuneError, 0%nat)
  | b0 :: r =>
      if byteZ b0 <? 128 then (byteZ b0, 1%nat)
      else
        match r with
        | b1 :: r =>
            if inRange 194 223 b0 && isCont b1
            then ((byteZ b0 - 192) * 64 + (byteZ b1 - 128), 2%nat)
            else
              match r with
              | b2 :: r =>
                  if inRange 224 239 b0 && secondOk b0 b1 && isCont b2
                  then ((byteZ b0 - 224) * 4096 + (byteZ b1 - 128) * 64 + (byteZ b2 - 128), 3%nat)
                  else
                    match r with
                    | b3 :: _ =>
                        if inRange 240 244 b0 && secondOk b0 b1 && isCont b2 && isCont b3
                        then ((byteZ b0 - 240) * 262144 + (byteZ b1 - 128) * 4096
                              + (byteZ b2 - 128) * 64 + (byteZ b3 - 128), 4%nat)
                        else (RuneError, 1%nat)
                    | [] => (RuneError, 1%nat)
                    end
              | [] => (RuneError, 1%nat)
              end
        | [] => (RuneError, 1%nat)
        end
  end.

(** ** Quoting: [json.Marshal] of a string, HTML characters escaped *)

Definition hexByte (n : Z) : byte := zByte (if n <? 10 then 48 + n else 87 + n).

Definition escapeU (r : Z) : bytes :=
  [x5c; x75; hexByte (r / 4096 mod 16); hexByte (r / 256 mod 16); hexByte (r / 16 mod 16);
   hexByte (r mod 16)].

(** The characters of [htmlSafeSet]. *)
Definition htmlSafe (c : byte) : bool :=
  inRange 32 127 c && negb (bool_decide (c ∈ [x22; x5c; x3c; x3e; x26])).

Definition quoteAscii (c : byte) : bytes :=
  if htmlSafe c then [c]
  else if bool_decide (c = x5c) || bool_decide (c = x22) then [x5c; c]
  else if bool_decide (c = x0a) then [x5c; x6e]
  else if bool_decide (c = x0d) then [x5c; x72]
  else if bool_decide (c = x09) then [x5c; x74]
  else escapeU (byteZ c).

(** The fuel is the length of the text. *)
Fixpoint quoteFrom (fuel : nat) (s : bytes) : bytes :=
  match fuel, s with
  | S f, c :: r =>
      if byteZ c <? 128 then quoteAscii c ++ quoteFrom f r
      else
        let '(rune, width) := decodeRune s in
        (if (rune =? RuneError) && (width =? 1)%nat then escapeU RuneError
         else if (rune =? 8232) || (rune =? 8233) then escapeU rune
         else take width s) ++ quoteFrom f (drop width s)
  | _, _ => []
  end.

Definition quote (s : bytes) : bytes := quoteFrom (length s) s.

(** ** Unquoting *)

Definition hexValue (c : byte) : Z :=
  if isDigit c then byteZ c - 48 else if inRange 97 102 c then byteZ c - 87 else byteZ c - 55.

(** [getu4] on a text that starts with an escape of four hexadecimal digits. *)
Definition getu4 (s : bytes) : option (Z * bytes) :=
  match s with
  | p :: u :: r =>
      if (p ≟ x5c) && (u ≟ x75) then
        match r with
        | a :: b :: c :: d :: rest =>
            if isHex a && isHex b && isHex c && isHex d
            then Some (((hexValue a * 16 + hexValue b) * 16 + hexValue c) * 16 + hexValue d, rest)
            else None
        | _ => None
        end
      else None
  | _ => None
  end.

Definition isSurrogate (r : Z) : bool := (55296 <=? r) && (r <=? 57343).

(** [utf16.DecodeRune] *)
Definition decodeSurrogates (r1 r2 : Z) : Z :=
  if (55296 <=? r1) && (r1 <? 56320) && (56320 <=? r2) && (r2 <? 57344)
  then (r1 - 55296) * 1024 + (r2 - 56320) + 65536
  else RuneError.

Definition simpleEscape (c : byte) : option byte :=
  if bool_decide (c ∈ [x22; x5c; x2f; x27]) then Some c
  else if bool_decide (c = x62) then Some x08
  else if bool_decide (c = x66) then Some x0c
  else if bool_decide (c = x6e) then Some x0a
  else if bool_decide (c = x72) then Some x0d
  else if bool_decide (c = x74) then Some x09
  else None.

(** The fuel is the length of the text, of which every step consumes at least a byte. *)
Fixpoint unquoteFrom (fuel : nat) (s : bytes) : option bytes :=
  match fuel, s with
  | _, [] => Some []
  | O, _ => None
  | S f, c :: r =>
      if bool_decide (c = x5c) then
        match getu4 s with
        | Some (u, rest) =>
            if isSurrogate u then
              match getu4 rest with
              | Some (u2, rest2) =>
                  let dec := decodeSurrogates u u2 in
                  if dec =? RuneError then t ← unquoteFrom f rest; Some (encodeRune RuneError ++ t)
                  else t ← unquoteFrom f rest2; Some (encodeRune dec ++ t)
              | None => t ← unquoteFrom f rest; Some (encodeRune RuneError ++ t)
              end
            else t ← unquoteFrom f rest; Some (encodeRune u ++ t)
        | None =>
            match r with
            | e :: rest => b ← simpleEscape e; t ← unquoteFrom f rest; Some (b :: t)
            | [] => None
            end
        end
      else if (byteZ c <? 32) || bool_decide (c = x22) then None
      else if byteZ c <? 128 then t ← unquoteFrom f r; Some (c :: t)
      else
        let '(rune, width) := decodeRune s in
        t ← unquoteFrom f (drop width s); Some (encodeRune rune ++ t)
  end.

Definition unquote (raw : bytes) : option bytes := unquoteFrom (length raw) raw.

(** ** encoding/base64, [StdEncoding] *)

Definition base64Digit (n : Z) : byte :=
  if n <? 26 then zByte (65 + n) else if n <? 52 then zByte (71 + n)
  else if n <? 62 then zByte (n - 4) else if n =? 62 then x2b else x2f.

Definition base64Value (c : byte) : option Z :=
  if inRange 65 90 c then Some (byteZ c - 65)
  else if inRange 97 122 c then Some (byteZ c - 71)
  else if isDigit c then Some (byteZ c + 4)
  else if bool_decide (c = x2b) then Some 62
  else if bool_decide (c = x2f) then Some 63
  else None.

Fixpoint base64Encode (b : bytes) : bytes :=
  match b with
  | a :: b' :: c :: r =>
      base64Digit (byteZ a / 4) :: base64Digit (byteZ a mod 4 * 16 + byteZ b' / 16)
        :: base64Digit (byteZ b' mod 16 * 4 + byteZ c / 64) :: base64Digit (byteZ c mod 64)
        :: base64Encode r
  | [a; b'] =>
      [base64Digit (byteZ a / 4); base64Digit (byteZ a mod 4 * 16 + byteZ b' / 16);
       base64Digit (byteZ b' mod 16 * 4); x3d]
  | [a] => [base64Digit (byteZ a / 4); base64Digit (byteZ a mod 4 * 16); x3d; x3d]
  | [] => []
  end.

(** Quanta of four characters; padding only in the last one, and the bits it leaves over
    are not checked. *)
Fixpoint base64Quanta (s : bytes) : option bytes :=
  match s with
  | [] => Some []
  | p :: q :: r :: t :: rest =>
      a ← base64Value p;
      b ← base64Value q;
      let b0 := zByte (a * 4 + b / 16) in
      if t ≟ x3d then
        match rest with
        | [] =>
            if r ≟ x3d then Some [b0]
            else c ← base64Value r; Some [b0; zByte (b mod 16 * 16 + c / 4)]
        | _ => None
        end
      else
        c ← base64Value r;
        d ← base64Value t;
        bs ← base64Quanta rest;
        Some (b0 :: zByte (b mod 16 * 16 + c / 4) :: zByte (c mod 4 * 64 + d) :: bs)
  | _ => None
  end.

(** Line breaks are skipped. *)
Definition base64Decode (s : bytes) : option bytes :=
  base64Quanta (filter (fun c => c ∉ [x0a; x0d]) s).

End Json.
