(* ===== verification/JsonProofs.v ===== *)
(** * JSON and base64 give back what they encoded

    [jsonParse] reads every tree that the encoders of the program build back from its
    print; its fuel is never used up; text and bytes survive quoting and base64. *)

From stdpp Require Import base list sets strings.
From Stdlib Require Import ZArith Strings.Byte Lia.
From S2P Require Import Prelude Coins Types Bytes Json.

Open Scope Z_scope.

Module JsonProofs.
Import Json.

(** ** Characters *)

(** A test of a character holds of all 256 when it computes to true on each. *)
Definition allBytes : list byte := (fun n => zByte (Z.of_nat n)) <$> seq 0 256.

Lemma allBytes_in c : c ∈ allBytes.
Proof.
  apply list_elem_of_fmap. exists (Z.to_nat (byteZ c)). pose proof (byteZ_range c). split.
  - rewrite Z2Nat.id by lia. by rewrite zByte_byteZ.
  - apply elem_of_seq. lia.
Qed.

Lemma byte_forall (p : byte → bool) : forallb p allBytes = true → ∀ c, p c = true.
Proof. intros Hp c. rewrite forallb_forall in Hp. apply Hp, list_elem_of_In, allBytes_in. Qed.

(** Text of safe characters, the only text the encoders of the program produce. *)
Definition plain (s : bytes) : Prop := Forall (fun c => htmlSafe c = true) s.

Lemma safe_range c : htmlSafe c = true → 32 ≤ byteZ c < 128 ∧ c ≠ x22 ∧ c ≠ x5c.
Proof.
  unfold htmlSafe, inRange. intros [[H1%Z.leb_le H2%Z.leb_le]%andb_prop H3]%andb_prop.
  apply negb_true_iff, bool_decide_eq_false_1 in H3.
  rewrite !elem_of_cons in H3. split; [lia|]. split; intros ->; tauto.
Qed.

Lemma plain_app s t : plain (s ++ t) ↔ plain s ∧ plain t.
Proof. apply Forall_app. Qed.

Lemma plain_forallb s : forallb htmlSafe s = true → plain s.
Proof. intros Hs. apply Forall_forall. intros c Hc. rewrite forallb_forall in Hs. by apply Hs, list_elem_of_In. Qed.

Lemma quote_plain s : plain s → quote s = s.
Proof.
  unfold quote. induction 1 as [|c s Hc _ IH]; [done|]. cbn [length quoteFrom].
  apply safe_range in Hc as Hr. destruct (Z.ltb_spec (byteZ c) 128); [|lia].
  unfold quoteAscii. rewrite Hc. cbn [app]. by rewrite IH.
Qed.

Lemma unquote_plain s : plain s → unquote s = Some s.
Proof.
  unfold unquote. induction 1 as [|c s Hc _ IH]; [done|]. cbn [length unquoteFrom].
  apply safe_range in Hc as (Hr & H1 & H2). rewrite !bool_decide_false by done.
  destruct (Z.ltb_spec (byteZ c) 32); [lia|]. destruct (Z.ltb_spec (byteZ c) 128); [|lia].
  cbn. by rewrite IH.
Qed.

(** A raw string that the scanner reads up to its closing quote. *)
Definition wfRaw (raw : bytes) : Prop := ∀ rest, scanString (raw ++ x22 :: rest) = Some (raw, rest).

Lemma wfRaw_nil : wfRaw [].
Proof. done. Qed.

Lemma wfRaw_cons c raw : 32 ≤ byteZ c → c ≠ x22 → c ≠ x5c → wfRaw raw → wfRaw (c :: raw).
Proof.
  intros H1 H2 H3 Hr rest. cbn [app scanString]. rewrite !bool_decide_false by done.
  destruct (Z.ltb_spec (byteZ c) 32); [lia|]. by rewrite Hr.
Qed.

Lemma wfRaw_plain s : plain s → wfRaw s.
Proof.
  induction 1 as [|c s Hc _ IH]; [done|]. apply safe_range in Hc as (Hr & H1 & H2).
  apply wfRaw_cons; auto. lia.
Qed.

(** ** Quoting ASCII text *)

Definition ascii (s : bytes) : Prop := Forall (fun c => byteZ c < 128) s.

(** Decide the tests of known characters. *)
Ltac known t :=
  let v := eval vm_compute in t in
  match v with
  | true => change t with true
  | false => change t with false
  end.

Ltac decide_known :=
  repeat (match goal with
          | |- context [bool_decide ?P] => known (bool_decide P)
          | |- context [isHex ?c] => known (isHex c)
          | |- context [byteZ ?c <? ?n] => known (byteZ c <? n)
          | |- context [isSurrogate ?r] => known (isSurrogate r)
          end; cbn [andb orb negb]).

(** What one quoted character does to the scanner and to [unquote]. *)
Lemma quoteAscii_spec c : byteZ c < 128 →
  (∀ raw, wfRaw raw → wfRaw (quoteAscii c ++ raw)) ∧
  (∀ f s, unquoteFrom (S f) (quoteAscii c ++ s) = (t ← unquoteFrom f s; Some (c :: t))).
Proof.
  intros Hc. destruct (htmlSafe c) eqn:Hs.
  { unfold quoteAscii. rewrite Hs. apply safe_range in Hs as (Hr & H1 & H2). split.
    - intros raw. apply wfRaw_cons; [lia | done | done].
    - intros f s. cbn [app unquoteFrom]. rewrite !bool_decide_false by done.
      destruct (Z.ltb_spec (byteZ c) 32); [lia|]. destruct (Z.ltb_spec (byteZ c) 128); [|lia]. done. }
  destruct c; try discriminate Hs; try (vm_compute in Hc; discriminate Hc);
    match goal with |- context [quoteAscii ?c] =>
      let q := eval vm_compute in (quoteAscii c) in change (quoteAscii c) with q end;
    (split; [intros raw Hr rest; cbn [app scanString]; decide_known; cbn [app]; by rewrite Hr
            |intros f s; cbn [app unquoteFrom getu4]; decide_known; cbn [mbind option_bind]; reflexivity]).
Qed.

Lemma quote_cons c s : byteZ c < 128 → quote (c :: s) = quoteAscii c ++ quote s.
Proof. intros Hc. unfold quote. cbn [length quoteFrom]. destruct (Z.ltb_spec (byteZ c) 128); [done | lia]. Qed.

Lemma wfRaw_quote s : ascii s → wfRaw (quote s).
Proof.
  induction 1 as [|c s Hc _ IH]; [done|]. rewrite quote_cons by done. by apply quoteAscii_spec.
Qed.

Lemma quoteAscii_length c : (1 ≤ length (quoteAscii c))%nat.
Proof. unfold quoteAscii, escapeU. repeat case_match; cbn; lia. Qed.

Lemma unquoteFrom_quote s f : ascii s → (length (quote s) ≤ f)%nat → unquoteFrom f (quote s) = Some s.
Proof.
  intros Hs. revert f. induction Hs as [|c s Hc _ IH]; intros f Hf; [by destruct f|].
  rewrite quote_cons in * by done. rewrite length_app in Hf. pose proof (quoteAscii_length c).
  destruct f as [|f]; [lia|]. rewrite (proj2 (quoteAscii_spec c Hc)), IH by lia. done.
Qed.

(** Quoting is undone: the string a peer reads is the string that was sent. *)
Lemma unquote_quote s : ascii s → unquote (quote s) = Some s.
Proof. intros Hs. by apply unquoteFrom_quote. Qed.

(** ** base64 *)

Definition base64Facts (n : Z) : bool :=
  bool_decide (base64Value (base64Digit n) = Some n) && htmlSafe (base64Digit n)
  && bool_decide (base64Digit n ≠ x3d) && bool_decide (base64Digit n ∉ [x0a; x0d]).

Lemma base64_digit n : 0 ≤ n < 64 →
  base64Value (base64Digit n) = Some n ∧ htmlSafe (base64Digit n) = true ∧ base64Digit n ≠ x3d ∧
  base64Digit n ∉ [x0a; x0d].
Proof.
  intros Hn.
  assert (Hall : forallb base64Facts (Z.of_nat <$> seq 0 64) = true) by (vm_compute; reflexivity).
  rewrite forallb_forall in Hall. specialize (Hall n). apply andb_prop in Hall as [[[H1 H2]%andb_prop H3]%andb_prop H4].
  - split_and!; [by apply bool_decide_eq_true_1 in H1 | done | by apply bool_decide_eq_true_1 in H3 |
      by apply bool_decide_eq_true_1 in H4].
  - apply list_elem_of_In, list_elem_of_fmap. exists (Z.to_nat n). split; [lia|]. apply elem_of_seq. lia.
Qed.

(** Induction three bytes at a time. *)
Lemma bytes_ind3 (P : bytes → Prop) :
  P [] → (∀ a, P [a]) → (∀ a b, P [a; b]) → (∀ a b c r, P r → P (a :: b :: c :: r)) → ∀ s, P s.
Proof.
  intros H0 H1 H2 H3. fix IH 1. intros [|a [|b [|c r]]]; [done | apply H1 | apply H2 | apply H3, IH].
Qed.

(** The digits of two or three bytes are digits, and give the bytes back. *)
Lemma sextets a b c :
  let d0 := byteZ a / 4 in let d1 := byteZ a mod 4 * 16 + byteZ b / 16 in
  let d2 := byteZ b mod 16 * 4 + byteZ c / 64 in let d3 := byteZ c mod 64 in
  (0 ≤ d0 < 64 ∧ 0 ≤ d1 < 64 ∧ 0 ≤ d2 < 64 ∧ 0 ≤ d3 < 64) ∧
  d0 * 4 + d1 / 16 = byteZ a ∧ d1 mod 16 * 16 + d2 / 4 = byteZ b ∧ d2 mod 4 * 64 + d3 = byteZ c.
Proof.
  cbn. pose proof (byteZ_range a). pose proof (byteZ_range b). pose proof (byteZ_range c).
  split_and!; Z.to_euclidean_division_equations; lia.
Qed.

(** A last quantum is that of bytes padded with zero. *)
Lemma base64_last1 a : base64Encode [a] =
  [base64Digit (byteZ a / 4); base64Digit (byteZ a mod 4 * 16 + byteZ x00 / 16); x3d; x3d].
Proof. cbn [base64Encode]. by rewrite Z.add_0_r. Qed.

Lemma base64_last2 a b : base64Encode [a; b] =
  [base64Digit (byteZ a / 4); base64Digit (byteZ a mod 4 * 16 + byteZ b / 16);
   base64Digit (byteZ b mod 16 * 4 + byteZ x00 / 64); x3d].
Proof. cbn [base64Encode]. by rewrite Z.add_0_r. Qed.

Lemma base64_chars b : Forall (fun c => htmlSafe c = true ∧ c ∉ [x0a; x0d]) (base64Encode b).
Proof.
  assert (Hd : ∀ n, 0 ≤ n < 64 → htmlSafe (base64Digit n) = true ∧ base64Digit n ∉ [x0a; x0d]).
  { intros n Hn. by apply base64_digit in Hn as (_ & ? & _ & ?). }
  assert (Hp : htmlSafe x3d = true ∧ x3d ∉ [x0a; x0d]).
  { split; [done|]. apply (bool_decide_eq_true_1 _). vm_compute. reflexivity. }
  induction b as [|a|a b|a b c r IH] using bytes_ind3; [done | | |].
  - rewrite base64_last1. pose proof (sextets a x00 x00) as ((? & ? & ? & ?) & _). repeat constructor; apply Hp || by apply Hd.
  - rewrite base64_last2. pose proof (sextets a b x00) as ((? & ? & ? & ?) & _). repeat constructor; apply Hp || by apply Hd.
  - cbn [base64Encode]. pose proof (sextets a b c) as ((? & ? & ? & ?) & _). repeat constructor; try done; by apply Hd.
Qed.

Lemma base64_plain b : plain (base64Encode b).
Proof. eapply Forall_impl; [apply base64_chars|]. by intros c []. Qed.

Lemma base64Quanta_encode b : base64Quanta (base64Encode b) = Some b.
Proof.
  induction b as [|a|a b|a b c r IH] using bytes_ind3; [done | | |].
  - rewrite base64_last1. pose proof (sextets a x00 x00) as ((H0 & H1 & H2 & H3) & E0 & _).
    cbn [base64Quanta]. rewrite (proj1 (base64_digit _ H0)), (proj1 (base64_digit _ H1)). decide_known.
    cbn [mbind option_bind]. by rewrite E0, zByte_byteZ.
  - rewrite base64_last2. pose proof (sextets a b x00) as ((H0 & H1 & H2 & H3) & E0 & E1 & _).
    cbn [base64Quanta].
    rewrite (proj1 (base64_digit _ H0)), (proj1 (base64_digit _ H1)), (proj1 (base64_digit _ H2)).
    rewrite (bool_decide_false (base64Digit _ = x3d)) by by apply base64_digit.
    rewrite (bool_decide_true (x3d = x3d)) by done.
    cbn [mbind option_bind]. by rewrite E0, E1, !zByte_byteZ.
  - cbn [base64Encode base64Quanta]. pose proof (sextets a b c) as ((H0 & H1 & H2 & H3) & E0 & E1 & E2).
    rewrite (proj1 (base64_digit _ H0)), (proj1 (base64_digit _ H1)), (proj1 (base64_digit _ H2)),
      (proj1 (base64_digit _ H3)).
    rewrite (bool_decide_false (base64Digit _ = x3d)) by by apply base64_digit.
    cbn [mbind option_bind]. rewrite IH. cbn [mbind option_bind]. by rewrite E0, E1, E2, !zByte_byteZ.
Qed.

Lemma filter_everything {A} (P : A → Prop) `{∀ x, Decision (P x)} l : Forall P l → filter P l = l.
Proof. induction 1; [done|]. rewrite filter_cons_True by done. by f_equal. Qed.

(** Byte slices survive their base64 text. *)
Lemma base64_roundtrip b : base64Decode (base64Encode b) = Some b.
Proof.
  unfold base64Decode. rewrite filter_everything; [apply base64Quanta_encode|].
  eapply Forall_impl; [apply base64_chars|]. by intros c [].
Qed.

(** ** Printing and parsing *)

(** Induction on trees, with the hypothesis for every subtree. *)
Lemma json_tree_ind (P : json → Prop) :
  P JNull → (∀ b, P (JBool b)) → (∀ l, P (JNumber l)) → (∀ r, P (JString r)) →
  (∀ js, Forall P js → P (JArray js)) → (∀ ms, Forall (fun m => P m.2) ms → P (JObject ms)) → ∀ j, P j.
Proof.
  intros H1 H2 H3 H4 H5 H6. fix IH 1. intros [|b|l|r|js|ms]; [done | apply H2 | apply H3 | apply H4 | |].
  - apply H5. induction js as [|j js IHjs]; constructor; [apply IH | apply IHjs].
  - apply H6. induction ms as [|[k j] ms IHms]; constructor; [apply IH | apply IHms].
Qed.

(** The literal of an integer: an optional sign, and digits without a leading zero. *)
Definition intDigits (d : bytes) : Prop :=
  d = [x30] ∨ d ≠ [] ∧ Forall (fun c => isDigit c = true) d ∧ head d ≠ Some x30.

Definition intLit (l : bytes) : Prop := intDigits l ∨ ∃ d, l = x2d :: d ∧ intDigits d.

(** Trees that print to text: of at most [n] nested arrays and objects. *)
Fixpoint wfJson (n : nat) (j : json) : Prop :=
  match j, n with
  | JNull, _ | JBool _, _ => True
  | JNumber l, _ => intLit l
  | JString raw, _ => wfRaw raw
  | JArray js, S n => Forall (wfJson n) js
  | JObject ms, S n => Forall (fun m => wfRaw m.1 ∧ wfJson n m.2) ms
  | _, O => False
  end.

(** What follows a value. *)
Definition stops (rest : bytes) : Prop :=
  match rest with [] => True | c :: _ => c ∈ [x2c; x5d; x7d] end.

Lemma takeDigits_app d rest : Forall (fun c => isDigit c = true) d →
  match rest with [] => True | c :: _ => isDigit c = false end → takeDigits (d ++ rest) = (d, rest).
Proof.
  intros Hd Hr. induction Hd as [|c d Hc _ IH]; cbn.
  - destruct rest as [|c r]; [done|]. cbn. by rewrite Hr.
  - by rewrite Hc, IH.
Qed.

Lemma stops_cases rest : stops rest → rest = [] ∨ ∃ r, rest = x2c :: r ∨ rest = x5d :: r ∨ rest = x7d :: r.
Proof.
  destruct rest as [|c r]; [by left | intros Hc; right]. exists r. cbn in Hc.
  rewrite !elem_of_cons in Hc. destruct Hc as [->|[->|[->|[]%not_elem_of_nil]]]; auto.
Qed.

Lemma stops_digit rest : stops rest → match rest with [] => True | c :: _ => isDigit c = false end.
Proof. by intros [->|(r & [->|[->| ->]])]%stops_cases. Qed.

Lemma scanInt_app d rest : intDigits d → stops rest → scanInt (d ++ rest) = Some (d, rest).
Proof.
  intros [->|(Hne & Hd & Hh)] Hr; [cbn; by decide_known|].
  destruct d as [|c d]; [done|]. cbn [app scanInt]. rewrite bool_decide_false by (intros ->; done).
  unfold digits1. change (c :: d ++ rest) with ((c :: d) ++ rest).
  rewrite takeDigits_app; [done | done | by apply stops_digit].
Qed.

Lemma scanTail rest : stops rest → scanFrac rest = Some ([], rest) ∧ scanExp rest = Some ([], rest).
Proof. intros [->|(r & [->|[->| ->]])]%stops_cases; [done|..]; cbn; by decide_known. Qed.

Lemma intDigits_head d : intDigits d → ∃ c r, d = c :: r ∧ isDigit c = true.
Proof.
  intros [->|(Hne & Hd & _)]; [by exists x30, []|]. destruct Hd as [|c r Hc _]; [done|]. by exists c, r.
Qed.

Lemma scanNumber_app l rest : intLit l → stops rest → scanNumber (l ++ rest) = Some (l, rest).
Proof.
  intros Hl Hr. destruct (scanTail rest Hr) as [Hf He]. unfold scanNumber. destruct Hl as [Hd|(d & -> & Hd)].
  - destruct (intDigits_head _ Hd) as (c & r & -> & Hc). cbn [app scanMinus].
    rewrite bool_decide_false by (intros ->; done). change (c :: r ++ rest) with ((c :: r) ++ rest).
    rewrite (scanInt_app _ _ Hd Hr). cbn [mbind option_bind]. rewrite Hf. cbn [mbind option_bind]. rewrite He.
    cbn. by rewrite app_nil_r.
  - cbn [app scanMinus]. decide_known. rewrite (scanInt_app _ _ Hd Hr). cbn [mbind option_bind]. rewrite Hf.
    cbn [mbind option_bind]. rewrite He. cbn. by rewrite app_nil_r.
Qed.

(** The character a value starts with is neither space nor a closing bracket. *)
Definition opens (c : byte) : bool :=
  negb (isSpace c) && negb (bool_decide (c = x5d)) && negb (bool_decide (c = x7d)).

Lemma digit_opens c : isDigit c = true → opens c = true.
Proof.
  intros Hc. pose proof (byte_forall (fun c => implb (isDigit c) (opens c)) ltac:(vm_compute; reflexivity) c) as H.
  cbn beta in H. by rewrite Hc in H.
Qed.

Lemma print_opens n j : wfJson n j → ∃ c r, jsonPrint j = c :: r ∧ opens c = true.
Proof.
  destruct j as [|[]|l|raw|js|ms]; cbn [jsonPrint quoted]; try (intros _; by eexists _, _).
  intros Hl. assert (intLit l) as [Hd|(d & -> & Hd)] by by destruct n.
  - destruct (intDigits_head _ Hd) as (c & r & -> & Hc). exists c, r. split; [done | by apply digit_opens].
  - by exists x2d, d.
Qed.

Lemma opens_space c r : opens c = true → skipSpace (c :: r) = c :: r.
Proof. unfold opens. cbn. by destruct (isSpace c). Qed.

Lemma opens_bracket {A} c r closing (items : bytes → option (list A * bytes)) :
  opens c = true → closing = x5d ∨ closing = x7d → bracketed closing items (c :: r) = items (c :: r).
Proof.
  intros Hc Hcl. unfold bracketed. rewrite opens_space by done. rewrite bool_decide_false; [done|].
  intros ->. destruct Hcl as [-> | ->]; by vm_compute in Hc.
Qed.

Lemma parseValue_S f depth s : parseValue (S f) depth s =
  match skipSpace s with
  | [] => None
  | c :: r =>
      if bool_decide (c = x22) then '(raw, rest) ← scanString r; Some (JString raw, rest)
      else if bool_decide (c = x5b) then
        if maxNestingDepth <? depth + 1 then None
        else '(elems, rest) ← bracketed x5d (parseElems f (depth + 1)) r; Some (JArray elems, rest)
      else if bool_decide (c = x7b) then
        if maxNestingDepth <? depth + 1 then None
        else '(ms, rest) ← bracketed x7d (parseMembers f (depth + 1)) r; Some (JObject ms, rest)
      else if bool_decide (c = x6e) then literal "null" JNull (c :: r)
      else if bool_decide (c = x74) then literal "true" (JBool true) (c :: r)
      else if bool_decide (c = x66) then literal "false" (JBool false) (c :: r)
      else '(lit, rest) ← scanNumber (c :: r); Some (JNumber lit, rest)
  end.
Proof. done. Qed.

Lemma parseElems_S f depth s : parseElems (S f) depth s =
  ('(j, rest) ← parseValue f depth s; afterItem x5d (parseElems f depth) j rest).
Proof. done. Qed.

Lemma parseMembers_S f depth s : parseMembers (S f) depth s =
  match skipSpace s with
  | [] => None
  | c :: r =>
      if bool_decide (c = x22) then
        '(key, rest) ← scanString r;
        match skipSpace rest with
        | c :: r =>
            if bool_decide (c = x3a)
            then '(j, rest) ← parseValue f depth r; afterItem x7d (parseMembers f depth) (key, j) rest
            else None
        | [] => None
        end
      else None
  end.
Proof. done. Qed.

Lemma afterItem_comma {A} closing (next : bytes → option (list A * bytes)) i r :
  afterItem closing next i (x2c :: r) = ('(items, rest) ← next r; Some (i :: items, rest)).
Proof. done. Qed.

Lemma afterItem_close {A} closing (next : bytes → option (list A * bytes)) i r :
  closing = x5d ∨ closing = x7d → afterItem closing next i (closing :: r) = Some ([i], r).
Proof. by intros [-> | ->]. Qed.

(** The values of one depth are read back. *)
Definition readsBack (n : nat) : Prop :=
  ∀ j, wfJson n j → ∀ fuel depth rest, (2 * length (jsonPrint j) ≤ fuel)%nat →
    depth + Z.of_nat n ≤ maxNestingDepth → stops rest → parseValue fuel depth (jsonPrint j ++ rest) = Some (j, rest).

Lemma stops_sep c r : bool_decide (c ∈ [x2c; x5d; x7d]) = true → stops (c :: r).
Proof. apply bool_decide_eq_true_1. Qed.

Lemma parse_elems n js : readsBack n → js ≠ [] → Forall (wfJson n) js → ∀ fuel depth rest,
  (2 * length (commaSep (map jsonPrint js)) < fuel)%nat → depth + Z.of_nat n ≤ maxNestingDepth →
  parseElems fuel depth (commaSep (map jsonPrint js) ++ x5d :: rest) = Some (js, rest).
Proof.
  intros IH Hne Hjs. induction Hjs as [|j js Hj Hjs IHjs]; [done|]. intros fuel depth rest Hf Hn.
  destruct fuel as [|f]; [lia|]. rewrite parseElems_S. destruct js as [|j2 js].
  - cbn [map commaSep] in *. rewrite (IH j Hj) by (lia || (apply stops_sep; reflexivity)).
    cbn [mbind option_bind]. by rewrite afterItem_close by auto.
  - change (commaSep (map jsonPrint (j :: j2 :: js)))
      with (jsonPrint j ++ x2c :: commaSep (map jsonPrint (j2 :: js))) in *.
    rewrite length_app in Hf. cbn [length] in Hf. rewrite <- app_assoc, <- app_comm_cons.
    rewrite (IH j Hj) by (lia || (apply stops_sep; reflexivity)). cbn [mbind option_bind].
    by rewrite afterItem_comma, IHjs by (done || lia).
Qed.

Definition printMember (m : bytes * json) : bytes := quoted m.1 ++ x3a :: jsonPrint m.2.

(** One member, up to what follows it. *)
Lemma parse_member n m fuel depth rest : readsBack n → wfRaw m.1 → wfJson n m.2 → stops rest →
  (2 * length (printMember m) ≤ fuel)%nat → depth + Z.of_nat n ≤ maxNestingDepth →
  parseMembers (S fuel) depth (printMember m ++ rest) = afterItem x7d (parseMembers fuel depth) m rest.
Proof.
  intros IH Hk Hj Hr Hf Hn. destruct m as [key j]. cbn [fst snd] in *.
  unfold printMember, quoted in *. cbn [fst snd] in *. rewrite parseMembers_S, <- !app_assoc. cbn [app].
  rewrite length_app in Hf. cbn [length] in Hf.
  rewrite opens_space by done. decide_known. rewrite <- app_assoc. cbn [app]. rewrite Hk. cbn [mbind option_bind].
  rewrite opens_space by done. decide_known. rewrite (IH j Hj) by (done || lia). done.
Qed.

Lemma parse_members n ms : readsBack n → ms ≠ [] → Forall (fun m => wfRaw m.1 ∧ wfJson n m.2) ms →
  ∀ fuel depth rest,
  (2 * length (commaSep (map printMember ms)) < fuel)%nat → depth + Z.of_nat n ≤ maxNestingDepth →
  parseMembers fuel depth (commaSep (map printMember ms) ++ x7d :: rest) = Some (ms, rest).
Proof.
  intros IH Hne Hms. induction Hms as [|m ms [Hk Hj] Hms IHms]; [done|]. intros fuel depth rest Hf Hn.
  destruct fuel as [|f]; [lia|]. destruct ms as [|m2 ms].
  - cbn [map commaSep] in *. rewrite (parse_member n) by (done || lia || (apply stops_sep; reflexivity)).
    by rewrite afterItem_close by auto.
  - change (commaSep (map printMember (m :: m2 :: ms)))
      with (printMember m ++ x2c :: commaSep (map printMember (m2 :: ms))) in *.
    rewrite length_app in Hf. cbn [length] in Hf. rewrite <- app_assoc, <- app_comm_cons.
    rewrite (parse_member n) by (done || lia || (apply stops_sep; reflexivity)).
    by rewrite afterItem_comma, IHms by (done || lia).
Qed.

Lemma readsBack_leaf n j : wfJson n j → (∀ js, j ≠ JArray js) → (∀ ms, j ≠ JObject ms) →
  ∀ f depth rest, stops rest → parseValue (S f) depth (jsonPrint j ++ rest) = Some (j, rest).
Proof.
  intros Hj Ha Ho f depth rest Hr. rewrite parseValue_S.
  destruct (print_opens _ _ Hj) as (c & r & E & Hc). rewrite E. cbn [app]. rewrite opens_space by done.
  rewrite app_comm_cons, <- E.
  destruct j as [|[]|l|raw|js|ms]; [| | | | |by destruct (Ha js)|by destruct (Ho ms)];
    try (injection E as <- <-; by decide_known).
  - assert (intLit l) as Hl by by destruct n. cbn [jsonPrint] in E. subst l.
    assert (Hn : c = x2d ∨ isDigit c = true).
    { destruct Hl as [Hd|(d & [= -> ->] & _)]; [right | by left].
      by destruct (intDigits_head _ Hd) as (? & ? & [= <- <-] & ?). }
    cbn [jsonPrint]. rewrite (scanNumber_app _ _ Hl Hr).
    destruct Hn as [-> | Hn]; [by decide_known|].
    rewrite !bool_decide_false by (intros ->; by vm_compute in Hn). done.
  - injection E as <- <-. decide_known. assert (wfRaw raw) as Hw by by destruct n.
    rewrite <- app_assoc. cbn [app]. by rewrite Hw.
Qed.

Lemma commaSep_opens {A} (print : A → bytes) a l : (∃ c r, print a = c :: r ∧ opens c = true) →
  ∃ c r, commaSep (map print (a :: l)) = c :: r ∧ opens c = true.
Proof.
  intros (c & r & E & Hc). destruct l as [|b l]; cbn [map commaSep]; rewrite E; [by exists c, r|].
  by exists c, (r ++ x2c :: commaSep (map print (b :: l))).
Qed.

Lemma readsBack_all n : readsBack n.
Proof.
  induction n as [|n IH]; intros j Hj fuel depth rest Hf Hn Hr.
  { destruct (print_opens _ _ Hj) as (c & r & E & _). rewrite E in Hf. cbn in Hf.
    destruct fuel as [|f]; [lia|]. destruct j; try done; by eapply readsBack_leaf. }
  destruct (print_opens _ _ Hj) as (c & r & E & _). pose proof Hf as Hf'. rewrite E in Hf'. cbn in Hf'.
  destruct fuel as [|f]; [lia|]. clear Hf' E c r.
  destruct j as [|b|l|raw|js|ms]; try by eapply readsBack_leaf.
  - cbn [jsonPrint] in *. rewrite parseValue_S, <- app_comm_cons, opens_space by done. decide_known.
    destruct (Z.ltb_spec maxNestingDepth (depth + 1)); [lia|].
    destruct js as [|j js]; [done|]. rewrite <- app_assoc. cbn [app].
    destruct (commaSep_opens jsonPrint j js) as (c & r & E & Hc); [inversion Hj; subst; by eapply print_opens|].
    rewrite E, <- app_comm_cons, opens_bracket, app_comm_cons, <- E by auto.
    cbn [length] in Hf. rewrite length_app in Hf. by rewrite (parse_elems n) by (done || lia).
  - cbn [jsonPrint] in *. change (map _ ms) with (map printMember ms) in *.
    rewrite parseValue_S, <- app_comm_cons, opens_space by done. decide_known.
    destruct (Z.ltb_spec maxNestingDepth (depth + 1)); [lia|].
    destruct ms as [|m ms]; [done|]. rewrite <- app_assoc. cbn [app].
    destruct (commaSep_opens printMember m ms) as (c & r & E & Hc); [by eexists _, _|].
    rewrite E, <- app_comm_cons, opens_bracket, app_comm_cons, <- E by auto.
    cbn [length] in Hf. rewrite length_app in Hf. by rewrite (parse_members n) by (done || lia).
Qed.

(** What [json.Marshal] prints, [json.Unmarshal] reads. *)
Lemma jsonParse_print n j : wfJson n j → Z.of_nat n ≤ maxNestingDepth → jsonParse (jsonPrint j) = Some j.
Proof.
  intros Hj Hn. unfold jsonParse. rewrite <- (app_nil_r (jsonPrint j)) at 2.
  by rewrite (readsBack_all n) by (done || lia).
Qed.

(** ** The fuel is enough *)

(** [shorter p]: what [p] leaves is shorter than what it was given. *)
Definition shorter {A} (p : bytes → option (A * bytes)) : Prop :=
  ∀ s a rest, p s = Some (a, rest) → (length rest < length s)%nat.

Lemma skipSpace_length s : (length (skipSpace s) ≤ length s)%nat.
Proof. induction s as [|c r IH]; cbn; [done|]. destruct (isSpace c); cbn; lia. Qed.

Lemma takeDigits_length s : (length (takeDigits s).2 + length (takeDigits s).1 = length s)%nat.
Proof.
  induction s as [|c r IH]; cbn; [done|]. destruct (isDigit c); [|done].
  destruct (takeDigits r) as [d rest]. cbn in *. lia.
Qed.

Lemma digits1_shorter : shorter digits1.
Proof.
  intros s d rest. unfold digits1. pose proof (takeDigits_length s) as Hl.
  destruct (takeDigits s) as [[|c d'] r]; [done|]. cbn in Hl. intros [= <- <-]. lia.
Qed.

Lemma scanInt_shorter : shorter scanInt.
Proof.
  intros [|c s] d rest; [done|]. cbn [scanInt]. case_bool_decide; [|apply digits1_shorter].
  intros [= <- <-]. cbn. lia.
Qed.

Lemma scanFrac_length s d rest : scanFrac s = Some (d, rest) → (length rest ≤ length s)%nat.
Proof.
  destruct s as [|c s]; cbn [scanFrac]; [intros [= <- <-]; lia|]. case_bool_decide; [|intros [= <- <-]; lia].
  intros ([d' r] & Hd & [= <- <-])%bind_Some. apply digits1_shorter in Hd. cbn. lia.
Qed.

Lemma scanExp_length s d rest : scanExp s = Some (d, rest) → (length rest ≤ length s)%nat.
Proof.
  destruct s as [|c s]; cbn [scanExp]; [intros [= <- <-]; lia|].
  destruct (bool_decide (c = x65) || bool_decide (c = x45)); [|intros [= <- <-]; lia].
  destruct (scanSign s) as [sg r] eqn:Es. intros ([d' r'] & Hd & [= <- <-])%bind_Some.
  apply digits1_shorter in Hd. destruct s as [|c' s]; cbn in Es; [injection Es as <- <-; cbn in *; lia|].
  destruct (bool_decide (c' = x2b) || bool_decide (c' = x2d)); injection Es as <- <-; cbn in *; lia.
Qed.

Lemma scanNumber_shorter : shorter scanNumber.
Proof.
  intros s l rest. unfold scanNumber. destruct (scanMinus s) as [sg r] eqn:Em.
  assert (length r ≤ length s)%nat as Hm.
  { destruct s as [|c s]; cbn in Em; [injection Em as <- <-; lia|].
    case_bool_decide; injection Em as <- <-; cbn; lia. }
  intros ([i r1] & Hi & ([f r2] & Hf & ([e r3] & He & [= <- <-])%bind_Some)%bind_Some)%bind_Some.
  apply scanInt_shorter in Hi. apply scanFrac_length in Hf. apply scanExp_length in He. lia.
Qed.

Lemma scanString_shorter : shorter scanString.
Proof.
  intros s. remember (length s) as n eqn:Hn. revert s Hn.
  induction n as [n IH] using lt_wf_ind. intros [|c s] -> raw rest; [done|]. cbn [scanString length].
  assert (Hk : ∀ s' (f : bytes → bytes), (length s' ≤ length s)%nat →
    ('(raw, rest) ← scanString s'; Some (f raw, rest)) = Some (raw, rest) → (length rest < S (length s))%nat).
  { intros s' f Hs ([raw' r] & Hr & [= <- <-])%bind_Some. eapply (IH (length s')) in Hr; [|cbn; lia|done]. lia. }
  case_bool_decide; [intros [= <- <-]; lia|]. case_bool_decide.
  - destruct s as [|e s]; [done|]. case_bool_decide.
    + destruct s as [|h1 [|h2 [|h3 [|h4 s]]]]; try done. destruct (_ && _); [|done].
      apply (Hk s (fun raw => c :: e :: h1 :: h2 :: h3 :: h4 :: raw)). cbn. lia.
    + case_bool_decide; [|done]. apply (Hk s (fun raw => c :: e :: raw)). cbn. lia.
  - destruct (byteZ c <? 32); [done|]. by apply (Hk s (fun raw => c :: raw)).
Qed.

Lemma stripPrefix_length p s rest : stripPrefix p s = Some rest → length s = (length p + length rest)%nat.
Proof.
  revert s. induction p as [|a p IH]; intros s; cbn; [by intros [= <-]|].
  destruct s as [|b s]; [done|]. case_bool_decide; [|done]. intros Hs. apply IH in Hs. cbn. lia.
Qed.

Lemma literal_shorter text j : (0 < length (bytesOfString text))%nat → shorter (literal text j).
Proof. intros Hl s a rest (r & Hr & [= <- <-])%bind_Some. apply stripPrefix_length in Hr. lia. Qed.

Lemma bracketed_shorter {A} closing (items : bytes → option (list A * bytes)) :
  shorter items → shorter (bracketed closing items).
Proof.
  intros Hi s a rest. unfold bracketed. pose proof (skipSpace_length s) as Hs.
  destruct (skipSpace s) as [|c r]; [done|]. cbn in Hs. case_bool_decide; [intros [= <- <-]; lia | apply Hi].
Qed.

Lemma afterItem_shorter {A} closing (next : bytes → option (list A * bytes)) item :
  shorter next → shorter (afterItem closing next item).
Proof.
  intros Hi s a rest. unfold afterItem. pose proof (skipSpace_length s) as Hs.
  destruct (skipSpace s) as [|c r]; [done|]. cbn in Hs. case_bool_decide.
  - intros ([items r'] & Hn & [= <- <-])%bind_Some. apply Hi in Hn. lia.
  - case_bool_decide; [intros [= <- <-]; lia | done].
Qed.

Lemma parse_shorter f : (∀ depth, shorter (parseValue f depth)) ∧ (∀ depth, shorter (parseElems f depth)) ∧
  (∀ depth, shorter (parseMembers f depth)).
Proof.
  induction f as [|f (IHv & IHe & IHm)]; [by split_and!; intros ? ? ? ?|]. split_and!.
  - intros depth s j rest. rewrite parseValue_S. pose proof (skipSpace_length s) as Hs.
    destruct (skipSpace s) as [|c r]; [done|]. cbn [length] in Hs.
    assert (Hk : ∀ (B : Type) (p : bytes → option (B * bytes)) mk, shorter p →
      ('(x, rest) ← p r; Some (mk x, rest)) = Some (j, rest) → (length rest < length s)%nat).
    { intros B p mk Hp ([x r'] & Hx & [= <- <-])%bind_Some. apply Hp in Hx. lia. }
    assert (Hl : ∀ (p : bytes → option (json * bytes)), shorter p → p (c :: r) = Some (j, rest) →
      (length rest < length s)%nat).
    { intros p Hp Hx. apply Hp in Hx. cbn in Hx. lia. }
    repeat case_bool_decide; [apply Hk, scanString_shorter | | | apply Hl, literal_shorter; vm_compute; lia.. |].
    + case_match; [done|]. by apply Hk, bracketed_shorter.
    + case_match; [done|]. by apply Hk, bracketed_shorter.
    + apply (Hl (fun s => '(lit, rest) ← scanNumber s; Some (JNumber lit, rest))).
      intros s' j' r' ([l r''] & Hx & [= <- <-])%bind_Some. by apply scanNumber_shorter in Hx.
  - intros depth s js rest. rewrite parseElems_S. intros ([j r] & Hv & Ha)%bind_Some.
    apply IHv in Hv. apply afterItem_shorter in Ha; [lia | done].
  - intros depth s ms rest. rewrite parseMembers_S. pose proof (skipSpace_length s) as Hs.
    destruct (skipSpace s) as [|c r]; [done|]. cbn [length] in Hs. case_bool_decide; [|done].
    intros ([key r1] & Hk & Hm)%bind_Some. apply scanString_shorter in Hk. pose proof (skipSpace_length r1).
    destruct (skipSpace r1) as [|c2 r2]; [done|]. cbn [length] in *. case_bool_decide; [|done].
    apply bind_Some in Hm as ([j r3] & Hv & Ha). apply IHv in Hv. apply afterItem_shorter in Ha; [lia | done].
Qed.

Lemma bracketed_ext {A} closing (p q : bytes → option (list A * bytes)) s :
  p s = q s → bracketed closing p s = bracketed closing q s.
Proof. intros E. unfold bracketed. by destruct (skipSpace s); [|case_bool_decide]. Qed.

Lemma afterItem_ext {A} closing (p q : bytes → option (list A * bytes)) i s :
  (∀ r, (length r < length s)%nat → p r = q r) → afterItem closing p i s = afterItem closing q i s.
Proof.
  intros E. unfold afterItem. pose proof (skipSpace_length s) as Hs. destruct (skipSpace s) as [|c r]; [done|].
  cbn in Hs. case_bool_decide; [|done]. by rewrite E by lia.
Qed.

(** More fuel than the text needs changes nothing. *)
Lemma parse_fuel f : ∀ f', (f ≤ f')%nat →
  (∀ depth s, (2 * length s + 1 ≤ f)%nat → parseValue f' depth s = parseValue f depth s) ∧
  (∀ depth s, (2 * length s + 2 ≤ f)%nat → parseElems f' depth s = parseElems f depth s) ∧
  (∀ depth s, (2 * length s + 2 ≤ f)%nat → parseMembers f' depth s = parseMembers f depth s).
Proof.
  induction f as [|f IH]; [intros f' _; split_and!; intros; lia|].
  intros [|f'] Hle; [lia|]. destruct (IH f' ltac:(lia)) as (IHv & IHe & IHm). split_and!; intros depth s Hs.
  - rewrite !parseValue_S. pose proof (skipSpace_length s) as Hl. destruct (skipSpace s) as [|c r]; [done|].
    cbn [length] in Hl. rewrite (bracketed_ext x5d (parseElems f' _) (parseElems f (depth + 1))) by (apply IHe; lia).
    by rewrite (bracketed_ext x7d (parseMembers f' _) (parseMembers f (depth + 1))) by (apply IHm; lia).
  - rewrite !parseElems_S, IHv by lia. destruct (parseValue f depth s) as [[j rest]|] eqn:E; [|done].
    apply (proj1 (parse_shorter f)) in E. cbn [mbind option_bind]. apply afterItem_ext. intros r Hr. apply IHe. lia.
  - rewrite !parseMembers_S. pose proof (skipSpace_length s) as Hl. destruct (skipSpace s) as [|c r]; [done|].
    cbn [length] in Hl. case_bool_decide; [|done].
    destruct (scanString r) as [[key rest]|] eqn:Ek; [|done]. cbn [mbind option_bind].
    apply scanString_shorter in Ek. pose proof (skipSpace_length rest).
    destruct (skipSpace rest) as [|c2 r2]; [done|]. cbn [length] in *. case_bool_decide; [|done].
    rewrite IHv by lia. destruct (parseValue f depth r2) as [[j r3]|] eqn:E; [|done].
    apply (proj1 (parse_shorter f)) in E. cbn [mbind option_bind]. apply afterItem_ext. intros r' Hr. apply IHm. lia.
Qed.

(** [jsonParse] rejects only text that is not JSON, never for want of fuel. *)
Lemma jsonParse_fuel fuel data : (2 * length data + 2 ≤ fuel)%nat →
  parseValue fuel 0 data = parseValue (2 * length data + 2) 0 data.
Proof. intros Hf. apply (parse_fuel (2 * length data + 2) fuel Hf). lia. Qed.

End JsonProofs.
