(* ===== verification/Codec.v ===== *)
(** * Go values and their JSON

    How encoding/json encodes and decodes the types the structures of the program are made
    of.  A decoder is given the value the variable holds, because [json.Unmarshal] decodes
    into a variable: fields that the text does not name keep their value, and a field that
    is named twice is decoded twice.  An element of a slice that is decoded again is
    decoded into the element that is there.

    Fields are found by their exact name or, failing that, by a name that differs in case.
    The hexadecimal text of go-ethereum's arrays and the version text of semver are
    third-party code: the class [WireLib]. *)

From stdpp Require Import base list strings.
From Stdlib Require Import ZArith Strings.Byte.
From S2P Require Import Prelude Coins Types Bytes Json.

Open Scope Z_scope.
Open Scope go_scope.

Class WireLib `{TypesLib} := {
  (* [hexutil.Bytes.MarshalText] and [hexutil.UnmarshalFixedText] for an array of that length *)
  hexutilEncode : bytes → string;
  hexutilDecodeFixed : nat → string → result bytes;
  (* [semver.NewVersion], and the zero value of [semver.Version] *)
  semverNewVersion : string → result Version;
  semverZero : Version
}.

Module Codec.
Import Json.

Notation "x <-! m ;; k" := (rbind m (fun x => k))
  (at level 100, m at next level, right associativity) : go_scope.

Definition textOf (b : bytes) : string := String.string_of_list_byte b.

Definition typeError : error := errorf "json: cannot unmarshal value into Go value".
Definition syntaxError : error := errorf "invalid character".

(** ** Integers as literals *)

(** The decimal digits of a number that is not negative, most significant first; the fuel
    is its number of bits. *)
Fixpoint digitsFrom (fuel : nat) (z : Z) (acc : bytes) : bytes :=
  match fuel with
  | O => acc
  | S f =>
      let acc := zByte (48 + z mod 10) :: acc in
      if z <? 10 then acc else digitsFrom f (z / 10) acc
  end.

Definition digitsOf (z : Z) : bytes := digitsFrom (S (Z.to_nat (Z.log2 z))) z [].

(** The text of a [big.Int]. *)
Definition intText (z : Z) : bytes := if z <? 0 then x2d :: digitsOf (- z) else digitsOf z.

Definition digitsValue (d : bytes) : option Z :=
  match d with
  | [] => None
  | _ => if forallb isDigit d then Some (foldl (fun v c => v * 10 + (byteZ c - 48)) 0 d) else None
  end.

(** [big.Int.SetString] on a number literal. *)
Definition parseInt (lit : bytes) : option Z :=
  match scanMinus lit with
  | ([], d) => digitsValue d
  | (_, d) => Z.opp <$> digitsValue d
  end.

(** [strconv.ParseUint], with the largest value of the type. *)
Definition parseUint (max : Z) (lit : bytes) : result Z :=
  match digitsValue lit with
  | Some v => if v <=? max then Ok v else Err typeError
  | None => Err typeError
  end.

(** ** Encoders *)

Definition encString (s : string) : json := JString (quote (bytesOfString s)).

(** A [MarshalText] method. *)
Definition encText {A} (marshalText : A → result string) (a : A) : result json :=
  t <-! marshalText a ;; Ok (encString t).

(** A nil pointer is null. *)
Definition encPtr {A} (enc : A → result json) (p : option A) : result json :=
  match p with None => Ok JNull | Some a => enc a end.

Definition encBig (z : Z) : result json := Ok (JNumber (intText z)).

(** An unsigned integer has no encoding outside its type. *)
Definition encUint (max : Z) (z : Z) : result json :=
  if (0 <=? z) && (z <=? max) then Ok (JNumber (intText z)) else Err (errorf "not a value of the type").

(** A byte slice. *)
Definition encBytes (b : bytes) : result json := Ok (JString (base64Encode b)).

(** An array of [n] bytes without methods. *)
Definition encArray (n : nat) (b : bytes) : result json :=
  if bool_decide (length b = n) then Ok (JArray ((fun c => JNumber (intText (byteZ c))) <$> b))
  else Err (errorf "not a value of the type").

Section encoders.
Context `{WireLib}.

(** [common.Hash] and [common.Address]; a list of another length is not an array of the type. *)
Definition encFixed (n : nat) (b : bytes) : result json :=
  if bool_decide (length b = n) then Ok (encString (hexutilEncode b)) else Err (errorf "not a value of the type").

End encoders.

(** The members of a structure in the order of its fields. *)
Fixpoint encMembers (fields : list (string * result json)) : result (list (bytes * json)) :=
  match fields with
  | [] => Ok []
  | (name, r) :: rest =>
      j <-! r ;;
      ms <-! encMembers rest ;;
      Ok ((bytesOfString name, j) :: ms)
  end.

Definition encStruct (fields : list (string * result json)) : result json :=
  ms <-! encMembers fields ;; Ok (JObject ms).

(** A slice of values. *)
Fixpoint encElems {A} (enc : A → result json) (l : list A) : result (list json) :=
  match l with
  | [] => Ok []
  | a :: l' => j <-! enc a ;; js <-! encElems enc l' ;; Ok (j :: js)
  end.

Definition encSlice {A} (enc : A → result json) (l : list A) : result json :=
  js <-! encElems enc l ;; Ok (JArray js).

(** ** Decoders *)

Definition Decoder (A : Type) : Type := json → A → result A.

Definition stringOf (raw : bytes) : result string :=
  match unquote raw with Some s => Ok (textOf s) | None => Err syntaxError end.

(** A type with an [UnmarshalText] method: only strings, and null does nothing. *)
Definition decText {A} (unmarshalText : string → result A) : Decoder A := fun j cur =>
  match j with
  | JNull => Ok cur
  | JString raw => s <-! stringOf raw ;; unmarshalText s
  | _ => Err typeError
  end.

(** A pointer to such a type: null makes it nil. *)
Definition decTextPtr {A} (unmarshalText : string → result A) : Decoder (option A) := fun j _ =>
  match j with
  | JNull => Ok None
  | JString raw => s <-! stringOf raw ;; a <-! unmarshalText s ;; Ok (Some a)
  | _ => Err typeError
  end.

(** A pointer: null makes it nil, anything else is decoded into what it points to, or into
    a new zero value. *)
Definition decPtr {A} (zero : A) (dec : Decoder A) : Decoder (option A) := fun j cur =>
  match j with
  | JNull => Ok None
  | _ => a <-! dec j (default zero cur) ;; Ok (Some a)
  end.

(** [big.Int.UnmarshalJSON] *)
Definition decBig : Decoder Z := fun j cur =>
  match j with
  | JNull => Ok cur
  | JNumber lit => match parseInt lit with Some z => Ok z | None => Err typeError end
  | _ => Err typeError
  end.

Definition decUint (max : Z) : Decoder Z := fun j cur =>
  match j with
  | JNull => Ok cur
  | JNumber lit => parseUint max lit
  | _ => Err typeError
  end.

Definition decBool : Decoder bool := fun j cur =>
  match j with
  | JNull => Ok cur
  | JBool b => Ok b
  | _ => Err typeError
  end.

(** The elements of an array into those that are there, or into zero values. *)
Fixpoint decElems {A} (zero : A) (dec : Decoder A) (js : list json) (cur : list A) : result (list A) :=
  match js with
  | [] => Ok []
  | j :: js' =>
      a <-! dec j (default zero (head cur)) ;;
      l <-! decElems zero dec js' (tail cur) ;;
      Ok (a :: l)
  end.

Definition decByte : Decoder byte := fun j cur => z <-! decUint 255 j (byteZ cur) ;; Ok (zByte z).

(** A byte slice, nil or not: base64 text, or the numbers of the bytes. *)
Definition decBytes : Decoder (option bytes) := fun j cur =>
  match j with
  | JNull => Ok None
  | JString raw =>
      match unquote raw with
      | None => Err syntaxError
      | Some s => match base64Decode s with Some b => Ok (Some b) | None => Err (errorf "illegal base64 data") end
      end
  | JArray js => b <-! decElems x00 decByte js (default [] cur) ;; Ok (Some b)
  | _ => Err typeError
  end.

(** An array of [n] bytes without methods: missing elements are zero, more are dropped. *)
Definition decArray (n : nat) : Decoder bytes := fun j cur =>
  match j with
  | JNull => Ok cur
  | JArray js => b <-! decElems x00 decByte (take n js) cur ;; Ok (goCopy n b)
  | _ => Err typeError
  end.

Section decoders.
Context `{WireLib}.

(** [UnmarshalJSON] of [common.Hash] and [common.Address] reads the text between the quotes
    as it is. *)
Definition decFixed (n : nat) : Decoder bytes := fun j _ =>
  match j with
  | JString raw => hexutilDecodeFixed n (textOf raw)
  | _ => Err (errorf "non-string")
  end.

(** A pointer to one. *)
Definition decFixedPtr (n : nat) : Decoder (option bytes) := fun j _ =>
  match j with
  | JNull => Ok None
  | _ => b <-! decFixed n j [] ;; Ok (Some b)
  end.

(** [semver.Version.UnmarshalJSON] decodes a string, for which null is empty. *)
Definition decVersion : Decoder Version := fun j _ =>
  match j with
  | JNull => semverNewVersion ""
  | JString raw => s <-! stringOf raw ;; semverNewVersion s
  | _ => Err typeError
  end.

Definition decVersionPtr : Decoder (option Version) := fun j _ =>
  match j with
  | JNull => Ok None
  | JString raw => s <-! stringOf raw ;; v <-! semverNewVersion s ;; Ok (Some v)
  | _ => Err typeError
  end.

End decoders.

(** ** Structures *)

(** The case folding of names that can match ASCII ones: lower-case letters, and the two
    runes outside ASCII that fold to letters (U+017F and U+212A). *)
Fixpoint foldName (s : bytes) : bytes :=
  match s with
  | [] => []
  | c :: r =>
      match r with
      | c2 :: r2 =>
          if bool_decide (c = xc5) && bool_decide (c2 = xbf) then x53 :: foldName r2
          else
            match r2 with
            | c3 :: r3 =>
                if bool_decide (c = xe2) && bool_decide (c2 = x84) && bool_decide (c3 = xaa)
                then x4b :: foldName r3
                else (if inRange 97 122 c then zByte (byteZ c - 32) else c) :: foldName r
            | [] => (if inRange 97 122 c then zByte (byteZ c - 32) else c) :: foldName r
            end
      | [] => [if inRange 97 122 c then zByte (byteZ c - 32) else c]
      end
  end.

(** The field a key names. *)
Definition resolve (names : list string) (rawKey : bytes) : option string :=
  k ← unquote rawKey;
  let exact := filter (fun n => bytesOfString n = k) names in
  let folded := filter (fun n => foldName (bytesOfString n) = foldName k) names in
  match exact with
  | n :: _ => Some n
  | [] => head folded
  end.

(** The value of one field after all members. *)
Fixpoint field {A} (names : list string) (name : string) (dec : Decoder A) (ms : list (bytes * json)) (cur : A)
  : result A :=
  match ms with
  | [] => Ok cur
  | (k, j) :: ms' =>
      if bool_decide (resolve names k = Some name)
      then v <-! dec j cur ;; field names name dec ms' v
      else field names name dec ms' cur
  end.

(** A structure without methods: null does nothing. *)
Definition decStruct {A} (body : list (bytes * json) → A → result A) : Decoder A := fun j cur =>
  match j with
  | JNull => Ok cur
  | JObject ms => body ms cur
  | _ => Err typeError
  end.

(** [json.Marshal] and [json.Unmarshal]. *)
Definition jsonMarshal {A} (enc : A → result json) (a : A) : result bytes :=
  j <-! enc a ;; Ok (jsonPrint j).

Definition jsonUnmarshal {A} (dec : Decoder A) (data : bytes) (zero : A) : result A :=
  match jsonParse data with
  | None => Err syntaxError
  | Some j => dec j zero
  end.

End Codec.
