(* ===== verification/CodecProofs.v ===== *)
(** * The codecs of Go values give back what they encoded

    [codec P n enc dec]: what [enc] makes of a value that satisfies [P] is a JSON tree of at
    most [n] levels, not null, and [dec] decodes it to the value, into any variable. *)

From stdpp Require Import base list strings.
From Stdlib Require Import ZArith Strings.Byte Lia.
From S2P Require Import Prelude Coins Types TypesProofs Bytes Json JsonProofs Codec.

Open Scope Z_scope.
Open Scope go_scope.

(** What the code relies on of the documentation of hexutil and semver: the text of an array
    is plain and is decoded to the array; so is the text of a version ([Version] has the
    versions that semver accepts: their identifiers are letters, digits and hyphens). *)
Class WireSpec `{WireLib} : Prop := {
  hexutil_plain b : JsonProofs.plain (bytesOfString (hexutilEncode b));
  hexutil_roundtrip b : hexutilDecodeFixed (length b) (hexutilEncode b) = Ok b;
  hexutil_length n s b : hexutilDecodeFixed n s = Ok b → length b = n;
  semver_plain v : JsonProofs.plain (bytesOfString (versionString v));
  semver_roundtrip v : semverNewVersion (versionString v) = Ok v;
  address_plain a : JsonProofs.plain (bytesOfString (addressHex a))
}.

Module CodecProofs.
Import Json JsonProofs Codec.

Lemma textOf_bytes s : textOf (bytesOfString s) = s.
Proof. apply String.string_of_list_byte_of_string. Qed.

(** ** Integers *)

Lemma digit_byte d : 0 ≤ d < 10 → isDigit (zByte (48 + d)) = true ∧ byteZ (zByte (48 + d)) = 48 + d.
Proof.
  intros Hd. assert (byteZ (zByte (48 + d)) = 48 + d) as E by (rewrite byteZ_zByte, Z.mod_small; lia).
  split; [|done]. unfold isDigit, inRange. rewrite E. apply andb_true_intro. split; apply Z.leb_le; lia.
Qed.

Definition valueFrom (v : Z) (d : bytes) : Z := foldl (fun v c => v * 10 + (byteZ c - 48)) v d.

Lemma valueFrom_cons v c d : valueFrom v (c :: d) = valueFrom (v * 10 + (byteZ c - 48)) d.
Proof. done. Qed.

(** Dividing by ten uses up a bit of fuel. *)
Lemma digitsFrom_spec f z acc : 0 ≤ z < 2 ^ Z.of_nat f → (0 < f)%nat →
  ∃ c d, digitsFrom f z acc = (c :: d) ++ acc ∧ Forall (fun c => isDigit c = true) (c :: d) ∧
    (∀ v, v = 0 → valueFrom v (c :: d) = z) ∧ (c = x30 → z = 0 ∧ d = []).
Proof.
  revert z acc. induction f as [|f IH]; [lia|]. intros z acc Hz _. cbn [digitsFrom].
  destruct (digit_byte (z mod 10)) as [Hd Hb]; [apply Z.mod_pos_bound; lia|].
  destruct (Z.ltb_spec z 10) as [Hlt|Hge].
  - rewrite Z.mod_small in * by lia. exists (zByte (48 + z)), []. split_and!; [done | by constructor | |].
    + intros v ->. unfold valueFrom. cbn [foldl]. rewrite Hb. lia.
    + intros E. rewrite E in Hb. cbn in Hb. split; [lia | done].
  - rewrite Nat2Z.inj_succ, Z.pow_succ_r in Hz by lia.
    assert (Hq : 0 ≤ z / 10 < 2 ^ Z.of_nat f).
    { split; [apply Z.div_pos; lia | apply Z.div_lt_upper_bound; lia]. }
    destruct f as [|f]; [cbn in Hq; pose proof (Z.div_mod z 10); pose proof (Z.mod_pos_bound z 10); lia|].
    destruct (IH (z / 10) (zByte (48 + z mod 10) :: acc) Hq ltac:(lia)) as (c & d & E & Hf & Hv & Hz0).
    exists c, (d ++ [zByte (48 + z mod 10)]). split_and!.
    + rewrite E. cbn. by rewrite <- app_assoc.
    + inversion Hf; subst. constructor; [done|]. apply Forall_app. split; [done | by constructor].
    + intros v ->. change (c :: d ++ ?x) with ((c :: d) ++ x). unfold valueFrom in *. rewrite foldl_app, Hv by done.
      cbn [foldl]. rewrite Hb. pose proof (Z.div_mod z 10). lia.
    + intros Hc. destruct (Hz0 Hc) as [H0 _]. pose proof (Z.div_mod z 10). pose proof (Z.mod_pos_bound z 10). lia.
Qed.

Lemma digitsOf_spec z : 0 ≤ z → intDigits (digitsOf z) ∧ digitsValue (digitsOf z) = Some z.
Proof.
  intros Hz. unfold digitsOf.
  destruct (digitsFrom_spec (S (Z.to_nat (Z.log2 z))) z []) as (c & d & E & Hf & Hv & H0); [|lia|].
  { split; [done|]. rewrite Nat2Z.inj_succ, Z2Nat.id by apply Z.log2_nonneg.
    destruct (decide (z = 0)) as [->|]; [done|]. apply Z.log2_spec. lia. }
  rewrite E, app_nil_r. split.
  - destruct (decide (c = x30)) as [->|Hc]; [left; by destruct (H0 eq_refl) as [_ ->]|].
    right. split_and!; [done | done|]. intros [= ->]. done.
  - unfold digitsValue. rewrite (proj2 (forallb_forall _ _)).
    + f_equal. by apply Hv.
    + intros x Hx. rewrite Forall_forall in Hf. by apply Hf, list_elem_of_In.
Qed.

Lemma intText_lit z : intLit (intText z).
Proof.
  unfold intText. destruct (Z.ltb_spec z 0); [right | left]; [eexists; split; [done|]|]; apply digitsOf_spec; lia.
Qed.

Lemma scanMinus_digits d : intDigits d → scanMinus d = ([], d).
Proof.
  intros Hd. destruct (intDigits_head _ Hd) as (c & r & -> & Hc). cbn [scanMinus].
  rewrite bool_decide_false; [done|]. intros ->. by vm_compute in Hc.
Qed.

(** A [big.Int] survives its text. *)
Lemma parseInt_text z : parseInt (intText z) = Some z.
Proof.
  unfold parseInt, intText. destruct (Z.ltb_spec z 0).
  - cbn [scanMinus]. decide_known. rewrite (proj2 (digitsOf_spec (- z) ltac:(lia))). cbn. f_equal. lia.
  - destruct (digitsOf_spec z ltac:(lia)) as [Hd Hv]. by rewrite scanMinus_digits.
Qed.

Lemma parseUint_text max z : 0 ≤ z ≤ max → parseUint max (intText z) = Ok z.
Proof.
  intros Hz. unfold parseUint, intText. destruct (Z.ltb_spec z 0); [lia|].
  rewrite (proj2 (digitsOf_spec z ltac:(lia))). destruct (Z.leb_spec z max); [done | lia].
Qed.

(** ** Codecs of values *)

Definition codec {A} (P : A → Prop) (n : nat) (enc : A → result json) (dec : Decoder A) : Prop :=
  ∀ a j cur, P a → enc a = Ok j → wfJson n j ∧ j ≠ JNull ∧ dec j cur = Ok a.

Lemma wfJson_mono n m j : (n ≤ m)%nat → wfJson n j → wfJson m j.
Proof.
  revert n m. induction j as [| | | |js IH|ms IH] using json_tree_ind; intros n m Hle; destruct n, m; try done || lia.
  - cbn. intros Hjs. rewrite Forall_forall in IH, Hjs |- *. intros j Hj. apply (IH j Hj n); [lia | auto].
  - cbn. intros Hms. rewrite Forall_forall in IH, Hms |- *. intros x Hx. destruct (Hms x Hx) as [Hk Hw].
    split; [done|]. apply (IH x Hx n); [lia | done].
Qed.

Lemma codec_mono {A} (P Q : A → Prop) n m enc dec : (n ≤ m)%nat → (∀ a, Q a → P a) →
  codec P n enc dec → codec Q m enc dec.
Proof.
  intros Hle HQ Hc a j cur Ha E. destruct (Hc a j cur (HQ a Ha) E) as (H1 & H2 & H3).
  split_and!; [by eapply wfJson_mono | done | done].
Qed.

Lemma rbind_Ok {A B} (r : result A) (k : A → result B) b : rbind r k = Ok b → ∃ a, r = Ok a ∧ k a = Ok b.
Proof. destruct r; [eauto | done]. Qed.

Lemma stringOf_quote s : ascii (bytesOfString s) → stringOf (quote (bytesOfString s)) = Ok s.
Proof. intros Hs. unfold stringOf. by rewrite unquote_quote, textOf_bytes. Qed.

Lemma plain_ascii s : plain s → ascii s.
Proof. intros Hp. eapply Forall_impl; [exact Hp|]. intros c Hc. by apply safe_range in Hc as ((_ & ?) & _). Qed.

Lemma encString_wf n s : ascii (bytesOfString s) → wfJson n (encString s).
Proof. intros Hs. destruct n; by apply wfRaw_quote. Qed.

(** A type with a text: its text is ASCII and is read back. *)
Definition textCodec {A} (P : A → Prop) (marshal : A → result string) (unmarshal : string → result A) : Prop :=
  ∀ a t, P a → marshal a = Ok t → ascii (bytesOfString t) ∧ unmarshal t = Ok a.

Section texts.
Context {A : Type} (P : A → Prop) (marshal : A → result string) (unmarshal : string → result A).
Hypothesis text : textCodec P marshal unmarshal.

Lemma codec_text : codec P 0 (encText marshal) (decText unmarshal).
Proof.
  intros a j cur Ha (t & Ht & [= <-])%rbind_Ok. destruct (text a t Ha Ht) as [Hp Hu].
  split_and!; [by apply encString_wf | done |]. cbn [encString decText]. by rewrite stringOf_quote.
Qed.

(** Its pointer is decoded without the value it had. *)
Lemma codec_textPtr p j cur : (∀ a, p = Some a → P a) → encPtr (encText marshal) p = Ok j →
  wfJson 0 j ∧ decTextPtr unmarshal j cur = Ok p.
Proof.
  destruct p as [a|]; [|by intros _ [= <-]]. intros Ha (t & Ht & [= <-])%rbind_Ok.
  destruct (text a t (Ha a eq_refl) Ht) as [Hp Hu]. split; [by apply encString_wf|].
  cbn [encString decTextPtr]. rewrite stringOf_quote by done. cbn. by rewrite Hu.
Qed.
End texts.

(** Pointers: the codec of an option whose values satisfy [P]. *)
Lemma codec_ptr {A} (P : A → Prop) n zero enc dec p j cur : codec P n enc dec → (∀ a, p = Some a → P a) →
  encPtr enc p = Ok j → wfJson n j ∧ decPtr zero dec j cur = Ok p.
Proof.
  intros Hc Hp. destruct p as [a|]; [|intros [= <-]; by destruct n].
  intros E. destruct (Hc a j (default zero cur) (Hp a eq_refl) E) as (Hw & Hn & Hd). split; [done|].
  unfold decPtr. destruct j; try done; by rewrite Hd.
Qed.

Lemma codec_big : codec (fun _ => True) 0 encBig decBig.
Proof. intros z j cur _ [= <-]. split_and!; [apply intText_lit | done |]. cbn. by rewrite parseInt_text. Qed.

Lemma codec_uint max : codec (fun _ => True) 0 (encUint max) (decUint max).
Proof.
  intros z j cur _. unfold encUint. destruct (_ && _) eqn:E; [|done]. intros [= <-].
  apply andb_prop in E as [H1%Z.leb_le H2%Z.leb_le].
  split_and!; [apply intText_lit | done |]. cbn [decUint]. by apply parseUint_text.
Qed.

Lemma codec_bytes b j cur : encBytes b = Ok j → wfJson 0 j ∧ decBytes j cur = Ok (Some b).
Proof.
  intros [= <-]. split; [apply wfRaw_plain, base64_plain|]. cbn [decBytes].
  by rewrite unquote_plain, base64_roundtrip by apply base64_plain.
Qed.

Lemma decElems_bytes b cur :
  decElems x00 decByte ((fun c => JNumber (intText (byteZ c))) <$> b) cur = Ok b.
Proof.
  revert cur. induction b as [|c b IH]; intros cur; [done|]. cbn [fmap list_fmap decElems].
  unfold decByte at 1. cbn [decUint]. pose proof (byteZ_range c). rewrite parseUint_text by lia.
  cbn [rbind]. by rewrite zByte_byteZ, IH.
Qed.

Lemma codec_array n : codec (fun _ => True) 1 (encArray n) (decArray n).
Proof.
  intros b j cur _. unfold encArray. case_bool_decide as Hn; [|done]. intros [= <-]. split_and!; [|done|].
  - cbn. apply Forall_fmap, Forall_forall. intros c _. apply intText_lit.
  - cbn [decArray]. rewrite firstn_all2 by (rewrite length_fmap; lia). rewrite decElems_bytes. cbn. by rewrite goCopy_id.
Qed.

Lemma decElems_codec {A} (P : A → Prop) n zero enc dec : codec P n enc dec → ∀ l js cur,
  Forall P l → encElems enc l = Ok js → Forall (wfJson n) js ∧ decElems zero dec js cur = Ok l.
Proof.
  intros Hc l. induction l as [|a l IH]; intros js cur Hl; [by intros [= <-]|].
  inversion Hl; subst. intros (j & Hj & (js' & Hjs & [= <-])%rbind_Ok)%rbind_Ok.
  destruct (Hc a j (default zero (head cur))) as (Hw & _ & Hd); [done..|].
  destruct (IH js' (tail cur)) as [Hws Hds]; [done..|]. split; [by constructor|]. cbn. by rewrite Hd, Hds.
Qed.

Section fixed.
Context `{WireSpec}.

Lemma hexutil_quote b : quote (bytesOfString (hexutilEncode b)) = bytesOfString (hexutilEncode b).
Proof. apply quote_plain, hexutil_plain. Qed.

Lemma codec_fixed n : codec (fun _ => True) 0 (encFixed n) (decFixed n).
Proof.
  intros b j cur _. unfold encFixed. case_bool_decide; [|done]. intros [= <-]. subst n.
  split_and!; [apply encString_wf, plain_ascii, hexutil_plain | done |].
  unfold encString. cbn [decFixed]. by rewrite hexutil_quote, textOf_bytes, hexutil_roundtrip.
Qed.

Lemma codec_fixedPtr n p j cur : encPtr (encFixed n) p = Ok j → wfJson 0 j ∧ decFixedPtr n j cur = Ok p.
Proof.
  destruct p as [b|]; [|by intros [= <-]]. intros E.
  destruct (codec_fixed n b j [] I E) as (Hw & Hn & Hd). split; [done|].
  destruct j; try done. cbn [decFixedPtr]. by rewrite Hd.
Qed.

Lemma codec_version : codec (fun _ => True) 0 (fun v => Ok (encString (versionString v))) decVersion.
Proof.
  intros v j cur _ [= <-]. pose proof (plain_ascii _ (semver_plain v)).
  split_and!; [by apply encString_wf | done |].
  unfold encString. cbn [decVersion]. rewrite stringOf_quote by done. apply semver_roundtrip.
Qed.

Lemma decFixed_length n j cur b : decFixed n j cur = Ok b → length b = n.
Proof. destruct j; try done. apply hexutil_length. Qed.

End fixed.

(** ** Fields *)

Lemma field_here {A} names name (dec : Decoder A) k j ms cur : resolve names k = Some name →
  field names name dec ((k, j) :: ms) cur = rbind (dec j cur) (field names name dec ms).
Proof. intros E. cbn [field]. by rewrite bool_decide_true. Qed.

Lemma field_other {A} names name (dec : Decoder A) k j ms cur : bool_decide (resolve names k = Some name) = false →
  field names name dec ((k, j) :: ms) cur = field names name dec ms cur.
Proof. intros E. cbn [field]. by rewrite E. Qed.

(** [reads n dec j a]: the tree [j] decodes to [a], into any variable. *)
Definition reads {A} (n : nat) (dec : Decoder A) (j : json) (a : A) : Prop :=
  wfJson n j ∧ ∀ cur, dec j cur = Ok a.

Lemma codec_reads {A} (P : A → Prop) n enc dec a j : codec P n enc dec → P a → enc a = Ok j → reads n dec j a.
Proof. intros Hc Ha E. split; [by apply (Hc a j a) | intros cur; by apply (Hc a j cur)]. Qed.

Lemma reads_field {A} n names name (dec : Decoder A) j a ms cur : reads n dec j a →
  field names name dec ms a = Ok a → resolve names (bytesOfString name) = Some name →
  field names name dec ((bytesOfString name, j) :: ms) cur = Ok a.
Proof. intros [_ Hr] Hf E. rewrite field_here by done. by rewrite Hr. Qed.

(** Read the fields of a structure whose members are known. *)
Ltac read_fields :=
  repeat first
    [ progress cbn [rbind]
    | rewrite field_other by (vm_compute; reflexivity)
    | rewrite field_here by (vm_compute; reflexivity)
    | match goal with
      | E : reads _ ?d ?j _ |- context [?d ?j _] => rewrite (proj2 E)
      end
    | progress cbn [field] ].

(** The members of an encoded structure are at most as deep as the values. *)
Lemma wfMembers_cons n name j ms : wfRaw (bytesOfString name) → wfJson n j →
  wfJson (S n) (JObject ms) → wfJson (S n) (JObject ((bytesOfString name, j) :: ms)).
Proof. intros Hk Hj Hms. cbn. by constructor. Qed.

Lemma wfMembers_nil n : wfJson (S n) (JObject []).
Proof. by constructor. Qed.

Lemma wfName name : forallb htmlSafe (bytesOfString name) = true → wfRaw (bytesOfString name).
Proof. intros Hn. by apply wfRaw_plain, plain_forallb. Qed.

Ltac wf_members :=
  repeat (apply wfMembers_cons; [apply wfName; vm_compute; reflexivity | |]); [..|apply wfMembers_nil];
  try match goal with
      | E : reads ?n _ ?j _ |- wfJson _ ?j => apply (wfJson_mono n); [lia | exact (proj1 E)]
      end.

Lemma encMembers_cons name r rest ms : encMembers ((name, r) :: rest) = Ok ms →
  ∃ j ms', r = Ok j ∧ encMembers rest = Ok ms' ∧ ms = (bytesOfString name, j) :: ms'.
Proof. cbn. intros (j & Hj & (ms' & Hms & [= <-])%rbind_Ok)%rbind_Ok. eauto. Qed.

(** An invariant of a field that every decoding of it establishes. *)
Lemma field_inv {A} (P : A → Prop) names name (dec : Decoder A) ms cur v :
  (∀ j c a, P c → dec j c = Ok a → P a) → P cur → field names name dec ms cur = Ok v → P v.
Proof.
  intros Hd. revert cur. induction ms as [|[k j] ms IH]; intros cur Hc; cbn [field]; [by intros [= <-]|].
  case_bool_decide; [|by apply IH]. intros (a & Ha & Hf)%rbind_Ok. eapply IH; [|done]. by eapply Hd.
Qed.

Lemma jsonUnmarshal_marshal {A} (P : A → Prop) n enc dec a b zero : codec P n enc dec → Z.of_nat n ≤ maxNestingDepth →
  P a → jsonMarshal enc a = Ok b → jsonUnmarshal dec b zero = Ok a.
Proof.
  intros Hc Hn Ha (j & Hj & [= <-])%rbind_Ok. destruct (Hc a j zero Ha Hj) as (Hw & _ & Hd).
  unfold jsonUnmarshal. by rewrite (jsonParse_print n).
Qed.

End CodecProofs.
