(* ===== verification/Wire.v ===== *)
(** * The structures on the wire and on disk (the JSON of packages message, types,
      contracts, mcrypto and db)

    The fields of every structure that the daemons exchange and that the recovery
    database keeps, with their names and their validation, as encoders and decoders; from
    them the instances of the interfaces the other files use: [MsgJson] (net/message),
    [OfferJson] (offers) and [VJson] (records of the recovery database). *)

From stdpp Require Import base gmap list strings.
From Stdlib Require Import ZArith Strings.Byte.
From S2P Require Import Prelude Coins Types Swap Offers Bytes Crypto Contracts External Db Relayer Message Json Codec.

Open Scope Z_scope.
Open Scope go_scope.

Module Wire.
Import Json Codec.

(** The members of a structure that is decoded into a zero value. *)
Definition membersOf (j : json) : result (list (bytes * json)) :=
  match j with
  | JNull => Ok []
  | JObject ms => Ok ms
  | _ => Err typeError
  end.

(** A pointer that must not be nil. *)
Definition requiredPtr {A} (p : option A) (name : string) : result A :=
  match p with
  | Some a => Ok a
  | None => Err (errorf (name +:+ " failed on the 'required' tag")%string)
  end.

(** The error of the validator, if any, before a value. *)
Definition validated {A} (err : option error) (a : A) : result A :=
  match err with Some e => Err e | None => Ok a end.

Section swaps.
Context `{WireLib}.

(** ** ethereum/swap_creator_marshal.go *)

(** The type [swap]: the fields of [SwapCreatorSwap] with tags; the integers are pointers. *)
Record swapJSON : Type := mkSwapJSON {
  sjOwner : Address;
  sjClaimer : Address;
  sjClaimCommitment : Hash;
  sjRefundCommitment : Hash;
  sjTimeout1 : option Z;
  sjTimeout2 : option Z;
  sjAsset : Address;
  sjValue : option Z;
  sjNonce : option Z
}.

Definition zeroSwapJSON : swapJSON :=
  mkSwapJSON zeroAddress zeroAddress EmptyHash EmptyHash None None zeroAddress None None.

Definition swapNames : list string :=
  ["owner"; "claimer"; "claimCommitment"; "refundCommitment"; "timeout1"; "timeout2"; "asset"; "value"; "nonce"].

Definition swapValidate (s : swapJSON) : option error :=
  firstError [required (nonZero (sjOwner s)) "Owner"; required (nonZero (sjClaimer s)) "Claimer";
              required (nonZero (sjClaimCommitment s)) "ClaimCommitment";
              required (nonZero (sjRefundCommitment s)) "RefundCommitment";
              required (bool_decide (is_Some (sjTimeout1 s))) "Timeout1";
              required (bool_decide (is_Some (sjTimeout2 s))) "Timeout2";
              required (bool_decide (is_Some (sjValue s))) "Value";
              required (bool_decide (is_Some (sjNonce s))) "Nonce"].

Definition encSwapJSON (s : swapJSON) : result json :=
  encStruct [("owner", encFixed addressLen (sjOwner s)); ("claimer", encFixed addressLen (sjClaimer s));
             ("claimCommitment", encFixed hashLen (sjClaimCommitment s));
             ("refundCommitment", encFixed hashLen (sjRefundCommitment s));
             ("timeout1", encPtr encBig (sjTimeout1 s)); ("timeout2", encPtr encBig (sjTimeout2 s));
             ("asset", encFixed addressLen (sjAsset s));
             ("value", encPtr encBig (sjValue s)); ("nonce", encPtr encBig (sjNonce s))].

Definition decSwapJSON (ms : list (bytes * json)) (s : swapJSON) : result swapJSON :=
  owner <-! field swapNames "owner" (decFixed addressLen) ms (sjOwner s) ;;
  claimer <-! field swapNames "claimer" (decFixed addressLen) ms (sjClaimer s) ;;
  claim <-! field swapNames "claimCommitment" (decFixed hashLen) ms (sjClaimCommitment s) ;;
  refund <-! field swapNames "refundCommitment" (decFixed hashLen) ms (sjRefundCommitment s) ;;
  timeout1 <-! field swapNames "timeout1" (decPtr 0 decBig) ms (sjTimeout1 s) ;;
  timeout2 <-! field swapNames "timeout2" (decPtr 0 decBig) ms (sjTimeout2 s) ;;
  asset <-! field swapNames "asset" (decFixed addressLen) ms (sjAsset s) ;;
  value <-! field swapNames "value" (decPtr 0 decBig) ms (sjValue s) ;;
  nonce <-! field swapNames "nonce" (decPtr 0 decBig) ms (sjNonce s) ;;
  Ok (mkSwapJSON owner claimer claim refund timeout1 timeout2 asset value nonce).

Definition SwapCreatorSwap_MarshalJSON (sfs : SwapCreatorSwap) : result json :=
  let s := mkSwapJSON (swOwner sfs) (swClaimer sfs) (swClaimCommitment sfs) (swRefundCommitment sfs)
             (Some (swTimeout1 sfs)) (Some (swTimeout2 sfs)) (swAsset sfs) (Some (swValue sfs))
             (Some (swNonce sfs)) in
  s <-! validated (swapValidate s) s ;;
  encSwapJSON s.

(** The validated structure has no nil integer: the last match never fails. *)
Definition SwapCreatorSwap_UnmarshalJSON (j : json) : result SwapCreatorSwap :=
  ms <-! membersOf j ;;
  s <-! decSwapJSON ms zeroSwapJSON ;;
  s <-! validated (swapValidate s) s ;;
  timeout1 <-! requiredPtr (sjTimeout1 s) "Timeout1" ;;
  timeout2 <-! requiredPtr (sjTimeout2 s) "Timeout2" ;;
  value <-! requiredPtr (sjValue s) "Value" ;;
  nonce <-! requiredPtr (sjNonce s) "Nonce" ;;
  Ok (mkSwap (sjOwner s) (sjClaimer s) (sjClaimCommitment s) (sjRefundCommitment s) timeout1 timeout2
        (sjAsset s) value nonce).

(** A field of this type, and a pointer to one. *)
Definition decSwap : Decoder (option SwapCreatorSwap) := fun j _ =>
  s <-! SwapCreatorSwap_UnmarshalJSON j ;; Ok (Some s).

Definition decSwapPtr : Decoder (option SwapCreatorSwap) := fun j cur =>
  match j with JNull => Ok None | _ => decSwap j cur end.

(** ** The generated [SwapCreatorRelaySwap]: no tags, so the names of its fields *)

Definition relaySwapNames : list string := ["Swap"; "Fee"; "RelayerHash"; "SwapCreator"].

(** The zero swap fails its own validation. *)
Definition encRelaySwap (m : RelaySwapMsg) : result json :=
  encStruct [("Swap", match rmSwap m with
                      | Some s => SwapCreatorSwap_MarshalJSON s
                      | None => Err (errorf "Owner failed on the 'required' tag")
                      end);
             ("Fee", encPtr encBig (rmFee m)); ("RelayerHash", encArray hashLen (rmRelayerHash m));
             ("SwapCreator", encFixed addressLen (rmSwapCreator m))].

Definition decRelaySwap (ms : list (bytes * json)) (m : RelaySwapMsg) : result RelaySwapMsg :=
  swap <-! field relaySwapNames "Swap" decSwap ms (rmSwap m) ;;
  fee <-! field relaySwapNames "Fee" (decPtr 0 decBig) ms (rmFee m) ;;
  hash <-! field relaySwapNames "RelayerHash" (decArray hashLen) ms (rmRelayerHash m) ;;
  creator <-! field relaySwapNames "SwapCreator" (decFixed addressLen) ms (rmSwapCreator m) ;;
  Ok (mkRelaySwapMsg swap fee hash creator).

Definition zeroRelaySwap : RelaySwapMsg := mkRelaySwapMsg None None EmptyHash zeroAddress.

(** ** db/types.go *)

Definition swapInfoNames : list string := ["startNumber"; "swapID"; "swap"; "swapCreatorAddr"].

Definition encSwapInfo (i : EthereumSwapInfo) : result json :=
  encStruct [("startNumber", encBig (esStartNumber i)); ("swapID", encFixed hashLen (esSwapID i));
             ("swap", SwapCreatorSwap_MarshalJSON (esSwap i));
             ("swapCreatorAddr", encFixed addressLen (esSwapCreatorAddr i))].

Definition decSwapInfo (j : json) : result EthereumSwapInfo :=
  ms <-! membersOf j ;;
  start <-! field swapInfoNames "startNumber" (decPtr 0 decBig) ms None ;;
  id <-! field swapInfoNames "swapID" (decFixed hashLen) ms EmptyHash ;;
  swap <-! field swapInfoNames "swap" decSwapPtr ms None ;;
  creator <-! field swapInfoNames "swapCreatorAddr" (decFixed addressLen) ms zeroAddress ;;
  start <-! requiredPtr start "StartNumber" ;;
  swap <-! requiredPtr swap "Swap" ;;
  Ok (mkEthInfo start id swap creator).

#[export] Instance wireSwapInfo : VJson EthereumSwapInfo := {|
  vValidate := fun i => firstError [required (nonZero (esSwapID i)) "SwapID";
                                    required (nonZero (esSwapCreatorAddr i)) "SwapCreatorAddr"];
  vMarshal := jsonMarshal encSwapInfo;
  vUnmarshal := fun data => match jsonParse data with Some j => decSwapInfo j | None => Err syntaxError end
|}.

End swaps.

(** ** common/types/offer.go: [OfferExtra], whose flag is left out when false *)

Definition encOfferExtra (e : OfferExtra) : result json :=
  encStruct (if oeUseRelayer e then [("useRelayer", Ok (JBool true))] else []).

Definition decOfferExtra (j : json) : result OfferExtra :=
  ms <-! membersOf j ;;
  useRelayer <-! field ["useRelayer"] "useRelayer" decBool ms false ;;
  Ok (NewOfferExtra useRelayer).

#[export] Instance wireOfferExtra : VJson OfferExtra := {|
  vValidate := fun _ => None;
  vMarshal := jsonMarshal encOfferExtra;
  vUnmarshal := fun data => match jsonParse data with Some j => decOfferExtra j | None => Err syntaxError end
|}.

(** ** crypto/monero/crypto_marshal.go *)

Section keys.
Context `{CryptoLib}.

(** [PrivateSpendKey.MarshalText] and [PrivateViewKey.MarshalText], of keys that are set. *)
Definition PrivateKey_MarshalText (k : Scalar) : result string := mScalar_MarshalText (Some k).
Definition PrivateKey_UnmarshalText (input : string) : result Scalar := mScalar_UnmarshalText input.
Definition PublicKey_MarshalText (k : Point) : result string := mPoint_MarshalText k.
Definition PublicKey_UnmarshalText (input : string) : result Point := mPoint_UnmarshalText input.

Definition privatePairNames : list string := ["privateSpendKey"; "privateViewKey"].

Definition PrivateKeyPair_MarshalJSON (kp : PrivateKeyPair) : result json :=
  encStruct [("privateSpendKey", encText PrivateKey_MarshalText (kpSpend kp));
             ("privateViewKey", encText PrivateKey_MarshalText (kpView kp))].

Definition PrivateKeyPair_UnmarshalJSON (j : json) : result PrivateKeyPair :=
  ms <-! membersOf j ;;
  sk <-! field privatePairNames "privateSpendKey" (decTextPtr PrivateKey_UnmarshalText) ms None ;;
  vk <-! field privatePairNames "privateViewKey" (decTextPtr PrivateKey_UnmarshalText) ms None ;;
  sk <-! requiredPtr sk "SK" ;;
  vk <-! requiredPtr vk "VK" ;;
  Ok (mkPrivateKeyPair sk vk).

Definition publicPairNames : list string := ["publicSpendKey"; "publicViewKey"].

Definition PublicKeyPair_MarshalJSON (kp : PublicKeyPair) : result json :=
  encStruct [("publicSpendKey", encText PublicKey_MarshalText (pkSpend kp));
             ("publicViewKey", encText PublicKey_MarshalText (pkView kp))].

Definition PublicKeyPair_UnmarshalJSON (j : json) : result PublicKeyPair :=
  ms <-! membersOf j ;;
  sk <-! field publicPairNames "publicSpendKey" (decTextPtr PublicKey_UnmarshalText) ms None ;;
  vk <-! field publicPairNames "publicViewKey" (decTextPtr PublicKey_UnmarshalText) ms None ;;
  sk <-! requiredPtr sk "SK" ;;
  vk <-! requiredPtr vk "VK" ;;
  Ok (NewPublicKeyPair sk vk).

(** ** db/recovery_db.go: a private key, and the counterparty's keys

    A stored null would leave the key nil, for which [Scalar] has no value: it is an error
    here. *)

Definition decKey (j : json) : result Scalar :=
  k <-! decTextPtr PrivateKey_UnmarshalText j None ;; requiredPtr k "key".

#[export] Instance wireKey : VJson Scalar := {|
  vValidate := fun _ => None;
  vMarshal := jsonMarshal (encText PrivateKey_MarshalText);
  vUnmarshal := fun data => match jsonParse data with Some j => decKey j | None => Err syntaxError end
|}.

Definition counterpartyNames : list string := ["publicSpendKey"; "privateViewKey"].

Definition encCounterparty (k : counterpartyKeys) : result json :=
  encStruct [("publicSpendKey", encText PublicKey_MarshalText (ckPublicSpendKey k));
             ("privateViewKey", encText PrivateKey_MarshalText (ckPrivateViewKey k))].

Definition decCounterparty (j : json) : result counterpartyKeys :=
  ms <-! membersOf j ;;
  sk <-! field counterpartyNames "publicSpendKey" (decTextPtr PublicKey_UnmarshalText) ms None ;;
  vk <-! field counterpartyNames "privateViewKey" (decTextPtr PrivateKey_UnmarshalText) ms None ;;
  sk <-! requiredPtr sk "PublicSpendKey" ;;
  vk <-! requiredPtr vk "PrivateViewKey" ;;
  Ok (mkCounterpartyKeys _ sk vk).

#[export] Instance wireCounterparty : VJson counterpartyKeys := {|
  vValidate := fun _ => None;
  vMarshal := jsonMarshal encCounterparty;
  vUnmarshal := fun data => match jsonParse data with Some j => decCounterparty j | None => Err syntaxError end
|}.

End keys.

(** ** common/types/offer.go *)

Section offers.
Context `{Apd} `{WireLib}.

Definition offerNames : list string :=
  ["version"; "offerID"; "provides"; "minAmount"; "maxAmount"; "exchangeRate"; "ethAsset"; "nonce"].

Definition zeroOffer : Offer := mkOffer _ semverZero EmptyHash "" None None None zeroAddress 0.

(** The tags of the structure. *)
Definition offerTags (o : Offer) : option error :=
  firstError [required (nonZero (oID o)) "ID"; required (negb (bool_decide (oProvides o = ""))) "Provides";
              required (bool_decide (is_Some (oMinAmount o))) "MinAmount";
              required (bool_decide (is_Some (oMaxAmount o))) "MaxAmount";
              required (bool_decide (is_Some (oExchangeRate o))) "ExchangeRate";
              required (negb (oNonce o =? 0)) "Nonce"].

(** The type [_Offer], which has the fields of [Offer] and no methods. *)
Definition encOfferFields (o : Offer) : result json :=
  encStruct [("version", Ok (encString (versionString (oVersion o)))); ("offerID", encFixed hashLen (oID o));
             ("provides", encText ProvidesCoin_MarshalText (oProvides o));
             ("minAmount", encPtr (encText apdMarshalText) (oMinAmount o));
             ("maxAmount", encPtr (encText apdMarshalText) (oMaxAmount o));
             ("exchangeRate", encPtr (encText ExchangeRate_MarshalText) (oExchangeRate o));
             ("ethAsset", encText EthAsset_MarshalText (oEthAsset o)); ("nonce", encUint uint64_max (oNonce o))].

Definition decOfferFields (ms : list (bytes * json)) (o : Offer) : result Offer :=
  version <-! field offerNames "version" decVersion ms (oVersion o) ;;
  id <-! field offerNames "offerID" (decFixed hashLen) ms (oID o) ;;
  provides <-! field offerNames "provides" (decText ProvidesCoin_UnmarshalText) ms (oProvides o) ;;
  minAmount <-! field offerNames "minAmount" (decTextPtr apdUnmarshalText) ms (oMinAmount o) ;;
  maxAmount <-! field offerNames "maxAmount" (decTextPtr apdUnmarshalText) ms (oMaxAmount o) ;;
  exchangeRate <-! field offerNames "exchangeRate" (decTextPtr ExchangeRate_UnmarshalText) ms (oExchangeRate o) ;;
  ethAsset <-! field offerNames "ethAsset" (decText EthAsset_UnmarshalText) ms (oEthAsset o) ;;
  nonce <-! field offerNames "nonce" (decUint uint64_max) ms (oNonce o) ;;
  Ok (mkOffer _ version id provides minAmount maxAmount exchangeRate ethAsset nonce).

#[export] Instance wireOfferJson : OfferJson := {|
  offerVersionOf := fun data =>
    jsonUnmarshal (decStruct (field ["version"] "version" decVersionPtr)) data None;
  offerUnmarshal := fun data => jsonUnmarshal (decStruct decOfferFields) data zeroOffer;
  offerValidateStruct := offerTags;
  offerMarshal := jsonMarshal encOfferFields
|}.

(** [Offer.MarshalJSON] and [Offer.UnmarshalJSON] on the value of a larger text. *)
Definition encOffer (o : Offer) : outcome (result json) :=
  r <~ Offer_validate o ;;
  match r.1 with
  | Some e => Done (Err e)
  | None => Done (o' <-! validated (offerTags r.2) r.2 ;; encOfferFields o')
  end.

Definition decOffer (j : json) (cur : Offer) : outcome (result Offer) :=
  match (o <-! decStruct decOfferFields j cur ;; validated (offerTags o) o) with
  | Err e => Done (Err e)
  | Ok o =>
      r <~ Offer_validate o ;;
      Done (match r.1 with Some e => Err e | None => Ok r.2 end)
  end.

(** Validation does not panic ([Offer_validate_runs] in DbProofs.v). *)
Definition settle {A} (o : outcome (result A)) : result A :=
  match o with Done r => r | _ => Err (errorf "panic") end.

(** The elements of the slice of offers are pointers. *)
Definition decOfferSlice : Decoder (list (option Offer)) := fun j cur =>
  match j with
  | JNull => Ok []
  | JArray js => decElems None (decPtr zeroOffer (fun j cur => settle (decOffer j cur))) js cur
  | _ => Err typeError
  end.

(** The tags [dive,required]. *)
Fixpoint requiredAll {A} (l : list (option A)) : result (list A) :=
  match l with
  | [] => Ok []
  | p :: l' => a <-! requiredPtr p "Offers" ;; r <-! requiredAll l' ;; Ok (a :: r)
  end.

End offers.

(** ** net/message *)

Section messages.
Context `{Apd} `{WireLib} `{CryptoLib}.

Definition sendKeysNames : list string :=
  ["offerID"; "providedAmount"; "publicSpendKey"; "privateViewKey"; "dleqProof"; "secp256k1PublicKey"; "ethAddress"].

Definition encSendKeys (m : SendKeysMessage) : result json :=
  encStruct [("offerID", encFixed hashLen (skOfferID m));
             ("providedAmount", encPtr (encText apdMarshalText) (skProvidedAmount m));
             ("publicSpendKey", encPtr (encText PublicKey_MarshalText) (skPublicSpendKey m));
             ("privateViewKey", encPtr (encText PrivateKey_MarshalText) (skPrivateViewKey m));
             ("dleqProof", encBytes (skDLEqProof m));
             ("secp256k1PublicKey", encText Secp256k1_MarshalText (skSecp256k1PublicKey m));
             ("ethAddress", encFixed addressLen (skEthAddress m))].

Definition decSendKeys (ms : list (bytes * json)) : result SendKeysMessage :=
  id <-! field sendKeysNames "offerID" (decFixed hashLen) ms EmptyHash ;;
  amount <-! field sendKeysNames "providedAmount" (decTextPtr apdUnmarshalText) ms None ;;
  spend <-! field sendKeysNames "publicSpendKey" (decTextPtr PublicKey_UnmarshalText) ms None ;;
  view <-! field sendKeysNames "privateViewKey" (decTextPtr PrivateKey_UnmarshalText) ms None ;;
  proof <-! field sendKeysNames "dleqProof" decBytes ms None ;;
  secp <-! field sendKeysNames "secp256k1PublicKey" (decTextPtr Secp256k1_UnmarshalText) ms None ;;
  address <-! field sendKeysNames "ethAddress" (decFixed addressLen) ms zeroAddress ;;
  proof <-! requiredPtr proof "DLEqProof" ;;
  secp <-! requiredPtr secp "Secp256k1PublicKey" ;;
  Ok (mkSendKeys _ id amount spend view proof secp address).

Definition notifyNames : list string := ["address"; "txHash"; "contractSwapID"; "contractSwap"].

Definition encNotify (m : NotifyETHLocked) : result json :=
  encStruct [("address", encFixed addressLen (nlAddress m)); ("txHash", encFixed hashLen (nlTxHash m));
             ("contractSwapID", encFixed hashLen (nlContractSwapID m));
             ("contractSwap", SwapCreatorSwap_MarshalJSON (nlContractSwap m))].

Definition decNotify (ms : list (bytes * json)) : result NotifyETHLocked :=
  address <-! field notifyNames "address" (decFixed addressLen) ms zeroAddress ;;
  txHash <-! field notifyNames "txHash" (decFixed hashLen) ms EmptyHash ;;
  swapID <-! field notifyNames "contractSwapID" (decFixed hashLen) ms EmptyHash ;;
  swap <-! field notifyNames "contractSwap" decSwapPtr ms None ;;
  swap <-! requiredPtr swap "ContractSwap" ;;
  Ok (mkNotifyETHLocked address txHash swapID swap).

Definition requestNames : list string := ["offerID"; "relaySwap"; "secret"; "signature"].

Definition encRequest (m : RelayClaimRequest) : result json :=
  encStruct [("offerID", encPtr (encFixed hashLen) (rqOfferID m)); ("relaySwap", encRelaySwap (rqRelaySwap m));
             ("secret", encBytes (rqSecret m)); ("signature", encBytes (rqSignature m))].

(** The slices are checked for their length by the validator. *)
Definition decRequest (ms : list (bytes * json)) : result RelayClaimRequest :=
  id <-! field requestNames "offerID" (decFixedPtr hashLen) ms None ;;
  relaySwap <-! field requestNames "relaySwap" (decPtr zeroRelaySwap (decStruct decRelaySwap)) ms None ;;
  secret <-! field requestNames "secret" decBytes ms None ;;
  signature <-! field requestNames "signature" decBytes ms None ;;
  relaySwap <-! requiredPtr relaySwap "RelaySwap" ;;
  Ok (mkRelayRequest id relaySwap (default [] secret) (default [] signature)).

Definition encMessage (m : netMessage) : result json :=
  match m with
  | MQueryResponse offers => encStruct [("offers", encSlice (fun o => settle (encOffer o)) offers)]
  | MRelayerQueryResponse h => encStruct [("address", encBytes h)]
  | MRelayClaimRequest r => encRequest r
  | MRelayClaimResponse tx => encStruct [("transactionHash", encFixed hashLen tx)]
  | MSendKeys k => encSendKeys k
  | MNotifyETHLocked n => encNotify n
  end.

(** Into a new structure of the type with this byte. *)
Definition decMessage (t : byte) (j : json) : result netMessage :=
  ms <-! membersOf j ;;
  if bool_decide (t = QueryResponseType) then
    offers <-! field ["offers"] "offers" decOfferSlice ms [] ;;
    offers <-! requiredAll offers ;;
    Ok (MQueryResponse offers)
  else if bool_decide (t = RelayerQueryResponseType) then
    h <-! field ["address"] "address" decBytes ms None ;;
    Ok (MRelayerQueryResponse (default [] h))
  else if bool_decide (t = RelayClaimRequestType) then r <-! decRequest ms ;; Ok (MRelayClaimRequest r)
  else if bool_decide (t = RelayClaimResponseType) then
    tx <-! field ["transactionHash"] "transactionHash" (decFixed hashLen) ms EmptyHash ;;
    Ok (MRelayClaimResponse tx)
  else if bool_decide (t = SendKeysType) then k <-! decSendKeys ms ;; Ok (MSendKeys k)
  else if bool_decide (t = NotifyETHLockedType) then n <-! decNotify ms ;; Ok (MNotifyETHLocked n)
  else Err (errorf "invalid message type").

#[export] Instance wireMsgJson : MsgJson := {|
  msgMarshal := jsonMarshal encMessage;
  msgUnmarshal := fun t data => match jsonParse data with Some j => decMessage t j | None => Err syntaxError end
|}.

End messages.
End Wire.
