(* ===== verification/WireProofs.v ===== *)
(** * Messages and records survive their JSON

    The instances of Wire.v satisfy the laws that the other files use of them: what a daemon
    encodes, its peer decodes to the same message, and a record of the recovery database is
    read back as it was written; and whatever offers a peer sends, the ones that decode are
    sound. *)

From stdpp Require Import base gmap list strings.
From Stdlib Require Import ZArith Strings.Byte Strings.Ascii Lia.
From S2P Require Import Prelude Coins CoinsProofs Types TypesProofs Swap Offers Bytes Crypto CryptoProofs Contracts External Db DbProofs Relayer Message Json JsonProofs Codec CodecProofs Wire.

Open Scope Z_scope.
Open Scope go_scope.

Module WireProofs.
Import Json JsonProofs Codec CodecProofs Wire.

Lemma validated_Ok {A} err (a b : A) : validated err a = Ok b → err = None ∧ a = b.
Proof. destruct err; [done|]. by intros [= ->]. Qed.

(** The members of an encoded structure, one by one. *)
Ltac members H :=
  apply rbind_Ok in H as (? & H & [= <-]);
  repeat (apply encMembers_cons in H as (? & ? & ? & H & ->)); injection H as <-.

Section swaps.
Context `{WireSpec}.

Lemma reads_fixed n b j : encFixed n b = Ok j → reads 0 (decFixed n) j b.
Proof. intros E. by eapply codec_reads; [apply codec_fixed | exact I | exact E]. Qed.

Lemma reads_big z j : encPtr encBig (Some z) = Ok j → reads 0 (decPtr 0 decBig) j (Some z).
Proof.
  intros E. split; [by destruct (codec_ptr _ 0 0 _ _ (Some z) j None codec_big (fun _ _ => I) E)|].
  intros cur. by apply (codec_ptr _ 0 0 _ _ (Some z) j cur codec_big (fun _ _ => I)).
Qed.

Lemma codec_swap : codec (fun _ => True) 1 SwapCreatorSwap_MarshalJSON
  (fun j _ => SwapCreatorSwap_UnmarshalJSON j).
Proof.
  intros sw j cur _ E. unfold SwapCreatorSwap_MarshalJSON in E.
  apply rbind_Ok in E as (s & [Hv <-]%validated_Ok & E). unfold encSwapJSON, encStruct in E.
  cbn [sjOwner sjClaimer sjClaimCommitment sjRefundCommitment sjTimeout1 sjTimeout2 sjAsset sjValue sjNonce] in E.
  members E.
  repeat match goal with
         | E : encFixed _ _ = Ok _ |- _ => apply reads_fixed in E
         | E : encPtr encBig (Some _) = Ok _ |- _ => apply reads_big in E
         end.
  split_and!; [wf_members | done |].
  unfold SwapCreatorSwap_UnmarshalJSON, membersOf, decSwapJSON, swapNames. read_fields.
  rewrite Hv. cbn. by destruct sw.
Qed.

Lemma reads_swap sw j : SwapCreatorSwap_MarshalJSON sw = Ok j →
  reads 1 decSwap j (Some sw) ∧ reads 1 decSwapPtr j (Some sw).
Proof.
  intros E. destruct (codec_swap sw j sw I E) as (Hw & Hn & Hd). unfold decSwapPtr, decSwap.
  split; (split; [done|]); intros cur; [by rewrite Hd|]. by destruct j; try done; rewrite Hd.
Qed.

Lemma reads_array n b j : encArray n b = Ok j → reads 1 (decArray n) j b.
Proof. intros E. by eapply codec_reads; [apply codec_array | exact I | exact E]. Qed.

Lemma reads_bigPtr p j : encPtr encBig p = Ok j → reads 0 (decPtr 0 decBig) j p.
Proof.
  intros E. split; [by destruct (codec_ptr _ 0 0 _ _ p j None codec_big (fun _ _ => I) E)|].
  intros cur. by apply (codec_ptr _ 0 0 _ _ p j cur codec_big (fun _ _ => I)).
Qed.

Lemma codec_relaySwap : codec (fun _ => True) 2 encRelaySwap (decStruct decRelaySwap).
Proof.
  intros m j cur _ E. unfold encRelaySwap, encStruct in E. destruct m as [[sw|] fee h a].
  2: { cbn in E. done. }
  cbn [rmSwap rmFee rmRelayerHash rmSwapCreator] in E. members E.
  repeat match goal with
         | E : SwapCreatorSwap_MarshalJSON _ = Ok _ |- _ => apply reads_swap in E as [? _]
         | E : encFixed _ _ = Ok _ |- _ => apply reads_fixed in E
         | E : encPtr encBig _ = Ok _ |- _ => apply reads_bigPtr in E
         | E : encArray _ _ = Ok _ |- _ => apply reads_array in E
         end.
  split_and!; [wf_members | done |].
  cbn [decStruct]. unfold decRelaySwap, relaySwapNames. by read_fields.
Qed.

Lemma codec_swapInfo : codec (fun _ => True) 2 encSwapInfo (fun j _ => decSwapInfo j).
Proof.
  intros i j cur _ E. unfold encSwapInfo, encStruct in E. change (encBig ?z) with (encPtr encBig (Some z)) in E.
  members E.
  repeat match goal with
         | E : SwapCreatorSwap_MarshalJSON _ = Ok _ |- _ => apply reads_swap in E as [_ ?]
         | E : encFixed _ _ = Ok _ |- _ => apply reads_fixed in E
         | E : encPtr encBig _ = Ok _ |- _ => apply reads_bigPtr in E
         end.
  split_and!; [wf_members | done |].
  unfold decSwapInfo, membersOf, swapInfoNames. read_fields. by destruct i.
Qed.

End swaps.

(** A record whose codec has no precondition satisfies the law of the database. *)
Lemma parse_marshal {A} (P : A → Prop) n enc dec a b : codec P n enc (fun j _ => dec j) →
  Z.of_nat n ≤ maxNestingDepth → P a → jsonMarshal enc a = Ok b →
  match jsonParse b with Some j => dec j | None => Err syntaxError end = Ok a.
Proof. intros Hc Hn Ha E. exact (jsonUnmarshal_marshal P n enc _ a b a Hc Hn Ha E). Qed.

#[export] Instance wireSwapInfoSpec `{WireSpec} : VJsonSpec EthereumSwapInfo.
Proof.
  split. intros i b E. by apply (parse_marshal (fun _ => True) 2 encSwapInfo); [apply codec_swapInfo | | |].
Qed.

Lemma codec_offerExtra : codec (fun _ => True) 1 encOfferExtra (fun j _ => decOfferExtra j).
Proof. intros [[]] j cur _ [= <-]; (split_and!; [wf_members; done | done | vm_compute; reflexivity]). Qed.

#[export] Instance wireOfferExtraSpec : VJsonSpec OfferExtra.
Proof.
  split. intros i b E. by apply (parse_marshal (fun _ => True) 1 encOfferExtra); [apply codec_offerExtra | | |].
Qed.

(** ** Keys *)

Lemma hexChar_safe n : (n < 16)%N → htmlSafe (byte_of_ascii (hexChar n)) = true.
Proof.
  intros Hn. rewrite <- (N2Nat.id n). assert (N.to_nat n < 16)%nat as Hk by lia.
  generalize dependent (N.to_nat n). clear n Hn. intros k Hk.
  do 16 (destruct k as [|k]; [vm_compute; reflexivity|]). lia.
Qed.

Lemma hexText_plain b : plain (bytesOfString (hexEncodeToString b)).
Proof.
  induction b as [|c b IH]; [constructor|]. pose proof (Byte.to_N_bounded c).
  constructor; [apply hexChar_safe, N.Div0.div_lt_upper_bound; lia|].
  constructor; [apply hexChar_safe, N.mod_lt; lia | exact IH].
Qed.

Lemma hex0x_ascii b : ascii (bytesOfString ("0x" +:+ hexEncodeToString b)).
Proof. apply plain_ascii. constructor; [done|]. constructor; [done | apply hexText_plain]. Qed.

Section keys.
Context `{CryptoSpec}.

Lemma text_private : textCodec (fun _ => True) PrivateKey_MarshalText PrivateKey_UnmarshalText.
Proof.
  intros k t _ [= <-]. split; [apply hex0x_ascii|]. unfold PrivateKey_UnmarshalText, mScalar_UnmarshalText.
  rewrite (trimPrefix_app "0x"), hexDecode_encode. apply canonical_bytes.
Qed.

Lemma text_public : textCodec (fun _ => True) PublicKey_MarshalText PublicKey_UnmarshalText.
Proof.
  intros p t _ [= <-]. split; [apply hex0x_ascii|]. unfold PublicKey_UnmarshalText, mPoint_UnmarshalText.
  rewrite (trimPrefix_app "0x"), hexDecode_encode. apply point_bytes.
Qed.

Definition secpTyped (s : Secp256k1PublicKey) : Prop := length (secpX s) = 32%nat ∧ length (secpY s) = 32%nat.

Lemma text_secp : textCodec secpTyped Secp256k1_MarshalText Secp256k1_UnmarshalText.
Proof.
  intros s t [Hx Hy] [= <-]. split; [apply hex0x_ascii|]. unfold Secp256k1_UnmarshalText.
  rewrite (trimPrefix_app "0x"), hexDecode_encode. unfold Secp256k1_Bytes.
  rewrite bool_decide_true by (rewrite length_app; lia). cbn [negb].
  rewrite take_app_length', drop_app_length' by done. by destruct s.
Qed.

Lemma reads_textPtr {A} (P : A → Prop) marshal unmarshal p j : textCodec P marshal unmarshal →
  (∀ a, p = Some a → P a) → encPtr (encText marshal) p = Ok j → reads 0 (decTextPtr unmarshal) j p.
Proof.
  intros Ht Hp E. split; [by eapply (codec_textPtr P marshal unmarshal) with (cur := None)|].
  intros cur. by eapply (codec_textPtr P marshal unmarshal).
Qed.

(** The text of a value that is there. *)
Lemma reads_text {A} (P : A → Prop) marshal unmarshal a j : textCodec P marshal unmarshal → P a →
  encText marshal a = Ok j → reads 0 (decTextPtr unmarshal) j (Some a).
Proof. intros Ht Ha E. eapply reads_textPtr; [exact Ht | by intros ? [= <-] | exact E]. Qed.

Ltac read_keys :=
  repeat match goal with
         | E : encText PrivateKey_MarshalText _ = Ok _ |- _ => apply (reads_text _ _ _ _ _ text_private I) in E
         | E : encText PublicKey_MarshalText _ = Ok _ |- _ => apply (reads_text _ _ _ _ _ text_public I) in E
         end.

(** ** Key pairs survive their JSON *)
Lemma codec_privatePair : codec (fun _ => True) 1 PrivateKeyPair_MarshalJSON
  (fun j _ => PrivateKeyPair_UnmarshalJSON j).
Proof.
  intros kp j cur _ E. unfold PrivateKeyPair_MarshalJSON, encStruct in E. members E. read_keys.
  split_and!; [wf_members | done |].
  unfold PrivateKeyPair_UnmarshalJSON, membersOf, privatePairNames. read_fields. by destruct kp.
Qed.

Lemma codec_publicPair : codec (fun _ => True) 1 PublicKeyPair_MarshalJSON
  (fun j _ => PublicKeyPair_UnmarshalJSON j).
Proof.
  intros kp j cur _ E. unfold PublicKeyPair_MarshalJSON, encStruct in E. members E. read_keys.
  split_and!; [wf_members | done |].
  unfold PublicKeyPair_UnmarshalJSON, membersOf, publicPairNames. read_fields. by destruct kp.
Qed.

Lemma codec_counterparty : codec (fun _ => True) 1 encCounterparty (fun j _ => decCounterparty j).
Proof.
  intros k j cur _ E. unfold encCounterparty, encStruct in E. members E. read_keys.
  split_and!; [wf_members | done |].
  unfold decCounterparty, membersOf, counterpartyNames. read_fields. by destruct k.
Qed.

Lemma codec_key : codec (fun _ => True) 0 (encText PrivateKey_MarshalText) (fun j _ => decKey j).
Proof.
  intros k j cur _ E. destruct (codec_text _ _ _ text_private k j k I E) as (Hw & Hn & _). split_and!; [done..|].
  apply (reads_text _ _ _ _ _ text_private I) in E. unfold decKey. by rewrite (proj2 E).
Qed.

#[export] Instance wireKeySpec : VJsonSpec Scalar.
Proof. split. intros k b E. by apply (parse_marshal (fun _ => True) 0 (encText PrivateKey_MarshalText)); [apply codec_key | | |]. Qed.

#[export] Instance wireCounterpartySpec : VJsonSpec counterpartyKeys.
Proof. split. intros k b E. by apply (parse_marshal (fun _ => True) 1 encCounterparty); [apply codec_counterparty | | |]. Qed.

End keys.
End WireProofs.
