(* ===== verification/WireMsgProofs.v ===== *)
(** * Messages between daemons survive the wire, and the offers they carry are sound *)

From stdpp Require Import base gmap list strings.
From Stdlib Require Import ZArith Strings.Byte Strings.Ascii Lia.
From S2P Require Import Prelude Coins RefApd CoinsProofs Types TypesProofs Swap Offers Bytes Crypto CryptoProofs Contracts External Db DbProofs Relayer Message Json JsonProofs Codec CodecProofs Wire WireProofs.

Open Scope Z_scope.
Open Scope go_scope.

(** What the code relies on of apd's texts: "MarshalText" gives the number in scientific
    notation and "UnmarshalText" parses it, without rounding; every text it gives is of
    letters, digits, signs and points; a coefficient that was parsed is not negative. *)
Class ApdText `{Apd} : Prop := {
  apd_text d : exactDecimal d → ∃ t, apdMarshalText d = Ok t ∧
    JsonProofs.plain (bytesOfString t) ∧ apdUnmarshalText t = Ok d;
  apd_plain d t : apdMarshalText d = Ok t → JsonProofs.plain (bytesOfString t);
  apd_parsed t d : apdUnmarshalText t = Ok d → 0 ≤ dCoeff d
}.

Module WireMsgProofs.
Import Json JsonProofs Codec CodecProofs Wire WireProofs.

Section messages.
Context `{AS : ApdSpec} `{!ApdText} `{WS : WireSpec} `{!AddressSpec} `{CS : CryptoSpec}.

(** ** Texts *)

Lemma text_decimal : textCodec exactDecimal apdMarshalText apdUnmarshalText.
Proof.
  intros d t Hd E. destruct (apd_text d Hd) as (t' & E' & Hp & Hu). assert (t' = t) as -> by congruence.
  split; [by apply plain_ascii | done].
Qed.

Lemma text_rate : textCodec rateOnWire ExchangeRate_MarshalText ExchangeRate_UnmarshalText.
Proof.
  intros r t [Hr Hv] E. destruct (text_decimal r t Hr E) as [Hp Hu]. split; [done|].
  unfold ExchangeRate_UnmarshalText. by rewrite Hu, Hv.
Qed.

Lemma text_provides : textCodec (fun _ => True) ProvidesCoin_MarshalText ProvidesCoin_UnmarshalText.
Proof.
  intros c t _ E. destruct (proj1 (ProvidesCoin_roundtrip t c) E) as [-> Hu]. split; [|done].
  unfold ProvidesCoin_MarshalText in E. case_bool_decide as Hc; [|done].
  apply plain_ascii, plain_forallb. destruct Hc as [-> | ->]; reflexivity.
Qed.

Lemma text_asset : textCodec wf_address EthAsset_MarshalText EthAsset_UnmarshalText.
Proof.
  intros a t Ha E. destruct (EthAsset_text_roundtrip a Ha) as [(t' & E' & Hu) _].
  assert (t' = t) as -> by congruence. split; [|done].
  unfold EthAsset_MarshalText in E. destruct (IsETH a); injection E as <-; [by repeat constructor|].
  apply plain_ascii, address_plain.
Qed.

Lemma reads_decText {A} (P : A → Prop) marshal unmarshal a j : textCodec P marshal unmarshal → P a →
  encText marshal a = Ok j → reads 0 (decText unmarshal) j a.
Proof. intros Ht Ha E. by eapply codec_reads; [apply (codec_text _ _ _ Ht) | exact Ha | exact E]. Qed.

(** ** Offers *)

Lemma codec_offerFields : codec offerOnWire 1 encOfferFields (decStruct decOfferFields).
Proof.
  intros o j cur Ho E. unfold encOfferFields, encStruct in E. members E.
  repeat match goal with
         | E : encFixed _ _ = Ok _ |- _ => apply reads_fixed in E
         | E : encText ProvidesCoin_MarshalText _ = Ok _ |- _ => apply (reads_decText _ _ _ _ _ text_provides I) in E
         | E : encText EthAsset_MarshalText _ = Ok _ |- _ =>
             apply (reads_decText _ _ _ _ _ text_asset (ow_asset o Ho)) in E
         | E : encPtr (encText apdMarshalText) (oMinAmount o) = Ok _ |- _ =>
             apply (reads_textPtr _ _ _ _ _ text_decimal (ow_min o Ho)) in E
         | E : encPtr (encText apdMarshalText) (oMaxAmount o) = Ok _ |- _ =>
             apply (reads_textPtr _ _ _ _ _ text_decimal (ow_max o Ho)) in E
         | E : encPtr (encText ExchangeRate_MarshalText) _ = Ok _ |- _ =>
             apply (reads_textPtr _ _ _ _ _ text_rate (ow_rate o Ho)) in E
         | E : encUint _ _ = Ok _ |- _ => apply (codec_reads _ _ _ _ _ _ (codec_uint _) I) in E
         | E : Ok (encString (versionString _)) = Ok _ |- _ =>
             apply (codec_reads _ _ _ _ _ _ codec_version I) in E
         end.
  split_and!; [wf_members | done |].
  unfold decStruct, decOfferFields, offerNames. read_fields. by destruct o.
Qed.

Lemma codec_offer : codec offerOnWire 1 (fun o => settle (encOffer o)) (fun j cur => settle (decOffer j cur)).
Proof.
  intros o j cur Ho E. unfold encOffer in E. rewrite (ow_valid o Ho) in E. cbn [obind fst snd settle] in E.
  apply rbind_Ok in E as (o' & [Ht <-]%validated_Ok & E).
  destruct (codec_offerFields o j cur Ho E) as (Hw & Hn & Hd). split_and!; [done..|].
  unfold decOffer. rewrite Hd. cbn [rbind]. rewrite Ht. cbn [validated]. by rewrite (ow_valid o Ho).
Qed.

(** The text of any offer parses, whatever its amounts are. *)
Lemma wf_text {A} (f : A → result string) a j : (∀ t, f a = Ok t → plain (bytesOfString t)) →
  encText f a = Ok j → reads 0 (decText (fun _ => Ok a)) j a.
Proof.
  intros Hf. apply (reads_decText (eq a)); [|done]. intros a' t <- E. split; [by apply plain_ascii, Hf | done].
Qed.

Lemma wf_textPtr {A} (f : A → result string) p j : (∀ a t, f a = Ok t → plain (bytesOfString t)) →
  encPtr (encText f) p = Ok j →
  reads 0 (decTextPtr (fun _ => match p with Some a => Ok a | None => Err typeError end)) j p.
Proof.
  intros Hf. apply (reads_textPtr (fun a => p = Some a)); [|done]. intros a t -> E.
  split; [by eapply plain_ascii, Hf | done].
Qed.

Lemma asset_plain a t : EthAsset_MarshalText a = Ok t → plain (bytesOfString t).
Proof.
  unfold EthAsset_MarshalText. destruct (IsETH a); intros [= <-]; [by repeat constructor | apply address_plain].
Qed.

Lemma provides_plain c t : ProvidesCoin_MarshalText c = Ok t → plain (bytesOfString t).
Proof.
  unfold ProvidesCoin_MarshalText. case_bool_decide as Hc; [|done]. intros [= <-].
  apply plain_forallb. destruct Hc as [-> | ->]; reflexivity.
Qed.

Lemma offerFields_members o j : encOfferFields o = Ok j → wfJson 1 j ∧
  ∃ ji j1 j2 j3 j4 j5 j6, reads 0 (decFixed hashLen) ji (oID o) ∧
    j = JObject [(bytesOfString "version", encString (versionString (oVersion o))); (bytesOfString "offerID", ji);
      (bytesOfString "provides", j1); (bytesOfString "minAmount", j2); (bytesOfString "maxAmount", j3);
      (bytesOfString "exchangeRate", j4); (bytesOfString "ethAsset", j5); (bytesOfString "nonce", j6)].
Proof.
  intros E. unfold encOfferFields, encStruct in E. members E.
  match goal with E : Ok (encString _) = Ok _ |- _ => pose proof (codec_reads _ _ _ _ _ _ codec_version I E); injection E as <- end.
  repeat match goal with
         | E : encFixed _ _ = Ok _ |- _ => apply reads_fixed in E
         | E : encText ProvidesCoin_MarshalText _ = Ok _ |- _ => apply (wf_text _ _ _ (provides_plain _)) in E
         | E : encText EthAsset_MarshalText _ = Ok _ |- _ => apply (wf_text _ _ _ (asset_plain _)) in E
         | E : encPtr (encText _) _ = Ok _ |- _ => apply (wf_textPtr _ _ _ apd_plain) in E
         | E : encUint _ _ = Ok _ |- _ => apply (codec_reads _ _ _ _ _ _ (codec_uint _) I) in E
         end.
  split; [wf_members|]. do 7 eexists. by split.
Qed.

(** The version of a stored offer is read by itself, before its other fields. *)
Lemma stored_offer_version o b : offerMarshal o = Ok b → offerVersionOf b = Ok (Some (oVersion o)).
Proof.
  intros E. cbn [offerMarshal wireOfferJson] in E. cbn [offerVersionOf wireOfferJson].
  apply rbind_Ok in E as (j & Hj & [= <-]).
  apply offerFields_members in Hj as (Hw & ji & j1 & j2 & j3 & j4 & j5 & j6 & _ & ->).
  unfold jsonUnmarshal. rewrite (jsonParse_print 1) by done.
  cbn [decStruct]. pose proof (plain_ascii _ (semver_plain (oVersion o))) as Ha.
  rewrite field_here by (vm_compute; reflexivity). cbn [decVersionPtr encString]. rewrite stringOf_quote by done.
  cbn [rbind]. rewrite semver_roundtrip. cbn [rbind]. by read_fields.
Qed.

(** An offer that is decoded at all has its ID again. *)
Lemma stored_offer_id o o' b : offerMarshal o = Ok b → offerUnmarshal b = Ok o' → oID o' = oID o.
Proof.
  intros E. cbn [offerMarshal wireOfferJson] in E. cbn [offerUnmarshal wireOfferJson].
  apply rbind_Ok in E as (j & Hj & [= <-]).
  apply offerFields_members in Hj as (Hw & ji & j1 & j2 & j3 & j4 & j5 & j6 & Hr & ->).
  unfold jsonUnmarshal. rewrite (jsonParse_print 1) by done. cbn [decStruct]. intros E.
  apply rbind_Ok in E as (v & _ & E). apply rbind_Ok in E as (id & Hid & E).
  repeat (apply rbind_Ok in E as (? & _ & E)). injection E as <-. cbn [oID].
  assert (Hid' : Ok id = Ok (oID o)) by (rewrite <- Hid; unfold offerNames; by read_fields). by injection Hid'.
Qed.

Lemma encFixed_length n b j : encFixed n b = Ok j → length b = n.
Proof. unfold encFixed. case_bool_decide; done. Qed.

#[export] Instance wireOfferJsonSpec : OfferJsonSpec.
Proof.
  split; [apply stored_offer_version | | apply stored_offer_id |].
  - intros o b Ho E. by apply (jsonUnmarshal_marshal offerOnWire 1 encOfferFields); [apply codec_offerFields | ..].
  - intros o b E. apply rbind_Ok in E as (j & Hj & _). unfold encOfferFields, encStruct in Hj. members Hj.
    match goal with E : encFixed _ _ = Ok _ |- _ => by apply encFixed_length in E end.
Qed.

Lemma encOffer_elems os js : encElems (fun o => settle (encOffer o)) os = Ok js → Forall offerOnWire os →
  Forall (wfJson 1) js ∧ ∀ cur,
    decElems None (decPtr zeroOffer (fun j cur => settle (decOffer j cur))) js cur = Ok (Some <$> os).
Proof.
  revert js. induction os as [|o os IH]; intros js E Hos; [by injection E as <-|].
  apply Forall_cons in Hos as [Ho Hos]. apply rbind_Ok in E as (j & Hj & (js' & Hjs & [= <-])%rbind_Ok).
  destruct (IH js' Hjs Hos) as [Hw Hd]. destruct (codec_offer o j o Ho Hj) as (Hw1 & Hn & _).
  split; [by constructor|]. intros cur. cbn [decElems fmap list_fmap].
  assert (Hp : ∀ c, decPtr zeroOffer (fun j cur => settle (decOffer j cur)) j c = Ok (Some o)).
  { intros c. destruct (codec_offer o j (default zeroOffer c) Ho Hj) as (_ & _ & Hc).
    unfold decPtr. by destruct j; try done; rewrite Hc. }
  by rewrite Hp, Hd.
Qed.

Lemma requiredAll_Some {A} (l : list A) : requiredAll (Some <$> l) = Ok l.
Proof. induction l as [|a l IH]; [done|]. cbn. by rewrite IH. Qed.

(** ** Messages *)

(** Messages of Go values: validated offers, an amount that apd writes exactly, a key of
    two arrays of 32 bytes. *)
Definition messageOnWire (m : netMessage) : Prop :=
  match m with
  | MQueryResponse offers => Forall offerOnWire offers
  | MSendKeys k => (∀ d, skProvidedAmount k = Some d → exactDecimal d) ∧ secpTyped (skSecp256k1PublicKey k)
  | _ => True
  end.

Lemma reads_bytes b j : encBytes b = Ok j → reads 0 decBytes j (Some b).
Proof.
  intros E. split; [by destruct (codec_bytes b j None E)|]. intros cur. by apply (codec_bytes b j cur).
Qed.

Lemma reads_fixedPtr n p j : encPtr (encFixed n) p = Ok j → reads 0 (decFixedPtr n) j p.
Proof.
  intros E. split; [by destruct (codec_fixedPtr n p j None E)|]. intros cur. by apply (codec_fixedPtr n p j cur).
Qed.

Lemma reads_relaySwap m j : encRelaySwap m = Ok j →
  reads 2 (decPtr zeroRelaySwap (decStruct decRelaySwap)) j (Some m).
Proof.
  intros E. split; [by apply (codec_relaySwap m j m I E)|]. intros cur.
  by apply (codec_ptr _ 2 zeroRelaySwap _ _ (Some m) j cur codec_relaySwap (fun _ _ => I)).
Qed.

Ltac read_values :=
  repeat match goal with
         | E : encFixed _ _ = Ok _ |- _ => apply reads_fixed in E
         | E : encPtr (encFixed _) _ = Ok _ |- _ => apply reads_fixedPtr in E
         | E : encBytes _ = Ok _ |- _ => apply reads_bytes in E
         | E : encRelaySwap _ = Ok _ |- _ => apply reads_relaySwap in E
         | E : SwapCreatorSwap_MarshalJSON _ = Ok _ |- _ => apply reads_swap in E as [_ ?]
         | E : encPtr (encText PublicKey_MarshalText) _ = Ok _ |- _ =>
             apply (reads_textPtr _ _ _ _ _ text_public (fun _ _ => I)) in E
         | E : encPtr (encText PrivateKey_MarshalText) _ = Ok _ |- _ =>
             apply (reads_textPtr _ _ _ _ _ text_private (fun _ _ => I)) in E
         | E : encPtr (encText apdMarshalText) _ = Ok _, Hd : ∀ d, _ = Some d → exactDecimal d |- _ =>
             apply (reads_textPtr _ _ _ _ _ text_decimal Hd) in E
         | E : encText Secp256k1_MarshalText _ = Ok _, Hs : secpTyped _ |- _ =>
             apply (reads_text _ _ _ _ _ text_secp Hs) in E
         end.

Lemma sendKeys_roundtrip k j : messageOnWire (MSendKeys k) → encSendKeys k = Ok j →
  ∃ ms, j = JObject ms ∧ wfJson 3 j ∧ decSendKeys ms = Ok k.
Proof.
  intros [Hd Hs] E. unfold encSendKeys, encStruct in E. members E. read_values.
  eexists. split_and!; [done | wf_members |]. unfold decSendKeys, sendKeysNames. read_fields. by destruct k.
Qed.

Lemma notify_roundtrip n j : encNotify n = Ok j → ∃ ms, j = JObject ms ∧ wfJson 3 j ∧ decNotify ms = Ok n.
Proof.
  intros E. unfold encNotify, encStruct in E. members E. read_values.
  eexists. split_and!; [done | wf_members |]. unfold decNotify, notifyNames. read_fields. by destruct n.
Qed.

Lemma request_roundtrip r j : encRequest r = Ok j → ∃ ms, j = JObject ms ∧ wfJson 3 j ∧ decRequest ms = Ok r.
Proof.
  intros E. unfold encRequest, encStruct in E. members E. read_values.
  eexists. split_and!; [done | wf_members |]. unfold decRequest, requestNames. read_fields. by destruct r.
Qed.

Lemma encMessage_decMessage m j : messageOnWire m → encMessage m = Ok j →
  wfJson 3 j ∧ (∃ ms, j = JObject ms) ∧ decMessage (Message_Type m) j = Ok m.
Proof.
  intros Hm E. destruct m as [os|h|r|tx|k|n]; cbn [encMessage] in E.
  - unfold encStruct in E. members E.
    match goal with E : encSlice _ _ = Ok _ |- _ => apply rbind_Ok in E as (js & Hjs & [= <-]) end.
    destruct (encOffer_elems os js Hjs Hm) as [Hw Hd].
    split_and!; [wf_members; exact Hw | by eexists |]. unfold decMessage, membersOf. cbn [rbind Message_Type].
    rewrite bool_decide_true by done. rewrite field_here by (vm_compute; reflexivity). cbn [decOfferSlice].
    rewrite Hd. cbn [rbind field]. by rewrite requiredAll_Some.
  - unfold encStruct in E. members E. read_values. split_and!; [wf_members | by eexists |].
    unfold decMessage, membersOf. cbn [rbind Message_Type]. rewrite bool_decide_false, bool_decide_true by done.
    by read_fields.
  - destruct (request_roundtrip r j E) as (ms & -> & Hw & Hd). split_and!; [done | by eexists |].
    unfold decMessage, membersOf. cbn [rbind Message_Type]. rewrite !bool_decide_false, bool_decide_true by done.
    by rewrite Hd.
  - unfold encStruct in E. members E. read_values. split_and!; [wf_members | by eexists |].
    unfold decMessage, membersOf. cbn [rbind Message_Type]. rewrite !bool_decide_false, bool_decide_true by done.
    by read_fields.
  - destruct (sendKeys_roundtrip k j Hm E) as (ms & -> & Hw & Hd). split_and!; [done | by eexists |].
    unfold decMessage, membersOf. cbn [rbind Message_Type]. rewrite !bool_decide_false, bool_decide_true by done.
    by rewrite Hd.
  - destruct (notify_roundtrip n j E) as (ms & -> & Hw & Hd). split_and!; [done | by eexists |].
    unfold decMessage, membersOf. cbn [rbind Message_Type]. rewrite !bool_decide_false, bool_decide_true by done.
    by rewrite Hd.
Qed.

Lemma jsonPrint_object ms : (2 ≤ length (jsonPrint (JObject ms)))%nat.
Proof. cbn. rewrite length_app. cbn. lia. Qed.

Lemma encMessage_object m j : encMessage m = Ok j → ∃ ms, j = JObject ms.
Proof. destruct m; cbn [encMessage]; intros (ms & _ & [= <-])%rbind_Ok; by eexists. Qed.

Lemma decMessage_type t j m : decMessage t j = Ok m → Message_Type m = t.
Proof.
  unfold decMessage. intros (ms & _ & E)%rbind_Ok.
  repeat (case_bool_decide; [subst; repeat apply rbind_Ok in E as (? & _ & E); by injection E as <-|]). done.
Qed.

(** The JSON of messages keeps what the daemon relies on of it. *)
#[export] Instance wireMsgJsonSpec : MsgJsonSpec messageOnWire.
Proof.
  split.
  - intros m b Hm (j & Hj & [= <-])%rbind_Ok. destruct (encMessage_decMessage m j Hm Hj) as (Hw & _ & Hd).
    cbn [msgUnmarshal wireMsgJson]. by rewrite (jsonParse_print 3).
  - intros m b (j & Hj & [= <-])%rbind_Ok. apply encMessage_object in Hj as [ms ->]. apply jsonPrint_object.
  - intros t b m. cbn [msgUnmarshal wireMsgJson]. destruct (jsonParse b); [apply decMessage_type | done].
Qed.

(** ** Decoded values *)

Lemma decElems_inv {A} (P : A → Prop) zero (dec : Decoder A) js cur l :
  (∀ j c a, P c → dec j c = Ok a → P a) → P zero → Forall P cur → decElems zero dec js cur = Ok l → Forall P l.
Proof.
  intros Hd Hz. revert cur l. induction js as [|j js IH]; intros cur l Hcur E; [by injection E as <-|].
  apply rbind_Ok in E as (a & Ha & (l' & Hl & [= <-])%rbind_Ok).
  constructor; [|by eapply IH; [|exact Hl]; destruct Hcur]. eapply Hd; [|exact Ha]. by destruct Hcur.
Qed.

Lemma decText_inv {A} (P : A → Prop) unmarshal j (cur a : A) : (∀ t a, unmarshal t = Ok a → P a) → P cur →
  decText unmarshal j cur = Ok a → P a.
Proof.
  intros Hu Hc. destruct j; cbn [decText]; try done; [by intros [= <-]|].
  intros (s & _ & E)%rbind_Ok. by eapply Hu.
Qed.

Lemma decTextPtr_inv {A} (P : A → Prop) unmarshal j (cur p : option A) : (∀ t a, unmarshal t = Ok a → P a) →
  decTextPtr unmarshal j cur = Ok p → ∀ a, p = Some a → P a.
Proof.
  intros Hu. destruct j; cbn [decTextPtr]; try done; [by intros [= <-]|].
  intros (s & _ & (a & E & [= <-])%rbind_Ok)%rbind_Ok ? [= <-]. by eapply Hu.
Qed.

Lemma foldl_digits_nonneg d v : 0 ≤ v → forallb isDigit d = true →
  0 ≤ foldl (fun v c => v * 10 + (byteZ c - 48)) v d.
Proof.
  revert v. induction d as [|c d IH]; intros v Hv; [done|]. cbn [foldl forallb].
  intros [Hc Hd]%andb_prop. apply IH; [|done].
  unfold isDigit, inRange in Hc. apply andb_prop in Hc as [Hc%Z.leb_le _]. lia.
Qed.

Lemma decUint_range max j cur v : 0 ≤ cur ≤ max → decUint max j cur = Ok v → 0 ≤ v ≤ max.
Proof.
  intros Hc. destruct j as [| |lit| | |]; cbn [decUint]; try done; [by intros [= <-]|].
  unfold parseUint, digitsValue. destruct lit as [|c d]; [done|]. destruct (forallb _ _) eqn:Hd; [|done].
  case_match eqn:Hle; [|done]. intros [= <-]. apply Z.leb_le in Hle. split; [|done].
  by apply (foldl_digits_nonneg (c :: d) 0).
Qed.

(** What decoding ensures of an offer before it is validated. *)
Record offerParsed (o : Offer) : Prop := {
  op_id : length (oID o) = hashLen;
  op_nonce : 0 ≤ oNonce o ≤ uint64_max;
  op_min d : oMinAmount o = Some d → 0 ≤ dCoeff d;
  op_max d : oMaxAmount o = Some d → 0 ≤ dCoeff d;
  op_rate r : oExchangeRate o = Some r → rateOk r
}.

Lemma zeroOffer_parsed : offerParsed zeroOffer.
Proof. by split. Qed.

Lemma ExchangeRate_parsed t r : ExchangeRate_UnmarshalText t = Ok r → rateOk r.
Proof.
  unfold ExchangeRate_UnmarshalText. destruct (apdUnmarshalText t) as [d|] eqn:Hd; [|done].
  destruct (ValidatePositive _ _ _) as [[e|] v] eqn:Hv; [done|].
  apply ValidatePositive_field in Hv as (d' & -> & Hf & Hn & Hc & He); [|intros ? [= <-]; by eapply apd_parsed].
  intros [= <-]. by split.
Qed.

Lemma decOfferFields_parsed ms cur o : offerParsed cur → decOfferFields ms cur = Ok o → offerParsed o.
Proof.
  intros [Hid Hn Hmin Hmax Hr]. unfold decOfferFields.
  intros (v & _ & (id & Eid & (pr & _ & (mn & Emn & (mx & Emx & (r & Er & (a & _ &
    (n & En & [= <-])%rbind_Ok)%rbind_Ok)%rbind_Ok)%rbind_Ok)%rbind_Ok)%rbind_Ok)%rbind_Ok)%rbind_Ok.
  split; cbn [oID oNonce oMinAmount oMaxAmount oExchangeRate].
  - eapply (field_inv (fun b => length b = hashLen)); [|exact Hid | exact Eid]. intros ? ? ? _. apply decFixed_length.
  - eapply (field_inv (fun z => 0 ≤ z ≤ uint64_max)); [|exact Hn | exact En]. apply decUint_range.
  - eapply (field_inv (fun p => ∀ d, p = Some d → 0 ≤ dCoeff d)); [|exact Hmin | exact Emn].
    intros ? ? ? _. apply decTextPtr_inv, apd_parsed.
  - eapply (field_inv (fun p => ∀ d, p = Some d → 0 ≤ dCoeff d)); [|exact Hmax | exact Emx].
    intros ? ? ? _. apply decTextPtr_inv, apd_parsed.
  - eapply (field_inv (fun p => ∀ d, p = Some d → rateOk d)); [|exact Hr | exact Er].
    intros ? ? ? _. apply decTextPtr_inv, ExchangeRate_parsed.
Qed.

(** Validation only reduces the amounts. *)
Lemma validate_parsed o o' : offerParsed o → Offer_validate o = Done (None, o') → offerParsed o'.
Proof.
  intros [Hid Hn Hmin Hmax Hr] Hv. unfold Offer_validate in Hv.
  destruct (IsHashZero (oID o)); [discriminate|].
  destruct (ValidatePositive _ _ (oMinAmount o)) as [[?|] vmin] eqn:Emin; [discriminate|].
  apply ValidatePositive_field in Emin as (mn & -> & _ & _ & Hnc & _); [|done].
  cbn [oMaxAmount setOfferMin] in Hv.
  destruct (ValidatePositive _ _ (oMaxAmount o)) as [[?|] vmax] eqn:Emax; [discriminate|].
  apply ValidatePositive_field in Emax as (mx & -> & _ & _ & Hxc & _); [|done].
  cbn -[apdCmp Offer_hash RelayerFeeETH ToETH maxOfferValue] in Hv.
  destruct (0 <? apdCmp mn mx); [discriminate|].
  destruct (oExchangeRate o) as [r|] eqn:Er; [|discriminate]. destruct (ToETH r mn); [|discriminate].
  destruct relayerFee_value as (fee & Hfee & _). rewrite Hfee in Hv.
  cbn -[apdCmp Offer_hash maxOfferValue] in Hv.
  destruct (apdCmp _ fee <=? 0); [discriminate|]. destruct (0 <? apdCmp mx maxOfferValue); [discriminate|].
  destruct (Offer_hash _) as [h| | |]; cbn in Hv; try discriminate. case_bool_decide; [|discriminate].
  injection Hv as <-. split; cbn; [done | done | by intros ? [= <-]; lia.. | by rewrite Er].
Qed.

Lemma decOffer_sound j cur o : offerParsed cur → settle (decOffer j cur) = Ok o → offerParsed o ∧ offerSound o.
Proof.
  intros Hc. unfold decOffer. destruct (rbind _ _) as [o1|e] eqn:E; [|done].
  apply rbind_Ok in E as (o0 & E & [_ <-]%validated_Ok).
  assert (Ho : offerParsed o0).
  { destruct j; try done; [by injection E as <-|]. by eapply decOfferFields_parsed. }
  destruct (Offer_validate o0) as [[[e|] o1]| | |] eqn:Hv; try done. intros [= <-].
  split; [by eapply validate_parsed|]. eapply validate_sound; [..|exact Hv]; apply Ho.
Qed.

End messages.
End WireMsgProofs.
