(* ===== verification/WireTheorems.v ===== *)
(** * What crosses the wire

    Every message that is made of Go values and passes validation encodes, and decodes to
    itself; whatever bytes a peer sends, what they decode to has the sizes of its types and
    what the validate tags ask for, and offers that are sound. *)

From stdpp Require Import base gmap list strings.
From Stdlib Require Import ZArith Strings.Byte Lia.
From S2P Require Import Prelude Coins RefApd CoinsProofs Types TypesProofs Swap Offers Bytes Crypto CryptoProofs Contracts External Db DbProofs Relayer Message Json JsonProofs Codec CodecProofs Wire WireProofs WireMsgProofs.

Open Scope Z_scope.
Open Scope go_scope.

Module WireTheorems.
Import Json JsonProofs Codec CodecProofs Wire WireProofs WireMsgProofs.

Section theorems.
Context `{AS : ApdSpec} `{!ApdText} `{WS : WireSpec} `{!AddressSpec} `{CS : CryptoSpec}.

(** ** Sizes *)

Record swapTyped (s : SwapCreatorSwap) : Prop := {
  st_owner : wf_address (swOwner s);
  st_claimer : wf_address (swClaimer s);
  st_claim : wf_hash (swClaimCommitment s);
  st_refund : wf_hash (swRefundCommitment s);
  st_asset : wf_address (swAsset s)
}.

Definition offerTyped (o : Offer) : Prop := wf_hash (oID o) ∧ 0 ≤ oNonce o ≤ uint64_max.

(** The sizes of the arrays and integers of a message, which Go's types fix. *)
Definition messageTyped (m : netMessage) : Prop :=
  match m with
  | MQueryResponse offers => Forall offerTyped offers
  | MRelayerQueryResponse _ => True
  | MRelayClaimRequest r =>
      (∀ h, rqOfferID r = Some h → wf_hash h) ∧ (∀ s, rmSwap (rqRelaySwap r) = Some s → swapTyped s) ∧
      wf_hash (rmRelayerHash (rqRelaySwap r)) ∧ wf_address (rmSwapCreator (rqRelaySwap r))
  | MRelayClaimResponse tx => wf_hash tx
  | MSendKeys k => wf_hash (skOfferID k) ∧ wf_address (skEthAddress k) ∧ secpTyped (skSecp256k1PublicKey k)
  | MNotifyETHLocked n =>
      wf_address (nlAddress n) ∧ wf_hash (nlTxHash n) ∧ wf_hash (nlContractSwapID n) ∧ swapTyped (nlContractSwap n)
  end.

(** The addresses and commitments of a swap are not zero: the tags of its JSON. *)
Definition swapSet (s : SwapCreatorSwap) : Prop :=
  nonZero (swOwner s) = true ∧ nonZero (swClaimer s) = true ∧ nonZero (swClaimCommitment s) = true ∧
  nonZero (swRefundCommitment s) = true.

Definition swapsSet (m : netMessage) : Prop :=
  match m with
  | MRelayClaimRequest r => ∃ s, rmSwap (rqRelaySwap r) = Some s ∧ swapSet s
  | MNotifyETHLocked n => swapSet (nlContractSwap n)
  | _ => True
  end.

(** ** Encoding succeeds *)

Definition ok {A} (r : result A) : Prop := ∃ a, r = Ok a.

Lemma encStruct_ok fields : Forall (fun f => ok f.2) fields → ok (encStruct fields).
Proof.
  intros Hf. assert (ok (encMembers fields)) as [ms E].
  { induction Hf as [|[n r] fs [j Hj] _ [ms IH]]; [by eexists|]. cbn in Hj |- *. rewrite Hj, IH. by eexists. }
  unfold encStruct. rewrite E. by eexists.
Qed.

Lemma encFixed_ok n b : length b = n → ok (encFixed n b).
Proof. intros Hb. unfold encFixed. rewrite bool_decide_true by done. by eexists. Qed.

Lemma encFixedPtr_ok n p : (∀ b, p = Some b → length b = n) → ok (encPtr (encFixed n) p).
Proof. intros Hp. destruct p as [b|]; [by apply encFixed_ok, Hp | by eexists]. Qed.

Lemma encDecimal_ok p : (∀ d, p = Some d → exactDecimal d) → ok (encPtr (encText apdMarshalText) p).
Proof.
  intros Hp. destruct p as [d|]; [|by eexists]. destruct (apd_text d (Hp d eq_refl)) as (t & E & _).
  unfold encPtr, encText. rewrite E. by eexists.
Qed.

Lemma encBigPtr_ok p : ok (encPtr encBig p).
Proof. destruct p; by eexists. Qed.

Hint Resolve encFixed_ok encFixedPtr_ok encDecimal_ok encBigPtr_ok : core.

Ltac enc_fields := apply encStruct_ok; repeat (apply Forall_cons; split; cbn [snd]); [..|by constructor].

Lemma encSwap_ok s : swapTyped s → swapSet s → ok (SwapCreatorSwap_MarshalJSON s).
Proof.
  intros [] (Ho & Hc & Hcc & Hrc). unfold SwapCreatorSwap_MarshalJSON, swapValidate.
  cbn [sjOwner sjClaimer sjClaimCommitment sjRefundCommitment sjTimeout1 sjTimeout2 sjAsset sjValue sjNonce].
  rewrite Ho, Hc, Hcc, Hrc, !bool_decide_true by eauto. cbn [required firstError validated rbind].
  unfold encSwapJSON. enc_fields; eauto.
Qed.

Lemma encRelaySwap_ok m s : rmSwap m = Some s → swapTyped s → swapSet s → wf_hash (rmRelayerHash m) →
  wf_address (rmSwapCreator m) → ok (encRelaySwap m).
Proof.
  intros E Ht Hs Hh Ha. unfold encRelaySwap. rewrite E. enc_fields; eauto; [by apply encSwap_ok|].
  unfold encArray. rewrite bool_decide_true by done. by eexists.
Qed.

Lemma encOffer_ok o : offerOnWire o → offerTyped o → offerTags o = None → ok (settle (encOffer o)).
Proof.
  intros Ho [Hid Hn] Ht. unfold encOffer. rewrite (ow_valid o Ho). cbn [obind fst snd settle]. rewrite Ht.
  cbn [validated rbind]. unfold encOfferFields.
  enc_fields; eauto using ow_min, ow_max; [by eexists | | | |].
  - unfold encText, ProvidesCoin_MarshalText. rewrite bool_decide_true by apply (ow_provides o Ho). by eexists.
  - apply (encDecimal_ok (oExchangeRate o)). intros r Hr. by apply (ow_rate o Ho).
  - unfold encText, EthAsset_MarshalText. destruct (IsETH _); by eexists.
  - unfold encUint. replace (_ && _) with true; [by eexists|]. symmetry. apply andb_true_intro.
    split; apply Z.leb_le; lia.
Qed.

Lemma encOffers_ok os : Forall offerOnWire os → Forall offerTyped os → firstError (offerTags <$> os) = None →
  ok (encElems (fun o => settle (encOffer o)) os).
Proof.
  intros Hw Ht. induction os as [|o os IH]; [by eexists|]. cbn [fmap list_fmap firstError].
  destruct (offerTags o) eqn:E; [done|]. apply Forall_cons in Hw as [Hw Hws], Ht as [Ht Hts]. intros Hf.
  destruct (encOffer_ok o Hw Ht E) as [j Hj], (IH Hws Hts Hf) as [js Hjs]. cbn [encElems].
  rewrite Hj, Hjs. by eexists.
Qed.

Lemma encMessage_ok m : messageOnWire m → messageTyped m → swapsSet m → msgValidate m = None → ok (encMessage m).
Proof.
  destruct m as [os|h|r|tx|k|n]; cbn [encMessage messageOnWire messageTyped swapsSet]; intros Hw Ht Hs Hv.
  - enc_fields. destruct (encOffers_ok os Hw Ht Hv) as [js Hjs]. unfold encSlice. rewrite Hjs. by eexists.
  - enc_fields. by eexists.
  - destruct Ht as (Hid & Hst & Hh & Ha), Hs as (s & Es & Hset). unfold encRequest.
    enc_fields; [eauto | by eapply encRelaySwap_ok; eauto | by eexists..].
  - enc_fields. by apply encFixed_ok.
  - destruct Hw as [Hd Hsec], Ht as (Hid & Ha & _). unfold encSendKeys.
    enc_fields; [eauto | eauto | | | by eexists.. | eauto].
    + by destruct (skPublicSpendKey k); eexists.
    + by destruct (skPrivateViewKey k); eexists.
  - destruct Ht as (Ha & Htx & Hid & Hsw). unfold encNotify. enc_fields; eauto using encSwap_ok.
Qed.

(** ** Decoding gives values of the types *)

Lemma field_fixed names name n ms cur b : length cur = n → field names name (decFixed n) ms cur = Ok b → length b = n.
Proof. apply (field_inv (fun b => length b = n)). intros ? ? ? _. apply decFixed_length. Qed.

Lemma decFixedPtr_length n j cur p : decFixedPtr n j cur = Ok p → ∀ b, p = Some b → length b = n.
Proof.
  destruct j; cbn [decFixedPtr]; [by intros [= <-]|..]; intros (c & E & [= <-])%rbind_Ok ? [= <-];
    by eapply decFixed_length.
Qed.

Lemma decArray_length n j cur b : length cur = n → decArray n j cur = Ok b → length b = n.
Proof.
  destruct j; cbn [decArray]; try done; [by intros ? [= <-]|].
  intros _ (c & _ & [= <-])%rbind_Ok. apply goCopy_length.
Qed.

Lemma unmarshalSwap_typed j s : SwapCreatorSwap_UnmarshalJSON j = Ok s → swapTyped s.
Proof.
  unfold SwapCreatorSwap_UnmarshalJSON, decSwapJSON. intros (ms & _ & (sj & Es & E)%rbind_Ok)%rbind_Ok.
  repeat apply rbind_Ok in Es as (? & ? & Es). injection Es as <-.
  apply rbind_Ok in E as (? & [_ <-]%validated_Ok & E). repeat apply rbind_Ok in E as (? & _ & E).
  injection E as <-. split; cbn; (eapply field_fixed; [|eassumption]); done.
Qed.

Definition swapPtrTyped (p : option SwapCreatorSwap) : Prop := ∀ s, p = Some s → swapTyped s.

Lemma decSwap_typed j cur p : decSwap j cur = Ok p → swapPtrTyped p.
Proof. intros (s & E & [= <-])%rbind_Ok ? [= <-]. by eapply unmarshalSwap_typed. Qed.

Lemma decSwapPtr_typed j cur p : decSwapPtr j cur = Ok p → swapPtrTyped p.
Proof. destruct j; cbn [decSwapPtr]; [by intros [= <-]|..]; apply decSwap_typed. Qed.

Definition relaySwapTyped (m : RelaySwapMsg) : Prop :=
  swapPtrTyped (rmSwap m) ∧ wf_hash (rmRelayerHash m) ∧ wf_address (rmSwapCreator m).

Lemma decRelaySwap_typed j cur m : relaySwapTyped cur → decStruct decRelaySwap j cur = Ok m → relaySwapTyped m.
Proof.
  intros (Hs & Hh & Ha). destruct j; cbn [decStruct]; try done; [by intros [= <-]|].
  unfold decRelaySwap. intros (s & Es & (f & _ & (h & Eh & (a & Ea & [= <-])%rbind_Ok)%rbind_Ok)%rbind_Ok)%rbind_Ok.
  split_and!; cbn.
  - eapply (field_inv swapPtrTyped); [|exact Hs | exact Es]. intros ? ? ? _. apply decSwap_typed.
  - eapply (field_inv (fun b => length b = hashLen)); [|exact Hh | exact Eh]. intros ? ? ?. apply decArray_length.
  - eapply field_fixed; [exact Ha | exact Ea].
Qed.

Lemma decRequest_typed ms r : decRequest ms = Ok r → messageTyped (MRelayClaimRequest r).
Proof.
  unfold decRequest. intros (id & Eid & (p & Ep & (sec & _ & (sig & _ & (m & Em & [= <-])%rbind_Ok)%rbind_Ok)%rbind_Ok)%rbind_Ok)%rbind_Ok.
  cbn. split.
  - refine (field_inv (fun p => ∀ h, p = Some h → wf_hash h) _ _ _ _ _ _ _ _ Eid); [|done].
    intros ? ? ? _. apply decFixedPtr_length.
  - destruct p as [m'|]; [|done]. injection Em as ->.
    refine (field_inv (fun p => ∀ m, p = Some m → relaySwapTyped m) _ _ _ _ _ _ _ _ Ep m eq_refl); [|done].
    intros j c p Hc. unfold decPtr.
    assert (Hd : relaySwapTyped (default zeroRelaySwap c)) by (destruct c; [by apply Hc | by split_and!]).
    destruct j; [by intros [= <-]|..]; intros (m' & E & [= <-])%rbind_Ok ? [= <-];
      (eapply decRelaySwap_typed; [exact Hd | exact E]).
Qed.

Lemma secpText_typed t s : Secp256k1_UnmarshalText t = Ok s → secpTyped s.
Proof.
  unfold Secp256k1_UnmarshalText. case_match; [|done]. case_bool_decide as Hl; cbn; [|done].
  intros [= <-]. split; cbn; rewrite ?length_take, ?length_drop; lia.
Qed.

Lemma decSendKeys_typed ms k : decSendKeys ms = Ok k → messageTyped (MSendKeys k).
Proof.
  unfold decSendKeys.
  intros (id & Eid & (am & _ & (sp & _ & (vw & _ & (pr & _ & (sec & Esec & (ad & Ead & E)%rbind_Ok)%rbind_Ok)%rbind_Ok)%rbind_Ok)%rbind_Ok)%rbind_Ok)%rbind_Ok.
  apply rbind_Ok in E as (? & _ & (s & Es & [= <-])%rbind_Ok). cbn. split_and!; [eapply field_fixed; [|eassumption]; done..|].
  destruct sec as [s'|]; [|done]. injection Es as ->.
  refine (field_inv (fun p => ∀ s, p = Some s → secpTyped s) _ _ _ _ _ _ _ _ Esec s eq_refl); [|done].
  intros ? ? ? _. apply decTextPtr_inv, secpText_typed.
Qed.

Lemma decNotify_typed ms n : decNotify ms = Ok n → messageTyped (MNotifyETHLocked n).
Proof.
  unfold decNotify. intros (a & Ea & (tx & Etx & (id & Eid & (sw & Esw & (s & Es & [= <-])%rbind_Ok)%rbind_Ok)%rbind_Ok)%rbind_Ok)%rbind_Ok.
  cbn. split_and!; [eapply field_fixed; [|eassumption]; done..|]. destruct sw as [s'|]; [|done]. injection Es as ->.
  refine (field_inv swapPtrTyped _ _ _ _ _ _ _ _ Esw s eq_refl); [|done].
  intros ? ? ? _. apply decSwapPtr_typed.
Qed.

(** ** Offers that a peer sends *)

Definition offerRead (p : option Offer) : Prop := ∀ o, p = Some o → offerParsed o ∧ offerSound o.

Lemma decOfferSlice_sound j cur l : Forall offerRead cur → decOfferSlice j cur = Ok l → Forall offerRead l.
Proof.
  intros Hc. destruct j; cbn [decOfferSlice]; try done; [by intros [= <-]|].
  apply (decElems_inv offerRead); [|done | done]. intros j c p Hp. unfold decPtr.
  assert (Hd : offerParsed (default zeroOffer c)) by (destruct c; [by apply Hp | apply zeroOffer_parsed]).
  destruct j; [by intros [= <-]|..]; intros (o & E & [= <-])%rbind_Ok ? [= <-];
    (eapply decOffer_sound; [exact Hd | exact E]).
Qed.

Lemma requiredAll_inv {A} (l : list (option A)) os : requiredAll l = Ok os → l = (Some <$> os).
Proof.
  revert os. induction l as [|p l IH]; intros os; [by intros [= <-]|].
  intros (o & E & (os' & Hos & [= <-])%rbind_Ok)%rbind_Ok. destruct p; [|done]. injection E as ->.
  cbn. by rewrite (IH os' Hos).
Qed.

Lemma decMessage_offers t j os : decMessage t j = Ok (MQueryResponse os) →
  Forall (fun o => offerParsed o ∧ offerSound o) os.
Proof.
  unfold decMessage. intros (ms & _ & E)%rbind_Ok.
  case_bool_decide.
  - apply rbind_Ok in E as (l & El & (os' & ->%requiredAll_inv & [= ->])%rbind_Ok).
    assert (Hl : Forall offerRead (Some <$> os)).
    { refine (field_inv (Forall offerRead) _ _ _ _ _ _ _ _ El); [|done]. intros ? ? ?. apply decOfferSlice_sound. }
    rewrite Forall_fmap in Hl. eapply Forall_impl; [exact Hl|]. intros o Ho. by apply Ho.
  - repeat (case_bool_decide; [repeat apply rbind_Ok in E as (? & _ & E); by injection E|]). done.
Qed.

Lemma decMessage_typed t j m : decMessage t j = Ok m → messageTyped m.
Proof.
  intros E0. pose proof E0 as E. unfold decMessage in E. apply rbind_Ok in E as (ms & _ & E).
  case_bool_decide; [|case_bool_decide; [|case_bool_decide; [|case_bool_decide; [|case_bool_decide; [|
    case_bool_decide; [|done]]]]]].
  - apply rbind_Ok in E as (l & _ & (os & _ & [= <-])%rbind_Ok). apply decMessage_offers in E0.
    eapply Forall_impl; [exact E0|]. intros o [[Hid Hn _ _ _] _]. by split.
  - by apply rbind_Ok in E as (h & _ & [= <-]).
  - apply rbind_Ok in E as (r & Hr & [= <-]). by eapply decRequest_typed.
  - apply rbind_Ok in E as (tx & Htx & [= <-]). eapply field_fixed; [|exact Htx]. done.
  - apply rbind_Ok in E as (k & Hk & [= <-]). by eapply decSendKeys_typed.
  - apply rbind_Ok in E as (n & Hn & [= <-]). by eapply decNotify_typed.
Qed.

(** ** The properties *)

(** C29: roundtrip.  A message of Go values ([messageTyped]) that validates, whose offers are
    validated ones with amounts that apd writes exactly ([messageOnWire]) and which, when it
    carries a swap of the contract, has one without zero addresses and commitments
    ([swapsSet]), encodes, and what [Encode] makes of it is decoded by [DecodeMessage] to the
    same message.  Conversely, whatever bytes a peer sends, a message they decode to has the
    type of the first byte, arrays and integers of the sizes of their types, and what the
    validate tags ask for ([wellFormed]): 32 bytes of a relayer's address hash, 32 bytes of
    secret and 65 of signature of a relay request (whose swap and fee may be missing), amount
    and keys of the keys message, a non-zero contract address and swap ID of the lock
    notification.  This is proved through the text: the printer and the parser of JSON,
    escapes, base64, numbers, and fields found by their names. *)
Theorem wire_message_roundtrip (m : netMessage) :
  (messageOnWire m → messageTyped m → swapsSet m → msgValidate m = None →
     ∃ b, Encode m = Ok b ∧ DecodeMessage b = Ok m) ∧
  (∀ b, messageOnWire m → Encode m = Ok b → DecodeMessage b = Ok m) ∧
  (∀ b, DecodeMessage b = Ok m → head b = Some (Message_Type m) ∧ wellFormed m ∧ messageTyped m).
Proof.
  assert (Hr : ∀ b, messageOnWire m → Encode m = Ok b → DecodeMessage b = Ok m)
    by (intros b; apply message_roundtrip).
  split_and!; [|exact Hr|].
  - intros Hw Ht Hs Hv. destruct (encMessage_ok m Hw Ht Hs Hv) as [j Hj].
    assert (E : Encode m = Ok (Message_Type m :: jsonPrint j)).
    { rewrite Encode_type. unfold encodeAs. rewrite Hv. cbn [msgMarshal wireMsgJson]. unfold jsonMarshal. by rewrite Hj. }
    eauto.
  - intros b Hd. destruct (Decode_inv b m Hd) as (Hh & Hu & Hv). split_and!; [done | by apply msgValidate_wf |].
    cbn [msgUnmarshal wireMsgJson] in Hu. destruct (jsonParse _); [|done]. by eapply decMessage_typed.
Qed.

(** C40: whatever bytes a peer answers a query with, the offers they decode to are sound:
    0 < min <= max <= 1000 XMR, a minimum worth more than the relayer fee at the rate, and
    an ID that is the hash of the offer's fields.  The same holds of an offer read from the
    database, whose version is then not newer than the supported one.  No property of the
    text is assumed: members may repeat, come in any order, differ in case or be null. *)
Theorem received_offers_sound (b : bytes) :
  (∀ offers, DecodeMessage b = Ok (MQueryResponse offers) → Forall offerSound offers) ∧
  (∀ o, dbUnmarshalOffer b = Done (Ok o) →
     offerSound o ∧ ∃ v, offerVersionOf b = Ok (Some v) ∧ versionGreaterThan v CurOfferVersion = false).
Proof.
  split.
  - intros os Hd. destruct (Decode_inv b _ Hd) as (_ & Hu & _). cbn [msgUnmarshal wireMsgJson] in Hu.
    destruct (jsonParse _) as [j|]; [|done]. apply decMessage_offers in Hu.
    eapply Forall_impl; [exact Hu|]. by intros o [_ Ho].
  - intros o Hu. apply (UnmarshalOffer_sound offerVersionOf offerUnmarshal offerValidateStruct); [|exact Hu].
    cbn [offerUnmarshal wireOfferJson]. intros o' E. unfold jsonUnmarshal in E.
    destruct (jsonParse b) as [j|]; [|done].
    assert (Ho : offerParsed o').
    { destruct j; try done; [injection E as <-; apply zeroOffer_parsed|].
      by eapply decOfferFields_parsed; [apply zeroOffer_parsed|]. }
    split_and!; apply Ho.
Qed.

End theorems.
End WireTheorems.
