(* ===== verification/WireWitness.v ===== *)
(** * The wire on concrete messages

    A decimal library whose text is the coefficient, the letter E and the exponent, versions
    that are numbers, and the hexadecimal text of go-ethereum: the hypotheses of the theorems
    about the wire hold, and the definitions run. *)

From stdpp Require Import base gmap list strings.
From Stdlib Require Import ZArith Strings.Byte Lia.
From S2P Require Import Prelude Coins RefApd CoinsProofs Types TypesProofs Swap Offers Bytes Crypto CryptoProofs Contracts External Db DbProofs Relayer Backend RelayWitness Message Json JsonProofs Codec CodecProofs Wire WireProofs WireMsgProofs WireTheorems.

Open Scope Z_scope.
Open Scope go_scope.

Module WireWitness.
Import Json JsonProofs Codec CodecProofs Wire WireProofs WireMsgProofs WireTheorems.

(** ** The text of decimals *)

Definition decimalText (d : Decimal) : bytes :=
  (if dNegative d then [x2d] else []) ++ digitsOf (dCoeff d) ++ x45 :: intText (dExponent d).

Definition parseDecimal (s : string) : result Decimal :=
  let '(sign, s1) := scanMinus (bytesOfString s) in
  let '(digits, s2) := takeDigits s1 in
  match digitsValue digits, s2 with
  | Some c, e :: lit =>
      match parseInt lit with
      | Some exp => if bool_decide (e = x45) then Ok (mkDec Finite (bool_decide (sign ≠ [])) exp c)
                    else Err (errorf "parse")
      | None => Err (errorf "parse")
      end
  | _, _ => Err (errorf "parse")
  end.

Definition wireApd : Apd := {|
  apdReduce := @apdReduce refApd;
  apdIsZero := @apdIsZero refApd;
  apdCmp := @apdCmp refApd;
  apdNumDigits := @apdNumDigits refApd;
  apdText := @apdText refApd;
  apdUnmarshalText := parseDecimal;
  apdMarshalText d := if 0 <=? dCoeff d then Ok (textOf (decimalText d)) else Err (errorf "not a coefficient");
  apdRoundToIntegralValue := @apdRoundToIntegralValue refApd;
  apdQuantize := @apdQuantize refApd;
  apdMul := @apdMul refApd;
  apdQuo := @apdQuo refApd;
  apdAdd := @apdAdd refApd
|}.

Definition wireApdSpec : @ApdSpec wireApd.
Proof. destruct refApdSpec. constructor; assumption. Qed.

Lemma digits_all d : intDigits d → Forall (fun c => isDigit c = true) d.
Proof. intros [-> | (_ & H & _)]; [by repeat constructor | done]. Qed.

Lemma digits_plain d : intDigits d → plain d.
Proof.
  intros Hd. eapply Forall_impl; [exact (digits_all d Hd)|]. intros c Hc.
  pose proof (byte_forall (fun c => implb (isDigit c) (htmlSafe c)) eq_refl c) as H. cbn beta in H.
  rewrite Hc in H. exact H.
Qed.

Lemma intText_plain z : plain (intText z).
Proof.
  unfold intText. destruct (Z.ltb_spec z 0); [constructor; [done|]|]; apply digits_plain, digitsOf_spec; lia.
Qed.

Lemma bytes_textOf b : bytesOfString (textOf b) = b.
Proof. apply String.list_byte_of_string_of_list_byte. Qed.

Lemma parseDecimal_text neg e c : 0 ≤ c →
  parseDecimal (textOf (decimalText (mkDec Finite neg e c))) = Ok (mkDec Finite neg e c).
Proof.
  intros Hc. unfold parseDecimal. rewrite bytes_textOf. unfold decimalText. cbn [dNegative dCoeff dExponent].
  destruct (digitsOf_spec c Hc) as [Hd Hv].
  assert (Hm : scanMinus ((if neg then [x2d] else []) ++ digitsOf c ++ x45 :: intText e) =
    (if neg then [x2d] else [], digitsOf c ++ x45 :: intText e)).
  { destruct neg; [done|]. cbn [app]. destruct (intDigits_head _ Hd) as (d & r & -> & Hdig). cbn [app scanMinus].
    rewrite bool_decide_false; [done|]. intros ->. by vm_compute in Hdig. }
  rewrite Hm, takeDigits_app by (by apply digits_all || done). rewrite Hv, parseInt_text.
  by destruct neg.
Qed.

Lemma decimal_plain d : 0 ≤ dCoeff d → plain (decimalText d).
Proof.
  intros Hc. unfold decimalText.
  repeat (apply plain_app; split); [by destruct (dNegative d); repeat constructor | by apply digits_plain, digitsOf_spec|].
  constructor; [done | apply intText_plain].
Qed.

Definition wireApdText : @ApdText wireApd.
Proof.
  split.
  - intros [f neg e c] (Hf & [Hc _] & _). cbn in Hf, Hc. subst f. cbn [apdMarshalText wireApd dCoeff].
    rewrite (proj2 (Z.leb_le _ _) Hc). eexists. split; [reflexivity|]. rewrite bytes_textOf. split; [by apply decimal_plain | by apply parseDecimal_text].
  - intros d t. cbn [apdMarshalText wireApd]. destruct (Z.leb_spec 0 (dCoeff d)); [|done]. intros [= <-]. rewrite bytes_textOf.
    by apply decimal_plain.
  - intros t d. cbn [apdUnmarshalText wireApd]. unfold parseDecimal.
    destruct (scanMinus _) as [sign s1], (takeDigits s1) as [ds s2]. unfold digitsValue.
    destruct ds as [|c ds]; [done|]. destruct (forallb isDigit (c :: ds)) eqn:Hd; [|done].
    destruct s2 as [|e lit]; [done|]. destruct (parseInt lit); [|done]. case_bool_decide; [|done].
    intros [= <-]. by apply (foldl_digits_nonneg (c :: ds) 0).
Qed.

(** ** Versions and hexadecimal text *)

Definition wireTypes : TypesLib := {|
  Version := Z;
  versionString := fun v => textOf (intText v);
  versionGreaterThan := fun v w => w <? v;
  CurOfferVersion := 1;
  CurInfoVersion := 3;
  sha3Sum256 := @sha3Sum256 refTypes;
  addressHex := @addressHex refTypes;
  isHexAddress := @isHexAddress refTypes;
  hexToAddress := @hexToAddress refTypes
|}.

Definition wireAddressSpec : @AddressSpec wireTypes.
Proof. destruct refAddressSpec. constructor; assumption. Qed.

Definition hexFixed (n : nat) (s : string) : result bytes :=
  match hexDecodeString (stringsTrimPrefix s "0x") with
  | Ok b => if bool_decide (length b = n) then Ok b else Err (errorf "hex string has wrong length")
  | Err e => Err e
  end.

Definition parseVersion (s : string) : result Z :=
  match parseInt (bytesOfString s) with Some v => Ok v | None => Err (errorf "invalid version") end.

Definition wireLib : @WireLib wireTypes := {|
  hexutilEncode := fun b => ("0x" +:+ hexEncodeToString b)%string;
  hexutilDecodeFixed := hexFixed;
  semverNewVersion := parseVersion : string → result (@Version wireTypes);
  semverZero := (0 : Z) : @Version wireTypes
|}.

Lemma hex0x_plain b : plain (bytesOfString ("0x" +:+ hexEncodeToString b)).
Proof. constructor; [done|]. constructor; [done | apply hexText_plain]. Qed.

Definition wireSpec : @WireSpec wireTypes wireLib.
Proof.
  split; cbn [hexutilEncode hexutilDecodeFixed semverNewVersion versionString addressHex wireLib wireTypes].
  - apply hex0x_plain.
  - intros b. unfold hexFixed. rewrite (trimPrefix_app "0x"), hexDecode_encode. by rewrite bool_decide_true.
  - intros n s b. unfold hexFixed. destruct (hexDecodeString _); [|done]. case_bool_decide; [|done]. by intros [= <-].
  - intros v. rewrite bytes_textOf. apply intText_plain.
  - intros v. unfold parseVersion. by rewrite bytes_textOf, parseInt_text.
  - apply hex0x_plain.
Qed.

(** ** A message of each kind *)

#[local] Existing Instances wireApd wireApdSpec wireApdText wireTypes wireAddressSpec wireLib wireSpec.

Definition wireOffer : Offer :=
  match NewOffer 7 ProvidesXMR (apdNew 10 (-2)) (apdNew 25 (-1)) (apdNew 2 (-1)) EthAssetETH with
  | Done o => o
  | _ => zeroOffer
  end.

(** An offer whose exchange rate has seven decimals validates and is stored, but what was
    stored is not read again: reading all offers removes it. *)
Definition fineRateOffer : Offer :=
  match NewOffer 7 ProvidesXMR (apdNew 10 (-2)) (apdNew 25 (-1)) (apdNew 1234567 (-7)) EthAssetETH with
  | Done o => o
  | _ => zeroOffer
  end.

Definition fineRateText : bytes :=
  match marshalOffer fineRateOffer with Done (Ok b) => b | _ => [] end.

Example fine_rate_is_lost :
  isOk (settle (dbUnmarshalOffer fineRateText)) = false ∧
  match marshalOffer fineRateOffer with Done r => isOk r | _ => false end = true.
Proof. split; vm_compute; reflexivity. Qed.

Definition wireSwap : SwapCreatorSwap :=
  mkSwap (repeat x0a 20) (repeat x0b 20) (repeat x11 32) (repeat x12 32) 100 200 zeroAddress (10 ^ 17) 5.

Definition wireNotify : netMessage :=
  MNotifyETHLocked (mkNotifyETHLocked (repeat x01 20) (repeat x02 32) (repeat x03 32) wireSwap).

Definition queryBytes : bytes :=
  match Encode (MQueryResponse [wireOffer]) with Ok b => b | Err _ => [] end.

Lemma wireOffer_onWire : offerOnWire wireOffer.
Proof.
  split; [vm_compute; reflexivity | by left | ..| reflexivity].
  - intros d [= <-]. done.
  - intros d [= <-]. done.
  - intros r [= <-]. done.
Qed.

Lemma wire_message_roundtrip_witness :
  (∃ b, Encode (MQueryResponse [wireOffer]) = Ok b ∧ DecodeMessage b = Ok (MQueryResponse [wireOffer])) ∧
  (∃ b, Encode wireNotify = Ok b ∧ DecodeMessage b = Ok wireNotify) ∧
  wellFormed wireNotify.
Proof.
  destruct (wire_message_roundtrip wireNotify) as (Hsend & _ & Hrecv).
  assert (Hn : ∃ b, Encode wireNotify = Ok b ∧ DecodeMessage b = Ok wireNotify) by by apply Hsend.
  split_and!; [|exact Hn|].
  - apply (wire_message_roundtrip (MQueryResponse [wireOffer])); [| by constructor | exact I | reflexivity].
    constructor; [apply wireOffer_onWire | constructor].
  - destruct Hn as (b & _ & Hd). by apply (Hrecv b).
Defined.

Lemma received_offers_sound_witness : Forall offerSound [wireOffer] ∧
  offerSound wireOffer.
Proof.
  split.
  - apply (received_offers_sound queryBytes). reflexivity.
  - apply (received_offers_sound (match offerMarshal wireOffer with Ok b => b | Err _ => [] end)).
    reflexivity.
Defined.

(** Names are matched whatever their case, a member may come twice (the last value is kept),
    unknown members are skipped, and an element that is null is refused. *)
Definition oddQuery (offers : string) : bytes :=
  QueryResponseType :: bytesOfString offers.

Definition quoteText (s : string) : string := String (Ascii.ascii_of_nat 34) s +:+ String (Ascii.ascii_of_nat 34) EmptyString.

Definition oddOffer : string :=
  (" { " +:+ quoteText "OFFERID" +:+ ":" +:+ quoteText (hexutilEncode (oID wireOffer)) +:+ "," +:+ quoteText "version" +:+ ":" +:+ quoteText "1" +:+
   "," +:+ quoteText "nonce" +:+ ":3," +:+ quoteText "unknown" +:+ ":[1.5e3,{}]," +:+ quoteText "provides" +:+ ":" +:+ quoteText "XMR" +:+
   "," +:+ quoteText "minAmount" +:+ ":" +:+ quoteText "10E-2" +:+ "," +:+ quoteText "maxAmount" +:+ ":" +:+ quoteText "25E-1" +:+
   "," +:+ quoteText "exchangeRate" +:+ ":" +:+ quoteText "2E-1" +:+ "," +:+ quoteText "ethAsset" +:+ ":" +:+ quoteText "ETH" +:+
   "," +:+ quoteText "nonce" +:+ ":7 }")%string.

Example odd_query_accepted :
  match DecodeMessage (oddQuery ("{" +:+ quoteText "Offers" +:+ ":[" +:+ oddOffer +:+ "]}")) with
  | Ok (MQueryResponse [o]) => bool_decide (oNonce o = 7) && bool_decide (oID o = oID wireOffer)
  | _ => false
  end = true ∧
  match DecodeMessage (oddQuery ("{" +:+ quoteText "offers" +:+ ":[null]}")) with Ok _ => false | Err _ => true end = true.
Proof. split; vm_compute; reflexivity. Qed.

(** ** A relay request that a peer can send

    The text of a request whose relay swap has no swap and no fee passes [DecodeMessage], and
    handling the request panics. *)

Definition refWireLib : @WireLib refTypes := {|
  hexutilEncode := fun b => ("0x" +:+ hexEncodeToString b)%string;
  hexutilDecodeFixed := hexFixed;
  semverNewVersion := fun _ => Err (errorf "invalid version");
  semverZero := (0, 0, 0)%nat : @Version refTypes
|}.

Definition emptyRequestText : bytes :=
  bytesOfString ("{" +:+ quoteText "relaySwap" +:+ ":{" +:+ quoteText "SwapCreator" +:+ ":" +:+
    quoteText ("0x" +:+ hexEncodeToString SampleWorld.contractAt) +:+ "}," +:+ quoteText "secret" +:+ ":" +:+
    quoteText (textOf (base64Encode (repeat x33 32))) +:+ "," +:+ quoteText "signature" +:+ ":" +:+
    quoteText (textOf (base64Encode (rqSignature RelayWitness.request0))) +:+ "}").

Example empty_request_arrives :
  @DecodeMessage refTypes (@wireOfferJson refApd refTypes refWireLib) refCrypto
    (@wireMsgJson refApd refTypes refWireLib refCrypto)
    (RelayClaimRequestType :: emptyRequestText) = Ok (MRelayClaimRequest RelayWitness.emptyRequest).
Proof. reflexivity. Qed.

End WireWitness.
