(* ===== verification/Calls.v ===== *)
(** * Programs that make calls, with a log

    The clients of the Ethereum node and of the Monero wallet each have a type of calls
    [C], where a call of [C A] is answered by an [A].  The answers are an arbitrary
    function of the number of calls made; the log keeps every call with its answer. *)

From stdpp Require Import base list.
From Stdlib Require Import ZArith.
From S2P Require Import Prelude.

Open Scope go_scope.

(** An element that no other one of the list is like splits the list in one way. *)
Lemma split_unique {A} (q : A → bool) l2 x l1 post y pre :
  post ++ y :: pre = l2 ++ x :: l1 → forallb (fun e => negb (q e)) l2 = true →
  forallb (fun e => negb (q e)) l1 = true → q y = true → post = l2 ∧ y = x ∧ pre = l1.
Proof.
  intros Heq H2 H1 Hy. revert l2 Heq H2.
  induction post as [|e post IH]; intros [|e' l2] Heq H2; cbn in Heq, H2; injection Heq as E1 E2; subst; [done | | |].
  - by rewrite Hy in H2.
  - rewrite forallb_app in H1. cbn in H1. rewrite Hy, andb_false_r in H1. done.
  - apply andb_true_iff in H2 as [_ H2]. destruct (IH _ E2 H2) as (-> & -> & ->). done.
Qed.

Inductive event (C : Type → Type) : Type :=
| Ev {A : Type} (c : C A) (a : A).
Arguments Ev {C A} _ _.

Class Answers (C : Type → Type) := respond : ∀ A, nat → C A → A.

Record caller (C : Type → Type) (S : Type) : Type := mkCaller {
  fields : S;
  ticks : nat;
  log : list (event C)
}.
Arguments mkCaller {C S} _ _ _.
Arguments fields {C S} _.
Arguments ticks {C S} _.
Arguments log {C S} _.

Section calls.
Context {C : Type → Type} {S : Type} `{!Answers C}.
Implicit Types s : caller C S.

Definition perform {A} (c : C A) : prog (caller C S) A := fun s =>
  let a := respond A (ticks s) c in
  (Done a, mkCaller (fields s) (Datatypes.S (ticks s)) (Ev c a :: log s)).

Definition getF {A} (f : S → A) : prog (caller C S) A := gets (fun s => f (fields s)).

Definition modF (f : S → S) : prog (caller C S) unit :=
  modify (fun s => mkCaller (f (fields s)) (ticks s) (log s)).

(** What happened between two states, the latest first. *)
Definition since s s' (es : list (event C)) : Prop := log s' = es ++ log s.

(** Everything that happened satisfies [p]. *)
Definition only (p : event C → bool) s s' : Prop := ∃ es, since s s' es ∧ forallb p es = true.

#[export] Instance only_preorder p : PreOrder (only p).
Proof.
  split.
  - intros s. by exists [].
  - intros a b c (e1 & E1 & F1) (e2 & E2 & F2). exists (e2 ++ e1). unfold since in *.
    rewrite E2, E1, (assoc_L (++)). split; [done|]. by rewrite forallb_app, F1, F2.
Qed.

Lemma since_trans s1 s2 s3 e1 e2 : since s1 s2 e1 → since s2 s3 e2 → since s1 s3 (e2 ++ e1).
Proof. unfold since. intros -> ->. by rewrite (assoc_L (++)). Qed.

Lemma since_inj s s' e1 e2 : since s s' e1 → since s s' e2 → e1 = e2.
Proof. unfold since. intros -> E. by apply app_inv_tail in E. Qed.

Lemma only_since p s s' es : only p s s' → since s s' es → forallb p es = true.
Proof. intros (e & E & F) E'. by rewrite (since_inj _ _ _ _ E' E). Qed.

Lemma only_weaken (p q : event C → bool) s s' : (∀ e, p e = true → q e = true) → only p s s' → only q s s'.
Proof.
  intros Hpq (es & E & F). exists es. split; [done|]. rewrite forallb_forall in F |- *. auto.
Qed.

Lemma only_perform {A} p (c : C A) : (∀ a, p (Ev c a) = true) → keeps (only p) (perform c).
Proof. intros Hp s. eexists [_]. split; [done|]. cbn. by rewrite Hp. Qed.

Lemma only_getF {A} p (f : S → A) : keeps (only p) (getF f).
Proof. intros s. by exists []. Qed.

Lemma only_modF p f : keeps (only p) (modF f).
Proof. intros s. by exists []. Qed.

Lemma perform_inv {A} (c : C A) s a s' : perform c s = (Done a, s') →
  a = respond A (ticks s) c ∧ since s s' [Ev c a] ∧ ticks s' = Datatypes.S (ticks s) ∧ fields s' = fields s.
Proof. unfold perform, since. by intros [= <- <-]. Qed.

(** An event between two states. *)
Definition happened s s' (e : event C) : Prop := ∃ es, since s s' es ∧ e ∈ es.

Definition onwards : caller C S → caller C S → Prop := only (fun _ => true).

Lemma onwards_since s s' es : since s s' es → onwards s s'.
Proof. intros E. exists es. split; [done|]. by apply forallb_forall. Qed.

Lemma happened_later s s1 s' e : happened s s1 e → onwards s1 s' → happened s s' e.
Proof.
  intros (es & E & Hin) (es' & E' & _). exists (es' ++ es). split; [by eapply since_trans|].
  apply elem_of_app. by right.
Qed.

Lemma happened_earlier s s1 s' e : onwards s s1 → happened s1 s' e → happened s s' e.
Proof.
  intros (es & E & _) (es' & E' & Hin). exists (es' ++ es). split; [by eapply since_trans|].
  apply elem_of_app. by left.
Qed.

Lemma perform_happened {A} (c : C A) s a s' : perform c s = (Done a, s') → happened s s' (Ev c a).
Proof. intros E. apply perform_inv in E as (_ & E & _). exists [Ev c a]. split; [done|]. constructor. Qed.

Lemma happened_did q s s' e : happened s s' e → q e = true → ¬ only (fun e => negb (q e)) s s'.
Proof.
  intros (es & E & Hin) Hq Ho. apply only_since with (es := es) in Ho; [|done].
  rewrite forallb_forall in Ho. apply list_elem_of_In in Hin. specialize (Ho e Hin). cbn in Ho. by rewrite Hq in Ho.
Qed.

(** ** Runs with an event of interest

    When a run does something that is not in [p], its parts that do only [p] completed. *)

Definition did (q : event C → bool) s s' : Prop := ¬ only (fun e => negb (q e)) s s'.

Lemma did_since q s s' es : since s s' es → existsb q es = true → did q s s'.
Proof.
  intros E Hx Ho. apply only_since with (es := es) in Ho; [|done].
  apply existsb_exists in Hx as (e & Hin & He). rewrite forallb_forall in Ho.
  specialize (Ho e Hin). cbn in Ho. by rewrite He in Ho.
Qed.

Lemma did_bind_inv {A B} q (m : prog (caller C S) A) (k : A → prog (caller C S) B) s :
  keeps (only (fun e => negb (q e))) m → did q s (pbind m k s).2 →
  ∃ a s1, m s = (Done a, s1) ∧ did q s1 (k a s1).2 ∧ pbind m k s = k a s1.
Proof.
  intros Km Hd. specialize (Km s). unfold pbind in *.
  destruct (m s) as [[a|?| |] s1]; cbn [snd] in *; [|by destruct Hd..].
  exists a, s1. split_and!; [done | | done]. intros Ho. apply Hd. by etrans.
Qed.

(** The other way round: what follows does only [p]. *)
Lemma did_bind_left {A B} q (m : prog (caller C S) A) (k : A → prog (caller C S) B) s :
  (∀ a, keeps (only (fun e => negb (q e))) (k a)) → did q s (pbind m k s).2 → did q s (m s).2.
Proof.
  intros Kk Hd Ho. apply Hd. unfold pbind. destruct (m s) as [[a|?| |] s1]; cbn [snd] in *; [|done..].
  etrans; [exact Ho | apply Kk].
Qed.

Lemma did_try_inv {A B} q (m : prog (caller C S) (result A)) (k : A → prog (caller C S) (result B)) s :
  keeps (only (fun e => negb (q e))) m → did q s (tryBind m k s).2 →
  ∃ a s1, m s = (Done (Ok a), s1) ∧ did q s1 (k a s1).2 ∧ tryBind m k s = k a s1.
Proof.
  intros Km Hd. apply (did_bind_inv q m _ s Km) in Hd as ([a|e] & s1 & Hm & Hd & E).
  - by exists a, s1.
  - destruct Hd. reflexivity.
Qed.

Lemma did_deferring_inv {A} q (c : prog (caller C S) unit) (b : prog (caller C S) A) s :
  keeps (only (fun e => negb (q e))) c → did q s (deferring c b s).2 → did q s (b s).2.
Proof.
  intros Kc Hd Ho. apply Hd. unfold deferring.
  destruct (b s) as [[a|?| |] s1]; cbn [snd] in *; [| |done..];
    specialize (Kc s1); destruct (c s1) as [[?|?| |] s2]; cbn [snd] in *; by etrans.
Qed.

Lemma only_deferred {A} p (c : prog (caller C S) unit) (b : prog (caller C S) A) s :
  keeps (only p) c → only p (b s).2 (deferring c b s).2.
Proof.
  intros Kc. unfold deferring. destruct (b s) as [[a|?| |] s1]; [| |done..];
    specialize (Kc s1); by destruct (c s1) as [[?|?| |] s2].
Qed.

Lemma onwards_deferring {A} (c : prog (caller C S) unit) (b : prog (caller C S) A) s :
  keeps onwards c → onwards (b s).2 (deferring c b s).2.
Proof. apply only_deferred. Qed.

Lemma did_perform_inv {A} q (c : C A) s : did q s (perform c s).2 → q (Ev c (respond A (ticks s) c)) = true.
Proof.
  intros Hd. destruct (q _) eqn:E; [done|]. destruct Hd. eexists [_]. split; [done|]. cbn. by rewrite E.
Qed.

Lemma returning_perform {A} (c : C A) : returning (perform c).
Proof. done. Qed.

End calls.

#[export] Hint Resolve only_getF only_modF : keeps.
#[export] Hint Extern 1 (keeps (only _) (perform _)) => (apply only_perform; reflexivity) : keeps.
#[export] Hint Resolve returning_perform : returning.
