(* ===== verification/EthClient.v ===== *)
(** * The client of the Ethereum node
    (packages ethereum/block, ethereum/extethclient and ethereum/watcher)

    The calls of go-ethereum and of the generated contract bindings, of the timers and of
    the channels of a front-end are [ethCall]s; the fields of the wallet client are the
    state. *)

From stdpp Require Import base gmap list strings.
From Stdlib Require Import ZArith Strings.Byte.
From S2P Require Import Prelude Calls Coins Types Bytes Contracts External Relayer.

Open Scope Z_scope.
Open Scope go_scope.

(** core.Message, and the ethereum.CallMsg made of it. *)
Record CallMsg : Type := mkCallMsg {
  cmFrom : Address;
  cmTo : option Address;
  cmGas : Z;
  cmGasPrice : Z;
  cmGasFeeCap : Z;
  cmGasTipCap : Z;
  cmValue : Z;
  cmData : bytes;
  cmAccessList : bytes
}.

(** ethtypes.LegacyTx, as [transfer] fills it. *)
Record LegacyTx : Type := mkLegacyTx {
  ltNonce : Z;
  ltTo : Address;
  ltValue : Z;
  ltGas : Z;
  ltGasPrice : Z
}.

(** bind.TransactOpts *)
Record TransactOpts : Type := mkTxOpts {
  toValue : option Z;
  toGasPrice : option Z;
  toGasLimit : Z
}.

Record Header : Type := mkHeader { hdNumber : Z; hdTime : Z }.

(** A transaction for a front-end to sign; no value is a nil pointer. *)
Record FrontEndTx : Type := mkFrontEndTx { feTo : Address; feData : bytes; feValue : option Decimal }.

Inductive ethCall `{SigLib} : Type → Type :=
(* contexts, timers and the clock *)
| CtxErr : ethCall (option error)
| Sleep (d : Z) : ethCall (option error)
| Until (t : Z) : ethCall Z
(* the next tick, or the error of the context *)
| AwaitTick : ethCall (option error)
(* ethclient.Client *)
| Dial (endpoint : string) : ethCall (result unit)
| NodeChainID : ethCall (result Z)
| GetHeader : ethCall (result Header)
| GetReceipt (h : Hash) : ethCall (result Receipt)
| TransactionInBlock (r : Receipt) : ethCall (result Hash)
| TransactionToMessage (tx : Hash) (chainID : Z) : ethCall (result CallMsg)
| CallAt (m : CallMsg) (block : Z) : ethCall (result unit)
| BalanceAt (a : Address) : ethCall (result Z)
| NonceAt (a : Address) : ethCall (result Z)
| NodeGasPrice : ethCall (result Z)
| NodeCodeAt (a : Address) : ethCall (result bytes)
| NodeFilterLogs (contract : Address) (fromBlock : Z) : ethCall (result (list Log))
| SignTx (tx : LegacyTx) (chainID : Z) (key : EthKey) : ethCall (result Hash)
| SendTransaction (tx : LegacyTx) (h : Hash) : ethCall (option error)
(* the lock of the wallet *)
| WalletLock : ethCall unit
| WalletUnlock : ethCall unit
(* bind.NewKeyedTransactorWithChainID *)
| KeyedTransactor (key : EthKey) (chainID : Z) : ethCall (result unit)
(* the bindings of the contracts *)
| BindToken (token : Address) : ethCall (result unit)
| TokenBalanceOf (token owner : Address) : ethCall (result Z)
| TokenName (token : Address) : ethCall (result string)
| TokenSymbol (token : Address) : ethCall (result string)
| TokenDecimals (token : Address) : ethCall (result Z)
| TokenAllowance (token owner spender : Address) : ethCall (result Z)
| TokenApprove (token : Address) (opts : TransactOpts) (spender : Address) (amount : Z) : ethCall (result Hash)
| CreatorNewSwap (creator : Address) (opts : TransactOpts) (claimCommitment refundCommitment : Hash) (claimer : Address)
    (timeout1 timeout2 : Z) (asset : Address) (value nonce : Z) : ethCall (result Hash)
| CreatorSetReady (creator : Address) (opts : TransactOpts) (swap : SwapCreatorSwap) : ethCall (result Hash)
| CreatorClaim (creator : Address) (opts : TransactOpts) (swap : SwapCreatorSwap) (secret : bytes) : ethCall (result Hash)
| CreatorRefund (creator : Address) (opts : TransactOpts) (swap : SwapCreatorSwap) (secret : bytes) : ethCall (result Hash)
(* the callback of NewSwap *)
| SaveNewSwapTx (h : Hash) : ethCall (option error)
(* the lock of the external sender *)
| SenderLock : ethCall unit
| SenderUnlock : ethCall unit
(* sending on an unbuffered channel: whether a receiver takes the value *)
| DeliverLog (l : Log) : ethCall bool
| OfferToFrontEnd (tx : FrontEndTx) : ethCall bool
(* the hash a front-end sends back, or none before the time is up *)
| AwaitHash (timeout : Z) : ethCall (option Hash).

(** [abi.ABI.Pack] of a method with arguments that are one Rocq value. *)
Class PackLib := packMethod : ∀ A : Type, string → A → result bytes.

Record ethClient `{SigLib} : Type := mkEthClient {
  ethPrivKey : option EthKey;
  ethAddress : Address;
  gasPrice : option Z;
  gasLimit : Z;
  chainID : Z
}.

Module Block.
Section block.
Context `{SigLib} `{!Answers ethCall} {S : Type}.

Definition maxRetries : nat := 360.
Definition receiptSleepDuration : Z := 2 * Second.
Definition errReceiptTimeOut : error := Sentinel "errReceiptTimeOut" "failed to get receipt, timed out".
Definition ReceiptStatusSuccessful : Z := 1.

(** Why a transaction was reverted: the call is repeated at the block that mined it. *)
Definition ErrorFromBlock (receipt : Receipt) : prog (caller ethCall S) error :=
  let unable e := Wrapf "unable to determine error in mined block" e in
  tx <- perform (TransactionInBlock receipt) ;;
  match tx with
  | Err e => done (unable e)
  | Ok tx =>
      cid <- perform NodeChainID ;;
      match cid with
      | Err e => done (unable e)
      | Ok cid =>
          msg <- perform (TransactionToMessage tx cid) ;;
          match msg with
          | Err e => done (unable e)
          | Ok m =>
              r <- perform (CallAt m (rcBlockNumber receipt)) ;;
              match r with
              | Ok _ => done (errorf "unable to determine error in mined block")
              | Err e => done e
              end
          end
      end
  end.

(** The loop with [n] tries left. *)
Fixpoint waitForReceipt (n : nat) (txHash : Hash) : prog (caller ethCall S) (result Receipt) :=
  match n with
  | O => done (Err errReceiptTimeOut)
  | Datatypes.S n' =>
      cerr <- perform CtxErr ;;
      match cerr with
      | Some e => done (Err e)
      | None =>
          r <- perform (GetReceipt txHash) ;;
          match r with
          | Err _ =>
              serr <- perform (Sleep receiptSleepDuration) ;;
              match serr with
              | Some e => done (Err e)
              | None => waitForReceipt n' txHash
              end
          | Ok receipt =>
              if negb (rcStatus receipt =? ReceiptStatusSuccessful) then
                why <- ErrorFromBlock receipt ;;
                done (Err (Wrapf "failed transaction included in block" why))
              else done (Ok receipt)
          end
      end
  end.

Definition WaitForReceipt (txHash : Hash) : prog (caller ethCall S) (result Receipt) :=
  waitForReceipt maxRetries txHash.

(** [uint64(ts.Unix())] of a time in nanoseconds. *)
Definition unixU64 (ts : Z) : Z := (ts / Second) mod 2 ^ 64.

(** The ticks after the sleep, at most [fuel] of them. *)
Fixpoint headerLoop (fuel : nat) (ts : Z) : prog (caller ethCall S) (result Header) :=
  match fuel with
  | O => nofuel
  | Datatypes.S fuel' =>
      cerr <- perform AwaitTick ;;
      match cerr with
      | Some e => done (Err e)
      | None =>
          header <-? perform GetHeader ;;
          if unixU64 ts <=? hdTime header then done (Ok header) else headerLoop fuel' ts
      end
  end.

Definition WaitForEthBlockAfterTimestamp (fuel : nat) (ts : Z) : prog (caller ethCall S) (result Header) :=
  timeDelta <- perform (Until ts) ;;
  serr <- perform (Sleep (Z.max 0 timeDelta)) ;;
  match serr with
  | Some e => done (Err e)
  | None => headerLoop fuel ts
  end.

End block.
End Block.

Module EthClient.
Section client.
Context `{Apd} `{SigLib} `{!Answers ethCall}.

Abbreviation eth A := (prog (caller ethCall ethClient) A).

Definition MainnetChainID : Z := 1.
Definition SepoliaChainID : Z := 11155111.
Definition GanacheChainID : Z := 1337.
(** [params.TxGas] *)
Definition TxGas : Z := 21000.

Definition validateChainID (env : Environment) (id : Z) : outcome (option error) :=
  match env with
  | Mainnet => Done (if id =? MainnetChainID then None else Some (errorf "expected Mainnet chain ID"))
  | Stagenet => Done (if id =? SepoliaChainID then None else Some (errorf "expected Sepolia chain ID"))
  | Development => Done (if id =? GanacheChainID then None else Some (errorf "expected Ganache chain ID"))
  | _ => Panicked "unhandled environment type"
  end.

(** The client that is returned becomes the client of the state. *)
Definition NewEthClient (env : Environment) (endpoint : string) (privKey : option EthKey) : eth (result unit) :=
  _ <-? perform (Dial endpoint) ;;
  cid <-? perform NodeChainID ;;
  err <- pure (validateChainID env cid) ;;
  match err with
  | Some e => done (Err e)
  | None =>
      let addr := match privKey with Some k => pubkeyToAddress (publicKey k) | None => zeroAddress end in
      modF (fun _ => mkEthClient _ privKey addr None 0 cid) ;;; done (Ok tt)
  end.

Definition HasPrivateKey (c : ethClient) : bool := match ethPrivKey c with Some _ => true | None => false end.

Definition SetAddress (addr : Address) : eth unit :=
  has <- getF HasPrivateKey ;;
  if has : bool then panic "SetAddress should not have been invoked when using an external signer"
  else modF (fun c => mkEthClient _ (ethPrivKey c) addr (gasPrice c) (gasLimit c) (chainID c)).

Definition Balance : eth (result Decimal) :=
  addr <- getF ethAddress ;;
  bal <-? perform (BalanceAt addr) ;;
  done (Ok (NewWeiAmount bal)).

Definition SuggestGasPrice : eth (result Z) :=
  p <- getF gasPrice ;;
  match p with
  | Some p => done (Ok p)
  | None => perform NodeGasPrice
  end.

Definition erc20Info (token : Address) : eth (result ERC20TokenInfo) :=
  name <-? perform (TokenName token) ;;
  symbol <-? perform (TokenSymbol token) ;;
  decimals <-? perform (TokenDecimals token) ;;
  done (Ok (mkToken token decimals name symbol)).

Definition ERC20Info (token : Address) : eth (result ERC20TokenInfo) :=
  _ <-? perform (BindToken token) ;;
  erc20Info token.

Definition ERC20Balance (token : Address) : eth (result EthAssetAmount) :=
  _ <-? perform (BindToken token) ;;
  addr <- getF ethAddress ;;
  bal <-? perform (TokenBalanceOf token addr) ;;
  tokenInfo <-? erc20Info token ;;
  amount <- pure (NewERC20TokenAmountFromBigInt bal tokenInfo) ;;
  done (Ok amount).

Definition SetGasPrice (p : Z) : eth unit :=
  modF (fun c => mkEthClient _ (ethPrivKey c) (ethAddress c) (if p =? 0 then None else Some p)
                   (gasLimit c) (chainID c)).

Definition SetGasLimit (l : Z) : eth unit :=
  modF (fun c => mkEthClient _ (ethPrivKey c) (ethAddress c) (gasPrice c) l (chainID c)).

Definition TxOpts : eth (result TransactOpts) :=
  c <- getF id ;;
  match ethPrivKey c with
  | None => panic "TxOpts() should not have been invoked when using an external signer"
  | Some key =>
      _ <-? perform (KeyedTransactor key (chainID c)) ;;
      done (Ok (mkTxOpts None (gasPrice c) (gasLimit c)))
  end.

Definition WaitForTimestamp (fuel : nat) (ts : Z) : eth (result unit) :=
  _ <-? Block.WaitForEthBlockAfterTimestamp fuel ts ;;
  done (Ok tt).

Definition LatestBlockTimestamp : eth (result Z) :=
  hdr <-? perform GetHeader ;;
  done (Ok (wrap64 (hdTime hdr) * Second)).

Definition isContractAddress (addr : Address) : eth (result bool) :=
  bytecode <-? perform (NodeCodeAt addr) ;;
  done (Ok (0 <? length bytecode)%nat).

(** transfer.go.  A nil key makes [SignTx] dereference nil. *)
Definition transfer (pk : option EthKey) (destAddr : Address) (amount : Decimal) (gas : Z)
    (price : Decimal) (nonce : Z) : eth (result Receipt) :=
  value <- pure (WeiAmount_BigInt amount) ;;
  priceWei <- pure (WeiAmount_BigInt price) ;;
  let tx := mkLegacyTx nonce destAddr value gas priceWei in
  cid <-? perform NodeChainID ;;
  key <- pure (deref pk) ;;
  txHash <-? mapErr (Wrapf "failed to sign tx") (perform (SignTx tx cid key)) ;;
  err <- perform (SendTransaction tx txHash) ;;
  match err with
  | Some e => done (Err (Wrapf "failed to send transfer transaction" e))
  | None => mapErr (Wrapf "failed waiting for receipt") (Block.WaitForReceipt txHash)
  end.

(** What [Transfer] and [Sweep] ask the node first. *)
Definition nonceAndPrice (to : Address) : eth (result (Z * Z * bool)) :=
  addr <- getF ethAddress ;;
  nonce <-? mapErr (Wrapf "failed to get nonce") (perform (NonceAt addr)) ;;
  price <-? mapErr (Wrapf "failed to get gas price") (perform NodeGasPrice) ;;
  isContract <-? mapErr (Wrapf "failed to determine if dest address is contract") (isContractAddress to) ;;
  done (Ok (nonce, price, isContract)).

Definition Transfer (to : Address) (amount : Decimal) (limit : option Z) : eth (result Receipt) :=
  perform WalletLock ;;;
  deferring (perform WalletUnlock)
    (q <-? nonceAndPrice to ;;
     let '(nonce, price, isContract) := q in
     pk <- getF ethPrivKey ;;
     if negb isContract then transfer pk to amount TxGas (NewWeiAmount price) nonce
     else
       match limit with
       | None => done (Err (errorf "gas limit is required when transferring to a contract"))
       | Some l => transfer pk to amount l (NewWeiAmount price) nonce
       end).

(** [Sweep] under the lock. *)
Definition sweepLocked (to : Address) : eth (result Receipt) :=
  q <-? nonceAndPrice to ;;
  let '(nonce, price, isContract) := q in
  if isContract : bool
  then done (Err (errorf "sweeping to contract addresses is not currently supported"))
  else
    balance <-? mapErr (Wrapf "failed to determine balance") Balance ;;
    let fees := NewWeiAmount (price * TxGas) in
    if apdCmp balance fees <=? 0 then done (Err (errorf "balance too small for fees"))
    else
      b <- pure (WeiAmount_BigInt balance) ;;
      f <- pure (WeiAmount_BigInt fees) ;;
      pk <- getF ethPrivKey ;;
      transfer pk to (NewWeiAmount (b - f)) TxGas (NewWeiAmount price) nonce.

Definition Sweep (to : Address) : eth (result Receipt) :=
  perform WalletLock ;;;
  deferring (perform WalletUnlock) (sweepLocked to).

(** No lock is taken. *)
Definition CancelTxWithNonce (nonce price : Z) : eth (result Receipt) :=
  c <- getF id ;;
  transfer (ethPrivKey c) (ethAddress c) (NewWeiAmount 0) TxGas (NewWeiAmount price) nonce.

(** protocol/backend: the transfers a user asks for. *)
Definition TransferETH (to : Address) (amount : Decimal) (gasLimit : option Z) : eth (result Receipt) :=
  Transfer to amount gasLimit.

Definition SweepETH (to : Address) : eth (result Receipt) := Sweep to.

End client.
End EthClient.

Module Watcher.
Section watcher.
Context `{SigLib} `{!Answers ethCall} {S : Type}.

(** [ethrpc.ErrClientQuit] *)
Definition ErrClientQuit : error := Sentinel "rpc.ErrClientQuit" "client is closed".

Record EventFilter : Type := mkFilter {
  efTopic : Hash;
  efContract : Address;
  efFromBlock : Z
}.

Definition NewEventFilter (contract : Address) (fromBlock : Z) (topic : Hash) : EventFilter :=
  mkFilter topic contract fromBlock.

(** The loop over the logs; a log without topics panics, and a log nobody receives blocks
    the watcher. *)
Fixpoint deliverLogs (topic : Hash) (logs : list Log) : prog (caller ethCall S) unit :=
  match logs with
  | [] => done tt
  | l :: rest =>
      match lgTopics l with
      | [] => panic "index out of range"
      | t :: _ =>
          if negb (bool_decide (t = topic)) then deliverLogs topic rest
          else if lgRemoved l then deliverLogs topic rest
          else
            ok <- perform (DeliverLog l) ;;
            if ok : bool then deliverLogs topic rest else block
      end
  end.

(** One turn of the loop of [Start]: the filter of the next one, unless it was the last. *)
Definition poll (f : EventFilter) : prog (caller ethCall S) (option EventFilter) :=
  stop <- perform AwaitTick ;;
  match stop with
  | Some _ => done None
  | None =>
      h <- perform GetHeader ;;
      match h with
      | Err e => done (if errorsIs e ErrClientQuit then None else Some f)
      | Ok currHeader =>
          if hdNumber currHeader <=? efFromBlock f then done (Some f)
          else
            logs <- perform (NodeFilterLogs (efContract f) (efFromBlock f)) ;;
            match logs with
            | Err _ => done (Some f)
            | Ok logs =>
                deliverLogs (efTopic f) logs ;;;
                done (Some (mkFilter (efTopic f) (efContract f) (hdNumber currHeader)))
            end
      end
  end.

(** The watcher until it stops, at most [fuel] turns. *)
Fixpoint Start (fuel : nat) (f : EventFilter) : prog (caller ethCall S) unit :=
  match fuel with
  | O => nofuel
  | Datatypes.S fuel' =>
      next <- poll f ;;
      match next with
      | None => done tt
      | Some f' => Start fuel' f'
      end
  end.

End watcher.
End Watcher.
