(* ===== verification/EthProofs.v ===== *)
(** * Theorems on the client of the Ethereum node *)

From stdpp Require Import base gmap list strings.
From Stdlib Require Import ZArith Strings.Byte.
From S2P Require Import Prelude Calls Coins CoinsProofs Types Bytes Contracts External Relayer EthClient.

Open Scope Z_scope.
Open Scope go_scope.

Module EthProofs.
Import Block EthClient Watcher.

(** ** Waiting for a receipt *)

Section receipt.
Context `{SigLib} `{!Answers ethCall} {S : Type}.
Implicit Types s : caller ethCall S.

(** A question for the receipt of a transaction. *)
Definition asksReceipt (e : event ethCall) : bool := match e with Ev (GetReceipt _) _ => true | _ => false end.

(** The number of events of a kind. *)
Definition count (q : event ethCall → bool) (es : list (event ethCall)) : nat := length (List.filter q es).

Lemma count_app q e1 e2 : count q (e1 ++ e2) = (count q e1 + count q e2)%nat.
Proof. unfold count. by rewrite List.filter_app, length_app. Qed.

(** It always comes back, and asks no receipt. *)
Lemma ErrorFromBlock_run r s : ∃ e s' es,
  ErrorFromBlock r s = (Done e, s') ∧ since s s' es ∧ count asksReceipt es = 0%nat.
Proof.
  unfold ErrorFromBlock. unfold pbind at 1, perform at 1.
  destruct (respond _ _ (TransactionInBlock r)) as [tx|e1]; [|by eexists _, _, [_]].
  unfold pbind at 1, perform at 1. destruct (respond _ _ NodeChainID) as [cid|e1]; [|by eexists _, _, [_; _]].
  unfold pbind at 1, perform at 1.
  destruct (respond _ _ (TransactionToMessage tx cid)) as [msg|e1]; [|by eexists _, _, [_; _; _]].
  unfold pbind at 1, perform at 1.
  by destruct (respond _ _ (CallAt msg (rcBlockNumber r))) as [u|e1]; eexists _, _, [_; _; _; _].
Qed.

(** The result and the last call of a wait. *)
Definition waited (n : nat) (h : Hash) (r : result Receipt) (es : list (event ethCall)) : Prop :=
  (count asksReceipt es ≤ n)%nat ∧
  ∀ rc, r = Ok rc → rcStatus rc = ReceiptStatusSuccessful ∧ head es = Some (Ev (GetReceipt h) (Ok rc)).

Lemma waited_Err n h e es : (count asksReceipt es ≤ n)%nat → waited n h (Err e) es.
Proof. by split. Qed.

Lemma waitForReceipt_run n h s : ∃ r s' es,
  waitForReceipt n h s = (Done r, s') ∧ since s s' es ∧ waited n h r es.
Proof.
  revert s. induction n as [|n IH]; intros s.
  { eexists _, s, []. split; [done|]. split; [done|]. by apply waited_Err. }
  cbn [waitForReceipt]. unfold pbind at 1, perform at 1. destruct (respond _ (ticks s) CtxErr) as [e|].
  { eexists _, _, [_]. split; [done|]. split; [done|]. apply waited_Err. cbn. lia. }
  unfold pbind at 1, perform at 1. cbn [ticks].
  destruct (respond _ (Datatypes.S (ticks s)) (GetReceipt h)) as [rc|e] eqn:Hr.
  - destruct (Z.eqb_spec (rcStatus rc) ReceiptStatusSuccessful) as [Hs|_]; cbn [negb].
    + eexists _, _, [_; _]. split; [done|]. split; [done|]. split; [cbn; lia|]. by intros rc' [= <-].
    + set (s1 := mkCaller _ _ _). destruct (ErrorFromBlock_run rc s1) as (e & s2 & es & Hb & Hs & Hc).
      rewrite (pbind_Done _ _ _ _ _ Hb). eexists _, s2, (es ++ [_; _]).
      split; [done|]. split; [by eapply (since_trans s s1 s2)|]. apply waited_Err. rewrite count_app, Hc. cbn. lia.
  - unfold pbind at 1, perform at 1. cbn [ticks].
    destruct (respond _ _ (Sleep receiptSleepDuration)) as [e'|].
    { eexists _, _, [_; _; _]. split; [done|]. split; [done|]. apply waited_Err. cbn. lia. }
    set (s1 := mkCaller _ _ _). destruct (IH s1) as (r & s2 & es & Hw & Hs & Hc & Hok).
    exists r, s2, (es ++ [Ev (Sleep receiptSleepDuration) None; Ev (GetReceipt h) (Err e); Ev CtxErr None]).
    split; [done|]. split; [by eapply (since_trans s s1 s2)|]. split.
    + rewrite count_app. cbn. lia.
    + intros rc Hrc. destruct (Hok rc Hrc) as [? Hh]. split; [done|]. destruct es; [done | by cbn in *].
Qed.

(** C13: termination.  Waiting for a receipt comes back, after at most 360 questions to the
    node, and a receipt that it returns is one the node answered for that transaction, with
    the status of success. *)
Theorem WaitForReceipt_returns (h : Hash) (s : caller ethCall S) :
  ∃ r s' es, WaitForReceipt h s = (Done r, s') ∧ since s s' es ∧
    (count asksReceipt es ≤ maxRetries)%nat ∧
    ∀ rc, r = Ok rc → rcStatus rc = 1 ∧ head es = Some (Ev (GetReceipt h) (Ok rc)).
Proof. apply waitForReceipt_run. Qed.

(** A transaction that is included in time is found. *)
Lemma waitForReceipt_finds n h s k rc :
  (∀ i, respond _ i CtxErr = None) → (∀ i, respond _ i (Sleep receiptSleepDuration) = None) →
  (k < n)%nat →
  (∀ j, (j < k)%nat → ∃ e, respond _ (ticks s + 3 * j + 1)%nat (GetReceipt h) = Err e) →
  respond _ (ticks s + 3 * k + 1)%nat (GetReceipt h) = Ok rc → rcStatus rc = 1 →
  ∃ s', waitForReceipt n h s = (Done (Ok rc), s').
Proof.
  intros Hc Hs. revert n s. induction k as [|k IH]; intros n s Hk He Hr Hst; (destruct n as [|n]; [lia|]);
    cbn [waitForReceipt]; unfold pbind at 1, perform at 1; rewrite Hc; unfold pbind at 1, perform at 1; cbn [ticks].
  - replace (ticks s + 3 * 0 + 1)%nat with (Datatypes.S (ticks s)) in Hr by lia. rewrite Hr, Hst. by eexists.
  - destruct (He O ltac:(lia)) as [e E0].
    replace (ticks s + 3 * 0 + 1)%nat with (Datatypes.S (ticks s)) in E0 by lia. rewrite E0. unfold pbind at 1, perform at 1. rewrite Hs. set (s1 := mkCaller _ _ _).
    assert (Ht : ticks s1 = (ticks s + 3)%nat) by (cbn; lia).
    apply IH; [lia | | | done]; rewrite Ht.
    + intros j Hj. replace (ticks s + 3 + 3 * j + 1)%nat with (ticks s + 3 * Datatypes.S j + 1)%nat by lia. apply He. lia.
    + by replace (ticks s + 3 + 3 * k + 1)%nat with (ticks s + 3 * Datatypes.S k + 1)%nat by lia.
Qed.

End receipt.

(** ** Sweeping the wallet *)

#[export] Instance legacyTx_eq_dec : EqDecision LegacyTx.
Proof. solve_decision. Defined.

Section sweep.
Context `{ApdSpec} `{SigLib} `{!Answers ethCall}.
Implicit Types s : caller ethCall ethClient.

Lemma BigInt_NewWei z : 0 ≤ z < 10 ^ 100 → WeiAmount_BigInt (NewWeiAmount z) = Done z.
Proof.
  intros Hz. unfold WeiAmount_BigInt, NewWeiAmount.
  replace (z <? 0) with false by (symmetry; apply Z.ltb_ge; lia).
  rewrite quantize_whole; cbn; [| done | done | done |]; unfold scaled; cbn.
  - f_equal. lia.
  - unfold fitsDigits, MaxCoinPrecision. lia.
Qed.

Lemma cmp_NewWei x y : 0 ≤ x → 0 ≤ y → (apdCmp (NewWeiAmount x) (NewWeiAmount y) <=? 0) = (x <=? y).
Proof.
  intros Hx Hy. rewrite (cmp_finite _ _ 0) by (done || (cbn; lia)). unfold scaled, NewWeiAmount. cbn.
  replace (x <? 0) with false by (symmetry; apply Z.ltb_ge; lia).
  replace (y <? 0) with false by (symmetry; apply Z.ltb_ge; lia).
  rewrite !Z.mul_1_r, !Z.mul_1_l, !Z.abs_eq by lia.
  destruct (Z.compare_spec x y), (Z.leb_spec x y); (reflexivity || lia).
Qed.

(** A transaction is sent. *)
Definition sends (tx : LegacyTx) (e : event ethCall) : bool :=
  match e with Ev (SendTransaction tx' _) _ => bool_decide (tx' = tx) | _ => false end.

Lemma quiet_ErrorFromBlock tx r : keeps (only (fun e => negb (sends tx e))) (ErrorFromBlock r : prog (caller ethCall ethClient) _).
Proof. unfold ErrorFromBlock. keeps_auto. Qed.

Lemma quiet_waitForReceipt tx n h :
  keeps (only (fun e => negb (sends tx e))) (waitForReceipt n h : prog (caller ethCall ethClient) _).
Proof. induction n as [|n IH]; cbn [waitForReceipt]; keeps_auto; apply quiet_ErrorFromBlock. Qed.

Lemma quiet_nonceAndPrice tx to : keeps (only (fun e => negb (sends tx e))) (nonceAndPrice to).
Proof. unfold nonceAndPrice, isContractAddress. keeps_auto. Qed.

Lemma quiet_Balance tx : keeps (only (fun e => negb (sends tx e))) Balance.
Proof. unfold Balance. keeps_auto. Qed.

(** The transaction of a transfer is the one it was asked for. *)
Lemma transfer_sends tx pk to amount gas price nonce s :
  did (sends tx) s (transfer pk to amount gas price nonce s).2 →
  ∃ v p, WeiAmount_BigInt amount = Done v ∧ WeiAmount_BigInt price = Done p ∧ tx = mkLegacyTx nonce to v gas p.
Proof.
  unfold transfer. intros Hd.
  apply did_bind_inv in Hd as (v & s1 & Hv & Hd & _); [|apply keeps_pure, only_preorder].
  apply did_bind_inv in Hd as (p & s2 & Hp & Hd & _); [|apply keeps_pure, only_preorder].
  apply pure_inv in Hv as [Hv _]. apply pure_inv in Hp as [Hp _]. exists v, p. split_and!; [done..|].
  apply did_try_inv in Hd as (cid & s3 & _ & Hd & _); [|keeps_auto].
  apply did_bind_inv in Hd as (key & s4 & _ & Hd & _); [|apply keeps_pure, only_preorder].
  apply did_try_inv in Hd as (h & s5 & _ & Hd & _); [|keeps_auto].
  apply did_bind_left in Hd; [|intros a; keeps_auto; apply quiet_waitForReceipt].
  apply did_perform_inv in Hd. cbn in Hd. by apply bool_decide_eq_true_1 in Hd.
Qed.

(** What a node answers about amounts is 256 bits wide. *)
Class NodeSane : Prop := {
  balance_range i a b : respond _ i (BalanceAt a) = Ok b → 0 ≤ b < 2 ^ 256;
  price_range i p : respond _ i NodeGasPrice = Ok p → 0 ≤ p < 2 ^ 256
}.

Lemma nonceAndPrice_inv to s nonce price c s' : nonceAndPrice to s = (Done (Ok (nonce, price, c)), s') →
  happened s s' (Ev (NonceAt (ethAddress (fields s))) (Ok nonce)) ∧ happened s s' (Ev NodeGasPrice (Ok price)) ∧
  (∃ i, respond _ i NodeGasPrice = Ok price) ∧ fields s' = fields s.
Proof.
  unfold nonceAndPrice, isContractAddress. intros E.
  apply pbind_inv_Done in E as (addr & s1 & Ha & E). injection Ha as <- <-.
  apply pbind_inv_Done in E as ([n|e] & s1 & Hn & E); [|done]. apply mapErr_Ok_run in Hn.
  apply pbind_inv_Done in E as ([p|e] & s2 & Hp & E); [|done]. apply mapErr_Ok_run in Hp.
  apply pbind_inv_Done in E as ([b|e] & s3 & Hb & E); [|done]. apply mapErr_Ok_run in Hb.
  apply pbind_inv_Done in Hb as ([code|e] & s4 & Hc & Hb); [|done]. injection Hb as _ <-. injection E as <- <- _ <-.
  pose proof (perform_happened _ _ _ _ Hn) as Nn. pose proof (perform_happened _ _ _ _ Hp) as Np.
  apply perform_inv in Hn as (_ & E1 & _ & F1). apply perform_inv in Hp as (P2 & E2 & _ & F2).
  apply perform_inv in Hc as (_ & E3 & _ & F3).
  assert (O1 : onwards s s1) by by eexists. assert (O2 : onwards s1 s2) by by eexists.
  assert (O3 : onwards s2 s4) by by eexists.
  split_and!; [| | by exists (ticks s1) | congruence].
  - eapply happened_later; [exact Nn | by etrans].
  - eapply happened_earlier; [exact O1|]. by eapply happened_later.
Qed.

Lemma onwards_transfer pk to amount gas price nonce : keeps onwards (transfer pk to amount gas price nonce).
Proof.
  assert (Ke : ∀ r, keeps onwards (ErrorFromBlock r : prog (caller ethCall ethClient) _)).
  { intros r. unfold ErrorFromBlock, onwards. keeps_auto. }
  assert (Kw : ∀ n h, keeps onwards (waitForReceipt n h : prog (caller ethCall ethClient) _)).
  { unfold onwards in *. induction n as [|n IH]; intros h; cbn [waitForReceipt]; keeps_auto. }
  unfold transfer, WaitForReceipt, onwards in *. keeps_auto.
Qed.

(** A sweep is accounted for. *)
Definition sweepTx (to : Address) (tx : LegacyTx) s s' : Prop :=
  ∃ nonce price balance, happened s s' (Ev (NonceAt (ethAddress (fields s))) (Ok nonce)) ∧
    happened s s' (Ev NodeGasPrice (Ok price)) ∧ happened s s' (Ev (BalanceAt (ethAddress (fields s))) (Ok balance)) ∧
    ltTo tx = to ∧ ltNonce tx = nonce ∧ ltGasPrice tx = price ∧ 0 < ltValue tx ∧
    ltValue tx + ltGas tx * ltGasPrice tx = balance.

Lemma sweepTx_widen to tx s0 s s' s1 : fields s = fields s0 → onwards s0 s → onwards s' s1 →
  sweepTx to tx s s' → sweepTx to tx s0 s1.
Proof.
  intros F O1 O2 (nonce & price & bal & Hn & Hp & Hb & ?). rewrite F in *. exists nonce, price, bal.
  split_and!; [| | |tauto..]; (eapply happened_later; [|exact O2]); by eapply happened_earlier.
Qed.

Lemma sweepLocked_sends `{!NodeSane} to s tx :
  did (sends tx) s (sweepLocked to s).2 → sweepTx to tx s (sweepLocked to s).2.
Proof.
  unfold sweepLocked. intros Hd.
  apply did_try_inv in Hd as ([[nonce price] c] & s1 & Hq & Hd & ->); [|apply quiet_nonceAndPrice].
  apply nonceAndPrice_inv in Hq as (Nn & Np & [i Pi] & F1). apply price_range in Pi. destruct c; [by destruct Hd|].
  apply did_try_inv in Hd as (bal & s2 & Hb & Hd & ->); [|keeps_auto; apply quiet_Balance].
  apply mapErr_Ok_run in Hb. unfold Balance in Hb. apply pbind_inv_Done in Hb as (addr & s3 & Ha & Hb).
  injection Ha as <- <-. apply pbind_inv_Done in Hb as ([b|e] & s3 & Hb & E); [|done]. injection E as <- <-.
  pose proof (perform_happened _ _ _ _ Hb) as Nb. apply perform_inv in Hb as (Rb & Eb & _ & F2).
  symmetry in Rb. apply balance_range in Rb. unfold TxGas in *.
  destruct (apdCmp _ _ <=? 0) eqn:Hc; [by destruct Hd|]. rewrite cmp_NewWei in Hc by lia. apply Z.leb_gt in Hc.
  apply did_bind_inv in Hd as (v & s4 & Hv & Hd & Ev); [|apply keeps_pure, only_preorder].
  apply pure_inv in Hv as [Hv ->]. rewrite BigInt_NewWei in Hv by lia. injection Hv as <-. rewrite Ev. clear Ev.
  apply did_bind_inv in Hd as (f & s4 & Hf & Hd & Ev); [|apply keeps_pure, only_preorder].
  apply pure_inv in Hf as [Hf ->]. rewrite BigInt_NewWei in Hf by lia. injection Hf as <-. rewrite Ev. clear Ev.
  apply did_bind_inv in Hd as (pk & s4 & Hk & Hd & ->); [|keeps_auto]. injection Hk as <- <-.
  assert (O3 : onwards s3 (transfer (ethPrivKey (fields s3)) to (NewWeiAmount (b - price * 21000)) 21000
    (NewWeiAmount price) nonce s3).2) by apply onwards_transfer.
  apply transfer_sends in Hd as (v & p & Hv & Hp & ->). rewrite BigInt_NewWei in Hv, Hp by lia.
  injection Hv as <-. injection Hp as <-. assert (O2 : onwards s1 s3) by by eexists. rewrite F1 in Nb.
  assert (O1 : onwards s s1) by (destruct Nn as (es & E & _); by eapply onwards_since).
  exists nonce, price, b. cbn. split_and!; [| | |done..|lia|lia].
  - eapply happened_later; [exact Nn | by etrans].
  - eapply happened_later; [exact Np | by etrans].
  - eapply happened_earlier; [exact O1|]. by eapply happened_later.
Qed.

(** Functional.  A sweep leaves nothing behind: the transaction it sends goes to the
    given address with the account's nonce, and its value and the whole fee it allows for
    add up to the balance the node answered; the value is positive. *)
Theorem Sweep_empties_wallet `{!NodeSane} (to : Address) (s : caller ethCall ethClient) (tx : LegacyTx) (h : Hash)
    (ans : option error) :
  happened s (Sweep to s).2 (Ev (SendTransaction tx h) ans) → sweepTx to tx s (Sweep to s).2.
Proof.
  intros Hh. apply happened_did with (q := sends tx) in Hh; [|cbn; by apply bool_decide_eq_true_2].
  unfold Sweep in *. apply did_bind_inv in Hh as ([] & s1 & Hl & Hh & ->); [|keeps_auto].
  apply did_deferring_inv in Hh; [|keeps_auto]. apply perform_inv in Hl as (_ & El & _ & Fl).
  eapply sweepTx_widen; [exact Fl | by eexists | | by apply sweepLocked_sends].
  apply onwards_deferring. unfold onwards. keeps_auto.
Qed.

End sweep.

(** ** Watching for events *)

Section watcher.
Context `{SigLib} `{!Answers ethCall} {S : Type}.
Implicit Types s : caller ethCall S.

Definition wanted (topic : Hash) (l : Log) : bool :=
  bool_decide (head (lgTopics l) = Some topic) && negb (lgRemoved l).

Definition deliveries (ls : list Log) : list (event ethCall) := rev (map (fun l => Ev (DeliverLog l) true) ls).

Lemma deliverLogs_run topic ls s s' : deliverLogs topic ls s = (Done tt, s') →
  since s s' (deliveries (List.filter (wanted topic) ls)).
Proof.
  revert s. induction ls as [|l ls IH]; intros s; [by intros [= <-]|].
  cbn [deliverLogs List.filter]. unfold wanted at 1. destruct (lgTopics l) as [|t ts]; [done|].
  destruct (bool_decide_reflect (t = topic)) as [->|Hne]; cbn [negb head].
  - rewrite bool_decide_eq_true_2 by done. destruct (lgRemoved l); cbn [negb andb]; [apply IH|].
    intros E. apply pbind_inv_Done in E as (ok & s1 & Hd & E). apply perform_inv in Hd as (_ & Hs & _).
    destruct ok; [|done]. apply IH in E. cbn. by eapply since_trans.
  - rewrite bool_decide_eq_false_2 by congruence. apply IH.
Qed.

(** A turn that goes on left the filter as it is and delivered nothing, or moved it to the
    head and delivered what was wanted of the logs since then. *)
Definition advanced (f f' : EventFilter) s s' : Prop :=
  ∃ i j hdr ls es, (i ≤ j)%nat ∧ respond _ i GetHeader = Ok hdr ∧
    respond _ j (NodeFilterLogs (efContract f) (efFromBlock f)) = Ok ls ∧
    efFromBlock f < hdNumber hdr ∧ f' = mkFilter (efTopic f) (efContract f) (hdNumber hdr) ∧
    since s s' (deliveries (List.filter (wanted (efTopic f)) ls) ++ es).

Lemma poll_inv f s f' s' : poll f s = (Done (Some f'), s') →
  (f' = f ∧ onwards s s') ∨ advanced f f' s s'.
Proof.
  unfold poll. intros E. apply pbind_inv_Done in E as ([e|] & s1 & Ht & E); [done|].
  apply perform_inv in Ht as (_ & S1 & T1 & _).
  apply pbind_inv_Done in E as ([hdr|e] & s2 & Hh & E); apply perform_inv in Hh as (Rh & S2 & T2 & _).
  2: { left. destruct (errorsIs e ErrClientQuit); [done|]. injection E as <- <-. split; [done|].
       eapply onwards_since. by eapply since_trans. }
  destruct (Z.leb_spec (hdNumber hdr) (efFromBlock f)) as [_|Hlt].
  { left. injection E as <- <-. split; [done|]. eapply onwards_since. by eapply since_trans. }
  apply pbind_inv_Done in E as ([ls|e] & s3 & Hl & E); apply perform_inv in Hl as (Rl & S3 & T3 & _).
  2: { left. injection E as <- <-. split; [done|]. eapply onwards_since, since_trans; [|exact S3]. by eapply since_trans. }
  apply pbind_inv_Done in E as ([] & s4 & Hd & E). injection E as <- <-. apply deliverLogs_run in Hd.
  right. exists (ticks s1), (ticks s2), hdr, ls, ([Ev (NodeFilterLogs (efContract f) (efFromBlock f)) (Ok ls)]
    ++ [Ev GetHeader (Ok hdr)] ++ [Ev AwaitTick None]).
  split_and!; [lia | done | done | done | done |].
  eapply since_trans; [|exact Hd]. eapply since_trans; [|exact S3]. by eapply since_trans.
Qed.

(** So many turns. *)
Fixpoint polls (k : nat) (f : EventFilter) : prog (caller ethCall S) (option EventFilter) :=
  match k with
  | O => done (Some f)
  | Datatypes.S k' =>
      next <- poll f ;;
      match next with None => done None | Some f' => polls k' f' end
  end.

Lemma Start_polls k n f s f' s' : polls k f s = (Done (Some f'), s') → Start (k + n) f s = Start n f' s'.
Proof.
  revert f s. induction k as [|k IH]; intros f s; [by intros [= <- <-]|]. cbn [polls Nat.add Start]. intros E.
  apply pbind_inv_Done in E as ([f1|] & s1 & Hp & E); [|done]. rewrite (pbind_Done _ _ _ _ _ Hp). by apply IH.
Qed.

(** The logs of the chain, which does not reorganise, and the head of the chain when a call
    is answered: a query of the logs from a block on gives all of them up to the head. *)
Class ChainNode (chain : list Log) (tip : nat → Z) : Prop := {
  tip_mono i j : (i ≤ j)%nat → tip i ≤ tip j;
  header_tip i h : respond _ i GetHeader = Ok h → hdNumber h ≤ tip i;
  logs_complete i c from ls l : respond _ i (NodeFilterLogs c from) = Ok ls → l ∈ chain →
    lgAddress l = c → from ≤ lgBlockNumber l ≤ tip i → l ∈ ls
}.

Lemma advanced_delivers `{!ChainNode chain tip} f f' s s' l : advanced f f' s s' → l ∈ chain →
  lgAddress l = efContract f → wanted (efTopic f) l = true →
  efFromBlock f ≤ lgBlockNumber l ≤ efFromBlock f' → happened s s' (Ev (DeliverLog l) true).
Proof.
  intros (i & j & hdr & ls & es & Hij & Hh & Hl & _ & -> & Hs) Hin Ha Hw Hb. cbn [efFromBlock] in Hb.
  pose proof (header_tip i hdr Hh). pose proof (tip_mono i j Hij).
  assert (Hls : l ∈ ls) by (eapply logs_complete; [exact Hl | done | done | lia]).
  eexists. split; [exact Hs|]. apply elem_of_app. left. unfold deliveries.
  apply list_elem_of_In. rewrite <- in_rev. apply in_map_iff. exists l. split; [done|].
  apply List.filter_In. split; [by apply list_elem_of_In | done].
Qed.

Lemma polls_delivers `{!ChainNode chain tip} k f s f' s' : polls k f s = (Done (Some f'), s') →
  efContract f' = efContract f ∧ efTopic f' = efTopic f ∧ efFromBlock f ≤ efFromBlock f' ∧ onwards s s' ∧
  ∀ l, l ∈ chain → lgAddress l = efContract f → wanted (efTopic f) l = true →
    efFromBlock f < efFromBlock f' → efFromBlock f ≤ lgBlockNumber l ≤ efFromBlock f' →
    happened s s' (Ev (DeliverLog l) true).
Proof.
  revert f s. induction k as [|k IH]; intros f s.
  { intros [= <- <-]. split_and!; [done | done | done | done |]. intros l _ _ _ Hlt. lia. }
  cbn [polls]. intros E. apply pbind_inv_Done in E as ([f1|] & s1 & Hp & E); [|done].
  apply IH in E as (Hc & Ht & Hm & Ho & Hd). apply poll_inv in Hp as [[-> Ho1]|Hadv].
  - split_and!; [done | done | done | by etrans |]. intros l Hin Ha Hw Hlt Hb.
    eapply happened_earlier; [exact Ho1 | by apply Hd].
  - pose proof Hadv as (i & j & hdr & ls & es & _ & _ & _ & Hn & Hf & Hs). subst f1. cbn in Hc, Ht, Hm, Hd.
    assert (Ho1 : onwards s s1) by by eapply onwards_since.
    split_and!; [done | done | lia | by etrans |]. intros l Hin Ha Hw _ Hb.
    destruct (Z.le_gt_cases (lgBlockNumber l) (hdNumber hdr)) as [Hle|Hgt].
    + eapply happened_later; [|exact Ho]. eapply advanced_delivers; [exact Hadv | done | done | done |]. cbn. lia.
    + eapply happened_earlier; [exact Ho1|]. apply Hd; [done | done | done | lia | lia].
Qed.

(** C12: safety.  The watcher misses no event: after any number of turns in which its filter moved on
    to a later block, every event it watches for up to that block has been put on its
    channel, whatever calls failed in between. *)
Theorem watcher_misses_nothing `{!ChainNode chain tip} (k : nat) (f f' : EventFilter) (s s' : caller ethCall S) :
  polls k f s = (Done (Some f'), s') →
  (∀ n, Start (k + n) f s = Start n f' s') ∧
  ∀ l, l ∈ chain → lgAddress l = efContract f → wanted (efTopic f) l = true →
    efFromBlock f < efFromBlock f' → efFromBlock f ≤ lgBlockNumber l ≤ efFromBlock f' →
    happened s s' (Ev (DeliverLog l) true).
Proof. intros E. split; [intros n; by apply Start_polls | by eapply polls_delivers]. Qed.

End watcher.

End EthProofs.
