(* ===== verification/TxSender.v ===== *)
(** * The transaction senders (package protocol/txsender)

    The sender with a private key uses the wallet client of EthClient.v; the external sender
    hands encoded calls to a front-end that signs them. *)

From stdpp Require Import base gmap list strings.
From Stdlib Require Import ZArith Strings.Byte.
From S2P Require Import Prelude Calls Coins Types Bytes Contracts External Relayer EthClient.

Open Scope Z_scope.
Open Scope go_scope.

Module TxSender.
Import Block EthClient.

Section sender.
Context `{Apd} `{SigLib} `{!Answers ethCall}.

Abbreviation eth A := (prog (caller ethCall ethClient) A).

(** The bound contracts are their addresses; without a token there is no token contract. *)
Record privateKeySender : Type := mkSender {
  swapCreatorAddr : Address;
  swapCreator : Address;
  erc20Contract : option Address
}.

Definition NewSenderWithPrivateKey (addr creator : Address) (token : option Address) : privateKeySender :=
  mkSender addr creator token.

Definition SetSwapCreator (contract : Address) (s : privateKeySender) : privateKeySender :=
  mkSender (swapCreatorAddr s) contract (erc20Contract s).

(** It does nothing. *)
Definition SetSwapCreatorAddr (addr : Address) (s : privateKeySender) : privateKeySender := s.

Definition approveNoChecks (p : privateKeySender) (amount : EthAssetAmount) : eth (result unit) :=
  txOpts <-? TxOpts ;;
  token <- pure (deref (erc20Contract p)) ;;
  value <- pure (EthAssetAmount_BigInt amount) ;;
  tx <-? mapErr (Wrapf "token approve tx creation failed")
           (perform (TokenApprove token txOpts (swapCreatorAddr p) value)) ;;
  _ <-? mapErr (Wrapf "approveNoChecks tx failed waiting for receipt") (WaitForReceipt tx) ;;
  done (Ok tt).

(** The token of the amount: [balance.TokenInfo]. *)
Definition TokenInfoOf (a : EthAssetAmount) : outcome ERC20TokenInfo :=
  match a with
  | ERC20TokenAmount _ t => Done t
  | WeiAmount _ => Panicked "not a token amount"
  end.

Definition approveTransferFrom (p : privateKeySender) (amount : EthAssetAmount) : eth (result unit) :=
  if negb (IsTokenAmount amount) then panic "this function should only be called with a token asset"
  else
    std <- pure (AsStd amount) ;;
    if apdIsZero std then done (Err (errorf "approveContractToTransfer can not be called with a zero amount"))
    else
      balance <-? ERC20Balance (TokenAddress amount) ;;
      balanceStd <- pure (AsStd balance) ;;
      if apdCmp balanceStd std <? 0 then done (Err (errorf "balance is under the swap amount"))
      else
        token <- pure (TokenInfoOf balance) ;;
        contract <- pure (deref (erc20Contract p)) ;;
        owner <- getF ethAddress ;;
        allowedAmtBI <-? perform (TokenAllowance contract owner (swapCreatorAddr p)) ;;
        allowedAmt <- pure (NewERC20TokenAmountFromBigInt allowedAmtBI token) ;;
        allowed <- pure (AsStd allowedAmt) ;;
        if apdCmp std allowed <=? 0 then done (Ok tt)
        else
          _ <-? (if apdIsZero allowed then done (Ok tt)
                 else
                   zeroTokenAmt <- pure (NewTokenAmountFromDecimals (apdNew 0 0) token) ;;
                   approveNoChecks p zeroTokenAmt) ;;
          approveNoChecks p amount.

(** [NewSwap] under the lock. *)
Definition newSwapLocked (p : privateKeySender) (claimCommitment refundCommitment : Hash) (claimer : Address)
    (timeoutDuration nonce : Z) (amount : EthAssetAmount) : eth (result Receipt) :=
  value <- pure (EthAssetAmount_BigInt amount) ;;
  _ <-? (if IsTokenAmount amount then approveTransferFrom p amount else done (Ok tt)) ;;
  txOpts <-? TxOpts ;;
  let txOpts := if IsTokenAmount amount then txOpts
                else mkTxOpts (Some value) (toGasPrice txOpts) (toGasLimit txOpts) in
  tx <-? mapErr (Wrapf "new_swap tx creation failed")
           (perform (CreatorNewSwap (swapCreator p) txOpts claimCommitment refundCommitment claimer
              timeoutDuration timeoutDuration (TokenAddress amount) value nonce)) ;;
  err <- perform (SaveNewSwapTx tx) ;;
  match err with
  | Some e => done (Err e)
  | None => mapErr (Wrapf "NewSwap tx failed waiting for receipt") (WaitForReceipt tx)
  end.

Definition NewSwap (p : privateKeySender) (claimCommitment refundCommitment : Hash) (claimer : Address)
    (timeoutDuration nonce : Z) (amount : EthAssetAmount) : eth (result Receipt) :=
  perform WalletLock ;;;
  deferring (perform WalletUnlock)
    (newSwapLocked p claimCommitment refundCommitment claimer timeoutDuration nonce amount).

(** A transaction made, then its receipt awaited, under the lock. *)
Definition sendLocked (what : string) (create : TransactOpts → ethCall (result Hash)) : eth (result Receipt) :=
  perform WalletLock ;;;
  deferring (perform WalletUnlock)
    (txOpts <-? TxOpts ;;
     tx <-? mapErr (Wrapf (what +:+ " tx creation failed")%string) (perform (create txOpts)) ;;
     mapErr (Wrapf (what +:+ " failed")%string) (WaitForReceipt tx)).

Definition SetReady (p : privateKeySender) (swap : SwapCreatorSwap) : eth (result Receipt) :=
  sendLocked "set_ready" (fun o => CreatorSetReady (swapCreator p) o swap).

Definition Claim (p : privateKeySender) (swap : SwapCreatorSwap) (secret : bytes) : eth (result Receipt) :=
  sendLocked "claim" (fun o => CreatorClaim (swapCreator p) o swap secret).

Definition Refund (p : privateKeySender) (swap : SwapCreatorSwap) (secret : bytes) : eth (result Receipt) :=
  sendLocked "refund" (fun o => CreatorRefund (swapCreator p) o swap secret).

(** ** external_sender.go *)

Context `{!PackLib}.

Definition errTransactionTimeout : error :=
  Sentinel "errTransactionTimeout" "timed out waiting for transaction to be signed".

Record ExternalSender : Type := mkExternal {
  contractAddr : Address;
  erc20Addr : Address
}.

(** The package's variable [transactionTimeout], and its value after a constructor. *)
Definition transactionTimeout : Z := 2 * Minute.

Definition NewExternalSender (env : Environment) (contract erc20 : Address) (global : Z)
  : ExternalSender * Z :=
  (mkExternal contract erc20, match env with Mainnet | Stagenet => Hour | _ => global end).

Definition ExternalSender_SetSwapCreatorAddr (addr : Address) (s : ExternalSender) : ExternalSender :=
  mkExternal addr (erc20Addr s).

(** The transaction goes to the front-end, its hash comes back; [timeout] is the package's
    variable. *)
Definition exchange (timeout : Z) (tx : FrontEndTx) : eth (result Hash) :=
  taken <- perform (OfferToFrontEnd tx) ;;
  if negb taken then block
  else
    h <- perform (AwaitHash timeout) ;;
    match h with
    | None => done (Err errTransactionTimeout)
    | Some h => done (Ok h)
    end.

Definition sendAndReceive (timeout : Z) (input : bytes) (to : Address) : eth (result Receipt) :=
  perform SenderLock ;;;
  deferring (perform SenderUnlock)
    (txHash <-? exchange timeout (mkFrontEndTx to input None) ;;
     WaitForReceipt txHash).

Definition approve (timeout : Z) (s : ExternalSender) (spender : Address) (amount : Z) : eth (result Receipt) :=
  input <-? done (packMethod _ "approve" (spender, amount)) ;;
  sendAndReceive timeout input (erc20Addr s).

Definition ExternalSender_NewSwap (timeout : Z) (s : ExternalSender) (claimCommitment refundCommitment : Hash)
    (claimer : Address) (timeoutDuration nonce : Z) (amount : EthAssetAmount) : eth (result Receipt) :=
  if IsTokenAmount amount then done (Err (errorf "external sender does not support ERC20 token swaps"))
  else
    value <- pure (EthAssetAmount_BigInt amount) ;;
    input <-? done (packMethod _ "new_swap"
                      (claimCommitment, refundCommitment, claimer, timeoutDuration, TokenAddress amount, value, nonce)) ;;
    std <- pure (AsStd amount) ;;
    perform SenderLock ;;;
    deferring (perform SenderUnlock)
      (txHash <-? exchange timeout (mkFrontEndTx (contractAddr s) input (Some std)) ;;
       err <- perform (SaveNewSwapTx txHash) ;;
       match err with
       | Some e => done (Err e)
       | None => WaitForReceipt txHash
       end).

Definition ExternalSender_SetReady (timeout : Z) (s : ExternalSender) (swap : SwapCreatorSwap) : eth (result Receipt) :=
  input <-? done (packMethod _ "set_ready" swap) ;;
  sendAndReceive timeout input (contractAddr s).

Definition ExternalSender_Claim (timeout : Z) (s : ExternalSender) (swap : SwapCreatorSwap) (secret : bytes)
  : eth (result Receipt) :=
  input <-? done (packMethod _ "claim" (swap, secret)) ;;
  sendAndReceive timeout input (contractAddr s).

Definition ExternalSender_Refund (timeout : Z) (s : ExternalSender) (swap : SwapCreatorSwap) (secret : bytes)
  : eth (result Receipt) :=
  input <-? done (packMethod _ "refund" (swap, secret)) ;;
  sendAndReceive timeout input (contractAddr s).

(** protocol/backend: the sender of a swap in [asset].  The backend's contract is bound at
    the backend's address, and a swap in a token binds the token's contract first. *)
Definition Backend_NewTxSender (hasPrivateKey : bool) (env : Environment) (global : Z)
    (swapCreatorAddr asset : Address) : privateKeySender + ExternalSender :=
  if hasPrivateKey
  then inl (NewSenderWithPrivateKey swapCreatorAddr swapCreatorAddr (if IsToken asset then Some asset else None))
  else inr (NewExternalSender env swapCreatorAddr asset global).1.

(** The methods of the ABI of SwapCreator. *)
Definition SwapCreatorMethods : list string :=
  ["claim"; "claimRelayer"; "mulVerify"; "newSwap"; "refund"; "setReady"; "swaps"].

End sender.
End TxSender.
