(* ===== verification/TxSenderProofs.v ===== *)
(** * Theorems on the transaction senders *)

From stdpp Require Import base gmap list strings.
From Stdlib Require Import ZArith Strings.Byte.
From S2P Require Import Prelude Calls Coins CoinsProofs Types Bytes Contracts External Relayer EthClient EthProofs TxSender.

Open Scope Z_scope.
Open Scope go_scope.

Module TxSenderProofs.
Import Block EthClient EthProofs TxSender.

#[export] Instance transactOpts_eq_dec : EqDecision TransactOpts.
Proof. solve_decision. Defined.

Section proofs.
Context `{Apd} `{SigLib} `{!Answers ethCall}.
Implicit Types s : caller ethCall ethClient.

(** The arguments of [newSwap] on the contract. *)
Record newSwapArgs : Type := mkArgs {
  aCreator : Address;
  aOpts : TransactOpts;
  aClaim : Hash;
  aRefund : Hash;
  aClaimer : Address;
  aTimeout1 : Z;
  aTimeout2 : Z;
  aAsset : Address;
  aValue : Z;
  aNonce : Z
}.

#[global] Instance newSwapArgs_eq_dec : EqDecision newSwapArgs.
Proof. solve_decision. Defined.

Definition newSwapCall (a : newSwapArgs) : ethCall (result Hash) :=
  CreatorNewSwap (aCreator a) (aOpts a) (aClaim a) (aRefund a) (aClaimer a) (aTimeout1 a) (aTimeout2 a)
    (aAsset a) (aValue a) (aNonce a).

Definition isOrder (e : event ethCall) : bool :=
  match e with Ev (CreatorNewSwap _ _ _ _ _ _ _ _ _ _) _ => true | _ => false end.

Definition isApproval (e : event ethCall) : bool :=
  match e with Ev (TokenApprove _ _ _ _) _ => true | _ => false end.

Definition noOrder (e : event ethCall) : bool := negb (isOrder e).
Definition noApproval (e : event ethCall) : bool := negb (isApproval e).

(** Events that are no order, lock or unlock. *)
Definition plain (e : event ethCall) : bool :=
  match e with
  | Ev (CreatorNewSwap _ _ _ _ _ _ _ _ _ _) _ | Ev WalletLock _ | Ev WalletUnlock _ | Ev (SaveNewSwapTx _) _ => false
  | _ => true
  end.

Lemma plain_onwards s s' : only plain s s' → onwards s s'.
Proof. by apply only_weaken. Qed.

Lemma plain_WaitForReceipt h : keeps (only plain) (WaitForReceipt h : prog (caller ethCall ethClient) _).
Proof.
  assert (Ke : ∀ r, keeps (only plain) (ErrorFromBlock r : prog (caller ethCall ethClient) _)).
  { intros r. unfold ErrorFromBlock. keeps_auto. }
  unfold WaitForReceipt. induction maxRetries as [|n IH]; cbn [waitForReceipt]; keeps_auto.
Qed.

Hint Resolve plain_WaitForReceipt : keeps.

Lemma plain_TxOpts : keeps (only plain) TxOpts.
Proof. unfold TxOpts. keeps_auto. Qed.

Hint Resolve plain_TxOpts : keeps.

Lemma plain_approveNoChecks p amount : keeps (only plain) (approveNoChecks p amount).
Proof. unfold approveNoChecks. keeps_auto. Qed.

Lemma plain_approve p amount : keeps (only plain) (approveTransferFrom p amount).
Proof.
  unfold approveTransferFrom, ERC20Balance, erc20Info. keeps_auto; apply plain_approveNoChecks.
Qed.

(** The description of a token that its contract gave. *)
Definition infoSeen (t : ERC20TokenInfo) (l : list (event ethCall)) : Prop :=
  Ev (TokenDecimals (tokAddress t)) (Ok (tokNumDecimals t)) ∈ l ∧
  Ev (TokenName (tokAddress t)) (Ok (tokName t)) ∈ l ∧ Ev (TokenSymbol (tokAddress t)) (Ok (tokSymbol t)) ∈ l.

(** [spender] may move the amount of [owner]'s tokens, by what happened in [l]: the
    contract of the token answered that it may move as much, in units of the decimals that
    contract gave; or the approval of exactly the amount was included in the chain.  No
    other approval came after. *)
Definition approved (spender owner : Address) (amount : EthAssetAmount) (l : list (event ethCall)) : Prop :=
  (∃ a std t allowed l2 l1,
      l = l2 ++ Ev (TokenAllowance (TokenAddress amount) owner spender) (Ok a) :: l1 ∧ forallb noApproval l2 = true ∧
      tokAddress t = TokenAddress amount ∧ infoSeen t l1 ∧ AsStd amount = Done std ∧
      (allowedAmt <~ NewERC20TokenAmountFromBigInt a t ;; AsStd allowedAmt) = Done allowed ∧
      apdCmp std allowed ≤ 0) ∨
  (∃ o v h rc l2 l1,
      l = l2 ++ Ev (TokenApprove (TokenAddress amount) o spender v) (Ok h) :: l1 ∧ forallb noApproval l2 = true ∧
      EthAssetAmount_BigInt amount = Done v ∧ Ev (GetReceipt h) (Ok rc) ∈ l2 ∧ rcStatus rc = 1).

Lemma approved_later spender owner amount l' l :
  forallb noApproval l' = true → approved spender owner amount l → approved spender owner amount (l' ++ l).
Proof.
  intros Hl' [(a & std & t & allowed & l2 & l1 & -> & Hn & H')|(o & v & h & rc & l2 & l1 & -> & Hn & Hv & Hr & Hst)].
  - left. exists a, std, t, allowed, (l' ++ l2), l1. rewrite <- (assoc_L (++)), forallb_app, Hl', Hn. done.
  - right. exists o, v, h, rc, (l' ++ l2), l1. rewrite <- (assoc_L (++)), forallb_app, Hl', Hn.
    split_and!; try done. apply elem_of_app. by right.
Qed.

Lemma approved_earlier spender owner amount l' l :
  approved spender owner amount l → approved spender owner amount (l ++ l').
Proof.
  intros [(a & std & t & allowed & l2 & l1 & -> & Hn & Ht & (I1 & I2 & I3) & Hs)
         |(o & v & h & rc & l2 & l1 & -> & Hn & H')].
  - left. exists a, std, t, allowed, l2, (l1 ++ l'). rewrite <- (assoc_L (++)).
    split; [done|]. split; [done|]. split; [done|]. split; [|done].
    split_and!; apply elem_of_app; by left.
  - right. exists o, v, h, rc, l2, (l1 ++ l'). rewrite <- (assoc_L (++)). done.
Qed.

Lemma fields_perform {A} (c : ethCall A) : keeps (agreeing fields) (perform c : prog (caller ethCall ethClient) A).
Proof. by intros s. Qed.

Lemma noApproval_WaitForReceipt h :
  keeps (only noApproval) (WaitForReceipt h : prog (caller ethCall ethClient) _).
Proof.
  assert (Ke : ∀ r, keeps (only noApproval) (ErrorFromBlock r : prog (caller ethCall ethClient) _)).
  { intros r. unfold ErrorFromBlock. keeps_auto. }
  unfold WaitForReceipt. induction maxRetries as [|n IH]; cbn [waitForReceipt]; keeps_auto.
Qed.

Lemma noApproval_TxOpts : keeps (only noApproval) TxOpts.
Proof. unfold TxOpts. keeps_auto. Qed.

Lemma WaitForReceipt_log h s rc s' : WaitForReceipt h s = (Done (Ok rc), s') →
  ∃ es, since s s' es ∧ forallb plain es = true ∧ forallb noApproval es = true ∧
    head es = Some (Ev (GetReceipt h) (Ok rc)) ∧ rcStatus rc = 1.
Proof.
  intros E. destruct (waitForReceipt_run maxRetries h s) as (r & s1 & es & Hw & Hs & _ & Hok).
  pose proof (plain_WaitForReceipt h s) as K. pose proof (noApproval_WaitForReceipt h s) as K'.
  rewrite E in K, K'. cbn [snd] in K, K'.
  unfold WaitForReceipt in E. rewrite E in Hw. injection Hw as <- <-. destruct (Hok rc eq_refl) as [Hst Hh].
  exists es. split_and!; [done | by eapply only_since | by eapply only_since | done | done].
Qed.

(** The events of a program that does only [p]. *)
Lemma only_run {A} p (m : prog (caller ethCall ethClient) A) s o s' :
  keeps (only p) m → m s = (o, s') → ∃ es, since s s' es ∧ forallb p es = true.
Proof. intros K E. specialize (K s). by rewrite E in K. Qed.

Lemma approveNoChecks_Ok p amount s s' : approveNoChecks p amount s = (Done (Ok tt), s') →
  ∃ token o v h rc l2 l1, erc20Contract p = Some token ∧ EthAssetAmount_BigInt amount = Done v ∧
    since s s' (l2 ++ Ev (TokenApprove token o (swapCreatorAddr p) v) (Ok h) :: l1) ∧
    forallb noApproval l2 = true ∧ Ev (GetReceipt h) (Ok rc) ∈ l2 ∧ rcStatus rc = 1.
Proof.
  unfold approveNoChecks. intros E. apply pbind_inv_Done in E as ([o|e] & s1 & Ho & E); [|done].
  destruct (only_run _ _ _ _ _ plain_TxOpts Ho) as (l1 & E1 & _).
  apply pbind_inv_Done in E as (token & s2 & Ht & E). apply pure_inv in Ht as [Ht ->].
  apply pbind_inv_Done in E as (v & s2 & Hv & E). apply pure_inv in Hv as [Hv ->].
  apply pbind_inv_Done in E as ([h|e] & s2 & Ha & E); [|done]. apply mapErr_Ok_run in Ha.
  apply pbind_inv_Done in E as ([rc|e] & s3 & Hw & E); [|done]. injection E as <-. apply mapErr_Ok_run in Hw.
  apply WaitForReceipt_log in Hw as (l2 & E3 & _ & Hn & Hh & Hst). apply perform_inv in Ha as (_ & E2 & _).
  unfold deref in Ht. destruct (erc20Contract p) as [t|]; [|done]. injection Ht as ->.
  exists token, o, v, h, rc, l2, l1. split_and!; try done.
  - eapply since_trans; [|exact E3]. exact (since_trans _ _ _ _ _ E1 E2).
  - destruct l2; [done|]. injection Hh as ->. constructor.
Qed.

Lemma fields_ERC20Balance t : keeps (agreeing fields) (ERC20Balance t).
Proof. unfold ERC20Balance, erc20Info, getF. keeps_auto; apply fields_perform. Qed.

Lemma plain_ERC20Balance t : keeps (only plain) (ERC20Balance t).
Proof. unfold ERC20Balance, erc20Info. keeps_auto. Qed.

Lemma erc20Info_Ok t s i s' : erc20Info t s = (Done (Ok i), s') →
  tokAddress i = t ∧ ∃ es, since s s' es ∧ infoSeen i es.
Proof.
  unfold erc20Info. intros E. apply pbind_inv_Done in E as ([name|e] & s1 & H1 & E); [|done].
  apply pbind_inv_Done in E as ([symbol|e] & s2 & H2 & E); [|done].
  apply pbind_inv_Done in E as ([decimals|e] & s3 & H3 & E); [|done]. injection E as <- <-.
  apply perform_inv in H1 as (_ & E1 & _), H2 as (_ & E2 & _), H3 as (_ & E3 & _). split; [done|].
  eexists. split; [eapply since_trans; [eapply since_trans; [exact E1 | exact E2] | exact E3]|].
  repeat split; cbn; set_solver.
Qed.

(** The balance is described as the token's contract describes the token. *)
Lemma ERC20Balance_Ok t s b s' i : ERC20Balance t s = (Done (Ok b), s') → TokenInfoOf b = Done i →
  tokAddress i = t ∧ ∃ es, since s s' es ∧ infoSeen i es.
Proof.
  unfold ERC20Balance. intros E Hi. apply pbind_inv_Done in E as ([[]|e] & s1 & H1 & E); [|done].
  apply pbind_inv_Done in E as (addr & s2 & H2 & E). injection H2 as _ <-.
  apply pbind_inv_Done in E as ([bal|e] & s2 & H2 & E); [|done].
  apply pbind_inv_Done in E as ([info|e] & s3 & H3 & E); [|done].
  apply pbind_inv_Done in E as (amount & s4 & H4 & E). apply pure_inv in H4 as [H4 ->]. injection E as <- <-.
  unfold NewERC20TokenAmountFromBigInt in H4. destruct (decreaseExponent _ _) as [d|?| |]; try done.
  injection H4 as <-. cbn in Hi. injection Hi as <-.
  apply erc20Info_Ok in H3 as (Ha & es & E3 & I1 & I2 & I3). split; [done|].
  apply perform_inv in H1 as (_ & E1 & _), H2 as (_ & E2 & _).
  eexists. split; [eapply since_trans; [eapply since_trans; [exact E1 | exact E2] | exact E3]|].
  split_and!; apply elem_of_app; by left.
Qed.

Lemma approve_Ok p amount s s' :
  erc20Contract p = Some (TokenAddress amount) → approveTransferFrom p amount s = (Done (Ok tt), s') →
  ∃ es, since s s' es ∧ approved (swapCreatorAddr p) (ethAddress (fields s)) amount es.
Proof.
  intros Hp. unfold approveTransferFrom. destruct (IsTokenAmount amount); [|done]. cbn [negb]. intros E.
  apply pbind_inv_Done in E as (std & s1 & Hstd & E). apply pure_inv in Hstd as [Hstd ->].
  destruct (apdIsZero std); [done|]. apply pbind_inv_Done in E as ([bal|e] & s1 & Hb & E); [|done].
  assert (F1 : fields s1 = fields s) by (pose proof (fields_ERC20Balance (TokenAddress amount) s) as K;
    by rewrite Hb in K).
  apply pbind_inv_Done in E as (bs & s2 & Hbs & E). apply pure_inv in Hbs as [_ ->].
  destruct (apdCmp bs std <? 0); [done|].
  apply pbind_inv_Done in E as (t & s2 & Ht & E). apply pure_inv in Ht as [Ht ->].
  destruct (ERC20Balance_Ok _ _ _ _ _ Hb Ht) as (Hat & l1 & E1 & Hinfo).
  rewrite Hp in E. apply pbind_inv_Done in E as (token & s2 & Hc & E). injection Hc as <- <-.
  apply pbind_inv_Done in E as (owner & s2 & Hw & E). injection Hw as <- <-. rewrite F1 in E.
  apply pbind_inv_Done in E as ([a|e] & s2 & Ha & E); [|done].
  apply pbind_inv_Done in E as (al & s3 & Hal & E). apply pure_inv in Hal as [Hal ->].
  apply pbind_inv_Done in E as (allowed & s3 & Hl & E). apply pure_inv in Hl as [Hl ->].
  apply perform_inv in Ha as (_ & E2 & _). pose proof (since_trans _ _ _ _ _ E1 E2) as E12.
  destruct (Z.leb_spec (apdCmp std allowed) 0) as [Hle|_].
  - injection E as <-. eexists. split; [exact E12|]. left. exists a, std, t, allowed, [], l1.
    split_and!; try done; [apply Hinfo.. |]. unfold obind. by rewrite Hal.
  - apply pbind_inv_Done in E as ([[]|e] & s3 & Hz & E); [|done].
    match type of Hz with ?m _ = _ =>
      assert (K : keeps (only plain) m) by (keeps_auto; apply plain_approveNoChecks) end.
    destruct (only_run _ _ _ _ _ K Hz) as (l3 & E3 & _).
    apply approveNoChecks_Ok in E as (tk & o & v & h & rc & l2 & l4 & Htk & Hv & E4 & Hn & Hr & Hst).
    rewrite Hp in Htk. injection Htk as <-. eexists. split; [eapply since_trans; [eapply since_trans; [exact E12 | exact E3] | exact E4]|].
    apply approved_earlier. right. exists o, v, h, rc, l2, l4. done.
Qed.

Lemma keeps_plain_noOrder {A} (m : prog (caller ethCall ethClient) A) :
  keeps (only plain) m → keeps (only noOrder) m.
Proof. apply keeps_weaken. intros s s'. apply only_weaken. intros [B c ans]. by destruct c. Qed.

Hint Resolve keeps_plain_noOrder plain_approve : keeps.

(** The order, once the tokens are approved. *)
Definition placeOrder (p : privateKeySender) (cc rc : Hash) (claimer : Address) (timeout nonce : Z)
    (amount : EthAssetAmount) (value : Z) : prog (caller ethCall ethClient) (result Receipt) :=
  txOpts <-? TxOpts ;;
  let txOpts := if IsTokenAmount amount then txOpts
                else mkTxOpts (Some value) (toGasPrice txOpts) (toGasLimit txOpts) in
  tx <-? mapErr (Wrapf "new_swap tx creation failed")
           (perform (CreatorNewSwap (swapCreator p) txOpts cc rc claimer timeout timeout (TokenAddress amount) value nonce)) ;;
  err <- perform (SaveNewSwapTx tx) ;;
  match err with
  | Some e => done (Err e)
  | None => mapErr (Wrapf "NewSwap tx failed waiting for receipt") (WaitForReceipt tx)
  end.

(** What an order of a swap is made with, [l] having happened before it. *)
Definition orderOk (creator owner : Address) (cc rc : Hash) (claimer : Address) (timeout nonce : Z)
    (amount : EthAssetAmount) (a : newSwapArgs) (l : list (event ethCall)) : Prop :=
  EthAssetAmount_BigInt amount = Done (aValue a) ∧
  aCreator a = creator ∧ aClaim a = cc ∧ aRefund a = rc ∧ aClaimer a = claimer ∧
  aTimeout1 a = timeout ∧ aTimeout2 a = timeout ∧ aNonce a = nonce ∧ aAsset a = TokenAddress amount ∧
  if IsTokenAmount amount then approved creator owner amount l else toValue (aOpts a) = Some (aValue a).

(** The one order among what happened. *)
Definition ordered (a : newSwapArgs) (l : list (event ethCall)) s s' : Prop :=
  ∃ ans later, since s s' (later ++ Ev (newSwapCall a) ans :: l) ∧
    forallb noOrder later = true ∧ forallb noOrder l = true.

Lemma placeOrder_ordered p cc rc claimer timeout nonce amount value s :
  did isOrder s (placeOrder p cc rc claimer timeout nonce amount value s).2 →
  ∃ o l, ordered (mkArgs (swapCreator p) o cc rc claimer timeout timeout (TokenAddress amount) value nonce) l
           s (placeOrder p cc rc claimer timeout nonce amount value s).2 ∧
    forallb noApproval l = true ∧ (IsTokenAmount amount = false → toValue o = Some value).
Proof.
  unfold placeOrder. intros Hd.
  apply did_try_inv in Hd as (o & s1 & Ho & _ & ->); [|apply keeps_plain_noOrder, plain_TxOpts].
  destruct (only_run _ _ _ _ _ plain_TxOpts Ho) as (l & E1 & Hl).
  destruct (only_run _ _ _ _ _ noApproval_TxOpts Ho) as (l' & E1' & Ha).
  rewrite (since_inj _ _ _ _ E1' E1) in Ha. cbn zeta. set (o' := if IsTokenAmount amount then _ else _).
  exists o', l. split; [|split; [done|]; subst o'; by destruct (IsTokenAmount amount)].
  assert (Ho' : forallb noOrder l = true) by (rewrite forallb_forall in Hl |- *; intros [B c ans] Hin;
    specialize (Hl _ Hin); by destruct c).
  set (c := CreatorNewSwap _ _ _ _ _ _ _ _ _ _). set (ans := respond _ (ticks s1) c).
  set (s2 := mkCaller (fields s1) (S (ticks s1)) (Ev c ans :: log s1)).
  match goal with |- ordered _ _ _ (tryBind (mapErr ?f _) ?k _).2 =>
    assert (K : keeps (only noOrder) (match ans with Ok tx => k tx | Err e => done (Err (f e)) end))
      by (destruct ans; keeps_auto);
    assert (Er : tryBind (mapErr f (perform c)) k s1 = match ans with Ok tx => k tx | Err e => done (Err (f e)) end s2)
      by (unfold tryBind, mapErr, pbind, perform; fold ans; fold s2; by destruct ans); rewrite Er end.
  destruct (K s2) as (later & E2 & Hlater). exists ans, later. split_and!; [|done..].
  eapply since_trans; [|exact E2]. exact (since_trans s s1 s2 l [Ev c ans] E1 eq_refl).
Qed.

Lemma newSwapLocked_ordered p cc rc claimer timeout nonce amount s :
  (IsTokenAmount amount = true → erc20Contract p = Some (TokenAddress amount)) → swapCreatorAddr p = swapCreator p →
  did isOrder s (newSwapLocked p cc rc claimer timeout nonce amount s).2 →
  ∃ a l, ordered a l s (newSwapLocked p cc rc claimer timeout nonce amount s).2 ∧
    orderOk (swapCreator p) (ethAddress (fields s)) cc rc claimer timeout nonce amount a l.
Proof.
  intros Hp Hsame. unfold newSwapLocked. intros Hd.
  apply did_bind_inv in Hd as (v & s1 & Hv & Hd & ->); [|apply keeps_pure, only_preorder].
  apply pure_inv in Hv as [Hv ->].
  apply did_try_inv in Hd as (u & s1 & Hap & Hd & ->); [|keeps_auto].
  change (did isOrder s1 (placeOrder p cc rc claimer timeout nonce amount v s1).2) in Hd.
  apply placeOrder_ordered in Hd as (o & l & (ans & later & E & Hl1 & Hl2) & Hla & Ho).
  match type of Hap with ?m _ = _ => assert (K : keeps (only noOrder) m) by keeps_auto end.
  destruct (only_run _ _ _ _ _ K Hap) as (l0 & E0 & Hn0). clear K.
  exists (mkArgs (swapCreator p) o cc rc claimer timeout timeout (TokenAddress amount) v nonce), (l ++ l0). split.
  - exists ans, later. rewrite forallb_app, Hl2, Hn0. split_and!; try done.
    pose proof (since_trans _ _ _ _ _ E0 E) as E'. by rewrite <- (assoc_L (++)) in E'.
  - unfold orderOk. cbn [aValue aCreator aClaim aRefund aClaimer aTimeout1 aTimeout2 aNonce aAsset aOpts].
    split_and!; [done..|]. destruct (IsTokenAmount amount); [|by apply Ho]. destruct u.
    apply approve_Ok in Hap as (l0' & E0' & Hap); [|by apply Hp]. rewrite (since_inj _ _ _ _ E0' E0), Hsame in Hap.
    by apply approved_later.
Qed.

(** C9: safety.  A swap is ordered with the money it needs.  When the backend's sender for
    the asset of [amount] makes the transaction of a new swap, the value of the order is
    the exact amount in the smallest unit, sent along when it is ether.  For a token,
    before the order, either the token's contract answered that the very contract of the
    order may move at least the amount of the wallet's tokens, compared in the decimals
    the token's contract gave, or an approval of exactly that value for that contract was
    included in the chain with success; and no other approval was made in between.
    Everything else is ordered as requested. *)
Theorem new_swap_is_funded (p : privateKeySender) (env : Environment) (global : Z) (creator : Address)
    (cc rc : Hash) (claimer : Address) (timeout nonce : Z) (amount : EthAssetAmount)
    (a : newSwapArgs) (ans : result Hash) (l later : list (event ethCall)) (s : caller ethCall ethClient) :
  Backend_NewTxSender true env global creator (TokenAddress amount) = inl p →
  (IsTokenAmount amount = true → IsToken (TokenAddress amount) = true) →
  since s (NewSwap p cc rc claimer timeout nonce amount s).2 (later ++ Ev (newSwapCall a) ans :: l) →
  orderOk creator (ethAddress (fields s)) cc rc claimer timeout nonce amount a l.
Proof.
  intros [= <-] Htok E. set (p := NewSenderWithPrivateKey _ _ _) in E.
  assert (Hp : IsTokenAmount amount = true → erc20Contract p = Some (TokenAddress amount))
    by (intros Hx; cbn; by rewrite Htok).
  assert (Hd : did isOrder s (NewSwap p cc rc claimer timeout nonce amount s).2).
  { eapply did_since; [exact E|]. rewrite existsb_app. cbn. by rewrite orb_true_r. }
  unfold NewSwap in *. apply did_bind_inv in Hd as ([] & s1 & Hl & Hd & Er); [|keeps_auto]. rewrite Er in E.
  apply did_deferring_inv in Hd; [|keeps_auto]. apply perform_inv in Hl as (_ & El & _ & Fl).
  apply newSwapLocked_ordered in Hd as (a' & l' & (ans' & later' & E1 & Hn1 & Hn2) & Hok); [|done..].
  rewrite Fl in Hok. match type of E with since _ (deferring ?c ?b _).2 _ =>
    destruct (only_deferred noOrder c b s1) as (l3 & E3 & Hn3); [keeps_auto|] end.
  pose proof (since_trans _ _ _ _ _ El (since_trans _ _ _ _ _ E1 E3)) as E'.
  rewrite <- !(assoc_L (++)) in E'. rewrite (assoc_L (++)) in E'. cbn [app] in E'.
  pose proof (since_inj _ _ _ _ E E') as Heq.
  apply (split_unique isOrder) in Heq as (_ & Hev & ->); cbn; [| by rewrite forallb_app; fold noOrder; rewrite Hn3, Hn1 | | done].
  2: { rewrite forallb_app. fold noOrder. by rewrite Hn2. }
  assert (a = a') as -> by (destruct a, a'; cbn in Hev; by injection Hev as -> -> -> -> -> -> -> -> -> ->).
  destruct Hok as (H1 & H2 & H3 & H4 & H5 & H6 & H7 & H8 & H9 & Hm). split_and!; try done.
  destruct (IsTokenAmount amount); [|done]. by apply approved_earlier.
Qed.

(** ** The lock of the wallet *)

Definition noLock (e : event ethCall) : bool :=
  match e with Ev WalletLock _ | Ev WalletUnlock _ => false | _ => true end.

(** One lock first, one unlock last. *)
Definition bracketed s s' : Prop :=
  ∃ es, since s s' (Ev WalletUnlock tt :: es ++ [Ev WalletLock tt]) ∧ forallb noLock es = true.

Definition locked {A} (m : prog (caller ethCall ethClient) A) : prog (caller ethCall ethClient) A :=
  perform WalletLock ;;; deferring (perform WalletUnlock) m.

Lemma locked_bracketed {A} (m : prog (caller ethCall ethClient) A) s :
  keeps (only noLock) m → returning m → bracketed s (locked m s).2.
Proof.
  intros Km Rm. unfold locked, pbind, perform at 1. set (s1 := mkCaller _ _ _).
  assert (E1 : since s s1 [Ev WalletLock tt]) by (unfold since; cbn; by destruct (respond unit (ticks s) WalletLock)).
  destruct (Km s1) as (es & E & F). specialize (Rm s1).
  assert (E3 : ∀ s2, since s2 (perform WalletUnlock s2).2 [Ev WalletUnlock tt]).
  { intros s2. unfold since. cbn. by destruct (respond unit (ticks s2) WalletUnlock). }
  exists es. split; [|done]. unfold deferring. destruct (m s1) as [[a|msg| |] s2]; try done; cbn [snd] in *;
    (eapply (since_trans _ s2 _ _ [Ev WalletUnlock tt]); [by eapply since_trans | apply E3]).
Qed.

Lemma keeps_plain_noLock {A} (m : prog (caller ethCall ethClient) A) : keeps (only plain) m → keeps (only noLock) m.
Proof. apply keeps_weaken. intros s s'. apply only_weaken. intros [B c ans]. by destruct c. Qed.

Hint Resolve keeps_plain_noLock : keeps.

Lemma returning_WaitForReceipt h : returning (WaitForReceipt h : prog (caller ethCall ethClient) _).
Proof.
  intros s. destruct (waitForReceipt_run maxRetries h s) as (r & s1 & es & Hw & _).
  unfold WaitForReceipt. by rewrite Hw.
Qed.

Lemma returning_getF {A} (f : ethClient → A) : returning (getF f : prog (caller ethCall ethClient) A).
Proof. done. Qed.

Hint Resolve returning_WaitForReceipt returning_getF : returning.

Lemma returning_TxOpts : returning TxOpts.
Proof. unfold TxOpts. returning_auto. Qed.

Lemma oreturning_round n d : oreturning (roundToDecimalPlace n d).
Proof. unfold roundToDecimalPlace, increaseExponent, decreaseExponent. returning_auto. Qed.

Lemma oreturning_AssetBigInt a : oreturning (EthAssetAmount_BigInt a).
Proof. unfold EthAssetAmount_BigInt, WeiAmount_BigInt, increaseExponent. returning_auto. Qed.

Lemma oreturning_AsStd a : oreturning (AsStd a).
Proof. unfold AsStd, AsEther, decreaseExponent. returning_auto. Qed.

Lemma oreturning_FromBigInt z t : oreturning (NewERC20TokenAmountFromBigInt z t).
Proof. unfold NewERC20TokenAmountFromBigInt, decreaseExponent. returning_auto. Qed.

Hint Resolve oreturning_round : returning.

Lemma oreturning_FromDecimals d t : oreturning (NewTokenAmountFromDecimals d t).
Proof. unfold NewTokenAmountFromDecimals. returning_auto. Qed.

Lemma oreturning_deref {A} (o : option A) : oreturning (deref o).
Proof. by destruct o. Qed.

Hint Resolve returning_TxOpts oreturning_AssetBigInt oreturning_AsStd oreturning_FromBigInt oreturning_FromDecimals
  oreturning_deref : returning.

Lemma returning_approveNoChecks p amount : returning (approveNoChecks p amount).
Proof. unfold approveNoChecks. returning_auto. Qed.

Hint Resolve returning_approveNoChecks : returning.

Lemma returning_newSwapLocked p cc rc claimer timeout nonce amount :
  returning (newSwapLocked p cc rc claimer timeout nonce amount).
Proof.
  unfold newSwapLocked, approveTransferFrom, ERC20Balance, erc20Info, TokenInfoOf. returning_auto.
Qed.

Lemma noLock_newSwapLocked p cc rc claimer timeout nonce amount :
  keeps (only noLock) (newSwapLocked p cc rc claimer timeout nonce amount).
Proof. unfold newSwapLocked. keeps_auto. Qed.

Lemma sendLocked_bracketed what create s :
  (∀ o a, noLock (Ev (create o) a) = true) → bracketed s (sendLocked what create s).2.
Proof.
  intros Hc. apply locked_bracketed; [|returning_auto]. keeps_auto. by apply only_perform.
Qed.

Lemma oreturning_WeiBigInt a : oreturning (WeiAmount_BigInt a).
Proof. unfold WeiAmount_BigInt. returning_auto. Qed.

Hint Resolve oreturning_WeiBigInt : returning.

Lemma returning_transfer pk to amount gas price nonce : returning (transfer pk to amount gas price nonce).
Proof. unfold transfer. returning_auto. Qed.

Lemma noLock_transfer pk to amount gas price nonce : keeps (only noLock) (transfer pk to amount gas price nonce).
Proof. unfold transfer. keeps_auto. Qed.

Hint Resolve returning_transfer : returning.
Hint Resolve noLock_transfer : keeps.

(** C11: safety.  Every transaction of the wallet is made under its lock: each of these
    operations takes the lock first and releases it last, once, whatever happens in
    between, an error or a panic included. *)
Theorem transactions_under_lock (p : privateKeySender) (cc rc : Hash) (claimer to : Address) (timeout nonce : Z)
    (amount : EthAssetAmount) (wei : Decimal) (limit : option Z) (swap : SwapCreatorSwap) (secret : bytes)
    (s : caller ethCall ethClient) :
  bracketed s (NewSwap p cc rc claimer timeout nonce amount s).2 ∧
  bracketed s (SetReady p swap s).2 ∧ bracketed s (Claim p swap secret s).2 ∧
  bracketed s (Refund p swap secret s).2 ∧
  bracketed s (Transfer to wei limit s).2 ∧ bracketed s (Sweep to s).2.
Proof.
  split_and!.
  - apply locked_bracketed; [apply noLock_newSwapLocked | apply returning_newSwapLocked].
  - by apply sendLocked_bracketed.
  - by apply sendLocked_bracketed.
  - by apply sendLocked_bracketed.
  - apply locked_bracketed; unfold nonceAndPrice, isContractAddress; [keeps_auto | returning_auto].
  - apply locked_bracketed; unfold sweepLocked, nonceAndPrice, isContractAddress, Balance; [keeps_auto | returning_auto].
Qed.

(** ** Saving the transaction before waiting for it *)

Lemma placeOrder_Ok p cc rcm claimer timeout nonce amount value s rc s' :
  placeOrder p cc rcm claimer timeout nonce amount value s = (Done (Ok rc), s') →
  ∃ a h es1 es2, since s s' (es2 ++ [Ev (SaveNewSwapTx h) None; Ev (newSwapCall a) (Ok h)] ++ es1) ∧
    forallb plain es1 = true ∧ forallb plain es2 = true ∧ head es2 = Some (Ev (GetReceipt h) (Ok rc)) ∧ rcStatus rc = 1.
Proof.
  unfold placeOrder. intros E. apply pbind_inv_Done in E as ([o|e] & s1 & Ho & E); [|done].
  assert (O1 : only plain s s1) by (pose proof (plain_TxOpts s) as K; by rewrite Ho in K).
  destruct O1 as (es1 & E1 & F1). cbn zeta in E. set (o' := if IsTokenAmount amount then _ else _) in E.
  apply pbind_inv_Done in E as ([h|e] & s2 & Hc & E); [|done]. apply mapErr_Ok_run in Hc.
  apply perform_inv in Hc as (_ & E2 & _).
  apply pbind_inv_Done in E as ([e|] & s3 & Hs & E); [done|]. apply perform_inv in Hs as (_ & E3 & _).
  apply mapErr_Ok_run, WaitForReceipt_log in E as (es2 & E4 & F2 & _ & Hh & Hst).
  exists (mkArgs (swapCreator p) o' cc rcm claimer timeout timeout (TokenAddress amount) value nonce), h, es1, es2.
  split_and!; [|done..]. eapply since_trans; [|exact E4].
  eapply (since_trans s s2 s3 _ [_]); [|exact E3]. by eapply (since_trans s s1 s2 _ [_]).
Qed.

(** C10: functional.  A swap that is reported as locked was ordered exactly once; the hash
    of its transaction was saved right after the order and before any wait for it, and the
    receipt is the one of that transaction, with the status of success. *)
Theorem new_swap_saved_before_wait (p : privateKeySender) (cc rcm : Hash) (claimer : Address) (timeout nonce : Z)
    (amount : EthAssetAmount) (rc : Receipt) (s s' : caller ethCall ethClient) :
  NewSwap p cc rcm claimer timeout nonce amount s = (Done (Ok rc), s') →
  ∃ a h es1 es2,
    since s s' ([Ev WalletUnlock tt] ++ es2 ++ [Ev (SaveNewSwapTx h) None; Ev (newSwapCall a) (Ok h)] ++ es1
                ++ [Ev WalletLock tt]) ∧
    forallb plain es1 = true ∧ forallb plain es2 = true ∧
    head es2 = Some (Ev (GetReceipt h) (Ok rc)) ∧ rcStatus rc = 1.
Proof.
  unfold NewSwap. intros E. apply pbind_inv_Done in E as ([] & s1 & Hl & E). apply perform_inv in Hl as (_ & E1 & _).
  apply deferring_Done_iff in E as (s2 & Hn & Hu).
  apply perform_inv in Hu as (_ & E4 & _). unfold newSwapLocked in Hn.
  apply pbind_inv_Done in Hn as (v & s3 & Hv & Hn). apply pure_inv in Hv as [_ ->].
  apply pbind_inv_Done in Hn as ([u|e] & s3 & Hap & Hn); [|done].
  assert (O2 : only plain s1 s3).
  { match type of Hap with ?m _ = _ => assert (K : keeps (only plain) m) by keeps_auto end.
    specialize (K s1). by rewrite Hap in K. }
  destruct O2 as (es0 & E2 & F0). apply placeOrder_Ok in Hn as (a & h & es1 & es2 & E3 & F1 & F2 & Hh & Hst).
  exists a, h, (es1 ++ es0), es2. split_and!; [|by rewrite forallb_app, F1, F0 | done | done | done].
  eapply (since_trans s s2 s' _ [_]); [|exact E4].
  pose proof (since_trans s1 s3 s2 _ _ E2 E3) as E5. pose proof (since_trans s s1 s2 _ _ E1 E5) as E6.
  unfold since in *. rewrite E6. by rewrite <- !(assoc_L (++)).
Qed.

(** ** The external sender *)

(** "Pack the given method name": a name that is no method of the ABI is an error. *)
Class PackSpec `{!PackLib} : Prop :=
  pack_unknown A m (x : A) : m ∉ SwapCreatorMethods → ∃ e, packMethod A m x = Err e.

Lemma pack_fails `{!PackLib} `{!PackSpec} {A} m (x : A) : bool_decide (m ∈ SwapCreatorMethods) = false →
  ∃ e, packMethod A m x = Err e.
Proof. intros Hm. apply pack_unknown. by apply bool_decide_eq_false_1 in Hm. Qed.

(** Error.  The external sender cannot order a swap nor set one ready: it encodes calls
    of methods the contract does not have, so both fail before anything reaches the
    front-end. *)
Theorem external_sender_cannot_order `{!PackLib} `{!PackSpec} (t : Z) (es : ExternalSender) (cc rcm : Hash)
    (claimer : Address) (timeout nonce : Z) (amount : EthAssetAmount) (swap : SwapCreatorSwap)
    (s : caller ethCall ethClient) :
  let order := ExternalSender_NewSwap t es cc rcm claimer timeout nonce amount s in
  (order.2 = s ∧ ∀ rc, order.1 ≠ Done (Ok rc)) ∧
  ∃ e, ExternalSender_SetReady t es swap s = (Done (Err e), s).
Proof.
  split.
  - unfold ExternalSender_NewSwap. destruct (IsTokenAmount amount); [done|].
    unfold pbind, pure. destruct (EthAssetAmount_BigInt amount) as [v|msg| |]; [|done..].
    unfold tryBind, pbind, done.
    destruct (pack_fails "new_swap" (cc, rcm, claimer, timeout, TokenAddress amount, v, nonce) eq_refl) as [e ->]. done.
  - unfold ExternalSender_SetReady, tryBind, pbind, done.
    destruct (pack_fails "set_ready" swap eq_refl) as [e ->]. by exists e.
Qed.

End proofs.
End TxSenderProofs.
