(* ===== verification/EthWitness.v ===== *)
(** * The Ethereum client and the senders at concrete runs *)

From stdpp Require Import base gmap list strings.
From Stdlib Require Import ZArith Strings.Byte.
From S2P Require Import Prelude Calls Coins RefApd CoinsProofs Types Bytes Contracts External SampleWorld Relayer RelayWitness EthClient EthProofs TxSender TxSenderProofs.

Open Scope Z_scope.
Open Scope go_scope.

Module EthWitness.
Import Block EthClient Watcher EthProofs TxSender TxSenderProofs RelayWitness.

Definition theTopic : Hash := repeat x41 32.
Definition theLog : Log := mkLog contractAt [theTopic; repeat x07 32] [] lockTx 5 false.
Definition otherLog : Log := mkLog contractAt [repeat x42 32] [] lockTx 5 false.
Definition theToken : Address := repeat x70 20.

(** The chain grows from block 5 to block 6 at the fifth call. *)
Definition tipAt (i : nat) : Z := if (i <? 5)%nat then 5 else 6.

Definition theReceipt : Receipt := mkReceipt 1 [] lockTx 100.

Definition logsBetween (c : Address) (from to : Z) : list Log :=
  List.filter (fun l => bool_decide (lgAddress l = c) && (from <=? lgBlockNumber l) && (lgBlockNumber l <=? to))
    [otherLog; theLog].

#[local] Instance sampleNode : Answers ethCall := fun A i c =>
  match c in ethCall B return B with
  | CtxErr | Sleep _ | AwaitTick => None
  | Until _ => 0
  | Dial _ => Ok tt
  | NodeChainID => Ok 1
  | GetHeader => Ok (mkHeader (tipAt i) 0)
  | GetReceipt _ => Ok theReceipt
  | TransactionInBlock _ => Ok lockTx
  | TransactionToMessage _ _ => Err (errorf "no sender")
  | CallAt _ _ => Ok tt
  | BalanceAt _ => Ok (10 ^ 18)
  | NonceAt _ => Ok 3
  | NodeGasPrice => Ok (10 ^ 9)
  | NodeCodeAt _ => Ok []
  | NodeFilterLogs c from => Ok (logsBetween c from (tipAt i))
  | SignTx _ _ _ => Ok lockTx
  | SendTransaction _ _ => None
  | WalletLock | WalletUnlock | SenderLock | SenderUnlock => tt
  | KeyedTransactor _ _ => Ok tt
  | BindToken _ => Ok tt
  | TokenBalanceOf _ _ => Ok (5 * 10 ^ 18)
  | TokenName _ | TokenSymbol _ => Ok "TKN"%string
  | TokenDecimals _ => Ok 18
  | TokenAllowance _ _ _ => Ok 7
  | TokenApprove _ _ _ _ => Ok lockTx
  | CreatorNewSwap _ _ _ _ _ _ _ _ _ _ => Ok lockTx
  | CreatorSetReady _ _ _ | CreatorClaim _ _ _ _ | CreatorRefund _ _ _ _ => Ok lockTx
  | SaveNewSwapTx _ => None
  | DeliverLog _ => true
  | OfferToFrontEnd _ => true
  | AwaitHash _ => Some lockTx
  end.

Definition client0 : ethClient := mkEthClient refSig (Some (repeat x21 20)) takerAddr None 0 1.
Definition start0 : caller ethCall ethClient := mkCaller client0 0 [].

#[local] Instance sampleNode_sane : NodeSane.
Proof. split; intros i; [intros a b | intros p]; cbn; intros [= <-]; lia. Qed.

#[local] Instance sampleChain : ChainNode [otherLog; theLog] tipAt.
Proof.
  split.
  - intros i j Hij. unfold tipAt. destruct (Nat.ltb_spec i 5), (Nat.ltb_spec j 5); lia.
  - intros i h. cbn. intros [= <-]. cbn. lia.
  - intros i c from ls l Hr Hin Ha Hb. unfold respond, sampleNode in Hr. injection Hr as Hr. rewrite <- Hr. clear Hr.
    apply list_elem_of_In. unfold logsBetween. apply List.filter_In. split; [by apply list_elem_of_In|].
    rewrite bool_decide_eq_true_2 by done. cbn [andb]. apply andb_true_iff. split; apply Z.leb_le; lia.
Qed.

Definition sweptTx : LegacyTx := mkLegacyTx 3 makerAddr (10 ^ 18 - 21000 * 10 ^ 9) 21000 (10 ^ 9).

Lemma Sweep_empties_wallet_witness : sweepTx makerAddr sweptTx start0 (Sweep makerAddr start0).2.
Proof.
  apply (Sweep_empties_wallet makerAddr start0 sweptTx lockTx None).
  exists (log (Sweep makerAddr start0).2). split; [unfold since; by rewrite app_nil_r|].
  apply list_elem_of_In. vm_compute. tauto.
Defined.

Definition filter0 : EventFilter := NewEventFilter contractAt 4 theTopic.

(** Two turns of the watcher: the event of block 5 is delivered in both. *)
Lemma watcher_misses_nothing_witness :
  (∀ n, Start (2 + n) filter0 start0
        = Start n (mkFilter theTopic contractAt 6) (polls 2 filter0 start0).2) ∧
  (∀ l, l ∈ [otherLog; theLog] → lgAddress l = contractAt → wanted theTopic l = true →
    4 < 6 → 4 ≤ lgBlockNumber l ≤ 6 → happened start0 (polls 2 filter0 start0).2 (Ev (DeliverLog l) true)).
Proof.
  apply (watcher_misses_nothing 2 filter0 (mkFilter theTopic contractAt 6) start0 (polls 2 filter0 start0).2).
  vm_compute. reflexivity.
Defined.

Definition isDelivery (e : event ethCall) : bool := match e with Ev (DeliverLog _) _ => true | _ => false end.

Example head_block_delivered_twice : count isDelivery (log (polls 2 filter0 start0).2) = 2%nat.
Proof. vm_compute. reflexivity. Qed.

Definition sender0 : privateKeySender := mkSender contractAt contractAt (Some theToken).
Definition twoTokens : EthAssetAmount := ERC20TokenAmount (apdNew 2 0) (mkToken theToken 18 "TKN" "TKN").

Definition order0 : newSwapArgs :=
  mkArgs contractAt (mkTxOpts None None 0) (repeat x01 32) (repeat x02 32) makerAddr 3600 3600 theToken (2 * 10 ^ 18) 9.

Definition orderLog : list (event ethCall) :=
  log (NewSwap sender0 (repeat x01 32) (repeat x02 32) makerAddr 3600 9 twoTokens start0).2.

(** The order is followed by the saving of its hash, the receipt and the unlock. *)
Lemma new_swap_is_funded_witness :
  existsb isApproval (drop 5 orderLog) = true ∧
  orderOk contractAt (ethAddress (fields start0)) (repeat x01 32) (repeat x02 32) makerAddr 3600 9 twoTokens order0
    (drop 5 orderLog).
Proof.
  split; [vm_compute; reflexivity|].
  apply (new_swap_is_funded sender0 Development 0 contractAt (repeat x01 32) (repeat x02 32) makerAddr 3600 9 twoTokens
    order0 (Ok lockTx) (drop 5 orderLog) (take 4 orderLog) start0); [reflexivity | done | vm_compute; reflexivity].
Defined.

Lemma new_swap_saved_before_wait_witness :
  ∃ a h es1 es2,
    since start0 (NewSwap sender0 (repeat x01 32) (repeat x02 32) makerAddr 3600 9 twoTokens start0).2
      ([Ev WalletUnlock tt] ++ es2 ++ [Ev (SaveNewSwapTx h) None; Ev (newSwapCall a) (Ok h)] ++ es1 ++ [Ev WalletLock tt]) ∧
    forallb plain es1 = true ∧ forallb plain es2 = true ∧
    head es2 = Some (Ev (GetReceipt h) (Ok theReceipt)) ∧ rcStatus theReceipt = 1.
Proof.
  apply (new_swap_saved_before_wait sender0 (repeat x01 32) (repeat x02 32) makerAddr 3600 9 twoTokens theReceipt start0).
  vm_compute. reflexivity.
Defined.

(** An encoder that knows the contract's methods. *)
#[local] Instance samplePack : PackLib := fun A m _ =>
  if bool_decide (m ∈ SwapCreatorMethods) then Ok [x01] else Err (errorf "method not found").

#[local] Instance samplePackSpec : PackSpec.
Proof. intros A m x Hm. eexists. unfold packMethod, samplePack. by rewrite bool_decide_eq_false_2. Qed.

Definition oneEther : EthAssetAmount := WeiAmount (NewWeiAmount (10 ^ 18)).

Lemma external_sender_cannot_order_witness :
  let order := ExternalSender_NewSwap Hour (mkExternal contractAt zeroAddress) (repeat x01 32) (repeat x02 32)
                 makerAddr 3600 9 oneEther start0 in
  (order.2 = start0 ∧ ∀ rc, order.1 ≠ Done (Ok rc)) ∧
  ∃ e, ExternalSender_SetReady Hour (mkExternal contractAt zeroAddress) contractSwap0 start0 = (Done (Err e), start0).
Proof.
  apply (external_sender_cannot_order Hour (mkExternal contractAt zeroAddress) (repeat x01 32) (repeat x02 32)
    makerAddr 3600 9 oneEther contractSwap0 start0).
Defined.

(** A claim goes through. *)
Example external_sender_claims :
  (ExternalSender_Claim Hour (mkExternal contractAt zeroAddress) contractSwap0 (repeat x33 32) start0).1
  = Done (Ok theReceipt).
Proof. vm_compute. reflexivity. Qed.

End EthWitness.
