(* ===== verification/Config.v ===== *)
(** * Paths and the configuration of an environment (common/config.go)

    Go's package path, as far as the daemon uses it, and the defaults of each environment. *)

From stdpp Require Import base list strings.
From Stdlib Require Import ZArith Strings.Byte Strings.Ascii.
From S2P Require Import Prelude Types.

Open Scope Z_scope.
Open Scope go_scope.

Module GoPath.

(** The parts between the slashes: one more than there are slashes. *)
Fixpoint splitSlash (p : string) : list string :=
  match p with
  | EmptyString => [""%string]
  | String c rest =>
      if Ascii.eqb c "/" then ""%string :: splitSlash rest
      else
        match splitSlash rest with
        | first :: others => String c first :: others
        | [] => [String c ""]
        end
  end.

Fixpoint joinSlash (parts : list string) : string :=
  match parts with
  | [] => ""
  | [p] => p
  | p :: rest => p +:+ "/" +:+ joinSlash rest
  end.

Definition rooted (p : string) : bool := isPrefix "/" p.

(** One part of a path, on the reversed parts kept so far. *)
Definition cleanPart (root : bool) (kept : list string) (part : string) : list string :=
  if bool_decide (part = "") || bool_decide (part = ".") then kept
  else if bool_decide (part = "..") then
    match kept with
    | top :: below => if bool_decide (top = "..") then part :: kept else below
    | [] => if root then [] else [part]
    end
  else part :: kept.

(** [path.Clean] *)
Definition Clean (p : string) : string :=
  let parts := rev (foldl (cleanPart (rooted p)) [] (splitSlash p)) in
  if rooted p then "/" +:+ joinSlash parts
  else if bool_decide (parts = []) then "." else joinSlash parts.

(** [path.Dir]: [Clean] of everything up to and including the last slash. *)
Definition Dir (p : string) : string :=
  match removelast (splitSlash p) with
  | [] => Clean ""
  | parts => Clean (joinSlash parts +:+ "/")
  end.

(** The last part that is not empty. *)
Definition Base (p : string) : string :=
  if bool_decide (p = "") then "."
  else default "/"%string (last (filter (fun s => s ≠ "") (splitSlash p))).

(** [path.Join] *)
Definition Join (elems : list string) : string :=
  match filter (fun s => s ≠ "") elems with
  | [] => ""
  | parts => Clean (joinSlash parts)
  end.

Example clean_examples :
  Clean "a//b/./c/.." = "a/b"%string ∧ Clean "/../a" = "/a"%string ∧ Clean "../../a" = "../../a"%string ∧
  Clean "a/.." = "."%string ∧ Clean "/" = "/"%string.
Proof. repeat split. Qed.

Example dir_base_examples :
  Dir "/home/u/.atomicswap/mainnet/wallet/swap-wallet" = "/home/u/.atomicswap/mainnet/wallet"%string ∧
  Dir "wallet" = "."%string ∧ Dir "/wallet" = "/"%string ∧ Base "/a/b//" = "b"%string ∧ Base "/" = "/"%string ∧
  Join ["/a"; ""; "b"; "../c"] = "/a/c"%string.
Proof. repeat split. Qed.

End GoPath.

Module Config.

Definition DefaultMoneroWalletName : string := "swap-wallet".
Definition DefaultLibp2pKeyFileName : string := "net.key".
Definition DefaultEthKeyFileName : string := "eth.key".
Definition DefaultGanacheEndpoint : string := "http://127.0.0.1:8545".

Definition publicBootnodes : list string :=
  ["/ip4/104.194.157.27/tcp/9909/p2p/12D3KooWMYfJHQAjL1F6EVk2s9CJvsEvdYMW8CD7uBMs15sdFJzd";
   "/ip4/134.122.115.208/tcp/9909/p2p/12D3KooWCAMMJMDV99GQA78MiaGgnqNmZSD1FAo5uHaZUbeqL4XR";
   "/ip4/143.198.123.27/tcp/9909/p2p/12D3KooWD7JjjRyohDPPm8TMT8v8dEfwoVHxfBN2ytZHpS9VJ3Vz";
   "/ip4/185.130.46.66/tcp/9909/p2p/12D3KooWDKf2FJG1AWTJthbs7fcCcsQa26f4pmCR25cktRg2X2aY";
   "/ip4/67.205.131.11/tcp/9909/p2p/12D3KooWPnZyeGvsDgpQtMCUKdSiFi5K1pxk6NR6gNo5nGhFCseK";
   "/ip4/67.207.89.83/tcp/9909/p2p/12D3KooWGQ7L8ruTKtvLDwDyrVv5DdjPnLB7HeTdpsLGiWPi6oqw"].

Record MoneroNode : Type := mkNode { nodeHost : string; nodePort : Z }.

Record Config : Type := mkConfig {
  cfEnv : Environment;
  cfDataDir : string;
  cfEthEndpoint : string;
  cfMoneroNodes : list MoneroNode;
  cfSwapCreatorAddr : Address;
  cfBootnodes : list string
}.

Section config.
(** The user's home directory. *)
Context (homeDir : string).

Definition baseDir : string := GoPath.Join [homeDir; ".atomicswap"].

(** 0x377ed3a60007048DF00135637521170628De89E5 *)
Definition deployedSwapCreator : Address :=
  [x37; x7e; xd3; xa6; x00; x07; x04; x8d; xf0; x01; x35; x63; x75; x21; x17; x06; x28; xde; x89; xe5].

Definition MainnetConfig : Config :=
  mkConfig Mainnet (GoPath.Join [baseDir; "mainnet"]) ""
    [mkNode "xmr-node.cakewallet.com" 18081; mkNode "node.community.rino.io" 18081; mkNode "node.monerodevs.org" 18089]
    deployedSwapCreator publicBootnodes.

Definition StagenetConfig : Config :=
  mkConfig Stagenet (GoPath.Join [baseDir; "stagenet"]) "https://rpc.sepolia.org/"
    [mkNode "stagenet.community.rino.io" 38081; mkNode "node.monerodevs.org" 38089]
    deployedSwapCreator publicBootnodes.

Definition DevelopmentConfig : Config :=
  mkConfig Development (GoPath.Join [baseDir; "dev"]) DefaultGanacheEndpoint [mkNode "127.0.0.1" 18081] zeroAddress [].

Definition BootnodeConfig : Config :=
  mkConfig Bootnode (GoPath.Join [baseDir; "bootnode"]) "" [] zeroAddress publicBootnodes.

Definition ConfigDefaultsForEnv (env : Environment) : outcome Config :=
  match env with
  | Mainnet => Done MainnetConfig
  | Stagenet => Done StagenetConfig
  | Development => Done DevelopmentConfig
  | Bootnode => Done BootnodeConfig
  | _ => Panicked "invalid environment"
  end.

Definition MoneroWalletPath (c : Config) : string := GoPath.Join [cfDataDir c; "wallet"; DefaultMoneroWalletName].
Definition LibP2PKeyFile (c : Config) : string := GoPath.Join [cfDataDir c; DefaultLibp2pKeyFileName].
Definition EthKeyFileName (c : Config) : string := GoPath.Join [cfDataDir c; DefaultEthKeyFileName].

End config.

Example mainnet_wallet :
  MoneroWalletPath (MainnetConfig "/home/u") = "/home/u/.atomicswap/mainnet/wallet/swap-wallet"%string.
Proof. reflexivity. Qed.

End Config.
