(* ===== verification/Wallet.v ===== *)
(** * The client of monero-wallet-rpc (package monero)

    The RPC of the wallet and of the Monero daemon, the child process, its output, the files
    and the timers are [walletCall]s; the state is the client a constructor fills in. *)

From stdpp Require Import base gmap list strings.
From Stdlib Require Import ZArith Strings.Byte Strings.Ascii.
From S2P Require Import Prelude Calls Coins Types Bytes Crypto Base58 Contracts External Config.

Open Scope Z_scope.
Open Scope go_scope.

(** os.ErrNotExist *)
Definition ErrNotExist : error := Sentinel "fs.ErrNotExist" "file does not exist".

(** What monerod says about itself. *)
Record DaemonInfo : Type := mkInfo {
  diStagenet : bool;
  diMainnet : bool;
  diNetType : string;
  diOffline : bool;
  diSynchronized : bool
}.

Record BalanceResponse : Type := mkBalance { brBalance : Z; brUnlocked : Z; brBlocksToUnlock : Z }.

(** wallet.Transfer *)
Record XMRTransferInfo : Type := mkTransfer {
  xtTxID : string;
  xtHeight : Z;
  xtConfirmations : Z;
  xtAmount : Z;
  xtFee : Z
}.

(** The result of os.Stat. *)
Inductive statResult : Type := StatDir | StatFile | StatErr (e : error).

Inductive walletCall : Type → Type :=
| LookPath (file : string) : walletCall (result string)
| FreeTCPPort : walletCall (result Z)
| Stat (path : string) : walletCall statResult
| RemoveFile (path : string) : walletCall (option error)
| NowText : walletCall string
| WSleep (d : Z) : walletCall (option error)
(* the child process *)
| OsPipe : walletCall (option error)
| StartProcess (bin : string) (args : list string) : walletCall (option error)
| ScanLine : walletCall (option string)
| KillProcess : walletCall (option error)
| WaitProcess : walletCall unit
(* monerod *)
| GetInfo (node : Config.MoneroNode) : walletCall (result DaemonInfo)
| GetBlockCount : walletCall (result Z)
(* monero-wallet-rpc *)
| RpcOpenWallet (name password : string) : walletCall (option error)
| RpcCreateWallet (name password : string) : walletCall (option error)
| RpcGenerateFromKeys (name password : string) (address : bytes) (height : Z) (viewKey spendKey : string)
    : walletCall (result string)
| RpcGetAddress (account : Z) : walletCall (result bytes)
| RpcRefresh : walletCall (option error)
| RpcGetBalance (account : Z) : walletCall (result BalanceResponse)
| RpcGetHeight : walletCall (result Z)
| RpcTransfer (amount : Z) (address : bytes) (account : Z) : walletCall (result string)
| RpcSweepAll (account : Z) (address : bytes) : walletCall (result (list string))
| RpcGetTransferByTxid (txID : string) (account : Z) : walletCall (result XMRTransferInfo)
| RpcStopWallet : walletCall (option error).

Module Wallet.
Import Config.

Record WalletClientConf : Type := mkConf {
  wcEnv : Environment;
  wcWalletFilePath : string;
  wcWalletPassword : string;
  wcWalletPort : Z;
  wcMonerodNodes : list MoneroNode;
  wcMoneroWalletRPCPath : string;
  wcLogPath : string
}.

(** [rpcProcess] is whether there is a process; the endpoint is the port of the wallet. *)
Record walletClient : Type := mkWallet {
  rpcProcess : bool;
  walletAddr : option bytes;
  wcConf : option WalletClientConf;
  walletPort : Z
}.

Section wallet.
Context `{Apd} `{CryptoLib} `{!Base58Lib} `{!Answers walletCall}.
Context (homeDir : string).

Abbreviation wal A := (prog (caller walletCall walletClient) A).

(** The error of a call that has nothing else to give. *)
Definition try {A} (c : walletCall (option error)) (k : wal (result A)) : wal (result A) :=
  err <- perform c ;;
  match err with Some e => done (Err e) | None => k end.

(** ** Looking for a node *)

Definition validateMonerodNode (env : Environment) (node : MoneroNode) : wal (option error) :=
  r <- perform (GetInfo node) ;;
  match r with
  | Err e => done (Some (Wrapf "could not validate monerod endpoint" e))
  | Ok info =>
      wrongNet <- pure (match env with
        | Stagenet => Done (if diStagenet info then None else Some (errorf "monerod endpoint is not a stagenet node"))
        | Mainnet => Done (if diMainnet info then None else Some (errorf "monerod endpoint is not a mainnet node"))
        | Development => Done (if bool_decide (diNetType info = "fakechain") then None
                               else Some (errorf "monerod endpoint should have a network type of fakechain"))
        | _ => Panicked "unhandled environment type"
        end) ;;
      match wrongNet with
      | Some e => done (Some e)
      | None =>
          if negb (bool_decide (env = Development)) && diOffline info
          then done (Some (errorf "monerod endpoint is offline"))
          else if negb (diSynchronized info) then done (Some (errorf "monerod endpoint is not synchronised"))
          else done None
      end
  end.

(** The loop with the error of the previous node. *)
Fixpoint tryNodes (env : Environment) (nodes : list MoneroNode) (lastErr : error) : wal (result MoneroNode) :=
  match nodes with
  | [] => done (Err (Wrapf "failed to validate any monerod RPC node" lastErr))
  | n :: rest =>
      err <- validateMonerodNode env n ;;
      match err with
      | Some e => tryNodes env rest e
      | None => done (Ok n)
      end
  end.

Definition findWorkingNode (env : Environment) (nodes : list MoneroNode) : wal (result MoneroNode) :=
  match nodes with
  | [] => done (Err (errorf "no monero nodes"))
  | _ => tryNodes env nodes (errorf "")
  end.

(** ** The child process *)

Definition getMoneroWalletRPCBin : wal (result string) :=
  r <- perform (LookPath (GoPath.Join ["monero-bin"; "monero-wallet-rpc"])) ;;
  match r with
  | Ok p => done (Ok p)
  | Err e => if negb (errorsIs e ErrNotExist) then done (Err e) else perform (LookPath "monero-wallet-rpc")
  end.

Definition getWalletRPCFlags (env : Environment) (port : Z) (walletDir logFilePath : string) (node : MoneroNode)
  : outcome (list string) :=
  let args :=
    ["--rpc-bind-ip=127.0.0.1"; "--rpc-bind-port=" +:+ pretty.pretty port; "--disable-rpc-login";
     "--wallet-dir=" +:+ walletDir; "--log-file=" +:+ logFilePath; "--log-level=0";
     "--daemon-host=" +:+ nodeHost node; "--daemon-port=" +:+ pretty.pretty (nodePort node)]%string in
  match env with
  | Development => Done (args ++ ["--allow-mismatched-daemon-version"%string])
  | Mainnet => Done args
  | Stagenet => Done (args ++ ["--stagenet"%string])
  | _ => Panicked "unhandled monero environment type"
  end.

(** [strings.HasSuffix] *)
Definition hasSuffix (s suffix : string) : bool :=
  bool_decide (stringsDrop (String.length s - String.length suffix) s = suffix).

(** The lines of the child up to the one that says it started, at most [fuel]; false when
    its output ended. *)
Fixpoint scanUntilStarted (fuel : nat) : wal bool :=
  match fuel with
  | O => nofuel
  | S fuel' =>
      line <- perform ScanLine ;;
      match line with
      | None => done false
      | Some l => if hasSuffix l "Starting wallet RPC server" then done true else scanUntilStarted fuel'
      end
  end.

Definition launchMoneroWalletRPCChild (fuel : nat) (bin : string) (args : list string) : wal (result unit) :=
  try OsPipe
    (try (StartProcess bin args)
       (started <- scanUntilStarted fuel ;;
        if negb started then perform WaitProcess ;;; done (Err (errorf "failed to start monero-wallet-rpc"))
        else done (Ok tt))).

Definition createWalletRPCService (fuel : nat) (env : Environment) (bin : string) (port : Z)
    (walletDir logFilePath : string) (node : MoneroNode) : wal (result unit) :=
  args <- pure (getWalletRPCFlags env port walletDir logFilePath node) ;;
  mapErr (Wrapf "see the log for details") (launchMoneroWalletRPCChild fuel bin args).

(** ** The client *)

(** [NewThinWalletClient], and [rpcProcess] and [conf] set after it. *)
Definition setClient (c : walletClient) : wal unit := modF (fun _ => c).

Definition NewThinWalletClient (port : Z) : walletClient := mkWallet false None None port.

Definition Close : wal unit :=
  running <- getF rpcProcess ;;
  if negb running then done tt
  else
    err <- perform RpcStopWallet ;;
    err <- (match err with None => done None | Some _ => perform KillProcess end) ;;
    match err with
    | None => perform WaitProcess
    | Some _ => done tt
    end.

Definition CloseAndRemoveWallet : wal unit :=
  Close ;;;
  conf <- getF wcConf ;;
  conf <- pure (deref conf) ;;
  perform (RemoveFile (wcWalletFilePath conf)) ;;;
  perform (RemoveFile (wcWalletFilePath conf +:+ ".keys")%string) ;;;
  perform (RemoveFile (wcWalletFilePath conf +:+ ".address.txt")%string) ;;;
  done tt.

Definition refresh {A} (k : wal (result A)) : wal (result A) := try RpcRefresh k.

Definition GetAddress (idx : Z) : wal (result bytes) := perform (RpcGetAddress idx).

Definition GetBalance (idx : Z) : wal (result BalanceResponse) := refresh (perform (RpcGetBalance idx)).

Definition GetHeight : wal (result Z) := refresh (perform RpcGetHeight).

Definition getChainHeight : wal (result Z) := perform GetBlockCount.

Definition PrimaryAddress : wal bytes :=
  a <- getF walletAddr ;;
  match a with
  | None => panic "primary wallet address was not initialised"
  | Some a => done a
  end.

Definition CreateWallet (filename password : string) : wal (option error) :=
  perform (RpcCreateWallet filename password).

Definition generateFromKeys (sk : option Scalar) (vk : Scalar) (address : bytes) (restoreHeight : Z)
    (filename password : string) : wal (result unit) :=
  let spendKey := match sk with Some k => hexEncodeToString (scalarBytes k) | None => ""%string end in
  addr <- pure (Address_String address) ;;
  info <-? perform (RpcGenerateFromKeys filename password addr restoreHeight (hexEncodeToString (scalarBytes vk)) spendKey) ;;
  let expected := if bool_decide (spendKey = "") then "Watch-only wallet has been generated successfully."%string
                  else "Wallet has been generated successfully."%string in
  if negb (bool_decide (info = expected)) then done (Err (errorf "got unexpected Info string"))
  else done (Ok tt).

(** The end of both constructors: the address of the account becomes the client's. *)
Definition setWalletAddr (env : Environment) : wal (result bytes) :=
  acct <-? GetAddress 0 ;;
  r <- pure (NewAddress acct env) ;;
  let '(addr, err) := r in
  modF (fun c => mkWallet (rpcProcess c) addr (wcConf c) (walletPort c)) ;;;
  match err, addr with
  | Some e, _ => done (Err e)
  | None, Some a => done (Ok a)
  | None, None => panic "nil pointer dereference"
  end.

(** An error closes the client. *)
Definition orClose {A} (m : wal (result A)) : wal (result A) :=
  r <- m ;;
  match r with
  | Ok a => done (Ok a)
  | Err e => Close ;;; done (Err e)
  end.

Definition setPort (port : Z) (c : WalletClientConf) : WalletClientConf :=
  mkConf (wcEnv c) (wcWalletFilePath c) (wcWalletPassword c) port (wcMonerodNodes c) (wcMoneroWalletRPCPath c) (wcLogPath c).

Definition portOrFree (c : WalletClientConf) : wal (result WalletClientConf) :=
  if wcWalletPort c =? 0 then
    port <-? perform FreeTCPPort ;;
    done (Ok (setPort port c))
  else done (Ok c).

(** [Fill]: the configuration filled in. *)
Definition Fill (c : WalletClientConf) : wal (result WalletClientConf) :=
  if bool_decide (wcWalletFilePath c = "") then panic "WalletFilePath is a required conf field"
  else
    bin <-? (if bool_decide (wcMoneroWalletRPCPath c = "") then getMoneroWalletRPCBin
             else done (Ok (wcMoneroWalletRPCPath c))) ;;
    nodes <- (match wcMonerodNodes c with
              | [] => cfg <- pure (ConfigDefaultsForEnv homeDir (wcEnv c)) ;; done (cfMoneroNodes cfg)
              | nodes => done nodes
              end) ;;
    validatedNode <-? findWorkingNode (wcEnv c) nodes ;;
    let logPath := if bool_decide (wcLogPath c = "")
                   then GoPath.Join [GoPath.Dir (GoPath.Dir (wcWalletFilePath c)); "monero-wallet-rpc.log"]
                   else wcLogPath c in
    portOrFree (mkConf (wcEnv c) (wcWalletFilePath c) (wcWalletPassword c) (wcWalletPort c) [validatedNode] bin logPath).

(** [FileExists] on what [os.Stat] said. *)
Definition fileExists (st : statResult) : result bool :=
  match st with
  | StatDir => Err (errorf "is occupied by a directory")
  | StatFile => Ok true
  | StatErr e => if errorsIs e ErrNotExist then Ok false else Err e
  end.

Definition FileExists (path : string) : wal (result bool) :=
  st <- perform (Stat path) ;;
  done (fileExists st).

(** The first node of a configuration. *)
Definition firstNode (c : WalletClientConf) : outcome MoneroNode :=
  match wcMonerodNodes c with n :: _ => Done n | [] => Panicked "index out of range" end.

(** Launch the process and connect to it. *)
Definition launch (fuel : nat) (c : WalletClientConf) (conf : option WalletClientConf) : wal (result unit) :=
  node <- pure (firstNode c) ;;
  _ <-? createWalletRPCService fuel (wcEnv c) (wcMoneroWalletRPCPath c) (wcWalletPort c)
          (GoPath.Dir (wcWalletFilePath c)) (wcLogPath c) node ;;
  let client := NewThinWalletClient (wcWalletPort c) in
  setClient (mkWallet true (walletAddr client) conf (walletPort client)) ;;;
  done (Ok tt).

Definition NewWalletClient (fuel : nat) (conf : WalletClientConf) : wal (result unit) :=
  if bool_decide (GoPath.Dir (wcWalletFilePath conf) = ".")
  then done (Err (errorf "wallet file cannot be in the current working directory"))
  else
    conf <-? Fill conf ;;
    walletExists <-? FileExists (wcWalletFilePath conf) ;;
    _ <-? launch fuel conf None ;;
    let walletName := GoPath.Base (wcWalletFilePath conf) in
    _ <-? orClose (try (if walletExists then RpcOpenWallet walletName (wcWalletPassword conf)
                        else RpcCreateWallet walletName (wcWalletPassword conf)) (done (Ok tt))) ;;
    _ <-? orClose (setWalletAddr (wcEnv conf)) ;;
    modF (fun c => mkWallet (rpcProcess c) (walletAddr c) (Some conf) (walletPort c)) ;;;
    done (Ok tt).

(** [createWalletFromKeys] once the process runs. *)
Definition importKeys (conf : WalletClientConf) (restoreHeight : Z) (sk : option Scalar) (vk : Scalar)
    (address : bytes) : wal (result unit) :=
  _ <-? generateFromKeys sk vk address restoreHeight (GoPath.Base (wcWalletFilePath conf)) (wcWalletPassword conf) ;;
  addr <-? setWalletAddr (wcEnv conf) ;;
  if negb (bool_decide (addr = address))
  then done (Err (errorf "provided address does not match monero-wallet-rpc computed address"))
  else
    _ <-? GetBalance 0 ;;
    done (Ok tt).

Definition createWalletFromKeys (fuel : nat) (conf : WalletClientConf) (restoreHeight : Z) (sk : option Scalar)
    (vk : Scalar) (address : bytes) : wal (result unit) :=
  conf <-? portOrFree conf ;;
  _ <-? launch fuel conf (Some conf) ;;
  orClose (importKeys conf restoreHeight sk vk address).

Definition CreateSpendWalletFromKeys (fuel : nat) (conf : WalletClientConf) (kp : PrivateKeyPair)
    (restoreHeight : Z) : wal (result unit) :=
  address <- pure (PublicKeyPair_Address (PrivateKeyPair_PublicKeyPair kp) (wcEnv conf)) ;;
  createWalletFromKeys fuel conf restoreHeight (Some (kpSpend kp)) (kpView kp) address.

Definition CreateViewOnlyWalletFromKeys (fuel : nat) (conf : WalletClientConf) (vk : Scalar) (address : bytes)
    (restoreHeight : Z) : wal (result unit) :=
  createWalletFromKeys fuel conf restoreHeight None vk address.

(** A nil configuration (a thin client) is dereferenced. *)
Definition CreateWalletConf (walletNamePrefix : string) : wal WalletClientConf :=
  now <- perform NowText ;;
  conf <- getF wcConf ;;
  c <- pure (deref conf) ;;
  let walletPath := GoPath.Join [GoPath.Dir (wcWalletFilePath c); walletNamePrefix +:+ "-" +:+ now]%string in
  done (mkConf (wcEnv c) walletPath (wcWalletPassword c) 0 (wcMonerodNodes c) (wcMoneroWalletRPCPath c) (wcLogPath c)).

Definition WalletName : wal string :=
  conf <- getF wcConf ;;
  c <- pure (deref conf) ;;
  done (GoPath.Base (wcWalletFilePath c)).

(** ** Waiting and paying *)

Definition blockSleepDuration : Z := 10 * Second.

(** The loop of [WaitForBlocks], at most [fuel] turns. *)
Fixpoint awaitHeight (fuel : nat) (endHeight : Z) : wal (result Z) :=
  match fuel with
  | O => nofuel
  | S fuel' =>
      height <-? getChainHeight ;;
      if endHeight <=? height then refresh (done (Ok height))
      else try (WSleep blockSleepDuration) (awaitHeight fuel' endHeight)
  end.

(** Heights are uint64, [count] an int. *)
Definition WaitForBlocks (fuel : nat) (count : Z) : wal (result Z) :=
  startHeight <-? mapErr (Wrapf "failed to get height") getChainHeight ;;
  awaitHeight fuel ((startHeight + count) mod 2 ^ 64).

(** The loop of [waitForReceipt]. *)
Fixpoint awaitConfirmations (fuel : nat) (txID : string) (confirmations account : Z) : wal (result XMRTransferInfo) :=
  match fuel with
  | O => nofuel
  | S fuel' =>
      transfer <-? perform (RpcGetTransferByTxid txID account) ;;
      if (0 <? xtHeight transfer) && (confirmations <=? xtConfirmations transfer) then done (Ok transfer)
      else
        _ <-? WaitForBlocks fuel 1 ;;
        awaitConfirmations fuel' txID confirmations account
  end.

Definition waitForReceipt (fuel : nat) (txID : string) (confirmations account : Z) : wal (result XMRTransferInfo) :=
  _ <-? GetHeight ;;
  awaitConfirmations fuel txID confirmations account.

(** [strconv.ParseUint(s, 10, 64)] *)
Fixpoint digitsValue (s : string) (acc : Z) : option Z :=
  match s with
  | EmptyString => Some acc
  | String c rest =>
      let d := Z.of_N (N_of_ascii c) - 48 in
      if (0 <=? d) && (d <=? 9) then digitsValue rest (10 * acc + d) else None
  end.

Definition parseUint64 (s : string) : result Z :=
  if bool_decide (s = "") then Err (errorf "invalid syntax")
  else
    match digitsValue s 0 with
    | None => Err (errorf "invalid syntax")
    | Some v => if uint64_max <? v then Err (errorf "value out of range") else Ok v
    end.

(** coins.PiconeroAmount.Uint64 *)
Definition PiconeroAmount_Uint64 (a : Decimal) : result Z :=
  if dNegative a then Err (errorf "cannot convert to unsigned") else parseUint64 (apdText a).

(** The amount in XMR is only for the log, but computing it may panic. *)
Definition Transfer (fuel : nat) (to : bytes) (account : Z) (amount : Decimal) (confirmations : Z)
  : wal (result XMRTransferInfo) :=
  amt <-? done (PiconeroAmount_Uint64 amount) ;;
  _ <- pure (AsMonero amount) ;;
  addr <- pure (Address_String to) ;;
  txHash <-? mapErr (Wrapf "transfer failed") (perform (RpcTransfer amt addr account)) ;;
  mapErr (Wrapf "receipt failure") (waitForReceipt fuel txHash confirmations account).

(** The receipts of a sweep, in order. *)
Fixpoint awaitAll (fuel : nat) (txIDs : list string) (confirmations account : Z) (transfers : list XMRTransferInfo)
  : wal (result (list XMRTransferInfo)) :=
  match txIDs with
  | [] => done (Ok transfers)
  | txID :: rest =>
      receipt <-? mapErr (Wrapf "sweep failed waiting for receipt") (waitForReceipt fuel txID confirmations account) ;;
      awaitAll fuel rest confirmations account (transfers ++ [receipt])
  end.

Definition SweepAll (fuel : nat) (to : bytes) (account confirmations : Z) : wal (result (list XMRTransferInfo)) :=
  _ <-? mapErr (Wrapf "sweep operation failed to get address") (GetAddress account) ;;
  balance <-? mapErr (Wrapf "sweep operation failed to get balance") (GetBalance account) ;;
  if brBalance balance =? 0 then done (Err (errorf "sweep failed, no balance to sweep"))
  else
    _ <-? (if 0 <? brBlocksToUnlock balance
           then mapErr (Wrapf "sweep operation failed waiting to unlock balance")
                  (WaitForBlocks fuel (brBlocksToUnlock balance))
           else done (Ok 0)) ;;
    addr <- pure (Address_String to) ;;
    txIDs <-? mapErr (Wrapf "sweep_all failed") (perform (RpcSweepAll account addr)) ;;
    awaitAll fuel txIDs confirmations account [].

(** protocol/backend: the transfers a user asks for, from the main account, with one
    confirmation. *)
Definition TransferXMR (fuel : nat) (to : bytes) (amount : Decimal) : wal (result string) :=
  res <-? Transfer fuel to 0 amount 1 ;;
  done (Ok (xtTxID res)).

Definition SweepXMR (fuel : nat) (to : bytes) : wal (result (list string)) :=
  res <-? SweepAll fuel to 0 1 ;;
  done (Ok (xtTxID <$> res)).

End wallet.
End Wallet.
