(* ===== verification/WalletProofs.v ===== *)
(** * Theorems on the client of monero-wallet-rpc *)

From stdpp Require Import base gmap list strings.
From Stdlib Require Import ZArith Strings.Byte.
From S2P Require Import Prelude Calls Coins Types Bytes Crypto Base58 Base58Proofs Contracts External Config Wallet.

Open Scope Z_scope.
Open Scope go_scope.

Module WalletProofs.
Import Config Wallet.

Section proofs.
Context `{Apd} `{CryptoLib} `{!Base58Lib} `{!Answers walletCall}.
Context (homeDir : string).
Implicit Types s : caller walletCall walletClient.


(** ** Confirmed payments *)

Definition pays (e : event walletCall) : bool :=
  match e with Ev (RpcTransfer _ _ _) _ | Ev (RpcSweepAll _ _) _ => true | _ => false end.

(** Nothing is paid. *)
Definition idle : caller walletCall walletClient → caller walletCall walletClient → Prop :=
  only (fun e => negb (pays e)).

Lemma idle_onwards s s' : idle s s' → onwards s s'.
Proof. by apply only_weaken. Qed.

Lemma idle_try {A} c (k : prog (caller walletCall walletClient) (result A)) :
  (∀ a, negb (pays (Ev c a)) = true) → keeps idle k → keeps idle (try c k).
Proof.
  intros Hc Hk. unfold try. apply keeps_bind; [apply only_preorder | by apply only_perform |].
  intros [e|]; [apply keeps_done, only_preorder | done].
Qed.

Lemma idle_awaitHeight fuel h : keeps idle (awaitHeight fuel h).
Proof.
  unfold idle. induction fuel as [|fuel IH]; cbn [awaitHeight]; [apply keeps_nofuel, only_preorder|].
  unfold getChainHeight, refresh. keeps_auto; apply idle_try; try done. apply keeps_done, only_preorder.
Qed.

Lemma idle_WaitForBlocks fuel n : keeps idle (WaitForBlocks fuel n).
Proof. unfold WaitForBlocks, getChainHeight, idle. keeps_auto. apply idle_awaitHeight. Qed.

Lemma idle_waitForReceipt fuel tx c a : keeps idle (waitForReceipt fuel tx c a).
Proof.
  unfold waitForReceipt, GetHeight, refresh. apply keeps_try; [apply only_preorder | apply idle_try; [done|]; unfold idle; keeps_auto |].
  intros _. unfold idle. induction fuel as [|fuel IH]; cbn [awaitConfirmations]; keeps_auto. apply idle_WaitForBlocks.
Qed.

Definition confirmed (tx : string) (confirmations account : Z) (t : XMRTransferInfo) s s' : Prop :=
  happened s s' (Ev (RpcGetTransferByTxid tx account) (Ok t)) ∧ 0 < xtHeight t ∧ confirmations ≤ xtConfirmations t.

Lemma awaitConfirmations_Ok fuel tx c a s t s' : awaitConfirmations fuel tx c a s = (Done (Ok t), s') → confirmed tx c a t s s'.
Proof.
  revert s. induction fuel as [|fuel IH]; intros s; cbn [awaitConfirmations]; [done|]. intros E.
  apply pbind_inv_Done in E as ([t1|e] & s1 & Ht & E); [|done]. pose proof (perform_happened _ _ _ _ Ht) as Hh.
  apply perform_inv in Ht as (_ & S1 & _).
  destruct ((0 <? xtHeight t1) && (c <=? xtConfirmations t1)) eqn:Hc.
  - injection E as -> <-. apply andb_true_iff in Hc as [Hh1 Hc1]. apply Z.ltb_lt in Hh1. apply Z.leb_le in Hc1. by split.
  - apply pbind_inv_Done in E as ([h|e] & s2 & Hw & E); [|done]. apply IH in E as (Hh2 & ?).
    split; [|done]. eapply happened_earlier; [by eapply onwards_since|].
    eapply happened_earlier; [|exact Hh2]. apply idle_onwards. pose proof (idle_WaitForBlocks (S fuel) 1 s1) as K.
    by rewrite Hw in K.
Qed.

Lemma waitForReceipt_Ok fuel tx c a s t s' : waitForReceipt fuel tx c a s = (Done (Ok t), s') → confirmed tx c a t s s'.
Proof.
  unfold waitForReceipt. intros E. apply pbind_inv_Done in E as ([h|e] & s1 & Hg & E); [|done].
  apply awaitConfirmations_Ok in E as (Hh & ?). split; [|done]. eapply happened_earlier; [|exact Hh].
  apply idle_onwards. assert (K : keeps idle GetHeight) by (apply idle_try; [done | unfold idle; keeps_auto]).
  specialize (K s). by rewrite Hg in K.
Qed.

(** C14: safety.  A transfer that is reported as done was ordered once, for the exact number
    of piconeros and to the given address, and the wallet has since reported it as mined
    with at least the confirmations that were asked for. *)
Theorem transfer_is_confirmed (fuel : nat) (to : bytes) (account : Z) (amount : Decimal) (confirmations : Z)
    (t : XMRTransferInfo) (s s' : caller walletCall walletClient) :
  Transfer fuel to account amount confirmations s = (Done (Ok t), s') →
  ∃ amt addr tx es, PiconeroAmount_Uint64 amount = Ok amt ∧ Address_String to = Done addr ∧
    since s s' (es ++ [Ev (RpcTransfer amt addr account) (Ok tx)]) ∧ forallb (fun e => negb (pays e)) es = true ∧
    confirmed tx confirmations account t s s'.
Proof.
  unfold Transfer. intros E. apply pbind_inv_Done in E as ([amt|e] & s1 & Ha & E); [|done]. injection Ha as Ha <-.
  apply pbind_inv_Done in E as (x & s1 & Hx & E). apply pure_inv in Hx as [_ ->].
  apply pbind_inv_Done in E as (addr & s1 & Hd & E). apply pure_inv in Hd as [Hd ->].
  apply pbind_inv_Done in E as ([tx|e] & s1 & Ht & E); [|done]. apply mapErr_Ok_run in Ht, E.
  pose proof (idle_waitForReceipt fuel tx confirmations account s1) as K. rewrite E in K.
  destruct K as (es & E2 & F). apply waitForReceipt_Ok in E as (Hh & Hc).
  apply perform_inv in Ht as (_ & E1 & _). exists amt, addr, tx, es.
  split_and!; [done | done | by eapply since_trans | done |]. split; [|done].
  eapply happened_earlier; [by eapply onwards_since | exact Hh].
Qed.

(** ** Choosing a node *)

Definition nodeOk (env : Environment) (info : DaemonInfo) : bool :=
  match env with
  | Stagenet => diStagenet info && negb (diOffline info)
  | Mainnet => diMainnet info && negb (diOffline info)
  | Development => bool_decide (diNetType info = "fakechain")
  | _ => false
  end && diSynchronized info.

Lemma validate_spec env n s r s' : validateMonerodNode env n s = (Done r, s') →
  ∃ a, since s s' [Ev (GetInfo n) a] ∧
    (r = None ↔ ∃ info, a = Ok info ∧ nodeOk env info = true).
Proof.
  unfold validateMonerodNode. intros E. apply pbind_inv_Done in E as (a & s1 & Hg & E).
  apply perform_inv in Hg as (_ & S1 & _). exists a. destruct a as [info|e].
  2: { injection E as <- <-. split; [done|]. split; [done|]. by intros (? & ? & _). }
  apply pbind_inv_Done in E as (w & s2 & Hw & E). apply pure_inv in Hw as [Hw ->].
  assert (Hs : s' = s1 ∧ (r = None ↔ nodeOk env info = true)).
  { unfold nodeOk. destruct env; try done; injection Hw as <-; destruct info as [st mn nt off sy]; cbn in *;
      [destruct mn, off, sy | destruct st, off, sy | destruct (bool_decide (nt = _)), sy]; cbn in E;
      injection E as <- <-; (split; [done|]; by split). }
  destruct Hs as [-> Hr]. split; [done|]. rewrite Hr. split; [by eauto|]. by intros (? & [= <-] & ?).
Qed.

Definition refused (env : Environment) s s' (n : MoneroNode) : Prop :=
  ∃ a, happened s s' (Ev (GetInfo n) a) ∧ ∀ info, a = Ok info → nodeOk env info = false.

Lemma tryNodes_Ok env nodes le s n s' : tryNodes env nodes le s = (Done (Ok n), s') →
  ∃ pre post info, nodes = pre ++ n :: post ∧ Forall (refused env s s') pre ∧
    happened s s' (Ev (GetInfo n) (Ok info)) ∧ nodeOk env info = true.
Proof.
  revert le s. induction nodes as [|m nodes IH]; intros le s; cbn [tryNodes]; [done|]. intros E.
  apply pbind_inv_Done in E as (r & s1 & Hv & E). apply validate_spec in Hv as (a & S1 & Hr).
  assert (Hm : happened s s1 (Ev (GetInfo m) a)) by (exists [Ev (GetInfo m) a]; split; [done | constructor]).
  destruct r as [e|].
  - apply IH in E as (pre & post & info & -> & Hf & Hh & Ho).
    assert (O1 : onwards s s1) by by eapply onwards_since. exists (m :: pre), post, info.
    split_and!; [done | | by eapply happened_earlier | done]. constructor.
    + exists a. split.
      * eapply happened_later; [exact Hm|]. destruct Hh as (es & Es & _). by eapply onwards_since.
      * intros i ->. apply not_true_is_false. intros Hi. destruct Hr as [_ Hr]. discriminate Hr. by eauto.
    + eapply Forall_impl; [exact Hf|]. intros k (b & Hb & ?). exists b. split; [by eapply happened_earlier | done].
  - injection E as <- <-. destruct Hr as [Hr _]. destruct (Hr eq_refl) as (info & -> & Ho).
    by exists [], nodes, info.
Qed.

(** Functional.  The node the wallet is started with is the first of the list that
    answered as a synchronised node of the environment's network, and not offline unless in
    development; every node before it was asked and did not qualify. *)
Theorem findWorkingNode_first (env : Environment) (nodes : list MoneroNode) (n : MoneroNode)
    (s s' : caller walletCall walletClient) :
  findWorkingNode env nodes s = (Done (Ok n), s') →
  ∃ pre post info, nodes = pre ++ n :: post ∧ Forall (refused env s s') pre ∧
    happened s s' (Ev (GetInfo n) (Ok info)) ∧ nodeOk env info = true.
Proof. unfold findWorkingNode. destruct nodes; [done|]. apply tryNodes_Ok. Qed.

(** ** The wallet process *)

(** A process was started. *)
Definition starts (e : event walletCall) : bool :=
  match e with Ev (StartProcess _ _) None => true | _ => false end.

(** No process is started. *)
Definition calm : caller walletCall walletClient → caller walletCall walletClient → Prop :=
  only (fun e => negb (starts e)).

Lemma calm_try {A} c (k : prog (caller walletCall walletClient) (result A)) :
  (∀ a, negb (starts (Ev c a)) = true) → keeps calm k → keeps calm (try c k).
Proof.
  intros Hc Hk. unfold try. apply keeps_bind; [apply only_preorder | by apply only_perform |].
  intros [e|]; [apply keeps_done, only_preorder | done].
Qed.

































(** ** Waiting for blocks *)

(** The chain has reached a height for good, and nothing fails. *)
Definition reachedAt (h : Z) (k : nat) : Prop :=
  (∀ i, ∃ c, respond _ i GetBlockCount = Ok c ∧ ((k ≤ i)%nat → h ≤ c)) ∧
  (∀ i d, respond _ i (WSleep d) = None) ∧ (∀ i, respond _ i RpcRefresh = None).

Lemma awaitHeight_ends h k d s : reachedAt h k → (k ≤ ticks s + d)%nat →
  ∃ c s', awaitHeight (S d) h s = (Done (Ok c), s') ∧ h ≤ c.
Proof.
  intros (Hc & Hs & Hr). revert s. induction d as [|d IH]; intros s Hd; cbn [awaitHeight];
    unfold tryBind at 1, pbind at 1, getChainHeight, perform at 1;
    destruct (Hc (ticks s)) as (c & Ec & Hle); rewrite Ec; destruct (Z.leb_spec h c) as [Hh|Hh].
  - unfold refresh, try, pbind, perform. rewrite Hr. by do 2 eexists.
  - exfalso. specialize (Hle ltac:(lia)). lia.
  - unfold refresh, try, pbind, perform. rewrite Hr. by do 2 eexists.
  - unfold try, pbind at 1, perform at 1. rewrite Hs. apply IH. cbn. lia.
Qed.

(** Liveness.  Waiting for blocks ends: once the chain is [count] blocks further than
    at the start, and the calls do not fail, [WaitForBlocks] returns a height that many
    blocks on. *)
Theorem WaitForBlocks_ends (count start : Z) (k : nat) (s : caller walletCall walletClient) :
  respond _ (ticks s) GetBlockCount = Ok start → 0 ≤ start + count < 2 ^ 64 →
  reachedAt (start + count) k →
  ∃ fuel c s', WaitForBlocks fuel count s = (Done (Ok c), s') ∧ start + count ≤ c.
Proof.
  intros Hst Hr Hk. unfold WaitForBlocks, mapErr, getChainHeight, tryBind, pbind, perform. rewrite Hst. cbn.
  rewrite Z.mod_small by lia. set (s1 := mkCaller _ _ _).
  destruct (awaitHeight_ends (start + count) k k s1 Hk) as (c & s2 & Hw & Hle); [lia|].
  exists (S k), c, s2. split; [exact Hw | done].
Qed.

End proofs.
End WalletProofs.
