(* ===== verification/WalletWitness.v ===== *)
(** * The wallet client at concrete runs *)

From stdpp Require Import base gmap list strings.
From Stdlib Require Import ZArith Strings.Byte.
From S2P Require Import Prelude Calls Coins RefApd CoinsProofs Types Bytes Crypto CryptoProofs Base58 Base58Proofs Contracts External Config Wallet WalletProofs.

Open Scope Z_scope.
Open Scope go_scope.

Module WalletWitness.
Import Config Wallet WalletProofs.

Definition farNode : MoneroNode := mkNode "node.far.example" 18081.
Definition nearNode : MoneroNode := mkNode "node.near.example" 18089.

(** The chain has height 100 before the seventh call and 101 from then on; the transfer is
    unmined until then. *)
Definition heightAt (i : nat) : Z := if (i <? 6)%nat then 100 else 101.

Definition transferAt (i : nat) (tx : string) : XMRTransferInfo :=
  if (i <? 6)%nat then mkTransfer tx 0 0 5 1 else mkTransfer tx 101 1 5 1.

(** Of the two nodes only the second is synchronised. *)
#[local] Instance sampleRpc : Answers walletCall := fun A i c =>
  match c in walletCall B return B with
  | LookPath f => Ok f
  | FreeTCPPort => Ok 18083
  | Stat _ => StatErr ErrNotExist
  | RemoveFile _ | WSleep _ | OsPipe | StartProcess _ _ | KillProcess => None
  | NowText => "2024-01-02-03:04:05"%string
  | ScanLine => Some "I Starting wallet RPC server"%string
  | WaitProcess => tt
  | GetInfo node => Ok (mkInfo false true "mainnet" false (bool_decide (nodeHost node = "node.near.example")))
  | GetBlockCount => Ok (heightAt i)
  | RpcOpenWallet _ _ | RpcCreateWallet _ _ | RpcRefresh | RpcStopWallet => None
  | RpcGenerateFromKeys _ _ _ _ _ sk =>
      Ok (if bool_decide (sk = "") then "Watch-only wallet has been generated successfully."
          else "Wallet has been generated successfully.")%string
  | RpcGetAddress _ => Ok sampleAddressText
  | RpcGetBalance _ => Ok (mkBalance 5 5 0)
  | RpcGetHeight => Ok (heightAt i)
  | RpcTransfer _ _ _ => Ok "txid"%string
  | RpcSweepAll _ _ => Ok ["txid"%string]
  | RpcGetTransferByTxid tx _ => Ok (transferAt i tx)
  end.

Definition wallet0 : walletClient := mkWallet false None None 0.
Definition start0 : caller walletCall walletClient := mkCaller wallet0 0 [].

(** Five piconeros: unmined at first, one confirmation a block later. *)
Definition fivePiconero : Decimal := mkDec Finite false 0 5.

Lemma transfer_is_confirmed_witness :
  ∃ amt addr tx es, PiconeroAmount_Uint64 fivePiconero = Ok amt ∧ Address_String sampleAddress = Done addr ∧
    since start0 (Transfer 9 sampleAddress 0 fivePiconero 1 start0).2 (es ++ [Ev (RpcTransfer amt addr 0) (Ok tx)]) ∧
    forallb (fun e => negb (pays e)) es = true ∧
    confirmed tx 1 0 (transferAt 9 "txid") start0 (Transfer 9 sampleAddress 0 fivePiconero 1 start0).2.
Proof.
  apply (transfer_is_confirmed 9 sampleAddress 0 fivePiconero 1 (transferAt 9 "txid") start0). vm_compute. reflexivity.
Defined.

Lemma findWorkingNode_first_witness :
  ∃ pre post info, [farNode; nearNode] = pre ++ nearNode :: post ∧
    Forall (refused Mainnet start0 (findWorkingNode Mainnet [farNode; nearNode] start0).2) pre ∧
    happened start0 (findWorkingNode Mainnet [farNode; nearNode] start0).2 (Ev (GetInfo nearNode) (Ok info)) ∧
    nodeOk Mainnet info = true.
Proof. apply (findWorkingNode_first Mainnet [farNode; nearNode] nearNode start0). vm_compute. reflexivity. Defined.

Definition viewKey7 : @Scalar refCrypto := residueOf 7.

Definition conf0 : WalletClientConf := mkConf Mainnet "/var/wallets/swap" "" 0 [nearNode] "monero-wallet-rpc" "/var/log".



Lemma WaitForBlocks_ends_witness : ∃ fuel c s', WaitForBlocks fuel 1 start0 = (Done (Ok c), s') ∧ 100 + 1 ≤ c.
Proof.
  apply (WaitForBlocks_ends 1 100 6 start0); [reflexivity | lia |].
  split; [|done]. intros i. exists (heightAt i). split; [done|]. unfold heightAt. intros Hi.
  destruct (Nat.ltb_spec i 6); lia.
Defined.

(** A wallet whose address is not the expected one is refused, and its process stopped. *)
Example other_address_refused :
  let s' := (createWalletFromKeys 3 conf0 90 None viewKey7 (repeat x00 69) start0) in
  s'.1 = Done (Err (errorf "provided address does not match monero-wallet-rpc computed address")) ∧
  hd_error (log s'.2) = Some (Ev WaitProcess tt).
Proof. split; vm_compute; reflexivity. Qed.

End WalletWitness.
