(* ===== verification/Rpc.v ===== *)
(** * The JSON-RPC and websocket server (packages rpc and pricefeed)

    The services call the interfaces Net, XMRTaker, XMRMaker, ProtocolBackend and
    RecoveryDB, the Ethereum client, the price oracles and websocket connections: these
    calls are [rpcCall]s, performed by [RpcEnv].  The swap manager is the one of Swap.v,
    inside the state of the program. *)

From stdpp Require Import base gmap list strings.
From Stdlib Require Import ZArith Strings.Byte.
From S2P Require Import Prelude Coins Types Swap Bytes Crypto Base58 Contracts External EthClient Wallet Net.

Open Scope Z_scope.
Open Scope go_scope.

(** ** common/types/pairs.go *)

Record Pair : Type := mkPair {
  prReportedLiquidityXMR : Decimal;
  prEthAsset : Address;
  prToken : ERC20TokenInfo;
  prOffers : Z;
  prVerified : bool
}.

(** The zero value of the token information. *)
Definition noToken : ERC20TokenInfo := mkToken zeroAddress 0 "" "".

Definition NewPair (asset : Address) : Pair := mkPair (apdNew 0 0) asset noToken 0 false.

(** ** Requests and messages of the websocket *)

Record TakeOfferRequest : Type := mkTake {
  tkPeerID : string;
  tkOfferID : Hash;
  tkProvidesAmount : Decimal
}.

Record MakeOfferRequest : Type := mkMake {
  mkMinAmount : Decimal;
  mkMaxAmount : Decimal;
  mkExchangeRate : Decimal;
  mkEthAsset : Address;
  mkUseRelayer : bool
}.

Inductive wsMessage : Type :=
| WsStatus (s : Status)
| WsOffer (peerID : string) (offerID : Hash)
| WsSigner (offerID : Hash) (tx : FrontEndTx)
| WsError (message : string).

(** What the signer loop selects. *)
Inductive signerEvent : Type := SignerTimeout | SignerDone | SignerTx (tx : FrontEndTx).

(** ** The calls of the services

    An interface value of type [common.SwapState] is [None] when it is nil, and
    [Some None] when it holds a nil pointer. *)
Inductive rpcCall `{TypesLib} `{CryptoLib} : Type → Type :=
(* the interface Net *)
| NetPeerID : rpcCall string
| NetAddresses : rpcCall (list string)
| NetConnectedPeers : rpcCall (list string)
| NetDiscover (provides : string) (searchTime : Z) : rpcCall (result (list string))
| NetQuery (who : string) : rpcCall (result (list Offer))
| NetInitiate (who : string) (msg : SendKeysMessage) (st : nat) : rpcCall (option error)
| NetCloseStream (id : Hash) : rpcCall unit
(* XMRTaker and XMRMaker *)
| TakerInitiate (peer : string) (amount : Decimal) (o : Offer) : rpcCall (result nat)
| TakerSwapState (id : Hash) : rpcCall (option (option nat))
| TakerExternalSender (id : Hash) : rpcCall (result unit)
| MakerSwapState (id : Hash) : rpcCall (option (option nat))
| MakerMakeOffer (o : Offer) (useRelayer : bool) : rpcCall (result OfferExtra)
| MakerGetOffers : rpcCall (list Offer)
| MakerClearOffers (ids : list Hash) : rpcCall (option error)
| MakerMoneroBalance : rpcCall (result (bytes * BalanceResponse))
(* a swap state *)
| StateSendKeys (st : nat) : rpcCall SendKeysMessage
| StateExit (st : nat) : rpcCall (option error)
(* ProtocolBackend and its Ethereum client *)
| BackendSwapTimeout : rpcCall Z
| BackendSetSwapTimeout (d : Z) : rpcCall unit
| BackendSwapCreatorAddr : rpcCall Address
| BackendSetDeposit (a : bytes) (id : Hash) : rpcCall unit
| BackendClearDeposit (id : Hash) : rpcCall unit
| BackendTransferXMR (to : bytes) (amount : Decimal) : rpcCall (result string)
| BackendSweepXMR (to : bytes) : rpcCall (result (list string))
| BackendTransferETH (to : Address) (amount : Decimal) (limit : option Z) : rpcCall (result Receipt)
| BackendSweepETH (to : Address) : rpcCall (result Receipt)
| EthHasPrivateKey : rpcCall bool
| EthSetAddress (a : Address) : rpcCall unit
| EthAddressOf : rpcCall Address
| EthSetGasPrice (p : Z) : rpcCall unit
| EthBalance : rpcCall (result Decimal)
| EthTokenBalance (token : Address) : rpcCall (result EthAssetAmount)
| EthTokenInfo (token : Address) : rpcCall (result ERC20TokenInfo)
| EthLock : rpcCall unit
| EthUnlock : rpcCall unit
| EthTxOpts : rpcCall (result TransactOpts)
| EthBindCreator (a : Address) : rpcCall (result unit)
| EthClaim (creator : Address) (o : TransactOpts) (swap : SwapCreatorSwap) (secret : bytes) : rpcCall (result Hash)
| EthRefund (creator : Address) (o : TransactOpts) (swap : SwapCreatorSwap) (secret : bytes) : rpcCall (result Hash)
(* RecoveryDB *)
| RdbContractSwapInfo (id : Hash) : rpcCall (result EthereumSwapInfo)
| RdbSwapPrivateKey (id : Hash) : rpcCall (result Scalar)
(* price oracles *)
| EthChainID : rpcCall (result Z)
| Getenv (name : string) : rpcCall string
| DialOptimism (endpoint : string) : rpcCall (result unit)
| CloseOptimism : rpcCall unit
| FeedLatestRound (proxy : string) : rpcCall (result (Z * Z))
| FeedDecimals (proxy : string) : rpcCall (result Z)
| FeedDescription (proxy : string) : rpcCall (result string)
(* a websocket connection *)
| WsRead : rpcCall (result bytes)
| WsWrite (m : wsMessage) : rpcCall (option error)
| WsClose : rpcCall unit
| WsContextDone : rpcCall bool
| SignerSelect (timeout : Z) : rpcCall signerEvent
| SignerGive (h : Hash) : rpcCall bool
(* the server *)
| RandomNonce : rpcCall Z
| RegisterService (ns : string) : rpcCall (option error)
| CancelServer : rpcCall unit
| ListenTCP (address : string) : rpcCall (result unit)
| PrometheusRegistry : rpcCall (option error).

Class RpcEnv `{TypesLib} `{CryptoLib} (S : Type) := invoke : ∀ {A}, rpcCall A → prog S A.

(** encoding/json and the validator on the requests and responses of the websocket. *)
Class WsJson := {
  parseRequest : bytes → result (string * bytes);
  parseSigner : bytes → result (Hash * Address * bytes);
  parseSubscribe : bytes → result Hash;
  parseTake : bytes → result TakeOfferRequest;
  parseMake : bytes → result MakeOfferRequest;
  parseSigned : bytes → result (Hash * Hash);
  validResponse : wsMessage → option error
}.

(** [sort.Slice] *)
Class SortLib := sortSlice : ∀ {A}, (A → A → bool) → list A → list A.

Definition errNoOfferWithID : error := Sentinel "errNoOfferWithID" "peer does not have offer with given ID".
Definition errUnsupportedForBootnode : error := Sentinel "errUnsupportedForBootnode" "unsupported for bootnode".
Definition errInvalidMethod : error := Sentinel "errInvalidMethod" "invalid method".
Definition errNamespaceNotEnabled : error := Sentinel "errNamespaceNotEnabled" "namespace not enabled".

(** A call whose only result is an error. *)
Definition orErr {S A} (m : prog S (option error)) (k : prog S (result A)) : prog S (result A) :=
  err <- m ;;
  match err with Some e => done (Err e) | None => k end.

(** ** pricefeed/pricefeed.go *)

Module PriceFeed.
Section feed.
Context `{Apd} `{TypesLib} `{CryptoLib} {S : Type} `{!RpcEnv S}.

Record PriceFeed : Type := mkFeed { pfDescription : string; pfPrice : Decimal; pfUpdatedAt : Z }.

Definition fallbackOptimismEndpoint : string := "https://optimism.blockpi.network/v1/rpc/public".
Definition chainlinkETHToUSDProxy : string := "0x13e3ee699d1909e989722e753853ae30b17e08c5".
Definition chainlinkXMRToUSDProxy : string := "0x2a8d91686a048e98e6ccf1a89e82f40d14312672".
Definition errUnsupportedNetwork : error := Sentinel "errUnsupportedNetwork" "unsupported network".
Definition OpMainnetChainID : Z := 10.
Definition HardhatChainID : Z := 31337.

Definition getOptimismEndpoint : prog S string :=
  endpoint <- invoke (Getenv "ETH_OPTIMISM_ENDPOINT") ;;
  done (if bool_decide (endpoint = "") then fallbackOptimismEndpoint else endpoint).

(** [apd.NewWithBigInt] *)
Definition decimalOfBigInt (z exponent : Z) : Decimal := mkDec Finite (z <? 0) exponent (Z.abs z).

Definition getChainlinkPriceFeed (feedAddress : string) : prog S (result PriceFeed) :=
  roundData <-? invoke (FeedLatestRound feedAddress) ;;
  decimals <-? invoke (FeedDecimals feedAddress) ;;
  let price := apdReduce (decimalOfBigInt roundData.1 (- decimals)) in
  let updatedAt := wrap64 roundData.2 in
  description <-? invoke (FeedDescription feedAddress) ;;
  done (Ok (mkFeed description price updatedAt)).

(** The body both prices share: the proxy, and the answer on a development chain. *)
Definition getUSDPrice (now : prog S Z) (proxy fakeDescription : string) (fakePrice : Decimal) : prog S (result PriceFeed) :=
  chainID <-? invoke EthChainID ;;
  let id := chainID mod 2 ^ 64 in
  if id =? OpMainnetChainID then getChainlinkPriceFeed proxy
  else if (id =? EthClient.MainnetChainID) || (id =? EthClient.SepoliaChainID) then
    endpoint <- getOptimismEndpoint ;;
    _ <-? invoke (DialOptimism endpoint) ;;
    deferring (invoke CloseOptimism) (getChainlinkPriceFeed proxy)
  else if (id =? EthClient.GanacheChainID) || (id =? HardhatChainID) then
    t <- now ;;
    done (Ok (mkFeed fakeDescription fakePrice t))
  else done (Err errUnsupportedNetwork).

Definition GetETHUSDPrice (now : prog S Z) : prog S (result PriceFeed) :=
  getUSDPrice now chainlinkETHToUSDProxy "ETH / USD (fake)" (apdNew 123412345678 (-8)).

Definition GetXMRUSDPrice (now : prog S Z) : prog S (result PriceFeed) :=
  getUSDPrice now chainlinkXMRToUSDProxy "XMR / USD (fake)" (apdNew 12312345678 (-8)).

End feed.
End PriceFeed.

(** ** rpc/swap.go *)

(** [Status.Description] *)
Definition Status_Description (s : Status) : string :=
  match s with
  | ExpectingKeys => "keys have not yet been exchanged"
  | KeysExchanged => "keys have been exchanged, but no value has been locked"
  | ETHLocked => "the ETH provider has locked their ether, but no XMR has been locked"
  | XMRLocked => "both the XMR and ETH providers have locked their funds"
  | ContractReady => "the locked ether is ready to be claimed"
  | SweepingXMR => "the XMR is being swept back into the primary wallet"
  | CompletedSuccess => "the locked funds have been claimed and the swap has completed successfully"
  | CompletedRefund => "the locked funds have been refunded and the swap has completed"
  | CompletedAbort => "the swap was aborted before any funds were locked"
  | UnknownStatus => unknownString
  end.

Record PastSwap : Type := mkPast {
  psID : Hash;
  psProvided : string;
  psEthAsset : Address;
  psProvidedAmount : Decimal;
  psExpectedAmount : Decimal;
  psRelayerFee : option Decimal;
  psExchangeRate : option Decimal;
  psStatus : Status;
  psStartTime : Z;
  psEndTime : option Z
}.

Record OngoingSwap : Type := mkOngoing {
  osID : Hash;
  osProvided : string;
  osEthAsset : Address;
  osProvidedAmount : Decimal;
  osExpectedAmount : Decimal;
  osExchangeRate : option Decimal;
  osStatus : Status;
  osLastStatusUpdateTime : Z;
  osStartTime : Z;
  osTimeout1 : option Z;
  osTimeout2 : option Z;
  osEstimatedTimeToCompletion : Z
}.

(** The comparison both lists are sorted with. *)
Definition newestFirst {A} (start : A → Z) (x y : A) : bool := start y <? start x.

Definition estimatedTimeToCompletionForStatus (env : Environment) (status : Status) : result Z :=
  let moneroBlockTime := match env with Development => Second | _ => Minute * 2 end in
  let ethBlockTime := match env with Development => Second | _ => Second * 12 end in
  match status with
  | ExpectingKeys => Ok (moneroBlockTime * 12 + ethBlockTime * 6)
  | KeysExchanged => Ok (moneroBlockTime * 10 + ethBlockTime * 6)
  | ETHLocked => Ok (moneroBlockTime * 12 + ethBlockTime * 4)
  | XMRLocked => Ok (moneroBlockTime * 10 + ethBlockTime * 4)
  | ContractReady => Ok (moneroBlockTime * 2 + ethBlockTime * 2)
  | SweepingXMR => Ok (moneroBlockTime * 2)
  | _ => Err (errorf "invalid status; must be ongoing status type")
  end.

(** [Duration.Round] of a duration that is not negative: half up, and the largest duration
    when the sum overflows. *)
Definition durationRound (d m : Z) : Z :=
  let r := Z.rem d m in
  if 2 * r <? m then d - r
  else if int64_max <? d + m - r then int64_max else d + m - r.

Module SwapService.
Section service.
Context `{Apd} `{IJ : InfoJson} `{CryptoLib} `{!SortLib} {S : Type} `{!SwapEnv S} `{!RpcEnv S}.
Context (env : Environment).

Definition pastSwap (info : Info) : PastSwap :=
  mkPast (iOfferID info) (iProvides info) (iEthAsset info) (iProvidedAmount info) (iExpectedAmount info)
    (iRelayerFee info) (iExchangeRate info) (iStatus info) (iStartTime info) (iEndTime info).

Fixpoint getPastSwaps (ids : list Hash) : prog S (result (list nat)) :=
  match ids with
  | [] => done (Ok [])
  | id :: rest =>
      info <-? mapErr (Wrapf "failed to get past swap") (GetPastSwap id) ;;
      swaps <-? getPastSwaps rest ;;
      done (Ok (info :: swaps))
  end.

Fixpoint readInfos (ls : list nat) : prog S (list Info) :=
  match ls with
  | [] => done []
  | l :: rest => info <- readInfo l ;; infos <- readInfos rest ;; done (info :: infos)
  end.

Definition GetPast (offerID : option Hash) : prog S (result (list PastSwap)) :=
  swaps <-? (match offerID with
             | None => ids <-? GetPastIDs ;; getPastSwaps ids
             | Some id => info <-? GetPastSwap id ;; done (Ok [info])
             end) ;;
  infos <- readInfos swaps ;;
  done (Ok (sortSlice (newestFirst psStartTime) (pastSwap <$> infos))).

Definition estimatedTimeToCompletion (status : Status) (lastStatusUpdateTime : Z) : prog S (result Z) :=
  now <- timeNow ;;
  if 0 <? timeSub lastStatusUpdateTime now
  then done (Err (errorf "last status update time must be less than now"))
  else
    timeForStatus <-? done (estimatedTimeToCompletionForStatus env status) ;;
    now <- timeNow ;;
    let estimatedTime := wrap64 (timeForStatus - timeSub now lastStatusUpdateTime) in
    if estimatedTime <? 0 then done (Ok 0) else done (Ok (durationRound estimatedTime Second)).

Fixpoint ongoingSwaps (infos : list Info) : prog S (result (list OngoingSwap)) :=
  match infos with
  | [] => done (Ok [])
  | info :: rest =>
      t <-? mapErr (Wrapf "failed to estimate time to completion for swap")
              (estimatedTimeToCompletion (iStatus info) (iLastStatusUpdateTime info)) ;;
      swaps <-? ongoingSwaps rest ;;
      done (Ok (mkOngoing (iOfferID info) (iProvides info) (iEthAsset info) (iProvidedAmount info)
                  (iExpectedAmount info) (iExchangeRate info) (iStatus info) (iLastStatusUpdateTime info)
                  (iStartTime info) (iTimeout1 info) (iTimeout2 info) t :: swaps))
  end.

Definition GetOngoing (offerID : option Hash) : prog S (result (list OngoingSwap)) :=
  swaps <-? (match offerID with
             | None => GetOngoingSwapsSnapshot
             | Some id => info <-? GetOngoingSwapSnapshot id ;; done (Ok [info])
             end) ;;
  infos <- readInfos swaps ;;
  swaps <-? ongoingSwaps infos ;;
  done (Ok (sortSlice (newestFirst osStartTime) swaps)).

Definition GetStatus (id : Hash) : prog S (result (Status * string * Z)) :=
  l <-? GetOngoingSwapSnapshot id ;;
  info <- readInfo l ;;
  done (Ok (iStatus info, Status_Description (iStatus info), iStartTime info)).

Definition GetOffers : prog S (string * list Offer) :=
  peerID <- invoke NetPeerID ;;
  offers <- invoke MakerGetOffers ;;
  done (peerID, offers).

Definition ClearOffers (ids : list Hash) : prog S (option error) := invoke (MakerClearOffers ids).

(** The nil check compares the interface: a nil pointer in it passes, and is dereferenced
    by [Exit]. *)
Definition Cancel (offerID : Hash) : prog S (result Status) :=
  l <-? mapErr (Wrapf "failed to get ongoing swap") (GetOngoingSwapSnapshot offerID) ;;
  info <- readInfo l ;;
  ss <- (if bool_decide (iProvides info = ProvidesETH) then invoke (TakerSwapState offerID)
         else if bool_decide (iProvides info = ProvidesXMR) then invoke (MakerSwapState offerID)
         else done None) ;;
  match ss with
  | None => done (Err (errorf "failed to find swap state with ID"))
  | Some None => panic "nil pointer dereference"
  | Some (Some st) =>
      orErr (invoke (StateExit st))
        (invoke (NetCloseStream offerID) ;;;
         p <-? GetPastSwap (iOfferID info) ;;
         past <- readInfo p ;;
         done (Ok (iStatus past)))
  end.

(** [[32]byte(slice)] *)
Definition array32 (b : bytes) : outcome bytes :=
  if (length b <? 32)%nat then Panicked "cannot convert slice to array" else Done (take 32 b).

(** [Claim] and [Refund] but for the method of the contract. *)
Definition manualTransaction (offerID : Hash)
    (method : Address → TransactOpts → SwapCreatorSwap → bytes → rpcCall (result Hash)) : prog S (result Hash) :=
  contractSwapInfo <-? invoke (RdbContractSwapInfo offerID) ;;
  secret <-? invoke (RdbSwapPrivateKey offerID) ;;
  _ <-? invoke (EthBindCreator (esSwapCreatorAddr contractSwapInfo)) ;;
  invoke EthLock ;;;
  deferring (invoke EthUnlock)
    (txOpts <-? invoke EthTxOpts ;;
     s <- pure (array32 (Reverse (scalarBytes secret))) ;;
     invoke (method (esSwapCreatorAddr contractSwapInfo) txOpts (esSwap contractSwapInfo) s)).

Definition Claim (offerID : Hash) : prog S (result Hash) := manualTransaction offerID EthClaim.

Definition Refund (offerID : Hash) : prog S (result Hash) := manualTransaction offerID EthRefund.

(** Both price feeds and the rate. *)
Definition SuggestedExchangeRate : prog S (result (PriceFeed.PriceFeed * PriceFeed.PriceFeed * Decimal)) :=
  xmrFeed <-? PriceFeed.GetXMRUSDPrice timeNow ;;
  ethFeed <-? PriceFeed.GetETHUSDPrice timeNow ;;
  exchangeRate <-? pure (CalcExchangeRate (PriceFeed.pfPrice xmrFeed) (PriceFeed.pfPrice ethFeed)) ;;
  done (Ok (xmrFeed, ethFeed, exchangeRate)).

End service.
End SwapService.

(** ** rpc/net.go *)

Module NetService.
Section service.
Context `{Apd} `{TypesLib} `{CryptoLib} {S : Type} `{!RpcEnv S}.
Context (isBootnode : bool).

Definition defaultSearchTime : Z := Second * 12.

(** Addresses are given as texts. *)
Definition Addresses : prog S (list string) := invoke NetAddresses.

Definition Peers : prog S (list string) := invoke NetConnectedPeers.

(** [time.ParseDuration(fmt.Sprintf("%ds", n))] of a uint64. *)
Definition parseSeconds (n : Z) : result Z :=
  if int64_max <? n * Second then Err (errorf "time: invalid duration") else Ok (n * Second).

Definition discover (provides : string) (searchTime : Z) : prog S (result (list string)) :=
  t <-? done (parseSeconds searchTime) ;;
  invoke (NetDiscover provides (if t =? 0 then defaultSearchTime else t)).

Definition Discover (provides : string) (searchTime : Z) : prog S (result (list string)) :=
  t <-? done (parseSeconds searchTime) ;;
  let t := if t =? 0 then defaultSearchTime else t in
  invoke (NetDiscover provides t).

(** [AddOffer]: the number of offers is a uint64. *)
Definition AddOffer (pair : Pair) (o : Offer) : outcome (result Pair) :=
  maxAmount <~ deref (oMaxAmount o) ;;
  match apdAdd MaxCoinPrecision (prReportedLiquidityXMR pair) maxAmount with
  | Err e => Done (Err e)
  | Ok sum => Done (Ok (mkPair sum (prEthAsset pair) (prToken pair) ((prOffers pair + 1) mod 2 ^ 64) (prVerified pair)))
  end.

(** The pair of an asset that has none yet; none when the token's information cannot be
    read. *)
Definition describePair (asset : Address) : prog S (option Pair) :=
  let pair := NewPair asset in
  if IsToken asset then
    info <- invoke (EthTokenInfo asset) ;;
    done (match info with
          | Err _ => None
          | Ok t => Some (mkPair (prReportedLiquidityXMR pair) asset t (prOffers pair) (prVerified pair))
          end)
  else done (Some (mkPair (prReportedLiquidityXMR pair) asset (mkToken zeroAddress 18 "Ether" "ETH") (prOffers pair) true)).

Fixpoint addOffers (offers : list Offer) (pairs : gmap Address Pair) : prog S (result (gmap Address Pair)) :=
  match offers with
  | [] => done (Ok pairs)
  | o :: rest =>
      let address := oEthAsset o in
      found <- (match pairs !! address with Some p => done (Some p) | None => describePair address end) ;;
      match found with
      | None => addOffers rest pairs
      | Some old =>
          new <-? pure (AddOffer old o) ;;
          addOffers rest (<[address := new]> pairs)
      end
  end.

Fixpoint addPeers (peers : list string) (pairs : gmap Address Pair) : prog S (result (gmap Address Pair)) :=
  match peers with
  | [] => done (Ok pairs)
  | p :: rest =>
      msg <- invoke (NetQuery p) ;;
      match msg with
      | Err _ => addPeers rest pairs
      | Ok offers =>
          pairs' <-? addOffers offers pairs ;;
          addPeers rest pairs'
      end
  end.

(** The pair of ether goes to the front. *)
Definition orderPairs (pairs : list Pair) : list Pair :=
  foldl (fun acc p => if IsETH (prEthAsset p) then p :: acc else acc ++ [p]) [] pairs.

(** The order of a Go map is any order. *)
Definition Pairs (searchTime : Z) : prog S (result (list Pair)) :=
  if isBootnode then done (Err errUnsupportedForBootnode)
  else
    peerIDs <-? discover "" searchTime ;;
    pairs <-? addPeers peerIDs ∅ ;;
    done (Ok (orderPairs (snd <$> map_to_list pairs))).

Fixpoint queryPeers (peers : list string) : prog S (list (string * list Offer)) :=
  match peers with
  | [] => done []
  | p :: rest =>
      msg <- invoke (NetQuery p) ;;
      others <- queryPeers rest ;;
      done (match msg with
            | Ok (o :: os) => (p, o :: os) :: others
            | _ => others
            end)
  end.

Definition QueryAll (provides : string) (searchTime : Z) : prog S (result (list (string * list Offer))) :=
  if isBootnode then done (Err errUnsupportedForBootnode)
  else
    peerIDs <-? discover provides searchTime ;;
    peers <- queryPeers peerIDs ;;
    done (Ok peers).

Definition QueryPeer (peerID : string) : prog S (result (list Offer)) :=
  if isBootnode then done (Err errUnsupportedForBootnode) else invoke (NetQuery peerID).

(** The first message of the taker, with the fields the service fills in. *)
Definition setOffer (offerID : Hash) (amount : Decimal) (m : SendKeysMessage) : SendKeysMessage :=
  mkSendKeys _ offerID (Some amount) (skPublicSpendKey m) (skPrivateViewKey m) (skDLEqProof m)
    (skSecp256k1PublicKey m) (skEthAddress m).

(** When [Initiate] fails, its error is overwritten by that of [Exit]. *)
Definition takeOffer (makerPeerID : string) (offerID : Hash) (providesAmount : Decimal) : prog S (result unit) :=
  offers <-? invoke (NetQuery makerPeerID) ;;
  match List.find (fun o => bool_decide (offerID = oID o)) offers with
  | None => done (Err errNoOfferWithID)
  | Some offer =>
      swapState <-? invoke (TakerInitiate makerPeerID providesAmount offer) ;;
      skm <- invoke (StateSendKeys swapState) ;;
      err <- invoke (NetInitiate makerPeerID (setOffer offerID providesAmount skm) swapState) ;;
      match err with
      | Some _ => orErr (invoke (StateExit swapState)) (done (Ok tt))
      | None => done (Ok tt)
      end
  end.

Definition TakeOffer (req : TakeOfferRequest) : prog S (result unit) :=
  if isBootnode then done (Err errUnsupportedForBootnode)
  else takeOffer (tkPeerID req) (tkOfferID req) (tkProvidesAmount req).

Definition makeOffer (req : MakeOfferRequest) : prog S (result (string * Hash)) :=
  nonce <- invoke RandomNonce ;;
  offer <- pure (NewOffer nonce ProvidesXMR (mkMinAmount req) (mkMaxAmount req) (mkExchangeRate req) (mkEthAsset req)) ;;
  _ <-? invoke (MakerMakeOffer offer (mkUseRelayer req)) ;;
  peerID <- invoke NetPeerID ;;
  done (Ok (peerID, oID offer)).

Definition MakeOffer (req : MakeOfferRequest) : prog S (result (string * Hash)) :=
  if isBootnode then done (Err errUnsupportedForBootnode) else makeOffer req.

End service.
End NetService.

(** ** rpc/ws.go *)

Module WsServer.
Import NetService.
Section server.
Context `{Apd} `{IJ : InfoJson} `{CryptoLib} `{!Base58Lib} `{!WsJson} {S : Type} `{!SwapEnv S} `{!RpcEnv S}.
Context (env : Environment) (netEnabled : bool).

Definition SubscribeMakeOffer : string := "net_makeOfferAndSubscribe".
Definition SubscribeTakeOffer : string := "net_takeOfferAndSubscribe".
Definition SubscribeSwapStatus : string := "swap_subscribeStatus".
Definition SubscribeSigner : string := "signer_subscribe".

Definition writeResponse (m : wsMessage) : prog S (option error) :=
  match validResponse m with
  | Some e => done (Some e)
  | None => invoke (WsWrite m)
  end.

Definition writeError (e : error) : prog S (option error) := invoke (WsWrite (WsError (errorText e))).

(** The loop over the statuses of a swap, at most [fuel] turns.  The answer to
    [WsContextDone] is the case the select takes: the context, which may end before or while
    the loop waits and also when a status is there, or the channel, on which the loop then
    waits for the next status.  A status channel is never closed. *)
Fixpoint statusLoop (fuel : nat) (ch : nat) : prog S (result unit) :=
  match fuel with
  | O => nofuel
  | Datatypes.S fuel' =>
      stop <- invoke WsContextDone ;;
      if stop : bool then done (Ok tt)
      else
        status <- recvStatus ch ;;
        orErr (writeResponse (WsStatus status))
          (isOngoing <- pure (IsOngoing status) ;;
           if negb isOngoing then done (Ok tt) else statusLoop fuel' ch)
  end.

Definition writeSwapExitStatus (id : Hash) : prog S (result unit) :=
  l <-? GetPastSwap id ;;
  info <- readInfo l ;;
  orErr (writeResponse (WsStatus (iStatus info))) (done (Ok tt)).

Definition subscribeSwapStatus (fuel : nat) (offerID : Hash) : prog S (result unit) :=
  ch <- GetStatusChan offerID ;;
  has <- HasOngoingSwap offerID ;;
  if negb has then DeleteStatusChan offerID ;;; writeSwapExitStatus offerID
  else statusLoop fuel ch.

Definition subscribeMakeOffer (fuel : nat) (offerID : Hash) : prog S (result unit) :=
  peerID <- invoke NetPeerID ;;
  orErr (writeResponse (WsOffer peerID offerID))
    (ch <- GetStatusChan offerID ;; statusLoop fuel ch).

(** The loop of the signer, at most [fuel] transactions.  The hash is handed over on an
    unbuffered channel. *)
Fixpoint signerLoop (fuel : nat) (timeout : Z) (offerID : Hash) : prog S (result unit) :=
  match fuel with
  | O => nofuel
  | Datatypes.S fuel' =>
      ev <- invoke (SignerSelect timeout) ;;
      match ev with
      | SignerTimeout => done (Err (errorf "signer timed out"))
      | SignerDone => done (Ok tt)
      | SignerTx tx =>
          orErr (invoke (WsWrite (WsSigner offerID tx)))
            (message <-? invoke WsRead ;;
             params <-? done (match parseSigned message with
                              | Ok p => Ok p
                              | Err e => Err (Wrapf "failed to unmarshal parameters" e)
                              end) ;;
             if negb (bool_decide (params.1 = offerID)) then done (Err (errorf "got unexpected offerID"))
             else
               taken <- invoke (SignerGive params.2) ;;
               if taken : bool then signerLoop fuel' timeout offerID else block)
      end
  end.

Definition signerTimeout : Z :=
  match env with
  | Mainnet | Stagenet => Hour
  | Development => Minute * 5
  | _ => 0
  end.

(** [SetAddress] panics when the client has a private key. *)
Definition handleSigner (fuel : nat) (offerID : Hash) (ethAddress : Address) (xmrAddr : bytes) : prog S (result unit) :=
  _ <-? invoke (TakerExternalSender offerID) ;;
  err <- pure (ValidateEnv (Some xmrAddr) env) ;;
  match err with
  | Some e => done (Err e)
  | None =>
      hasKey <- invoke EthHasPrivateKey ;;
      if hasKey : bool then panic "SetAddress should not have been invoked when using an external signer"
      else
        invoke (EthSetAddress ethAddress) ;;;
        invoke (BackendSetDeposit xmrAddr offerID) ;;;
        deferring (invoke (BackendClearDeposit offerID)) (signerLoop fuel signerTimeout offerID)
  end.

(** The parameters of a request. *)
Definition params {A B} (r : result A) (k : A → prog S (result B)) : prog S (result B) :=
  match r with
  | Err e => done (Err (Wrapf "failed to unmarshal parameters" e))
  | Ok a => k a
  end.

Definition handleRequest (fuel : nat) (method : string) (p : bytes) : prog S (result unit) :=
  if bool_decide (method = SubscribeSigner) then
    params (parseSigner p) (fun '(id, eth, xmr) => handleSigner fuel id eth xmr)
  else if bool_decide (method = SubscribeSwapStatus) then
    params (parseSubscribe p) (subscribeSwapStatus fuel)
  else if bool_decide (method = SubscribeTakeOffer) then
    if negb netEnabled then done (Err errNamespaceNotEnabled)
    else params (parseTake p) (fun req =>
      _ <-? takeOffer (tkPeerID req) (tkOfferID req) (tkProvidesAmount req) ;;
      subscribeSwapStatus fuel (tkOfferID req))
  else if bool_decide (method = SubscribeMakeOffer) then
    if negb netEnabled then done (Err errNamespaceNotEnabled)
    else params (parseMake p) (fun req =>
      resp <-? makeOffer req ;;
      subscribeMakeOffer fuel resp.2)
  else done (Err errInvalidMethod).

(** The loop over the messages of a connection, at most [fuel]. *)
Fixpoint requestLoop (fuel : nat) : prog S unit :=
  match fuel with
  | O => nofuel
  | Datatypes.S fuel' =>
      message <- invoke WsRead ;;
      match message with
      | Err _ => done tt
      | Ok message =>
          match parseRequest message with
          | Err e => writeError e ;;; requestLoop fuel'
          | Ok (method, p) =>
              r <- handleRequest fuel method p ;;
              (match r with Err e => writeError e ;;; done tt | Ok _ => done tt end) ;;;
              requestLoop fuel'
          end
      end
  end.

(** [ServeHTTP] on an upgraded connection. *)
Definition ServeHTTP (fuel : nat) : prog S unit := deferring (invoke WsClose) (requestLoop fuel).

End server.
End WsServer.

(** ** rpc/personal.go, rpc/database.go, rpc/daemon.go *)

Record BalancesResponse : Type := mkBalances {
  blMoneroAddress : bytes;
  blPiconeroBalance : Decimal;
  blPiconeroUnlockedBalance : Decimal;
  blBlocksToUnlock : Z;
  blEthAddress : Address;
  blWeiBalance : Decimal;
  blTokenBalances : list EthAssetAmount
}.

(** A positive rational [n / d] rounded to 53 bits, ties to even, as a mantissa and an
    exponent of 2: the rounding of float64 between its least and largest value. *)
Definition round53 (n d : Z) : Z * Z :=
  let e := Z.log2 n - Z.log2 d - 52 in
  let e := if n * 2 ^ Z.max 0 (- e) <? 2 ^ 52 * d * 2 ^ Z.max 0 e then e - 1 else e in
  let num := n * 2 ^ Z.max 0 (- e) in
  let den := d * 2 ^ Z.max 0 e in
  let q := num / den in
  let r := num mod den in
  ((if (2 * r <? den) || ((2 * r =? den) && Z.even q) then q else q + 1), e).

(** [uint64(d.Seconds())]: whole seconds are exact, a fraction is divided and added in
    float64, and the sum truncated.  What a negative number becomes depends on the
    platform. *)
Definition durationSeconds (negative : Z → Z) (d : Z) : Z :=
  if d <? 0 then negative d
  else
    let sec := d / Second in
    let nsec := d mod Second in
    if nsec =? 0 then sec
    else
      let '(q, e) := round53 nsec Second in
      let '(q', e') := round53 (sec * 2 ^ (- e) + q) (2 ^ (- e)) in
      if 0 <=? e' then q' * 2 ^ e' else q' / 2 ^ (- e').

Module PersonalService.
Section service.
Context `{Apd} `{TypesLib} `{CryptoLib} {S : Type} `{!RpcEnv S}.
Context (negative : Z → Z).

(** The request is a uint64 number of seconds; the product of durations wraps. *)
Definition SetSwapTimeout (seconds : Z) : prog S unit :=
  invoke (BackendSetSwapTimeout (wrap64 (Second * wrap64 seconds))).

Definition GetSwapTimeout : prog S Z :=
  d <- invoke BackendSwapTimeout ;;
  done (durationSeconds negative d).

Definition SetGasPrice (gasPrice : Z) : prog S unit := invoke (EthSetGasPrice gasPrice).

Definition TokenInfo (token : Address) : prog S (result ERC20TokenInfo) := invoke (EthTokenInfo token).

Fixpoint tokenBalances (tokens : list Address) : prog S (result (list EthAssetAmount)) :=
  match tokens with
  | [] => done (Ok [])
  | token :: rest =>
      balance <-? mapErr (Wrapf "unable to get balance") (invoke (EthTokenBalance token)) ;;
      others <-? tokenBalances rest ;;
      done (Ok (balance :: others))
  end.

Definition Balances (req : option (list Address)) : prog S (result BalancesResponse) :=
  m <-? invoke MakerMoneroBalance ;;
  eBal <-? invoke EthBalance ;;
  tokens <-? tokenBalances (default [] req) ;;
  let '(mAddr, mBal) := m in
  addr <- invoke EthAddressOf ;;
  done (Ok (mkBalances mAddr (NewPiconeroAmount (brBalance mBal)) (NewPiconeroAmount (brUnlocked mBal))
              (brBlocksToUnlock mBal) addr eBal tokens)).

Definition TransferXMR (to : bytes) (amount : Decimal) : prog S (result string) :=
  p <- pure (MoneroToPiconero amount) ;;
  invoke (BackendTransferXMR to p).

Definition SweepXMR (to : bytes) : prog S (result (list string)) := invoke (BackendSweepXMR to).

Definition TransferETH (to : Address) (amount : Decimal) (limit : option Z) : prog S (result Hash) :=
  w <- pure (EtherToWei amount) ;;
  receipt <-? invoke (BackendTransferETH to w limit) ;;
  done (Ok (rcTxHash receipt)).

Definition SweepETH (to : Address) : prog S (result Hash) :=
  receipt <-? invoke (BackendSweepETH to) ;;
  done (Ok (rcTxHash receipt)).

End service.
End PersonalService.

Module DatabaseService.
Section service.
Context `{TypesLib} `{CryptoLib} {S : Type} `{!RpcEnv S}.

Definition GetContractSwapInfo (offerID : Hash) : prog S (result EthereumSwapInfo) :=
  invoke (RdbContractSwapInfo offerID).

Definition GetSwapSecret (offerID : Hash) : prog S (result Scalar) := invoke (RdbSwapPrivateKey offerID).

End service.
End DatabaseService.

(** ** rpc/server.go *)

Module Server.
Section server.
Context `{TypesLib} `{CryptoLib} {S : Type} `{!RpcEnv S}.

Definition DaemonNamespace : string := "daemon".
Definition DatabaseNamespace : string := "database".
Definition NetNamespace : string := "net".
Definition PersonalName : string := "personal".
Definition SwapNamespace : string := "swap".

Definition AllNamespaces : gset string :=
  list_to_set [DaemonNamespace; DatabaseNamespace; NetNamespace; PersonalName; SwapNamespace].

(** The loop over the namespaces in the order of a Go map: whether the network service was
    made, and the error variable, which every namespace but the daemon's overwrites. *)
Fixpoint registerNamespaces (namespaces : list string) (netService : bool) (err : option error)
  : prog S (bool * option error) :=
  match namespaces with
  | [] => done (netService, err)
  | ns :: rest =>
      if bool_decide (ns = DaemonNamespace) then registerNamespaces rest netService err
      else if bool_decide (ns ∈ [DatabaseNamespace; NetNamespace; PersonalName; SwapNamespace]) then
        err' <- invoke (RegisterService ns) ;;
        registerNamespaces rest (netService || bool_decide (ns = NetNamespace)) err'
      else registerNamespaces rest netService (Some (errorf "unknown namespace"))
  end.

(** The server has its websocket half with or without the network service. *)
Definition NewServer (env : Environment) (address : string) (namespaces : list string) : prog S (result bool) :=
  let isBootnode := bool_decide (env = Bootnode) in
  (if isBootnode then done tt else invoke BackendSwapCreatorAddr ;;; done tt) ;;;
  orErr (invoke (RegisterService DaemonNamespace))
    (r <- registerNamespaces namespaces false None ;;
     let '(netService, err) := r in
     match err with
     | Some e => invoke CancelServer ;;; done (Err e)
     | None =>
         ln <- invoke (ListenTCP address) ;;
         match ln with
         | Err e => invoke CancelServer ;;; done (Err e)
         | Ok _ =>
             if isBootnode then done (Ok netService)
             else orErr (invoke PrometheusRegistry) (done (Ok netService))
         end
     end).

End server.
End Server.
