(* ===== verification/RpcProofs.v ===== *)
(** * Theorems on the JSON-RPC services

    The lists of swaps over any environment of the swap manager, the other services over
    the calls they make. *)

From stdpp Require Import base gmap list strings sorting.
From Stdlib Require Import ZArith Strings.Byte Sorted.
From S2P Require Import Prelude Coins Types TypesProofs Swap SwapProofs Bytes Crypto Base58 Contracts External EthClient Wallet Rpc Calls.

Open Scope Z_scope.
Open Scope go_scope.

Module RpcProofs.

(** What [sort.Slice] asks of its less function: a strict weak ordering. *)
Record weakOrder {A} (less : A → A → bool) : Prop := mkWeakOrder {
  less_irrefl x : less x x = false;
  less_trans x y z : less x y = true → less y z = true → less x z = true;
  less_incomparable x y z : less x y = false → less y z = false → less x z = false
}.

(** [sort.Slice] reorders, so that no element is less than one before it. *)
Class SortSpec `{SortLib} : Prop := {
  sort_perm {A} (less : A → A → bool) (l : list A) : sortSlice less l ≡ₚ l;
  sort_sorted {A} (less : A → A → bool) (l : list A) :
    weakOrder less → StronglySorted (fun x y => less y x = false) (sortSlice less l)
}.

Lemma newestFirst_weak {A} (start : A → Z) : weakOrder (newestFirst start).
Proof. split; unfold newestFirst; intros; lia. Qed.

Lemma sort_newest `{SortSpec} {A} (start : A → Z) (l : list A) :
  StronglySorted (fun x y => start y ≤ start x) (sortSlice (newestFirst start) l).
Proof.
  pose proof (sort_sorted _ l (newestFirst_weak start)) as Hs. revert Hs. unfold newestFirst.
  generalize (sortSlice (fun x y => start y <? start x) l). induction 1 as [|x l' _ IH Hx]; constructor; [done|].
  eapply Forall_impl; [exact Hx|]. cbn. intros y. lia.
Qed.

(** ** The lists of swaps *)

Section lists.
Context `{Apd} `{IJ : InfoJson} `{CryptoLib} `{SortSpec} {S : Type} `{!SwapEnv S} `{SS : !SwapEnvSpec S} `{!RpcEnv S}.
Import SwapService.
Implicit Types (s : S) (id : Hash) (i : Info).

(** The record of a past swap: the object of the manager if there is one, the stored one
    otherwise. *)
Definition pastRecord s id i : Prop :=
  match past (getManager s) !! id with
  | Some l => infos (getManager s) !! l = Some i
  | None => stored s !! id = Some i
  end.

(** Reading swaps only adds objects. *)
Definition grows s s' : Prop := mgrWf (getManager s') ∧ stored s' = stored s ∧
  ∀ l i, infos (getManager s) !! l = Some i → infos (getManager s') !! l = Some i.

Lemma grows_trans s s1 s' : grows s s1 → grows s1 s' → grows s s'.
Proof. intros (_ & S1 & I1) (W & S2 & I2). split; [done|]. split; [congruence | eauto]. Qed.

Lemma GetPastSwap_Ok id s l s' : mgrWf (getManager s) → GetPastSwap id s = (Done (Ok l), s') →
  grows s s' ∧ (∀ id', id' ≠ id → past (getManager s') !! id' = past (getManager s) !! id') ∧
  ∃ i, pastRecord s id i ∧ infos (getManager s') !! l = Some i ∧ iOfferID i = id.
Proof.
  intros W. unfold pastRecord. destruct (past (getManager s) !! id) as [l0|] eqn:Hp.
  { unfold GetPastSwap, pbind, gets. rewrite Hp. intros [= <- <-]. split; [done|]. split; [done|].
    destruct (wf_past _ W _ _ Hp) as (i & Hi & Hid). by exists i. }
  pose proof (keeps_GetPastSwap id s W) as W'. revert W'.
  destruct (GetPastSwap_run id s Hp) as ([i|e] & s1 & _ & Hm & Hst & Hr); [|by destruct Hr as [_ ->]].
  destruct Hr as [Hs ->]. cbn [snd]. intros W' [= <- <-]. pose proof (stored_ids _ _ _ Hs) as Hid.
  unfold grows. rewrite stored_put. revert W'. msimpl. cbn. intros W'. split_and!; [done | done | | |].
  - intros l j Hl. rewrite lookup_insert_ne; [done|]. apply (wf_infos _ W) in Hl. lia.
  - intros id' Hne. rewrite lookup_insert_ne; [done|]. congruence.
  - by exists i.
Qed.

Lemma getPastSwaps_Ok ids s ls s' : mgrWf (getManager s) → NoDup ids →
  getPastSwaps ids s = (Done (Ok ls), s') →
  grows s s' ∧
  Forall2 (fun id l => ∃ i, pastRecord s id i ∧ infos (getManager s') !! l = Some i ∧ iOfferID i = id) ids ls.
Proof.
  revert s ls. induction ids as [|id ids IH]; intros s ls W Hnd; cbn [getPastSwaps].
  { intros [= <- <-]. by split. }
  apply NoDup_cons in Hnd as [Hni Hnd]. intros E.
  apply pbind_inv_Done in E as ([l|e] & s1 & Hg & E); [|done]. apply mapErr_Ok_run in Hg.
  destruct (GetPastSwap_Ok id s l s1 W Hg) as (G1 & Hp & i & Hi & Hl & Hid).
  apply pbind_inv_Done in E as ([ls'|e] & s2 & Hr & E); [|done]. injection E as <- <-.
  destruct (IH s1 ls' (proj1 G1) Hnd Hr) as (G2 & HF). split; [by eapply grows_trans|].
  constructor.
  - exists i. split_and!; [done | by apply G2 | done].
  - apply Forall2_same_length_lookup_2; [by eapply Forall2_length|].
    intros k id' l' Hk Hk'. destruct (Forall2_lookup_lr _ _ _ _ _ _ HF Hk Hk') as (j & Hj & Hl' & Hid').
    exists j. split_and!; [|done..]. unfold pastRecord in *.
    rewrite <- (Hp id'); [|intros ->; by apply Hni; eapply list_elem_of_lookup_2].
    destruct (past (getManager s1) !! id') as [l0|] eqn:Hp0; [|by rewrite <- (proj1 (proj2 G1))].
    destruct (wf_past _ W id' l0) as (j0 & Hj0 & _); [rewrite <- (Hp id'); [done|];
      intros ->; by apply Hni; eapply list_elem_of_lookup_2|].
    apply G1 in Hj0 as Hj1. congruence.
Qed.

Lemma readInfos_run ls recs s : Forall2 (fun l i => infos (getManager s) !! l = Some i) ls recs →
  readInfos ls s = (Done recs, s).
Proof.
  induction 1 as [|l i ls recs Hl _ IH]; cbn [readInfos]; [done|]. unfold pbind. rewrite (readInfo_run _ _ _ Hl).
  by rewrite IH.
Qed.

Lemma pastStored_spec st ids r : pastStored st ids = Done r →
  ∀ id, id ∈ r ↔ id ∈ ids ∨ ∃ i, i ∈ st ∧ IsOngoing (iStatus i) = Done false ∧ iOfferID i = id.
Proof.
  revert ids. induction st as [|i st IH]; intros ids; cbn [pastStored].
  { intros [= <-] id. split; [by left|]. intros [?|(i & Hi & _)]; [done|]. by apply not_elem_of_nil in Hi. }
  unfold obind. destruct (IsOngoing (iStatus i)) as [b|?| |] eqn:Hb; try done.
  intros E id. rewrite (IH _ E id). setoid_rewrite elem_of_cons. destruct b.
  - split; [intros [?|(j & ? & ?)]; eauto|]. intros [?|(j & [->|?] & ? & ?)]; [by left | congruence | eauto].
  - rewrite elem_of_union, elem_of_singleton. split.
    + intros [[->|?]|(j & ? & ?)]; [right; eauto | by left | right; eauto].
    + intros [?|(j & [->|?] & ? & <-)]; [left; by right | left; by left | right; eauto].
Qed.

(** A swap is listed when the manager holds it as past or the database as finished. *)
Definition listed s id : Prop :=
  is_Some (past (getManager s) !! id) ∨ ∃ i, stored s !! id = Some i ∧ IsOngoing (iStatus i) = Done false.

Lemma GetPastIDs_Ok s ids s' : GetPastIDs s = (Done (Ok ids), s') →
  getManager s' = getManager s ∧ stored s' = stored s ∧ NoDup ids ∧ ∀ id, id ∈ ids ↔ listed s id.
Proof.
  unfold GetPastIDs, pbind at 1, gets. intros E. apply pbind_inv_Done in E as ([st|e] & s1 & Hg & E); [|done].
  destruct (getAllSwaps_runs s) as (r & s2 & Hr & Hm & Hs & Hl). rewrite Hr in Hg. injection Hg as -> ->.
  apply pbind_inv_Done in E as (all & s2 & Ha & E). apply pure_inv in Ha as [Ha ->]. injection E as <- <-.
  split_and!; [done | done | apply NoDup_elements |]. intros id. rewrite elem_of_elements.
  rewrite (pastStored_spec _ _ _ Ha id), elem_of_dom. unfold listed. apply or_iff_compat_l.
  specialize (Hl st eq_refl). split.
  - intros (i & Hi & Hf & <-). apply (stored_elem s st i Hl) in Hi. eauto.
  - intros (i & Hi & Hf). pose proof (stored_ids _ _ _ Hi) as <-. exists i.
    split; [by apply (stored_elem s st i Hl) | done].
Qed.

(** C28: functional.  The list of past swaps is complete and in order: it has, once each, the
    swaps the manager holds as past and those the database holds as finished, each as the
    manager's object or else the stored record says, the newest first. *)
Theorem GetPast_lists_past_swaps s resp s' :
  mgrWf (getManager s) → GetPast None s = (Done (Ok resp), s') →
  StronglySorted (fun x y => psStartTime y ≤ psStartTime x) resp ∧ NoDup (psID <$> resp) ∧
  ∀ p, p ∈ resp ↔ ∃ id i, listed s id ∧ pastRecord s id i ∧ p = pastSwap i.
Proof.
  intros W E. unfold GetPast in E. apply pbind_inv_Done in E as ([ls|e] & s1 & Hg & E); [|done].
  apply pbind_inv_Done in Hg as ([ids|e] & s0 & Hi & Hg); [|done].
  apply GetPastIDs_Ok in Hi as (Hm & Hst & Hnd & Hids).
  assert (Hrec : ∀ id i, pastRecord s0 id i ↔ pastRecord s id i) by (unfold pastRecord; by rewrite Hm, Hst).
  rewrite <- Hm in W. apply (getPastSwaps_Ok ids s0 ls s1 W Hnd) in Hg as (_ & HF).
  assert (∃ recs, Forall2 (fun id i => pastRecord s id i ∧ iOfferID i = id) ids recs ∧
    Forall2 (fun l i => infos (getManager s1) !! l = Some i) ls recs) as (recs & HF1 & HF2).
  { clear -HF Hrec. induction HF as [|id l ids ls (i & Hr & Hl & Hid) _ (recs & H1 & H2)]; [by exists []|].
    exists (i :: recs). split; constructor; [by rewrite <- Hrec | done | done | done]. }
  apply pbind_inv_Done in E as (recs2 & s2 & Hr & E). rewrite (readInfos_run _ _ _ HF2) in Hr.
  injection Hr as <- <-. injection E as <- <-. split; [apply sort_newest|].
  assert (Hid : psID <$> (pastSwap <$> recs) = ids).
  { rewrite <- list_fmap_compose. clear -HF1. induction HF1 as [|id i ids recs [_ Hid] _ IH]; [done|].
    cbn. by rewrite Hid, <- IH. }
  split; [by rewrite (sort_perm _ (pastSwap <$> recs)), Hid|].
  intros p. rewrite (sort_perm _ (pastSwap <$> recs)), list_elem_of_fmap. split.
  - intros (i & -> & Hi). apply list_elem_of_lookup in Hi as [k Hk].
    destruct (Forall2_lookup_r _ _ _ _ _ HF1 Hk) as (id & Hk' & Hr & _).
    exists id, i. split_and!; [|done..]. apply Hids. by eapply list_elem_of_lookup_2.
  - intros (id & i & Hl & Hr & ->). apply Hids, list_elem_of_lookup in Hl as [k Hk].
    destruct (Forall2_lookup_l _ _ _ _ _ HF1 Hk) as (i' & Hk' & Hr' & _).
    exists i'. split; [|by eapply list_elem_of_lookup_2]. f_equal. unfold pastRecord in *.
    destruct (past (getManager s) !! id); congruence.
Qed.

End lists.

(** ** Subscriptions *)

Section subscriptions.
Context `{Apd} `{IJ : InfoJson} `{CryptoLib} `{!WsJson} {S : Type} `{!SwapEnv S} `{SS : !SwapEnvSpec S} `{!RpcEnv S}.
Import WsServer.
Implicit Types s : S.

(** A connection that is not closed, in a server that is not shut down. *)
Class OpenConn := {
  written : S → list wsMessage;
  written_put m s : written (putManager m s) = written s;
  context_open s : ∃ s', invoke WsContextDone s = (Done false, s') ∧
    getManager s' = getManager s ∧ written s' = written s;
  write_succeeds m s : ∃ s', invoke (WsWrite m) s = (Done None, s') ∧
    getManager s' = getManager s ∧ written s' = written s ++ [m];
  status_valid st : st ≠ UnknownStatus → validResponse (WsStatus st) = None
}.
Context `{!OpenConn}.

Lemma recvStatus_run c st rest s : chans (getManager s) !! c = Some (st :: rest) →
  recvStatus c s = (Done st, putManager (setChans (<[c := rest]> (chans (getManager s))) (getManager s)) s).
Proof. intros Hc. unfold recvStatus, pbind, gets. by rewrite Hc. Qed.

(** One turn of the loop: a status is taken, written, and ends the loop if it is final. *)
Lemma statusLoop_turn fuel c st rest b s :
  chans (getManager s) !! c = Some (st :: rest) → IsOngoing st = Done b →
  ∃ s1, statusLoop (Datatypes.S fuel) c s = (if b then statusLoop fuel c s1 else (Done (Ok tt), s1)) ∧
    written s1 = written s ++ [WsStatus st] ∧ chans (getManager s1) !! c = Some rest.
Proof.
  intros Hc Hb. cbn [statusLoop]. destruct (context_open s) as (s0 & E0 & M0 & W0).
  rewrite (pbind_Done _ _ _ _ _ E0). cbn. rewrite <- M0 in Hc.
  rewrite (pbind_Done _ _ _ _ _ (recvStatus_run c st rest s0 Hc)). set (s1 := putManager _ s0).
  unfold orErr, writeResponse. rewrite status_valid by (by intros ->).
  destruct (write_succeeds (WsStatus st) s1) as (s2 & E2 & M2 & W2). rewrite (pbind_Done _ _ _ _ _ E2).
  unfold pure, pbind. rewrite Hb. exists s2. split; [by destruct b|]. split.
  - rewrite W2. subst s1. by rewrite written_put, W0.
  - rewrite M2. subst s1. rewrite get_put. apply lookup_insert_eq.
Qed.

Lemma statusLoop_run fuel c sts final s : (length sts < fuel)%nat →
  chans (getManager s) !! c = Some (sts ++ [final]) →
  Forall (fun st => IsOngoing st = Done true) sts → IsOngoing final = Done false →
  ∃ s', statusLoop fuel c s = (Done (Ok tt), s') ∧ written s' = written s ++ (WsStatus <$> sts ++ [final]).
Proof.
  revert fuel s. induction sts as [|st sts IH]; intros fuel s Hf Hc Hon Hfin; (destruct fuel as [|fuel]; [lia|]).
  - destruct (statusLoop_turn fuel c final [] false s Hc Hfin) as (s1 & E & Hw & _). by exists s1.
  - apply Forall_cons in Hon as [Hst Hon].
    destruct (statusLoop_turn fuel c st (sts ++ [final]) true s Hc Hst) as (s1 & E & Hw & Hc1).
    destruct (IH fuel s1) as (s2 & E2 & Hw2); [cbn in Hf; lia | done | done | done |].
    exists s2. rewrite E, E2. split; [done|]. by rewrite Hw2, Hw, <- (assoc_L (++)).
Qed.

(** Liveness.  A subscriber that holds the channel of a swap while the swap goes through
    up to five statuses and its final one is sent all of them, in order, and its request
    ends with the final one; nothing blocks. *)
Theorem subscriber_sees_every_status (id : Hash) (c : nat) (sts : list Status) (final : Status) s :
  mgrWf (getManager s) → statusChannels (getManager s) !! id = Some c → chans (getManager s) !! c = Some [] →
  Forall (fun st => IsOngoing st = Done true) sts → IsOngoing final = Done false →
  (length sts < statusChSize)%nat →
  ∃ s1 s2, pushAll id (sts ++ [final]) s = (Done tt, s1) ∧
    statusLoop (Datatypes.S statusChSize) c s1 = (Done (Ok tt), s2) ∧
    written s2 = written s1 ++ (WsStatus <$> sts ++ [final]).
Proof.
  intros W Hid Hc Hon Hfin Hlen.
  destruct (pushAll_final_run id c sts final s W Hid Hc Hon Hfin Hlen) as (s1 & Hp & Hc1 & _).
  destruct (statusLoop_run (Datatypes.S statusChSize) c sts final s1) as (s2 & E & Hw); [lia | done.. |].
  by exists s1, s2.
Qed.

End subscriptions.

(** ** The calls of the services

    A state with a log; while a call is made, other goroutines may change the fields. *)

Class Others (F : Type) := meanwhile : nat → F → F.

Section services.
Context `{Apd} `{TypesLib} `{CryptoLib} `{!Answers rpcCall} {F : Type} `{!Others F}.
Implicit Types s : caller rpcCall F.

#[export] Instance loggedRpc : RpcEnv (caller rpcCall F) := fun A c =>
  a <- perform c ;;
  i <- gets ticks ;;
  modF (meanwhile i) ;;;
  done a.

Lemma invoke_run {A} (c : rpcCall A) s : ∃ a s', invoke c s = (Done a, s') ∧ since s s' [Ev c a].
Proof. by eexists _, _. Qed.

Lemma invoke_inv {A} (c : rpcCall A) s a s' : invoke c s = (Done a, s') → since s s' [Ev c a].
Proof. unfold invoke, loggedRpc, perform, pbind, gets, modF, modify, done, since. cbn. by intros [= <- <-]. Qed.

Lemma invoke_happened {A} (c : rpcCall A) s a s' : invoke c s = (Done a, s') → happened s s' (Ev c a).
Proof. intros E%invoke_inv. exists [Ev c a]. split; [done|]. constructor. Qed.

Lemma only_invoke {A} p (c : rpcCall A) : (∀ a, p (Ev c a) = true) → keeps (only p) (invoke c).
Proof. intros Hp s. destruct (invoke_run c s) as (a & s' & -> & Hs). exists [Ev c a]. cbn. by rewrite Hp. Qed.

Lemma did_invoke_inv {A} q (c : rpcCall A) s : did q s (invoke c s).2 → ∃ a s', invoke c s = (Done a, s') ∧ q (Ev c a) = true.
Proof.
  intros Hd. destruct (invoke_run c s) as (a & s' & E & Hs). exists a, s'. split; [done|].
  destruct (q (Ev c a)) eqn:Hq; [done|]. destruct Hd. rewrite E. exists [Ev c a]. cbn. by rewrite Hq.
Qed.

(** *** Taking an offer *)

Import NetService.

(** The runs of [takeOffer]: how it ends and what it calls, the latest first. *)
Inductive takes (peer : string) (id : Hash) (amount : Decimal) : result unit → list (event rpcCall) → Prop :=
| takes_no_answer e : takes peer id amount (Err e) [Ev (NetQuery peer) (Err e)]
| takes_not_listed offers : List.find (fun o => bool_decide (id = oID o)) offers = None →
    takes peer id amount (Err errNoOfferWithID) [Ev (NetQuery peer) (Ok offers)]
| takes_refused offers o e : o ∈ offers → oID o = id →
    takes peer id amount (Err e) [Ev (TakerInitiate peer amount o) (Err e); Ev (NetQuery peer) (Ok offers)]
| takes_initiated offers o st m : o ∈ offers → oID o = id →
    takes peer id amount (Ok tt)
      [Ev (NetInitiate peer (setOffer id amount m) st) None; Ev (StateSendKeys st) m;
       Ev (TakerInitiate peer amount o) (Ok st); Ev (NetQuery peer) (Ok offers)]
| takes_failed offers o st m e x : o ∈ offers → oID o = id →
    takes peer id amount (errToResult x)
      [Ev (StateExit st) x; Ev (NetInitiate peer (setOffer id amount m) st) (Some e); Ev (StateSendKeys st) m;
       Ev (TakerInitiate peer amount o) (Ok st); Ev (NetQuery peer) (Ok offers)].

Lemma bind_invoke {A B} (c : rpcCall A) (k : A → prog (caller rpcCall F) B) s :
  ∃ a s1, since s s1 [Ev c a] ∧ pbind (invoke c) k s = k a s1.
Proof. destruct (invoke_run c s) as (a & s1 & E & Hs). exists a, s1. split; [done|]. by apply pbind_Done. Qed.

Ltac inList := repeat (apply elem_of_cons; first [by left | right]).

Ltac invoked s a s1 S1 :=
  match goal with |- context [pbind (invoke ?c) ?k s] => destruct (bind_invoke c k s) as (a & s1 & S1 & ->) end.

Lemma takeOffer_run peer id amount s :
  ∃ r s' es, takeOffer peer id amount s = (Done r, s') ∧ since s s' es ∧ takes peer id amount r es.
Proof.
  unfold takeOffer, tryBind. invoked s ans s1 S1. destruct ans as [offers|e].
  2: { eexists _, s1, _. split; [done|]. split; [exact S1|]. constructor. }
  destruct (List.find _ offers) as [o|] eqn:Hf.
  2: { eexists _, s1, _. split; [done|]. split; [exact S1|]. by constructor. }
  apply List.find_some in Hf as [Ho Hid]. apply list_elem_of_In in Ho. apply bool_decide_eq_true_1 in Hid.
  invoked s1 ans s2 S2. destruct ans as [st|e].
  2: { eexists _, s2, _. split; [done|]. split; [by eapply since_trans|]. by constructor. }
  invoked s2 m s3 S3. invoked s3 err s4 S4.
  assert (S5 : since s s4 _) by (eapply since_trans; [|exact S4]; eapply since_trans; [|exact S3];
    eapply since_trans; [exact S1 | exact S2]).
  destruct err as [e|]; [|by eexists _, s4, _; split; [done|]; split; [exact S5 | by constructor]].
  unfold orErr. invoked s4 x s6 S6.
  eexists (errToResult x), s6, _. split; [by destruct x|]. split; [exact (since_trans _ _ _ _ _ S5 S6)|]. by constructor.
Qed.

(** What an event is of the two calls. *)
Definition takerInitiate (e : event rpcCall) : option (string * Decimal * Offer * result nat) :=
  match e with
  | Ev c a => match c in rpcCall A return A → _ with
              | TakerInitiate p d o => fun x => Some (p, d, o, x)
              | _ => fun _ => None
              end a
  end.

Definition netInitiate (e : event rpcCall) : option (string * SendKeysMessage * nat * option error) :=
  match e with
  | Ev c a => match c in rpcCall A return A → _ with
              | NetInitiate p m st => fun x => Some (p, m, st, x)
              | _ => fun _ => None
              end a
  end.

(** C16: safety.  An offer is taken only from the peer that listed it, under its own ID and
    for the amount of the request: what the protocol is started with is an offer of the
    peer's answer with that ID, and the first message carries the ID and the amount.  When
    the message cannot be sent the swap that was started is exited, and the answer to the
    request is that of the exit, so that a successful exit reports success. *)
Theorem takeOffer_takes_listed_offer (peer : string) (id : Hash) (amount : Decimal) s :
  ∃ r s', takeOffer peer id amount s = (Done r, s') ∧
  (∀ p a o x, happened s s' (Ev (TakerInitiate p a o) x) →
     p = peer ∧ a = amount ∧ oID o = id ∧ ∃ offers, happened s s' (Ev (NetQuery peer) (Ok offers)) ∧ o ∈ offers) ∧
  (∀ p m st x, happened s s' (Ev (NetInitiate p m st) x) →
     p = peer ∧ skOfferID m = id ∧ skProvidedAmount m = Some amount ∧
     (∃ o, happened s s' (Ev (TakerInitiate peer amount o) (Ok st))) ∧
     (x = None → r = Ok tt) ∧
     ∀ e, x = Some e → ∃ y, happened s s' (Ev (StateExit st) y) ∧ r = errToResult y).
Proof.
  destruct (takeOffer_run peer id amount s) as (r & s' & es & E & Hs & Ht). exists r, s'. split; [done|].
  assert (Hto : ∀ e, e ∈ es → happened s s' e) by (intros e Hi; by exists es).
  assert (Hfrom : ∀ e, happened s s' e → e ∈ es) by (intros e (es' & E' & Hi); by rewrite (since_inj _ _ _ _ Hs E')).
  split.
  - intros p a o x Hh%Hfrom. apply (list_elem_of_fmap_2 takerInitiate) in Hh.
    destruct Ht; cbn in Hh; repeat (apply elem_of_cons in Hh as [Hh|Hh]; [try discriminate Hh|]);
      try (by apply not_elem_of_nil in Hh); injection Hh as -> -> -> ->;
      (split_and!; [done..|]; exists offers; split; [apply Hto; by inList | done]).
  - intros p m st x Hh%Hfrom. apply (list_elem_of_fmap_2 netInitiate) in Hh.
    destruct Ht; cbn in Hh; repeat (apply elem_of_cons in Hh as [Hh|Hh]; [try discriminate Hh|]);
      try (by apply not_elem_of_nil in Hh); injection Hh as -> -> -> ->;
      (split_and!; [done..| exists o; apply Hto; by inList | done |]).
    + done.
    + intros _ _. eexists. split; [apply Hto; by inList | done].
Qed.

(** *** Pairs *)

Definition onSale (a : Address) (os : list Offer) : Z :=
  Z.of_nat (length (List.filter (fun o => bool_decide (oEthAsset o = a)) os)).

Lemma onSale_cons a o os : onSale a (o :: os) = (if bool_decide (oEthAsset o = a) then 1 else 0) + onSale a os.
Proof. unfold onSale. cbn. case_bool_decide; cbn; lia. Qed.

Lemma onSale_app a os os' : onSale a (os ++ os') = onSale a os + onSale a os'.
Proof. unfold onSale. rewrite List.filter_app, length_app. lia. Qed.

Lemma onSale_bound a os : 0 ≤ onSale a os ≤ Z.of_nat (length os).
Proof. unfold onSale. pose proof (List.filter_length_le (fun o => bool_decide (oEthAsset o = a)) os). lia. Qed.

(** What the pairs say of the offers seen so far: a pair is of its asset, only ether is
    verified, and it counts offers of the asset, for ether all of them. *)
Record pairsOf (os : list Offer) (pairs : gmap Address Pair) : Prop := {
  po_pair a p : pairs !! a = Some p →
    prEthAsset p = a ∧ prVerified p = IsETH a ∧ 1 ≤ prOffers p ≤ onSale a os;
  po_ether : match pairs !! EthAssetETH with
             | Some p => prOffers p = onSale EthAssetETH os
             | None => onSale EthAssetETH os = 0
             end
}.

(** A new pair, or the old one. *)
Lemma describePair_run a s : ∃ x s', describePair a s = (Done x, s') ∧
  only (fun e => match e with Ev (EthTokenInfo _) _ => true | _ => false end) s s' ∧
  match x with
  | Some p => prEthAsset p = a ∧ prVerified p = IsETH a ∧ prOffers p = 0
  | None => IsETH a = false
  end.
Proof.
  unfold describePair, IsToken. destruct (IsETH a) eqn:Ha; cbn [negb]; [by eexists _, s|].
  invoked s r s1 S1. exists (match r with Err _ => None | Ok t => Some (mkPair (apdNew 0 0) a t 0 false) end), s1.
  split; [done|]. split; [by exists [Ev (EthTokenInfo a) r]|]. by destruct r.
Qed.

Lemma pairsOf_skip os o pairs : pairsOf os pairs → IsETH (oEthAsset o) = false → pairsOf (o :: os) pairs.
Proof.
  intros [P1 P2] Ho. split.
  - intros a p Hp. destruct (P1 a p Hp) as (? & ? & ?). rewrite onSale_cons. case_bool_decide; split_and!; auto; lia.
  - rewrite onSale_cons, bool_decide_eq_false_2; [exact P2|]. unfold IsETH in Ho. by apply bool_decide_eq_false_1 in Ho.
Qed.

Lemma pairsOf_add os o pairs p p' : pairsOf os pairs → Z.of_nat (length os) < 2 ^ 64 - 1 →
  match pairs !! oEthAsset o with
  | Some q => q = p
  | None => prEthAsset p = oEthAsset o ∧ prVerified p = IsETH (oEthAsset o) ∧ prOffers p = 0
  end →
  AddOffer p o = Done (Ok p') → pairsOf (o :: os) (<[oEthAsset o := p']> pairs).
Proof.
  intros [P1 P2] Hlen Hp Ha. unfold AddOffer, obind in Ha. destruct (deref (oMaxAmount o)) as [mx|?| |]; try done.
  destruct (apdAdd _ _ mx) as [sum|e]; [|done]. injection Ha as <-.
  assert (Hq : prEthAsset p = oEthAsset o ∧ prVerified p = IsETH (oEthAsset o) ∧ 0 ≤ prOffers p ≤ onSale (oEthAsset o) os).
  { destruct (pairs !! oEthAsset o) as [q|] eqn:E; [subst q; destruct (P1 _ _ E) as (? & ? & ?); split_and!; auto; lia|].
    destruct Hp as (? & ? & ->). pose proof (onSale_bound (oEthAsset o) os). split_and!; auto; lia. }
  destruct Hq as (Hq1 & Hq2 & Hq3). pose proof (onSale_bound (oEthAsset o) os) as Hb.
  assert (Hmod : (prOffers p + 1) mod 2 ^ 64 = prOffers p + 1) by (apply Z.mod_small; lia). split.
  - intros a q. destruct (decide (a = oEthAsset o)) as [->|Hne].
    + rewrite lookup_insert_eq. intros [= <-]. cbn [prEthAsset prVerified prOffers]. rewrite Hmod, onSale_cons, bool_decide_eq_true_2 by done.
      split_and!; auto; lia.
    + rewrite lookup_insert_ne by done. intros Hq. destruct (P1 a q Hq) as (? & ? & ?).
      rewrite onSale_cons, bool_decide_eq_false_2 by congruence. split_and!; auto; lia.
  - rewrite onSale_cons. destruct (decide (oEthAsset o = EthAssetETH)) as [He|Hne].
    + rewrite He, lookup_insert_eq, bool_decide_eq_true_2 by done. cbn [prOffers]. rewrite Hmod. rewrite He in Hp.
      destruct (pairs !! EthAssetETH) as [q|]; [subst q; lia|]. destruct Hp as (_ & _ & ->). lia.
    + rewrite lookup_insert_ne by done. by rewrite bool_decide_eq_false_2.
Qed.

(** The offers of an answer to a query. *)
Definition offersOf (e : event rpcCall) : list Offer :=
  match e with
  | Ev c a => match c in rpcCall A return A → _ with
              | NetQuery _ => fun r => match r with Ok os => os | Err _ => [] end
              | _ => fun _ => []
              end a
  end.

Definition answered (es : list (event rpcCall)) : list Offer := concat (offersOf <$> es).

Lemma answered_quiet es :
  forallb (fun e => match e with Ev (EthTokenInfo _) _ => true | _ => false end) es = true → answered es = [].
Proof.
  unfold answered. induction es as [|[A c a] es IH]; cbn; [done|]. intros [Hc Hes]%andb_true_iff. rewrite (IH Hes).
  by destruct c.
Qed.

Definition asksToken (e : event rpcCall) : bool := match e with Ev (EthTokenInfo _) _ => true | _ => false end.

Lemma quiet_addOffers os pairs : keeps (only asksToken) (addOffers os pairs).
Proof.
  revert pairs. induction os as [|o os IH]; intros pairs; cbn [addOffers]; [apply keeps_done, only_preorder|].
  apply keeps_bind; [apply only_preorder | |].
  - destruct (pairs !! _); [apply keeps_done, only_preorder|]. intros s.
    by destruct (describePair_run (oEthAsset o) s) as (x & s' & -> & Ho & _).
  - intros [p|]; [|apply IH]. apply keeps_try; [apply only_preorder | apply keeps_pure, only_preorder | auto].
Qed.

Lemma onSale_perm a os os' : os ≡ₚ os' → onSale a os = onSale a os'.
Proof. induction 1; rewrite ?onSale_cons; lia. Qed.

Lemma pairsOf_perm os os' pairs : os ≡ₚ os' → pairsOf os pairs → pairsOf os' pairs.
Proof.
  intros Hperm [P1 P2]. split.
  - intros a p Hp. rewrite <- (onSale_perm a _ _ Hperm). by apply P1.
  - by rewrite <- (onSale_perm _ _ _ Hperm).
Qed.

Lemma addOffers_pairs os seen pairs pairs' s s' : pairsOf seen pairs →
  Z.of_nat (length os + length seen) < 2 ^ 64 → addOffers os pairs s = (Done (Ok pairs'), s') →
  pairsOf (os ++ seen) pairs'.
Proof.
  revert seen pairs s. induction os as [|o os IH]; intros seen pairs s Hp Hlen; cbn [addOffers].
  { by intros [= <- <-]. }
  intros E. cbn in Hlen. apply pbind_inv_Done in E as (found & s1 & Hf & E).
  assert (Hfound : match found with
    | None => IsETH (oEthAsset o) = false
    | Some p => match pairs !! oEthAsset o with
                | Some q => q = p
                | None => prEthAsset p = oEthAsset o ∧ prVerified p = IsETH (oEthAsset o) ∧ prOffers p = 0
                end
    end).
  { destruct (pairs !! oEthAsset o) as [q|]; [by injection Hf as <- <-|].
    destruct (describePair_run (oEthAsset o) s) as (x & s2 & Hd & _ & Hx). rewrite Hd in Hf.
    injection Hf as <- <-. by destruct x. }
  apply (pairsOf_perm (os ++ o :: seen)); [symmetry; apply Permutation_middle|].
  destruct found as [p|].
  - apply pbind_inv_Done in E as ([p'|e] & s2 & Ha & E); [|done]. apply pure_inv in Ha as [Ha ->].
    eapply IH; [|cbn; lia | exact E]. eapply pairsOf_add; [exact Hp | lia | exact Hfound | exact Ha].
  - eapply IH; [by apply pairsOf_skip | cbn; lia | exact E].
Qed.

Lemma addPeers_pairs peers seen pairs pairs' s s' : addPeers peers pairs s = (Done (Ok pairs'), s') →
  ∃ es, since s s' es ∧ (Z.of_nat (length (answered es) + length seen) < 2 ^ 64 → pairsOf seen pairs →
    pairsOf (answered es ++ seen) pairs').
Proof.
  revert seen pairs s. induction peers as [|p peers IH]; intros seen pairs s; cbn [addPeers].
  { intros [= <- <-]. by exists []. }
  invoked s r s1 S1. intros E. destruct r as [os|e].
  - apply pbind_inv_Done in E as ([pairs1|e] & s2 & Ha & E); [|done].
    destruct (IH (os ++ seen) pairs1 s2 E) as (es2 & S2 & Hk).
    pose proof (quiet_addOffers os pairs s1) as Hq. rewrite Ha in Hq. destruct Hq as (es1 & Es1 & Q1).
    exists (es2 ++ es1 ++ [Ev (NetQuery p) (Ok os)]).
    split; [eapply since_trans; [|exact S2]; by eapply since_trans|].
    assert (Hans : answered (es2 ++ es1 ++ [Ev (NetQuery p) (Ok os)]) = answered es2 ++ os).
    { unfold answered. rewrite !fmap_app, !concat_app. fold (answered es1). rewrite (answered_quiet es1 Q1). cbn.
      by rewrite app_nil_r. }
    rewrite Hans, length_app, <- (assoc_L (++)). intros Hlen Hp. apply Hk; [rewrite length_app; lia|].
    eapply addOffers_pairs; [exact Hp | lia | exact Ha].
  - destruct (IH seen pairs s1 E) as (es2 & S2 & Hk). exists (es2 ++ [Ev (NetQuery p) (Err e)]).
    split; [by eapply since_trans|]. unfold answered in *. rewrite fmap_app, concat_app. cbn. by rewrite app_nil_r.
Qed.

Lemma orderPairs_perm acc l :
  foldl (fun acc p => if IsETH (prEthAsset p) then p :: acc else acc ++ [p]) acc l ≡ₚ acc ++ l.
Proof.
  revert acc. induction l as [|p l IH]; intros acc; cbn; [by rewrite app_nil_r|]. rewrite IH.
  destruct (IsETH _); [cbn; apply Permutation_middle | by rewrite <- (assoc_L (++))].
Qed.

Definition isEther (p : Pair) : bool := IsETH (prEthAsset p).

(** The pairs of ether are at the front. *)
Lemma orderPairs_front acc l : (∃ es ts, acc = es ++ ts ∧ forallb isEther es = true ∧ existsb isEther ts = false) →
  ∃ es ts, foldl (fun acc p => if IsETH (prEthAsset p) then p :: acc else acc ++ [p]) acc l = es ++ ts ∧
    forallb isEther es = true ∧ existsb isEther ts = false.
Proof.
  revert acc. induction l as [|p l IH]; intros acc (es & ts & -> & He & Ht); [by exists es, ts|]. cbn. apply IH.
  destruct (IsETH (prEthAsset p)) eqn:Hp.
  - exists (p :: es), ts. split; [done|]. split; [|done]. cbn. by rewrite He, andb_true_r.
  - exists es, (ts ++ [p]). split; [by rewrite (assoc_L (++))|]. split; [done|]. rewrite existsb_app, Ht. cbn.
    by unfold isEther; rewrite Hp.
Qed.

(** Functional.  The pairs of all peers have each asset once and ether first; a pair
    counts offers that peers answered for its asset, at least one, and the pair of ether
    counts all of them; only ether is marked as verified. *)
Theorem Pairs_reports_offers (searchTime : Z) (pairs : list Pair) s s' :
  Pairs false searchTime s = (Done (Ok pairs), s') →
  ∃ es, since s s' es ∧ (Z.of_nat (length (answered es)) < 2 ^ 64 →
    NoDup (prEthAsset <$> pairs) ∧
    (∃ eth tokens, pairs = eth ++ tokens ∧ forallb isEther eth = true ∧ existsb isEther tokens = false) ∧
    (∀ p, p ∈ pairs → prVerified p = isEther p ∧ 1 ≤ prOffers p ≤ onSale (prEthAsset p) (answered es) ∧
       (isEther p = true → prOffers p = onSale EthAssetETH (answered es))) ∧
    (0 < onSale EthAssetETH (answered es) → EthAssetETH ∈ prEthAsset <$> pairs)).
Proof.
  unfold Pairs. intros E. apply pbind_inv_Done in E as ([peers|e] & s1 & Hd & E); [|done].
  apply pbind_inv_Done in E as ([m|e] & s2 & Ha & E); [|done]. injection E as <- <-.
  apply (addPeers_pairs peers [] ∅ m s1 s2) in Ha as (es & Hs & Hk).
  assert (∃ es1, since s s1 es1 ∧ answered es1 = []) as (es1 & Hs1 & Hq).
  { unfold discover, tryBind in Hd. unfold pbind at 1, done at 1 in Hd. destruct (parseSeconds searchTime) as [t|e]; [|done].
    apply invoke_inv in Hd. by eexists. }
  exists (es ++ es1). split; [by eapply since_trans|].
  assert (Hans : answered (es ++ es1) = answered es) by (unfold answered in *; by rewrite fmap_app, concat_app, Hq, app_nil_r).
  rewrite Hans. intros Hlen. rewrite app_nil_r in Hk. destruct Hk as [P1 P2]; [cbn; lia | split; [done|]; by rewrite lookup_empty|].
  set (l := snd <$> map_to_list m) in *. pose proof (orderPairs_perm [] l) as Hperm. cbn in Hperm.
  assert (Hin : ∀ p, p ∈ l ↔ m !! prEthAsset p = Some p).
  { intros p. subst l. rewrite list_elem_of_fmap. split.
    - intros ([a q] & -> & Hq'). apply elem_of_map_to_list in Hq'. cbn. by destruct (P1 a q Hq') as [-> _].
    - intros Hp. exists (prEthAsset p, p). split; [done|]. by apply elem_of_map_to_list. }
  assert (Hkeys : prEthAsset <$> l = (map_to_list m).*1).
  { subst l. rewrite <- list_fmap_compose. apply list_fmap_ext. intros k [a q] Hq'. cbn.
    apply list_elem_of_lookup_2, elem_of_map_to_list in Hq'. by destruct (P1 a q Hq') as [-> _]. }
  split; [unfold orderPairs; by rewrite Hperm, Hkeys; apply NoDup_fst_map_to_list|].
  split; [apply orderPairs_front; by exists [], []|]. split.
  - intros p Hp. unfold orderPairs in Hp. rewrite Hperm in Hp. apply Hin in Hp as Hp'.
    destruct (P1 _ _ Hp') as (_ & Hv & Ho). split; [done|]. split; [done|]. unfold isEther, IsETH.
    intros He%bool_decide_eq_true_1. by rewrite He in Hp'; rewrite Hp' in P2.
  - intros Hpos. destruct (m !! EthAssetETH) as [p|] eqn:Hp; [|lia]. destruct (P1 _ _ Hp) as [Ha _].
    apply list_elem_of_fmap. exists p. split; [done|]. unfold orderPairs. rewrite Hperm. apply Hin. by rewrite Ha.
Qed.

(** *** The external signer *)

Import WsServer.
Context `{!WsJson}.

Definition signerGive (e : event rpcCall) : option (Hash * bool) :=
  match e with
  | Ev c a => match c in rpcCall A return A → _ with SignerGive h => fun b => Some (h, b) | _ => fun _ => None end a
  end.

Definition setDeposit (e : event rpcCall) : option (bytes * Hash) :=
  match e with Ev (BackendSetDeposit a id) _ => Some (a, id) | _ => None end.

(** Every hash handed to the swap was sent back by the front-end for this offer. *)
Definition signed (id : Hash) (es : list (event rpcCall)) : Prop :=
  ∀ h b, Some (h, b) ∈ signerGive <$> es → ∃ msg, Ev WsRead (Ok msg) ∈ es ∧ parseSigned msg = Ok (id, h).

Definition noDeposit (es : list (event rpcCall)) : Prop := Forall (fun e => setDeposit e = None) es.

Lemma signed_app id es es' : signed id es → signed id es' → signed id (es ++ es').
Proof.
  intros He He' h b Hin. rewrite fmap_app in Hin. apply elem_of_app in Hin as [Hin|Hin];
    [apply He in Hin as (msg & Hm & ?) | apply He' in Hin as (msg & Hm & ?)]; exists msg; rewrite elem_of_app; auto.
Qed.

Lemma signed_none id es : Forall (fun e => signerGive e = None) es → signed id es.
Proof.
  intros HF h b Hin. apply list_elem_of_fmap in Hin as (e & He & Hin).
  rewrite Forall_forall in HF. rewrite (HF _ Hin) in He. done.
Qed.

Lemma signerLoop_log fuel t id s :
  ∃ es, since s (signerLoop fuel t id s).2 es ∧ signed id es ∧ noDeposit es.
Proof.
  revert s. induction fuel as [|fuel IH]; intros s; cbn [signerLoop].
  { exists []. split_and!; [done | by apply signed_none | by constructor]. }
  invoked s ev s1 S1. destruct ev as [| |tx];
    [exists [Ev (SignerSelect t) SignerTimeout] | exists [Ev (SignerSelect t) SignerDone] |];
    [split_and!; [done | by apply signed_none; repeat constructor | by repeat constructor]..|].
  unfold orErr. invoked s1 w s2 S2. pose proof (since_trans _ _ _ _ _ S1 S2) as S12. destruct w as [e|].
  { eexists. split_and!; [exact S12 | by apply signed_none; repeat constructor | by repeat constructor]. }
  unfold tryBind. invoked s2 r s3 S3. pose proof (since_trans _ _ _ _ _ S12 S3) as S13. destruct r as [msg|e].
  2: { eexists. split_and!; [exact S13 | by apply signed_none; repeat constructor | by repeat constructor]. }
  unfold pbind at 1, done at 1. destruct (parseSigned msg) as [[i h]|e] eqn:Hp.
  2: { eexists. split_and!; [exact S13 | by apply signed_none; repeat constructor | by repeat constructor]. }
  destruct (bool_decide_reflect ((i, h).1 = id)) as [Hi|_]; cbn [fst snd negb] in *.
  2: { eexists. split_and!; [exact S13 | by apply signed_none; repeat constructor | by repeat constructor]. }
  subst i. invoked s3 b s4 S4. pose proof (since_trans _ _ _ _ _ S13 S4) as S14.
  set (es := [Ev (SignerGive h) b] ++ _) in S14. assert (Hes : signed id es ∧ noDeposit es).
  { split; [|by repeat constructor]. intros h' b' Hin. exists msg. split; [subst es; by inList|]. cbn in Hin.
    repeat (apply elem_of_cons in Hin as [Hin|Hin]; [try discriminate Hin|]); [by injection Hin as -> -> |].
    by apply not_elem_of_nil in Hin. }
  destruct Hes as [He1 He2]. destruct b; [|by exists es].
  destruct (IH s4) as (es' & Hs' & Hg & Hn). exists (es' ++ es).
  split_and!; [exact (since_trans _ _ _ _ _ S14 Hs') | by apply signed_app | by apply Forall_app].
Qed.

(** [handleSigner] once the request is accepted. *)
Definition serveSigner (env : Environment) (fuel : nat) (id : Hash) (eth : Address) (xmr : bytes)
  : prog (caller rpcCall F) (result unit) :=
  invoke (EthSetAddress eth) ;;;
  invoke (BackendSetDeposit xmr id) ;;;
  deferring (invoke (BackendClearDeposit id)) (signerLoop fuel (signerTimeout env) id).

(** A handler that returns has cleared the deposit address last. *)
Definition clearedLast (id : Hash) (o : outcome (result unit)) s s' : Prop :=
  ∀ r, o = Done r → ∃ es, since s s' (Ev (BackendClearDeposit id) tt :: es).

Lemma serveSigner_log env fuel id eth xmr s :
  ∃ es, since s (serveSigner env fuel id eth xmr s).2 es ∧ signed id es ∧
    Forall (fun e => ∀ x, setDeposit e = Some x → x = (xmr, id)) es ∧
    clearedLast id (serveSigner env fuel id eth xmr s).1 s (serveSigner env fuel id eth xmr s).2.
Proof.
  unfold serveSigner. invoked s u s1 S1. invoked s1 u' s2 S2. pose proof (since_trans _ _ _ _ _ S1 S2) as S12.
  destruct (signerLoop_log fuel (signerTimeout env) id s2) as (es & S3 & Hg & Hn).
  pose proof (since_trans _ _ _ _ _ S12 S3) as S13.
  assert (Hall : signed id (es ++ [Ev (BackendSetDeposit xmr id) u'; Ev (EthSetAddress eth) u]) ∧
    Forall (fun e => ∀ x, setDeposit e = Some x → x = (xmr, id))
      (es ++ [Ev (BackendSetDeposit xmr id) u'; Ev (EthSetAddress eth) u])).
  { split; [apply signed_app; [done|]; by apply signed_none; repeat constructor|]. apply Forall_app. split.
    - eapply Forall_impl; [exact Hn|]. intros e He x Hx. congruence.
    - constructor; [by intros x [= <-]|]. by repeat constructor. }
  destruct Hall as [Hg' Hd']. unfold deferring, clearedLast.
  destruct (signerLoop fuel (signerTimeout env) id s2) as [[r|m| |] s3]; cbn [fst snd] in *.
  3,4: by eexists; split_and!; [exact S13 | done | done |].
  all: destruct (invoke_run (BackendClearDeposit id) s3) as ([] & s4 & -> & S4); cbn [fst snd];
    pose proof (since_trans _ _ _ _ _ S13 S4) as S14; eexists; split_and!; [exact S14 | | |];
    [by apply (signed_app id [_]); [apply signed_none; repeat constructor|]
    | by apply (Forall_app_2 _ [_]); [repeat constructor|] | intros r' _; by eexists].
Qed.

(** C17: safety.  The deposit address of an external signer is the one of its request, valid
    for the network, and is cleared as the last thing when its request ends; a transaction
    hash is handed to the swap only as the front-end sent it for that offer. *)
Theorem signer_serves_its_offer (env : Environment) (fuel : nat) (id : Hash) (eth : Address) (xmr : bytes) s :
  let run := handleSigner env fuel id eth xmr s in
  ∃ es, since s run.2 es ∧ signed id es ∧
    ∀ x, Some x ∈ setDeposit <$> es →
      x = (xmr, id) ∧ ValidateEnv (Some xmr) env = Done None ∧ clearedLast id run.1 s run.2.
Proof.
  cbn zeta. assert (Hquiet : ∀ es, noDeposit es → ∀ x, Some x ∉ setDeposit <$> es).
  { intros es HF x (e & He & Hin)%list_elem_of_fmap. unfold noDeposit in HF. rewrite Forall_forall in HF.
    by rewrite (HF _ Hin) in He. }
  assert (Hend : ∀ s' es o, since s s' es → Forall (fun e => signerGive e = None) es → noDeposit es →
    ∃ es, since s s' es ∧ signed id es ∧ ∀ x, Some x ∈ setDeposit <$> es →
      x = (xmr, id) ∧ ValidateEnv (Some xmr) env = Done None ∧ clearedLast id o s s').
  { intros s' es o Hs HF Hn. exists es. split_and!; [done | by apply signed_none |].
    intros x Hx. by destruct (Hquiet es Hn x). }
  unfold handleSigner, tryBind. invoked s r s1 S1.
  destruct r as [u|e]; [|eapply Hend; [exact S1 | by repeat constructor..]].
  destruct (ValidateEnv (Some xmr) env) as [[e|]|m| |] eqn:Hv;
    [eapply Hend; [exact S1 | by repeat constructor..] | |
     eapply Hend; [exact S1 | by repeat constructor..]..].
  match goal with |- context [pbind (pure (Done ?a)) ?k s1] => change (pbind (pure (Done a)) k s1) with (k a s1) end.
  cbv beta iota.
  invoked s1 hasKey s2 S2. pose proof (since_trans _ _ _ _ _ S1 S2) as S12.
  destruct hasKey; [eapply Hend; [exact S12 | by repeat constructor..]|].
  destruct (serveSigner_log env fuel id eth xmr s2) as (es & S3 & Hg & Hd & Hc).
  exists (es ++ ([Ev EthHasPrivateKey false] ++ [Ev (TakerExternalSender id) (Ok u)])).
  split; [exact (since_trans _ _ _ _ _ S12 S3)|]. split; [apply signed_app; [done|]; by apply signed_none; repeat constructor|].
  intros x Hx. split_and!; [|done|].
  - apply list_elem_of_fmap in Hx as (e & He & Hin). apply elem_of_app in Hin as [Hin|Hin].
    + rewrite Forall_forall in Hd. by apply (Hd e Hin).
    + repeat (apply elem_of_cons in Hin as [->|Hin]; [done|]). by apply not_elem_of_nil in Hin.
  - intros r Hr. destruct (Hc r Hr) as (es' & Hes'). eexists.
    exact (since_trans _ _ _ _ (_ :: es') S12 Hes').
Qed.

(** *** Claiming and refunding by hand *)

Import SwapService.

(** The transaction of an event, for either method. *)
Definition manualTx (e : event rpcCall) : option (Address * TransactOpts * SwapCreatorSwap * bytes * result Hash) :=
  match e with
  | Ev c a => match c in rpcCall A return A → _ with
              | EthClaim cr o sw sec | EthRefund cr o sw sec => fun r => Some (cr, o, sw, sec, r)
              | _ => fun _ => None
              end a
  end.

(** The whole run of a transaction with the information of the recovery database. *)
Definition manualRun (id : Hash) (call : event rpcCall) (cr : Address) (o : TransactOpts) (sw : SwapCreatorSwap)
    (sec : bytes) (r : result Hash) (out : outcome (result Hash)) s s' : Prop :=
  ∃ info sk, cr = esSwapCreatorAddr info ∧ sw = esSwap info ∧ array32 (Reverse (scalarBytes sk)) = Done sec ∧
    out = Done r ∧
    since s s' [Ev EthUnlock tt; call; Ev EthTxOpts (Ok o); Ev EthLock tt; Ev (EthBindCreator cr) (Ok tt);
                Ev (RdbSwapPrivateKey id) (Ok sk); Ev (RdbContractSwapInfo id) (Ok info)].

Lemma manual_log id (method : Address → TransactOpts → SwapCreatorSwap → bytes → rpcCall (result Hash)) s :
  (∀ cr o sw sec r, manualTx (Ev (method cr o sw sec) r) = Some (cr, o, sw, sec, r)) →
  let run := manualTransaction id method s in
  (∃ es, since s run.2 es ∧ Forall (fun e => manualTx e = None) es) ∨
  ∃ cr o sw sec r, manualRun id (Ev (method cr o sw sec) r) cr o sw sec r run.1 s run.2.
Proof.
  intros Hm. cbn zeta. unfold manualTransaction, tryBind. invoked s r s1 S1.
  destruct r as [info|e]; [|left; eexists; split; [exact S1 | by repeat constructor]].
  invoked s1 r s2 S2. pose proof (since_trans _ _ _ _ _ S1 S2) as S12.
  destruct r as [sk|e]; [|left; eexists; split; [exact S12 | by repeat constructor]].
  invoked s2 r s3 S3. pose proof (since_trans _ _ _ _ _ S12 S3) as S13.
  destruct r as [[]|e]; [|left; eexists; split; [exact S13 | by repeat constructor]].
  invoked s3 u s4 S4. pose proof (since_trans _ _ _ _ _ S13 S4) as S14. destruct u.
  unfold deferring. invoked s4 r s5 S5. pose proof (since_trans _ _ _ _ _ S14 S5) as S15.
  destruct r as [o|e].
  2: { left. cbn -[invoke since]. destruct (invoke_run EthUnlock s5) as (u & s6 & -> & S6). eexists.
       split; [exact (since_trans _ _ _ _ _ S15 S6) | by repeat constructor]. }
  unfold pbind at 1, pure. destruct (array32 _) as [sec|m| |] eqn:Hsec.
  3,4: left; eexists; split; [exact S15 | by repeat constructor].
  2: { left. cbn -[invoke since]. destruct (invoke_run EthUnlock s5) as (u & s6 & -> & S6). eexists.
       split; [exact (since_trans _ _ _ _ _ S15 S6) | by repeat constructor]. }
  right. cbn -[invoke since manualRun]. destruct (invoke_run (method (esSwapCreatorAddr info) o (esSwap info) sec) s5) as (r & s6 & -> & S6).
  pose proof (since_trans _ _ _ _ _ S15 S6) as S16. destruct (invoke_run EthUnlock s6) as ([] & s7 & -> & S7).
  exists (esSwapCreatorAddr info), o, (esSwap info), sec, r, info, sk.
  split_and!; [done | done | done | done | exact (since_trans _ _ _ _ _ S16 S7)].
Qed.

Lemma manual_run id (method : Address → TransactOpts → SwapCreatorSwap → bytes → rpcCall (result Hash)) s cr o sw sec r :
  (∀ cr o sw sec r, manualTx (Ev (method cr o sw sec) r) = Some (cr, o, sw, sec, r)) →
  happened s (manualTransaction id method s).2 (Ev (method cr o sw sec) r) →
  manualRun id (Ev (method cr o sw sec) r) cr o sw sec r (manualTransaction id method s).1 s (manualTransaction id method s).2.
Proof.
  intros Hm (es & Hs & Hin). apply (list_elem_of_fmap_2 manualTx) in Hin. rewrite Hm in Hin.
  destruct (manual_log id method s Hm) as [(es' & Hs' & HF)|(cr' & o' & sw' & sec' & r' & Hrun)].
  - rewrite (since_inj _ _ _ _ Hs Hs') in Hin. apply list_elem_of_fmap in Hin as (e & He & Hin).
    rewrite Forall_forall in HF. by rewrite (HF e Hin) in He.
  - pose proof Hrun as (info & sk & _ & _ & _ & _ & Hs'). rewrite (since_inj _ _ _ _ Hs Hs'), !fmap_cons, Hm in Hin.
    repeat (apply elem_of_cons in Hin as [Hin|Hin]; [try discriminate Hin|]);
      [by injection Hin as -> -> -> -> -> | by apply not_elem_of_nil in Hin].
Qed.

(** Functional.  Claiming and refunding by hand make one transaction, under the lock of
    the wallet, on the contract and for the swap of the recovery database, with the swap's
    own secret in the byte order of the contract, and return what it returned. *)
Theorem manual_transactions_use_recovery_info (id : Hash) (cr : Address) (o : TransactOpts) (sw : SwapCreatorSwap)
    (sec : bytes) (r : result Hash) s :
  (happened s (Claim id s).2 (Ev (EthClaim cr o sw sec) r) →
     manualRun id (Ev (EthClaim cr o sw sec) r) cr o sw sec r (Claim id s).1 s (Claim id s).2) ∧
  (happened s (Refund id s).2 (Ev (EthRefund cr o sw sec) r) →
     manualRun id (Ev (EthRefund cr o sw sec) r) cr o sw sec r (Refund id s).1 s (Refund id s).2).
Proof. split; by apply manual_run. Qed.

(** *** The swap timeout *)

Import PersonalService.

(** Bounds.  A timeout of up to 9223372036 seconds is read back as it was set: the
    backend is given that many seconds, and the timeout it then has is reported as them. *)
Theorem swap_timeout_roundtrip (negative : Z → Z) (n : Z) s :
  0 ≤ n → n * Second ≤ int64_max →
  ∃ d s1, SetSwapTimeout n s = (Done tt, s1) ∧ since s s1 [Ev (BackendSetSwapTimeout d) tt] ∧ d = n * Second ∧
    ∀ s2, ∃ d' s3, GetSwapTimeout negative s2 = (Done (durationSeconds negative d'), s3) ∧
      since s2 s3 [Ev BackendSwapTimeout d'] ∧ (d' = d → durationSeconds negative d' = n).
Proof.
  intros Hn Hmax. assert (Hw : wrap64 (Second * wrap64 n) = n * Second).
  { unfold Second, int64_max in *. rewrite (wrap64_id n) by (unfold int64_min, int64_max; lia).
    rewrite wrap64_id by (unfold int64_min, int64_max; lia). lia. }
  destruct (invoke_run (BackendSetSwapTimeout (wrap64 (Second * wrap64 n))) s) as ([] & s1 & E1 & S1).
  exists (n * Second), s1. unfold SetSwapTimeout. rewrite Hw in *. split_and!; [done | done | done |]. intros s2.
  unfold GetSwapTimeout. invoked s2 d' s3 S3. exists d', s3. split_and!; [done | done |]. intros ->.
  unfold durationSeconds. unfold Second in *. destruct (Z.ltb_spec (n * 1000000000) 0); [lia|].
  rewrite Z.div_mul, Z.mod_mul by lia. done.
Qed.

End services.

#[export] Hint Extern 1 (keeps (only _) (invoke _)) => (apply only_invoke; reflexivity) : keeps.

End RpcProofs.
