(* ===== verification/RpcWitness.v ===== *)
(** * The JSON-RPC services at concrete runs *)

From stdpp Require Import base gmap list strings.
From Stdlib Require Import ZArith Strings.Byte Sorted.
From S2P Require Import Prelude Calls Coins RefApd CoinsProofs Types TypesProofs Swap SwapProofs Bytes Crypto CryptoProofs Base58 Base58Proofs Contracts External EthClient Wallet SampleWorld Relayer RelayWitness Net NetWitness Rpc RpcProofs.

Open Scope Z_scope.
Open Scope go_scope.

Module RpcWitness.
Import RpcProofs RelayWitness NetWitness.

(** ** Insertion sort *)

Section sorting.
Context {A : Type} (less : A → A → bool).

Fixpoint insertSorted (x : A) (l : list A) : list A :=
  match l with
  | [] => [x]
  | y :: l' => if less x y then x :: y :: l' else y :: insertSorted x l'
  end.

Definition insertionSort (l : list A) : list A := foldr insertSorted [] l.

Lemma insertSorted_perm x l : insertSorted x l ≡ₚ x :: l.
Proof.
  induction l as [|y l IH]; cbn; [done|]. destruct (less x y); [done|]. rewrite IH. apply Permutation_swap.
Qed.

Lemma insertionSort_perm l : insertionSort l ≡ₚ l.
Proof. induction l as [|x l IH]; cbn; [done|]. by rewrite insertSorted_perm, IH. Qed.
End sorting.

Lemma insertSorted_sorted {A} (less : A → A → bool) x l : weakOrder less →
  StronglySorted (fun x y => less y x = false) l →
  StronglySorted (fun x y => less y x = false) (insertSorted less x l).
Proof.
  intros W. induction 1 as [|y l Hl IH HF]; cbn; [by repeat constructor|]. destruct (less x y) eqn:E.
  - assert (Hyx : less y x = false).
    { destruct (less y x) eqn:E'; [|done]. pose proof (less_trans _ W _ _ _ E E'). by rewrite less_irrefl in *. }
    constructor; [by constructor|]. constructor; [done|]. eapply Forall_impl; [exact HF|]. intros z Hz.
    by apply (less_incomparable _ W _ y).
  - constructor; [done|]. rewrite insertSorted_perm. by constructor.
Qed.

#[local] Instance sampleSort : SortLib := @insertionSort.

#[local] Instance sampleSortSpec : SortSpec.
Proof.
  split; intros A; [intros less l; apply insertionSort_perm|]. intros less l W.
  induction l as [|x l IH]; cbn; [constructor | by apply insertSorted_sorted].
Qed.

(** ** Past swaps *)

Definition startedAt (t : Z) (id : Hash) (st : Status) : @Info refTypes :=
  NewInfo t t "peer" id ProvidesXMR (apdNew 1 0) (apdNew 2 (-1)) None EthAssetETH st 100.

(** Two finished swaps and one in progress. *)
Definition threeSwaps : memory :=
  mkMemory _ emptyManager
    {[repeat Byte.x01 32 := startedAt 5 (repeat Byte.x01 32) CompletedSuccess;
      repeat Byte.x02 32 := startedAt 9 (repeat Byte.x02 32) CompletedRefund;
      repeat Byte.x03 32 := startedAt 7 (repeat Byte.x03 32) XMRLocked]} 10.

Definition twoPast : list PastSwap :=
  [SwapService.pastSwap (startedAt 9 (repeat Byte.x02 32) CompletedRefund);
   SwapService.pastSwap (startedAt 5 (repeat Byte.x01 32) CompletedSuccess)].

Lemma GetPast_lists_past_swaps_witness :
  StronglySorted (fun x y => psStartTime y ≤ psStartTime x) twoPast ∧ NoDup (psID <$> twoPast) ∧
  ∀ p, p ∈ twoPast ↔ ∃ id i, listed threeSwaps id ∧ pastRecord threeSwaps id i ∧ p = SwapService.pastSwap i.
Proof.
  apply (GetPast_lists_past_swaps threeSwaps twoPast (SwapService.GetPast None threeSwaps).2).
  - apply wf_empty.
  - reflexivity.
Defined.

(** ** A state with the manager and a log *)

Definition onFields {F A} (m : prog F A) : prog (caller rpcCall F) A := fun s =>
  let '(o, f) := m (fields s) in (o, mkCaller f (ticks s) (log s)).

#[local] Instance loggedSwapEnv {F} `{!SwapEnv F} : SwapEnv (caller rpcCall F) := {|
  getManager := fun s => getManager (fields s);
  putManager := fun m s => mkCaller (putManager m (fields s)) (ticks s) (log s);
  dbPutSwap := fun i => onFields (dbPutSwap i);
  dbGetSwap := fun id => onFields (dbGetSwap id);
  dbGetAllSwaps := onFields dbGetAllSwaps;
  timeNow := onFields timeNow
|}.

#[local] Instance loggedSwapSpec {F} `{!SwapEnv F} `{!SwapEnvSpec F} : SwapEnvSpec (caller rpcCall F).
Proof.
  refine {| stored := fun s => stored (fields s); swapStorable := swapStorable |}.
  - exact (storable_complete (S := F)).
  - intros m s. exact (get_put m (fields s)).
  - intros m m' s. cbn. by rewrite put_put.
  - intros [f t l]. cbn. by rewrite put_get.
  - intros m s. exact (stored_put m (fields s)).
  - intros s id i. exact (stored_ids (fields s) id i).
  - intros [f t l]. destruct (timeNow_runs f) as (n & f' & E & ?). exists n, (mkCaller f' t l). cbn. unfold onFields. cbn. by rewrite E.
  - intros i [f t l]. destruct (putSwap_runs i f) as (r & f' & E & ?). exists r, (mkCaller f' t l). cbn. unfold onFields. cbn. by rewrite E.
  - intros id [f t l]. destruct (getSwap_runs id f) as (r & f' & E & ?). exists r, (mkCaller f' t l). cbn. unfold onFields. cbn. by rewrite E.
  - intros [f t l]. destruct (getAllSwaps_runs f) as (r & f' & E & ?). exists r, (mkCaller f' t l). cbn. unfold onFields. cbn. by rewrite E.
Defined.

#[local] Instance undisturbed {F} : Others F := fun _ f => f.

Definition theToken : Address := repeat x70 20.
Definition tokenOffer : Offer := mkOffer _ CurOfferVersion (repeat x09 32) ProvidesXMR (Some (apdNew 1 0)) (Some (apdNew 2 0)) (Some (apdNew 1 0)) theToken 0.

(** Two peers, of which the second does not answer; messages cannot be sent to it. *)
#[local] Instance sampleServices : Answers rpcCall := fun A i c =>
  match c in rpcCall B return B with
  | NetPeerID => "me"%string
  | NetAddresses | NetConnectedPeers => []
  | NetDiscover _ _ => Ok ["peer"; "silent"]%string
  | NetQuery p => if bool_decide (p = "peer") then Ok [tokenOffer; sampleOffer; sampleOffer] else Err (errorf "timeout")
  | NetInitiate _ _ _ => Some (errorf "stream reset")
  | NetCloseStream _ => tt
  | TakerInitiate _ _ _ => Ok 0%nat
  | TakerSwapState _ | MakerSwapState _ => Some None
  | TakerExternalSender _ => Ok tt
  | MakerMakeOffer _ b => Ok (NewOfferExtra b)
  | MakerGetOffers => [sampleOffer]
  | MakerClearOffers _ => None
  | MakerMoneroBalance => Ok (sampleAddress, mkBalance 5 5 0)
  | StateSendKeys _ => firstKeys
  | StateExit _ => None
  | BackendSwapTimeout => 3600 * Second
  | BackendSetSwapTimeout _ => tt
  | BackendSwapCreatorAddr => contractAt
  | BackendSetDeposit _ _ | BackendClearDeposit _ => tt
  | BackendTransferXMR _ _ => Ok "txid"%string
  | BackendSweepXMR _ => Ok []
  | BackendTransferETH _ _ _ | BackendSweepETH _ => Err (errorf "no funds")
  | EthHasPrivateKey => false
  | EthSetAddress _ | EthSetGasPrice _ | EthLock | EthUnlock => tt
  | EthAddressOf => makerAddr
  | EthBalance => Ok (apdNew 1 18)
  | EthTokenBalance _ => Err (errorf "no token")
  | EthTokenInfo t => Ok (mkToken t 18 "Token" "TKN")
  | EthTxOpts => Ok (mkTxOpts None None 0)
  | EthBindCreator _ => Ok tt
  | EthClaim _ _ _ _ | EthRefund _ _ _ _ => Ok lockTx
  | RdbContractSwapInfo _ => Ok (mkEthInfo 1 theID contractSwap0 contractAt)
  | RdbSwapPrivateKey _ => Ok (kpSpend (kpPrivate sampleKeys))
  | EthChainID => Ok 1337
  | Getenv _ => ""%string
  | DialOptimism _ => Ok tt
  | CloseOptimism => tt
  | FeedLatestRound _ => Ok (100, 1)
  | FeedDecimals _ => Ok 8
  | FeedDescription _ => Ok "feed"%string
  | WsRead => Err (errorf "closed")
  | WsWrite _ => None
  | WsClose => tt
  | WsContextDone => false
  | SignerSelect _ => SignerTimeout
  | SignerGive _ => true
  | RandomNonce => 7
  | RegisterService _ => None
  | CancelServer => tt
  | ListenTCP _ => Ok tt
  | PrometheusRegistry => None
  end.

Definition node0 : caller rpcCall unit := mkCaller tt 0 [].

Lemma swap_timeout_roundtrip_witness :
  ∃ d s1, PersonalService.SetSwapTimeout 3600 node0 = (Done tt, s1) ∧ since node0 s1 [Ev (BackendSetSwapTimeout d) tt] ∧
    d = 3600 * Second ∧
    ∀ s2 : caller rpcCall unit, ∃ d' s3, PersonalService.GetSwapTimeout (fun _ => 0) s2 = (Done (durationSeconds (fun _ => 0) d'), s3) ∧
      since s2 s3 [Ev BackendSwapTimeout d'] ∧ (d' = d → durationSeconds (fun _ => 0) d' = 3600).
Proof. apply (swap_timeout_roundtrip (fun _ => 0) 3600 node0); unfold Second, int64_max; lia. Defined.

(** A larger timeout wraps to a negative one. *)
Example long_timeout_is_negative :
  log (PersonalService.SetSwapTimeout 9223372037 node0).2 = [Ev (BackendSetSwapTimeout (-9223372036709551616)) tt].
Proof. reflexivity. Qed.

(** The message cannot be sent, the exit succeeds: the request is answered with success. *)
Example failed_initiation_reports_success :
  (NetService.takeOffer "peer" (oID sampleOffer) (apdNew 1 0) node0).1 = Done (Ok tt).
Proof. reflexivity. Qed.

Definition samplePairs : list Pair :=
  match (NetService.Pairs false 0 node0).1 with Done (Ok l) => l | _ => [] end.

Lemma Pairs_reports_offers_witness :
  ∃ es, since node0 (NetService.Pairs false 0 node0).2 es ∧ (Z.of_nat (length (answered es)) < 2 ^ 64 →
    NoDup (prEthAsset <$> samplePairs) ∧
    (∃ eth tokens, samplePairs = eth ++ tokens ∧ forallb isEther eth = true ∧ existsb isEther tokens = false) ∧
    (∀ p, p ∈ samplePairs → prVerified p = isEther p ∧ 1 ≤ prOffers p ≤ onSale (prEthAsset p) (answered es) ∧
       (isEther p = true → prOffers p = onSale EthAssetETH (answered es))) ∧
    (0 < onSale EthAssetETH (answered es) → EthAssetETH ∈ prEthAsset <$> samplePairs)).
Proof. apply (Pairs_reports_offers 0 samplePairs node0). reflexivity. Defined.

(** Ether with two offers first, then the token with one. *)
Example sample_pairs : (fun p => (prEthAsset p, prOffers p)) <$> samplePairs = [(EthAssetETH, 2); (theToken, 1)].
Proof. reflexivity. Qed.

(** A namespace that does not exist is forgotten when another one follows it. *)
Example unknown_namespace_forgotten :
  (Server.NewServer Mainnet "127.0.0.1:5000" ["bogus"; "net"]%string node0).1 = Done (Ok true) ∧
  (Server.NewServer Mainnet "127.0.0.1:5000" ["net"; "bogus"]%string node0).1 = Done (Err (errorf "unknown namespace")).
Proof. split; reflexivity. Qed.

(** ** Subscriptions *)

#[local] Instance sampleWsJson : WsJson := {|
  parseRequest := fun _ => Err (errorf "bad JSON");
  parseSigner := fun _ => Err (errorf "bad JSON");
  parseSubscribe := fun _ => Err (errorf "bad JSON");
  parseTake := fun _ => Err (errorf "bad JSON");
  parseMake := fun _ => Err (errorf "bad JSON");
  parseSigned := fun _ => Err (errorf "bad JSON");
  validResponse := fun m =>
    match m with WsStatus UnknownStatus => Some (errorf "unknown status") | _ => None end
|}.

Definition wsWritten (e : event rpcCall) : option wsMessage :=
  match e with Ev (WsWrite m) _ => Some m | _ => None end.

#[local] Instance sampleConn : OpenConn (S := caller rpcCall memory).
Proof.
  refine {| written := fun s => reverse (omap wsWritten (log s)) |}.
  - done.
  - intros s. by eexists.
  - intros m s. eexists. split; [done|]. split; [done|]. apply reverse_cons.
  - by intros [].
Defined.

(** A subscriber's empty channel. *)
Definition subscribed : caller rpcCall memory := mkCaller sampleSubscribed 0 [].

Lemma subscriber_sees_every_status_witness :
  ∃ s1 s2, pushAll (repeat Byte.x07 32) ([ExpectingKeys; ETHLocked] ++ [CompletedSuccess]) subscribed = (Done tt, s1) ∧
    WsServer.statusLoop (Datatypes.S statusChSize) 0 s1 = (Done (Ok tt), s2) ∧
    written s2 = written s1 ++ (WsStatus <$> [ExpectingKeys; ETHLocked] ++ [CompletedSuccess]).
Proof.
  apply (subscriber_sees_every_status (repeat Byte.x07 32) 0 [ExpectingKeys; ETHLocked] CompletedSuccess subscribed);
    try reflexivity.
  - apply sampleSubscribed_wf.
  - by repeat constructor.
  - unfold statusChSize. cbn. lia.
Defined.

(** A swap whose final status was pushed and which is not yet filed as past. *)
Definition ending : caller rpcCall memory :=
  (PushNewStatus (repeat Byte.x07 32) CompletedSuccess (mkCaller (sampleOngoing XMRLocked) 0 [])).2.

(** A subscriber that comes at that moment gets a new channel, on which nothing will be
    sent. *)
Example late_subscriber_waits_for_ever :
  (WsServer.subscribeSwapStatus 9 (repeat Byte.x07 32) ending).1 = Blocked.
Proof. reflexivity. Qed.

(** An ongoing swap that has no state in memory: the nil pointer passes the nil check. *)
Example cancel_panics_without_state :
  (SwapService.Cancel (IJ := sampleJson) (repeat Byte.x07 32) (mkCaller (sampleOngoing XMRLocked) 0 [])).1
  = Panicked "nil pointer dereference".
Proof. reflexivity. Qed.

End RpcWitness.
