(* ===== verification/Metrics.v ===== *)
(** * The metrics of the daemon (rpc/prometheus.go)

    A gauge is a name, labels and a function that is run whenever the metrics are scraped.
    Its value is a float64, here [spec_float], the IEEE 754 arithmetic of the standard
    library.  The registry of prometheus is the list of the names and labels it has; the
    factory of promauto panics when a gauge cannot be registered. *)

From stdpp Require Import base gmap list strings.
From Stdlib Require Import ZArith Strings.Byte Floats.SpecFloat Lia.
From S2P Require Import Prelude Coins Types Swap Bytes Crypto Contracts External EthClient Wallet Net Rpc.

Open Scope Z_scope.
Open Scope go_scope.

(** Third-party code: [peer.AddrInfoFromString] (the ID of the address), [Decimal.Float64], and
    whether a default collector can be registered. *)
Class MetricsLib := {
  addrInfoID : string → result string;
  apdFloat64 : Decimal → result spec_float;
  registerCollector : string → option error
}.

Module Metrics.

(** ** float64 *)

Definition float64 : Type := spec_float.

(** [float64(z)]: the nearest float64, ties to even. *)
Definition float64Of (z : Z) : float64 := binary_normalize 53 1024 z 0 false.

Definition float64Add : float64 → float64 → float64 := SFadd 53 1024.
Definition float64Div : float64 → float64 → float64 := SFdiv 53 1024.

(** ** Gauges and the registry *)

Definition namespace : string := "swapdaemon".

Record GaugeOpts : Type := mkOpts {
  goNamespace : string;
  goName : string;
  goHelp : string;
  goConstLabels : list (string * string)
}.

Definition Registry : Type := list (string * list (string * string)).

Section metrics.
Context `{Apd} `{IJ : InfoJson} `{CryptoLib} `{!MetricsLib} {S : Type} `{!SwapEnv S} `{!RpcEnv S}.

Record GaugeFunc : Type := mkGauge { gaOpts : GaugeOpts; gaFunction : prog S float64 }.

(** The full name of a gauge. *)
Definition fqName (o : GaugeOpts) : string := goNamespace o +:+ "_" +:+ goName o.

(** [Factory.NewGaugeFunc] *)
Definition NewGaugeFunc (reg : Registry) (o : GaugeOpts) (f : prog S float64) : outcome (GaugeFunc * Registry) :=
  let key := (fqName o, goConstLabels o) in
  if bool_decide (key ∈ reg) then Panicked "duplicate metrics collector registration attempted"
  else Done (mkGauge o f, reg ++ [key]).

(** The loop of [pastSwapsMetric] *)
Fixpoint countPastSwaps (status : Status) (ids : list Hash) (count : Z) : prog S Z :=
  match ids with
  | [] => done count
  | id :: rest =>
      r <- GetPastSwap id ;;
      match r with
      | Err _ => countPastSwaps status rest count
      | Ok l =>
          pastSwap <- readInfo l ;;
          countPastSwaps status rest (if bool_decide (iStatus pastSwap = status) then count + 1 else count)
      end
  end.

Definition pastSwapsCount (status : Status) : prog S float64 :=
  r <- GetPastIDs ;;
  match r with
  | Err _ => done (float64Of (-1))
  | Ok pastIDs => count <- countPastSwaps status pastIDs 0 ;; done (float64Of count)
  end.

Definition pastSwapsMetric (reg : Registry) (status : Status) (statusLabel : string) : outcome (GaugeFunc * Registry) :=
  NewGaugeFunc reg
    (mkOpts namespace "past_swaps_count" "The number of past swaps by status" [("status", statusLabel)])
    (pastSwapsCount status).

(** The distinct IDs of the addresses that parse, in the order of the addresses. *)
Fixpoint distinctPeers (addrs : list string) (peerIDs : list string) : list string :=
  match addrs with
  | [] => peerIDs
  | addr :: rest =>
      match addrInfoID addr with
      | Err _ => distinctPeers rest peerIDs
      | Ok id => distinctPeers rest (if bool_decide (id ∈ peerIDs) then peerIDs else peerIDs ++ [id])
      end
  end.

Definition peersCount : prog S float64 :=
  addrs <- invoke NetConnectedPeers ;;
  done (float64Of (Z.of_nat (length (distinctPeers addrs [])))).

Definition ongoingSwapsCount : prog S float64 :=
  r <- GetOngoingSwapsSnapshot ;;
  match r with
  | Err _ => done (float64Of (-1))
  | Ok swaps => done (float64Of (Z.of_nat (length swaps)))
  end.

Definition offersCount : prog S float64 :=
  offers <- invoke MakerGetOffers ;;
  done (float64Of (Z.of_nat (length offers))).

Definition moneroBalance : prog S float64 :=
  r <- invoke MakerMoneroBalance ;;
  match r with
  | Err _ => done (float64Of (-1))
  | Ok b => done (float64Of (brBalance b.2))
  end.

Definition ethereumBalance : prog S float64 :=
  r <- invoke EthBalance ;;
  match r with
  | Err _ => done (float64Of (-1))
  | Ok balance =>
      match apdFloat64 balance with
      | Err _ => done (float64Of (-1))
      | Ok fBalance => done fBalance
      end
  end.

(** [Time.Unix] of a time in nanoseconds. *)
Definition unixSeconds (t : Z) : Z := t / Second.

(** The loop of the average duration: a swap without an end time is a nil pointer. *)
Fixpoint sumDurations (ids : list Hash) (sum : float64) (count : Z) : prog S (float64 * Z) :=
  match ids with
  | [] => done (sum, count)
  | id :: rest =>
      r <- GetPastSwap id ;;
      match r with
      | Err _ => sumDurations rest sum count
      | Ok l =>
          pastSwap <- readInfo l ;;
          endTime <- pure (deref (iEndTime pastSwap)) ;;
          let d := wrap64 (unixSeconds endTime - unixSeconds (iStartTime pastSwap)) in
          sumDurations rest (float64Add sum (float64Of d)) (count + 1)
      end
  end.

Definition averageSwapDuration : prog S float64 :=
  r <- GetPastIDs ;;
  match r with
  | Err _ => done (float64Of (-1))
  | Ok pastIDs =>
      sc <- sumDurations pastIDs (float64Of 0) 0 ;;
      done (float64Div sc.1 (float64Of sc.2))
  end.

Record MetricsSet : Type := mkMetrics {
  mPeersCount : GaugeFunc;
  mOngoingSwapsCount : GaugeFunc;
  mPastSwapsSuccessCount : GaugeFunc;
  mPastSwapsRefundCount : GaugeFunc;
  mPastSwapsAbortCount : GaugeFunc;
  mOffersCount : GaugeFunc;
  mMoneroBalance : GaugeFunc;
  mEthereumBalance : GaugeFunc;
  mAverageSwapDuration : GaugeFunc
}.

Definition opts (name help : string) (labels : list (string * string)) : GaugeOpts :=
  mkOpts namespace name help labels.

(** The gauges are registered in the order of the fields. *)
Definition SetupMetrics (reg : Registry) : outcome (MetricsSet * Registry) :=
  r <~ NewGaugeFunc reg (opts "peers_count" "The number of connected peers" []) peersCount ;;
  let '(peers, reg) := r in
  r <~ NewGaugeFunc reg (opts "ongoing_swaps_count" "The number of ongoing swaps" []) ongoingSwapsCount ;;
  let '(ongoing, reg) := r in
  r <~ pastSwapsMetric reg CompletedSuccess "success" ;;
  let '(success, reg) := r in
  r <~ pastSwapsMetric reg CompletedRefund "refund" ;;
  let '(refund, reg) := r in
  r <~ pastSwapsMetric reg CompletedAbort "abort" ;;
  let '(abort, reg) := r in
  r <~ NewGaugeFunc reg (opts "owned_offers_count" "The number of offers" []) offersCount ;;
  let '(offers, reg) := r in
  r <~ NewGaugeFunc reg (opts "balance" "Balance" [("coin", "xmr")]) moneroBalance ;;
  let '(xmr, reg) := r in
  r <~ NewGaugeFunc reg (opts "balance" "Balance" [("coin", "eth")]) ethereumBalance ;;
  let '(eth, reg) := r in
  r <~ NewGaugeFunc reg (opts "avg_swap_duration_seconds" "The average swap duration" []) averageSwapDuration ;;
  let '(average, reg) := r in
  Done (mkMetrics peers ongoing success refund abort offers xmr eth average, reg).

(** The names of the default collectors are theirs. *)
Definition NewPrometheusRegistry : result Registry :=
  match registerCollector "BuildInfo" with
  | Some e => Err e
  | None =>
      match registerCollector "Go" with
      | Some e => Err e
      | None => match registerCollector "Process" with Some e => Err e | None => Ok [] end
      end
  end.

(** ** What the metrics show *)

(** The gauges do not collide with each other on a new registry, and setting them up twice on
    one registry panics. *)
Lemma SetupMetrics_new reg : NewPrometheusRegistry = Ok reg →
  ∃ m reg', SetupMetrics reg = Done (m, reg') ∧ NoDup reg' ∧ length reg' = 9%nat ∧
    SetupMetrics reg' = Panicked "duplicate metrics collector registration attempted".
Proof.
  unfold NewPrometheusRegistry. repeat case_match; try done. intros [= <-].
  eexists _, _. split; [reflexivity|]. split; [|split; reflexivity].
  apply (bool_decide_unpack (NoDup _)). vm_compute. exact I.
Qed.

Lemma distinctPeers_spec addrs ids : NoDup ids →
  NoDup (distinctPeers addrs ids) ∧
  ∀ id, id ∈ distinctPeers addrs ids ↔ id ∈ ids ∨ ∃ a, a ∈ addrs ∧ addrInfoID a = Ok id.
Proof.
  revert ids. induction addrs as [|a addrs IH]; intros ids Hn; cbn.
  { split; [done|]. intros id. split; [by left|]. intros [|(a & Ha & _)]; [done | by apply not_elem_of_nil in Ha]. }
  destruct (addrInfoID a) as [pid|e] eqn:E.
  - set (ids' := if bool_decide (pid ∈ ids) then ids else ids ++ [pid]).
    assert (Hn' : NoDup ids' ∧ ∀ id, id ∈ ids' ↔ id ∈ ids ∨ id = pid).
    { unfold ids'. case_bool_decide as Hin; [split; [done|]; intros id; split; [by left | intros [? | ->]; done]|].
      split; [|intros id; by rewrite elem_of_app, list_elem_of_singleton].
      apply NoDup_app. split_and!; [done | | apply NoDup_singleton].
      intros x Hx ->%list_elem_of_singleton. done. }
    destruct Hn' as [Hn' Hm], (IH ids' Hn') as [Hnd Hs]. split; [done|]. intros id. rewrite Hs, Hm. split.
    + intros [[Hid | ->]|(a' & Ha & Hid)]; [by left | right; exists a; by split; [left|] |].
      right. exists a'. by split; [right|].
    + intros [Hid|(a' & [-> |Ha]%elem_of_cons & Hid)]; [by left; left | left; right; congruence |].
      right. by exists a'.
  - destruct (IH ids Hn) as [Hnd Hs]. split; [done|]. intros id. rewrite Hs. split.
    + intros [|(a' & Ha & Hid)]; [by left | right; exists a'; by split; [right|]].
    + intros [|(a' & [-> |Ha]%elem_of_cons & Hid)]; [by left | congruence | right; by exists a'].
Qed.

(** A counter never exceeds the number of past swaps. *)
Lemma countPastSwaps_bound status ids c s c' s' : countPastSwaps status ids c s = (Done c', s') →
  c ≤ c' ≤ c + Z.of_nat (length ids).
Proof.
  revert c s. induction ids as [|id ids IH]; intros c s; cbn [countPastSwaps].
  { intros [= <- _]. cbn. lia. }
  intros (r & s1 & _ & E)%pbind_inv_Done. destruct r as [l|e].
  - apply pbind_inv_Done in E as (i & s2 & _ & E). apply IH in E. cbn [length]. case_bool_decide; lia.
  - apply IH in E. cbn [length]. lia.
Qed.

(** Without past swaps the average is not a number, and one past swap without an end time
    stops the daemon. *)
Lemma averageSwapDuration_none s s' : GetPastIDs s = (Done (Ok []), s') → averageSwapDuration s = (Done S754_nan, s').
Proof. intros E. unfold averageSwapDuration, pbind. by rewrite E. Qed.

Lemma averageSwapDuration_no_end s s1 s2 id ids l i : GetPastIDs s = (Done (Ok (id :: ids)), s1) →
  GetPastSwap id s1 = (Done (Ok l), s2) → infos (getManager s2) !! l = Some i → iEndTime i = None →
  ∃ m, averageSwapDuration s = (Panicked m, s2).
Proof.
  intros E1 E2 Hl Hi. unfold averageSwapDuration, sumDurations, pbind, readInfo, pure, deref.
  rewrite E1, E2, Hl, Hi. by eexists.
Qed.

End metrics.
End Metrics.
