(* ===== verification/Daemon.v ===== *)
(** * Start-up and shut-down (packages cliutil, daemon, bootnode, cmd/swapd, cmd/bootnode)

    The constructors of the components, the files and the shell are [bootCall]s: the models
    of the components are in their own files.  The flags of the command line are a
    [cliContext]. *)

From stdpp Require Import base gmap list strings.
From Stdlib Require Import ZArith Strings.Byte Strings.Ascii.
From S2P Require Import Prelude Calls Coins Types Bytes Contracts External Relayer Config Wallet EthClient Rpc.

Open Scope Z_scope.
Open Scope go_scope.

(** ** Go's package strings *)

(** [strings.Split] at one character: one part more than there are separators. *)
Fixpoint stringsSplit (sep : ascii) (s : string) : list string :=
  match s with
  | EmptyString => [""%string]
  | String c rest =>
      if Ascii.eqb c sep then ""%string :: stringsSplit sep rest
      else
        match stringsSplit sep rest with
        | first :: others => String c first :: others
        | [] => [String c ""]
        end
  end.

(** The encodings of the characters with Unicode's property White_Space. *)
Definition whiteSpace : list (list Z) :=
  ((fun z => [z]) <$> [9; 10; 11; 12; 13; 32]) ++ [[194; 133]; [194; 160]; [225; 154; 128]] ++
  ((fun z => [226; 128; z]) <$> [128; 129; 130; 131; 132; 133; 134; 135; 136; 137; 138; 168; 169; 175]) ++
  [[226; 129; 159]; [227; 128; 128]].

Definition charOf (z : Z) : ascii := ascii_of_N (Z.to_N z).

Fixpoint dropPrefix (p s : list ascii) : option (list ascii) :=
  match p, s with
  | [], _ => Some s
  | a :: p', b :: s' => if Ascii.eqb a b then dropPrefix p' s' else None
  | _ :: _, [] => None
  end.

Fixpoint dropAny (ps : list (list ascii)) (s : list ascii) : option (list ascii) :=
  match ps with
  | [] => None
  | p :: rest => match dropPrefix p s with Some s' => Some s' | None => dropAny rest s end
  end.

(** Every turn drops a character, so as many turns as there are characters are enough. *)
Fixpoint trimWith (fuel : nat) (ps : list (list ascii)) (s : list ascii) : list ascii :=
  match fuel with
  | O => s
  | S fuel' => match dropAny ps s with Some s' => trimWith fuel' ps s' | None => s end
  end.

Definition spaces : list (list ascii) := map charOf <$> whiteSpace.

(** [strings.TrimSpace] *)
Definition TrimSpace (s : string) : string :=
  let l := String.list_ascii_of_string s in
  let front := trimWith (length l) spaces l in
  String.string_of_list_ascii (reverse (trimWith (length front) (reverse <$> spaces) (reverse front))).

(** [strings.Replace(s, old, new, 1)] *)
Fixpoint stringsReplace1 (s old new : string) : string :=
  if isPrefix old s then new +:+ String.substring (String.length old) (String.length s) s
  else match s with EmptyString => "" | String c rest => String c (stringsReplace1 rest old new) end.

Example trim_examples :
  TrimSpace "  a b
" = "a b"%string ∧ TrimSpace "   " = ""%string ∧
  stringsReplace1 "(devel)" "(devel)" "dev-" = "dev-"%string ∧ stringsReplace1 "v0.4.2" "(devel)" "dev-" = "v0.4.2"%string.
Proof. repeat split; reflexivity. Qed.

(** ** The flags of a command line *)

Record cliContext : Type := mkCli {
  cIsSet : string → bool;
  cString : string → string;
  cUint : string → Z;
  cBool : string → bool;
  cStringSlice : string → list string;
  cArgs : list string
}.

(** What go-ethereum's crypto package and apd's parser do with texts. *)
Class TextLib `{SigLib} := {
  HexToECDSA : string → result EthKey;
  FromECDSA : EthKey → bytes;
  apdSetString : string → result Decimal
}.

Class TextSpec `{TextLib} : Prop := {
  HexToECDSA_hex k : HexToECDSA (hexEncodeToString (FromECDSA k)) = Ok k
}.

Record hostConfig : Type := mkHostConf {
  hcEnv : Environment;
  hcDataDir : string;
  hcPort : Z;
  hcKeyFile : string;
  hcBootnodes : list string;
  hcListenIP : string;
  hcIsRelayer : bool
}.

Inductive bootCall `{SigLib} : Type → Type :=
(* the process *)
| SetLogLevel (pkg level : string) : bootCall unit
| ServeProfiler (address : string) : bootCall (option error)
| SleepFor (d : Z) : bootCall unit
(* files *)
| MkdirAll (dir : string) : bootCall (option error)
| FileStat (path : string) : bootCall statResult
| ReadFile (path : string) : bootCall (result string)
| WriteFile (path data : string) : bootCall (option error)
| GenerateKey : bootCall (result EthKey)
(* the Monero wallet, known by its primary address *)
| OpenWallet (conf : Wallet.WalletClientConf) : bootCall (result bytes)
| CloseWallet : bootCall unit
| MineBlocks (address : bytes) : bootCall unit
(* the Ethereum client *)
| OpenEth (env : Environment) (endpoint : string) (key : option EthKey) : bootCall (result unit)
| CloseEth : bootCall unit
| EthGasPrice (p : Z) : bootCall unit
| EthGasLimit (l : Z) : bootCall unit
| EthCodeAt (a : Address) : bootCall (result bytes)
| EthChainOf : bootCall (result Z)
| EthTransactor (key : EthKey) (chainID : Z) : bootCall (result unit)
| DeployTx : bootCall (result (Address * Hash))
| EthAwaitReceipt (h : Hash) : bootCall (result unit)
(* the parts of the daemon *)
| OpenDatabase (dir : string) : bootCall (result unit)
| CloseDatabase : bootCall (option error)
| LoadManager : bootCall (result unit)
| MakeHost (c : hostConfig) : bootCall (result unit)
| StopHost : bootCall (option error)
| MakeBackend (env : Environment) (creator : Address) : bootCall (result unit)
| MakeTaker (dataDir : string) (noTransferBack : bool) : bootCall (result unit)
| MakeMaker (dataDir : string) : bootCall (result unit)
| SetHandlers : bootCall unit
| StartHost : bootCall (option error)
| MakeServer (env : Environment) (port : Z) (namespaces : gset string) : bootCall (result unit)
(* the server: the error of its context; none when the context ends the wait, else the
   error of Serve *)
| ServerCtxErr : bootCall (option error)
| ServerSelect : bootCall (option error)
| HttpShutdown : bootCall (option error).

Definition ErrServerClosed : error := Sentinel "http.ErrServerClosed" "http: Server closed".
Definition Canceled : error := Sentinel "context.Canceled" "context canceled".

(** Durations in milliseconds. *)
Definition Millisecond : Z := 1000000.

(** ** Package cliutil *)

Module CliUtil.
Section cliutil.
Context `{SL : SigLib} `{!TextLib} `{TypesLib} `{!Answers (@bootCall SL)} {S : Type}.
Abbreviation boot A := (prog (caller (@bootCall SL) S) A).

Definition FlagLogLevel : string := "log-level".

Definition logPackages : list string :=
  ["bootnode"; "cmd"; "coins"; "common"; "contracts"; "cmd"; "extethclient"; "ethereum/watcher"; "ethereum/block";
   "ethereum/extethclient"; "monero"; "net"; "offers"; "p2pnet"; "pricefeed"; "protocol"; "relayer"; "rpc"; "txsender";
   "xmrmaker"; "xmrtaker"].

Definition SetLogLevels (level : string) : boot unit :=
  foldr (fun pkg k => perform (SetLogLevel pkg level) ;;; k) (done tt) logPackages.

Definition SetLogLevelsFromContext (c : cliContext) : boot (result unit) :=
  let level := cString c FlagLogLevel in
  if bool_decide (level ∈ ["error"; "warn"; "info"; "debug"]%string) then SetLogLevels level ;;; done (Ok tt)
  else done (Err (errorf "invalid log level")).

Definition DefaultPrivKeyXMRTaker : string := "4f3edf983ac636a65a842ce7c78d9aa706d3b113bce9c46f30d7d21715b23b1d".
Definition DefaultPrivKeyXMRMaker : string := "6cbed15c793ce57650b9877cf6fa156fbef513c4e6134f022a85b1ffdd59b2a1".

(** [hexutil.Encode] writes the prefix that is trimmed away again. *)
Definition createAndWriteEthKeyFile (ethPrivKeyFile : string) (env : Environment) (devXMRMaker devXMRTaker : bool)
    : boot (result unit) :=
  key <-? (if bool_decide (env = Development) && devXMRMaker then done (HexToECDSA DefaultPrivKeyXMRMaker)
           else if bool_decide (env = Development) && devXMRTaker then done (HexToECDSA DefaultPrivKeyXMRTaker)
           else perform GenerateKey) ;;
  let privKeyStr := stringsTrimPrefix ("0x" +:+ hexEncodeToString (FromECDSA key)) "0x" in
  err <- perform (WriteFile ethPrivKeyFile privKeyStr) ;;
  done (errToResult err).

Definition GetEthereumPrivateKey (ethPrivKeyFile : string) (env : Environment) (devXMRMaker devXMRTaker : bool)
    : boot (result EthKey) :=
  if bool_decide (ethPrivKeyFile = "") then panic "missing required parameter ethPrivKeyFile"
  else
    st <- perform (FileStat ethPrivKeyFile) ;;
    exists_ <-? done (Wallet.fileExists st) ;;
    _ <-? (if exists_ : bool then done (Ok tt)
           else createAndWriteEthKeyFile ethPrivKeyFile env devXMRMaker devXMRTaker) ;;
    fileData <-? mapErr (Wrapf "failed to read eth-privkey file") (perform (ReadFile (GoPath.Clean ethPrivKeyFile))) ;;
    done (HexToECDSA (TrimSpace fileData)).

(** What the Go runtime knows about the executable. *)
Record buildInfo : Type := mkBuild { biSettings : list (string * string); biMainVersion : string; biGoVersion : string }.

Definition GetVersion (info : option buildInfo) : string :=
  match info with
  | None => "unknown-version"
  | Some info =>
      let '(commitHash, sourcesModified) :=
        foldl (fun acc setting =>
                 if bool_decide (setting.1 = "vcs.revision") then (setting.2, acc.2)
                 else if bool_decide (setting.1 = "vcs.modified")
                 then (acc.1, acc.2 || bool_decide (setting.2 = "true")) else acc)
          (""%string, false) (biSettings info) in
      stringsReplace1 (biMainVersion info) "(devel)" "dev-" +:+
      (if bool_decide (commitHash = "") then ""
       else String.substring 0 7 commitHash +:+ (if sourcesModified then "-dirty" else "")) +:+
      "-" +:+ biGoVersion info
  end.

Definition ReadUnsignedDecimalFlag (c : cliContext) (flagName : string) : result Decimal :=
  let s := cString c flagName in
  if bool_decide (s = "") then Err (errorf "flag cannot be empty")
  else
    match apdSetString s with
    | Err _ => Err (errorf "invalid value for flag")
    | Ok d => if dNegative d then Err (errorf "value of flag cannot be negative") else Ok d
    end.

Definition ReadPositiveUnsignedDecimalFlag `{Apd} (c : cliContext) (flagName : string) : result Decimal :=
  match ReadUnsignedDecimalFlag c flagName with
  | Err e => Err e
  | Ok d => if apdIsZero d then Err (errorf "value of flag cannot be zero") else Ok d
  end.

Definition ReadETHAddress (c : cliContext) (flagName : string) : result Address :=
  let s := cString c flagName in
  if bool_decide (s = "") then Err (errorf "flag cannot be empty")
  else if negb (isHexAddress s) then Err (errorf "invalid ETH address")
  else Ok (hexToAddress s).

(** The nodes of one flag: every part is trimmed, and trimmed again. *)
Definition splitNodes (flagVal : string) : list string :=
  TrimSpace <$> filter (fun n => n ≠ ""%string) (TrimSpace <$> stringsSplit "," flagVal).

Definition ExpandBootnodes (nodesCLI : list string) : list string :=
  foldl (fun nodes flagVal => nodes ++ splitNodes flagVal) [] nodesCLI.

End cliutil.
End CliUtil.

(** ** Package daemon *)

(** What a function returns that may have several errors: none is a nil error, and
    [multierror.Append] adds to the end. *)
Abbreviation errors := (list error).

Definition multiIs (errs : errors) (target : error) : bool := existsb (fun e => errorsIs e target) errs.

(** [x, err := m; if err != nil { return err }; k], for a result that may have several. *)
Definition orReturn {S A} (m : prog S (result A)) (k : A → prog S errors) : prog S errors :=
  r <- m ;;
  match r with Ok a => k a | Err e => done [e] end.

Notation "x <-! m ;; k" := (orReturn m (fun x => k))
  (at level 100, m at next level, right associativity) : go_scope.

(** A deferred function that closes something and adds its error to the named result. *)
Definition closing {S} (close : prog S (option error)) (report : error → error) (body : prog S errors) : prog S errors :=
  fun s =>
    match body s with
    | (Done errs, s') =>
        match close s' with
        | (Done None, s'') => (Done errs, s'')
        | (Done (Some e), s'') => (Done (errs ++ [report e]), s'')
        | (o, s'') => (abort o, s'')
        end
    | (Panicked m, s') =>
        match close s' with
        | (Done _, s'') => (Panicked m, s'')
        | (o, s'') => (abort o, s'')
        end
    | r => r
    end.

(** A call whose only result is an error. *)
Definition checked {S} (m : prog S (option error)) : prog S (result unit) :=
  err <- m ;; done (errToResult err).

Record SwapdConfig : Type := mkSwapd {
  sdEnvConf : Config.Config;
  sdLibp2pPort : Z;
  sdLibp2pKeyfile : string;
  sdRPCPort : Z;
  sdIsRelayer : bool;
  sdNoTransferBack : bool
}.

Module Daemon.
Import Config.
Section daemon.
Context `{SL : SigLib} `{!Answers (@bootCall SL)} {S : Type}.
Abbreviation boot A := (prog (caller (@bootCall SL) S) A).

Definition databaseDirName : string := "swap-db".

(** rpc/server.go: [Start] of the server, and [Stop]. *)
Definition Start : boot (option error) :=
  err <- perform ServerCtxErr ;;
  match err with
  | Some e => done (Some e)
  | None =>
      r <- perform ServerSelect ;;
      match r with
      | None => perform HttpShutdown ;;; perform ServerCtxErr
      | Some e => done (Some e)
      end
  end.

Definition Stop : boot (option error) := perform HttpShutdown.

(** The end of both daemons: a server that was told to shut down is no error. *)
Definition runServer : boot errors :=
  err <- Start ;;
  done (match err with
        | None => []
        | Some e => if errorsIs e ErrServerClosed then [] else [e]
        end).

(** Everything the host does is between its constructor and [Stop]. *)
Definition withHost (c : hostConfig) (body : boot errors) : boot errors :=
  _ <-! perform (MakeHost c) ;;
  closing (perform StopHost) (Wrapf "error shutting down peer-to-peer services") body.

(** From the backend on. *)
Definition runParts (conf : SwapdConfig) : boot errors :=
  let envConf := sdEnvConf conf in
  _ <-! mapErr (Wrapf "failed to make backend") (perform (MakeBackend (cfEnv envConf) (cfSwapCreatorAddr envConf))) ;;
  _ <-! perform (MakeTaker (cfDataDir envConf) (sdNoTransferBack conf)) ;;
  _ <-! perform (MakeMaker (cfDataDir envConf)) ;;
  perform SetHandlers ;;;
  _ <-! checked (perform StartHost) ;;
  _ <-! perform (MakeServer (cfEnv envConf) (sdRPCPort conf) Server.AllNamespaces) ;;
  runServer.

Definition RunSwapDaemon (conf : SwapdConfig) : boot errors :=
  let envConf := sdEnvConf conf in
  let keyFile := if bool_decide (sdLibp2pKeyfile conf = "")
                 then GoPath.Join [cfDataDir envConf; DefaultLibp2pKeyFileName] else sdLibp2pKeyfile conf in
  if bool_decide (cfSwapCreatorAddr envConf = zeroAddress) then panic "swap creator address not specified"
  else
    _ <-! perform (OpenDatabase (GoPath.Join [cfDataDir envConf; databaseDirName])) ;;
    closing (perform CloseDatabase) (fun _ => errorf "syncing database")
      (_ <-! perform LoadManager ;;
       let hostListenIP := if bool_decide (cfEnv envConf = Development) then "127.0.0.1"%string else "0.0.0.0"%string in
       withHost (mkHostConf (cfEnv envConf) (cfDataDir envConf) (sdLibp2pPort conf) keyFile (cfBootnodes envConf)
                   hostListenIP (sdIsRelayer conf))
         (runParts conf)).

End daemon.
End Daemon.

(** ** The flags of swapd and, with the same names, of the bootnode *)

Module Flags.

Definition flagRPCPort : string := "rpc-port".
Definition flagDataDir : string := "data-dir".
Definition flagLibp2pKey : string := "libp2p-key".
Definition flagLibp2pPort : string := "libp2p-port".
Definition flagBootnodes : string := "bootnodes".
Definition flagEnv : string := "env".
Definition flagMoneroDaemonHost : string := "monerod-host".
Definition flagMoneroDaemonPort : string := "monerod-port".
Definition flagMoneroWalletPath : string := "wallet-file".
Definition flagMoneroWalletPassword : string := "wallet-password".
Definition flagMoneroWalletPort : string := "wallet-port".
Definition flagEthEndpoint : string := "eth-endpoint".
Definition flagEthPrivKey : string := "eth-privkey".
Definition flagContractAddress : string := "contract-address".
Definition flagGasPrice : string := "gas-price".
Definition flagGasLimit : string := "gas-limit".
Definition flagUseExternalSigner : string := "external-signer".
Definition flagRelayer : string := "relayer".
Definition flagDevXMRTaker : string := "dev-xmrtaker".
Definition flagDevXMRMaker : string := "dev-xmrmaker".
Definition flagDeploy : string := "deploy".
Definition flagNoTransferBack : string := "no-transfer-back".
Definition flagProfile : string := "profile".
(** Of the bootnode only. *)
Definition flagLibp2pIP : string := "libp2p-ip".

Definition errFlagsMutuallyExclusive : error := errorf "flags are mutually exclusive".
Definition errFlagValueEmpty : error := errorf "flag requires a non-empty value".
Definition errFlagValueZero : error := errorf "flag requires a non-zero value".

End Flags.

(** ** Packages bootnode and cmd/bootnode *)

Record BootnodeConf : Type := mkBootConf {
  bcDataDir : string;
  bcBootnodes : list string;
  bcP2PListenIP : string;
  bcLibp2pPort : Z;
  bcLibp2pKeyFile : string;
  bcRPCPort : Z
}.

Module Bootnode.
Import Config CliUtil Flags.
Section bootnode.
Context `{SL : SigLib} `{!TextLib} `{!Answers (@bootCall SL)} {S : Type}.
Context (homeDir : string).
Abbreviation boot A := (prog (caller (@bootCall SL) S) A).

(** The error is a local variable, not the result: what the deferred function adds to it
    after the return is lost. *)
Definition RunBootnode (cfg : BootnodeConf) : boot errors :=
  _ <-! perform (MakeHost (mkHostConf Bootnode (bcDataDir cfg) (bcLibp2pPort cfg) (bcLibp2pKeyFile cfg)
                             (bcBootnodes cfg) (bcP2PListenIP cfg) false)) ;;
  deferring (perform StopHost ;;; done tt)
    (_ <-! checked (perform StartHost) ;;
     _ <-! perform (MakeServer Bootnode (bcRPCPort cfg) {[Server.DaemonNamespace; Server.NetNamespace]}) ;;
     Daemon.runServer).

Definition getBootnodeConfig (c : cliContext) : boot (result Config) :=
  let conf := BootnodeConfig homeDir in
  let dataDir := if cIsSet c flagDataDir then cString c flagDataDir else cfDataDir conf in
  if cIsSet c flagDataDir && bool_decide (dataDir = "") then done (Err errFlagValueEmpty)
  else
    _ <-? checked (perform (MkdirAll dataDir)) ;;
    let nodes := if cIsSet c flagBootnodes then ExpandBootnodes (cStringSlice c flagBootnodes) else cfBootnodes conf in
    done (Ok (mkConfig (cfEnv conf) dataDir (cfEthEndpoint conf) (cfMoneroNodes conf) (cfSwapCreatorAddr conf) nodes)).

(** Ports are converted to uint16. *)
Definition runBootnode (c : cliContext) : boot errors :=
  if bool_decide (cArgs c ≠ []) then done [errorf "unknown command"]
  else
    _ <-! SetLogLevelsFromContext c ;;
    config <-! getBootnodeConfig c ;;
    let libp2pKeyFile := if cIsSet c flagLibp2pKey then cString c flagLibp2pKey else LibP2PKeyFile config in
    if cIsSet c flagLibp2pKey && bool_decide (libp2pKeyFile = "") then done [errFlagValueEmpty]
    else
      let libp2pKeyFile := if bool_decide (libp2pKeyFile = "")
                           then GoPath.Join [cfDataDir config; DefaultLibp2pKeyFileName] else libp2pKeyFile in
      RunBootnode (mkBootConf (cfDataDir config) (cfBootnodes config) (cString c flagLibp2pIP)
                     (cUint c flagLibp2pPort mod 2 ^ 16) libp2pKeyFile (cUint c flagRPCPort mod 2 ^ 16)).

End bootnode.
End Bootnode.

(** ** Package cmd/swapd *)

Module Swapd.
Import Config CliUtil Flags.

Definition defaultXMRTakerLibp2pPort : Z := 9933.
Definition defaultXMRMakerLibp2pPort : Z := 9934.
Definition defaultRPCPort : Z := 5000.
Definition defaultXMRTakerRPCPort : Z := defaultRPCPort.
Definition defaultXMRMakerRPCPort : Z := defaultXMRTakerRPCPort + 1.

Definition errNoEthPrivateKey : error :=
  Sentinel "errNoEthPrivateKey" "must provide --eth-privkey file for non-development environment".

Definition setDataDir (dir : string) (c : Config) : Config :=
  mkConfig (cfEnv c) dir (cfEthEndpoint c) (cfMoneroNodes c) (cfSwapCreatorAddr c) (cfBootnodes c).
Definition setMoneroNodes (nodes : list MoneroNode) (c : Config) : Config :=
  mkConfig (cfEnv c) (cfDataDir c) (cfEthEndpoint c) nodes (cfSwapCreatorAddr c) (cfBootnodes c).
Definition setSwapCreatorAddr (a : Address) (c : Config) : Config :=
  mkConfig (cfEnv c) (cfDataDir c) (cfEthEndpoint c) (cfMoneroNodes c) a (cfBootnodes c).
Definition setBootnodes (nodes : list string) (c : Config) : Config :=
  mkConfig (cfEnv c) (cfDataDir c) (cfEthEndpoint c) (cfMoneroNodes c) (cfSwapCreatorAddr c) nodes.

Section swapd.
Context `{SL : SigLib} `{!TextLib} `{TypesLib} `{!Answers (@bootCall SL)} {S : Type}.
(** The home directory, the temporary directories of development mode, and the code of the
    contract. *)
Context (homeDir makerTempDir takerTempDir : string) (expectedCode : bytes).
Abbreviation boot A := (prog (caller (@bootCall SL) S) A).

(** The answer of [ServeProfiler] is the error with which [ListenAndServe] ended while
    [maybeStartProfiler] waits.  [log.Fatalf] then exits the process: nothing after it
    runs, deferred calls included, which [block] stands for. *)
Definition fatal {A} : boot A := block.

Definition maybeStartProfiler (c : cliContext) : boot (result unit) :=
  let bindIPAndPort := cString c flagProfile in
  if bool_decide (bindIPAndPort = "") then done (Ok tt)
  else
    failed <- perform (ServeProfiler bindIPAndPort) ;;
    perform (SleepFor (100 * Millisecond)) ;;;
    match failed with
    | Some _ => fatal
    | None => done (Ok tt)
    end.

(** The environment of the flags. *)
Definition envOfFlags (c : cliContext) (devXMRMaker devXMRTaker : bool) : result Environment :=
  if cIsSet c flagEnv && negb (bool_decide (cString c flagEnv = Environment_String Development))
     && (devXMRMaker || devXMRTaker)
  then Err (errorf "--dev-xmrmaker and --dev-xmrtaker are only valid with --env=dev")
  else
    match NewEnv (cString c flagEnv) with
    | Err e => Err e
    | Ok env =>
        if bool_decide (env = Bootnode) then Err (errorf "is not a valid environment for swapd")
        else Ok (if devXMRMaker || devXMRTaker then Development else env)
    end.

Definition dataDirOfFlags (c : cliContext) (devXMRMaker devXMRTaker : bool) (conf : Config) : result Config :=
  if cIsSet c flagDataDir then
    if bool_decide (cString c flagDataDir = "") then Err errFlagValueEmpty
    else Ok (setDataDir (cString c flagDataDir) conf)
  else if bool_decide (cfEnv conf = Development) then
    Ok (if devXMRTaker then setDataDir takerTempDir conf
        else if devXMRMaker then setDataDir makerTempDir conf else conf)
  else Ok conf.

(** The address of the contract: zero when it is to be deployed. *)
Definition contractOfFlags (c : cliContext) (conf : Config) : result Config :=
  if cBool c flagDeploy then
    if cIsSet c flagContractAddress then Err errFlagsMutuallyExclusive
    else Ok (setSwapCreatorAddr zeroAddress conf)
  else
    let contractAddrStr := cString c flagContractAddress in
    let given := negb (bool_decide (contractAddrStr = "")) in
    if given && negb (isHexAddress contractAddrStr) then Err (errorf "requires a valid ethereum address")
    else
      let conf := if given then setSwapCreatorAddr (hexToAddress contractAddrStr) conf else conf in
      if bool_decide (cfSwapCreatorAddr conf = zeroAddress) then Err (errorf "flag is required")
      else Ok conf.

Definition getEnvConfig (c : cliContext) (devXMRMaker devXMRTaker : bool) : boot (result Config) :=
  env <-? done (envOfFlags c devXMRMaker devXMRTaker) ;;
  conf <- pure (ConfigDefaultsForEnv homeDir env) ;;
  conf <-? done (dataDirOfFlags c devXMRMaker devXMRTaker conf) ;;
  _ <-? checked (perform (MkdirAll (cfDataDir conf))) ;;
  let conf := if cIsSet c flagBootnodes then setBootnodes (ExpandBootnodes (cStringSlice c flagBootnodes)) conf else conf in
  done (contractOfFlags c conf).

(** The nodes of the configuration that is shared with the caller are replaced. *)
Definition nodeOfFlags (c : cliContext) (envConf : Config) : outcome (result Config) :=
  if cIsSet c flagMoneroDaemonHost || cIsSet c flagMoneroDaemonPort then
    port <~ DefaultMoneroPortFromEnv (cfEnv envConf) ;;
    if cIsSet c flagMoneroDaemonHost && bool_decide (cString c flagMoneroDaemonHost = "")
    then Done (Err errFlagValueEmpty)
    else if cIsSet c flagMoneroDaemonPort && (cUint c flagMoneroDaemonPort =? 0)
    then Done (Err errFlagValueZero)
    else
      let host := if cIsSet c flagMoneroDaemonHost then cString c flagMoneroDaemonHost else "127.0.0.1"%string in
      let port := if cIsSet c flagMoneroDaemonPort then cUint c flagMoneroDaemonPort else port in
      Done (Ok (setMoneroNodes [mkNode host port] envConf))
  else Done (Ok envConf).

Definition createMoneroClient (c : cliContext) (envConf : Config) : boot (result (Config * bytes)) :=
  envConf <-? pure (nodeOfFlags c envConf) ;;
  let walletFilePath := if cIsSet c flagMoneroWalletPath then cString c flagMoneroWalletPath
                        else MoneroWalletPath envConf in
  if cIsSet c flagMoneroWalletPath && bool_decide (walletFilePath = "") then done (Err errFlagValueEmpty)
  else
    address <-? perform (OpenWallet (Wallet.mkConf (cfEnv envConf) walletFilePath (cString c flagMoneroWalletPassword)
                                       (cUint c flagMoneroWalletPort) (cfMoneroNodes envConf) "" "")) ;;
    done (Ok (envConf, address)).

(** The key of the client: none with an external signer. *)
Definition keyOfFlags (c : cliContext) (envConf : Config) : boot (result (option EthKey)) :=
  if cBool c flagUseExternalSigner then done (Ok None)
  else
    let ethPrivKeyFile := if cIsSet c flagEthPrivKey then cString c flagEthPrivKey else EthKeyFileName envConf in
    if cIsSet c flagEthPrivKey && bool_decide (ethPrivKeyFile = "") then done (Err errFlagValueEmpty)
    else if cBool c flagDevXMRMaker && cBool c flagDevXMRTaker then done (Err errFlagsMutuallyExclusive)
    else
      key <-? GetEthereumPrivateKey ethPrivKeyFile (cfEnv envConf) (cBool c flagDevXMRMaker) (cBool c flagDevXMRTaker) ;;
      done (Ok (Some key)).

Definition createEthClient (c : cliContext) (envConf : Config) : boot (result (option EthKey)) :=
  let ethEndpoint := if cIsSet c flagEthEndpoint then cString c flagEthEndpoint else cfEthEndpoint envConf in
  if bool_decide (ethEndpoint = "") then done (Err (errorf "--eth-endpoint flag required"))
  else if cBool c flagUseExternalSigner && cIsSet c flagEthPrivKey then done (Err errFlagsMutuallyExclusive)
  else
    ethPrivKey <-? keyOfFlags c envConf ;;
    _ <-? perform (OpenEth (cfEnv envConf) ethEndpoint ethPrivKey) ;;
    perform (EthGasPrice (cUint c flagGasPrice)) ;;;
    perform (EthGasLimit (cUint c flagGasLimit)) ;;;
    done (Ok ethPrivKey).

(** ethereum/deploy_util.go *)
Definition newTXOpts (privKey : EthKey) : boot (result unit) :=
  chainID <-? perform EthChainOf ;;
  mapErr (Wrapf "failed to make transactor") (perform (EthTransactor privKey chainID)).

Definition DeploySwapCreatorWithKey (privKey : EthKey) : boot (result Address) :=
  _ <-? newTXOpts privKey ;;
  deployed <-? mapErr (Wrapf "failed to deploy swap creator") (perform DeployTx) ;;
  _ <-? perform (EthAwaitReceipt deployed.2) ;;
  done (Ok deployed.1).

Definition deploySwapCreator (privkey : option EthKey) : boot (result Address) :=
  match privkey with
  | None => done (Err errNoEthPrivateKey)
  | Some k => DeploySwapCreatorWithKey k
  end.

Definition getOrDeploySwapCreator (swapCreatorAddr : Address) (env : Environment) (key : option EthKey)
    : boot (result Address) :=
  if bool_decide (swapCreatorAddr = zeroAddress) then
    (if bool_decide (env = Mainnet) then perform (SleepFor (10 * Second)) else done tt) ;;;
    mapErr (Wrapf "failed to deploy swap creator") (deploySwapCreator key)
  else
    _ <-? checkCode expectedCode (perform (EthCodeAt swapCreatorAddr)) ;;
    done (Ok swapCreatorAddr).

Definition validateOrDeployContracts (c : cliContext) (envConf : Config) (key : option EthKey) : boot (result Config) :=
  if cBool c flagDeploy && negb (bool_decide (cfSwapCreatorAddr envConf = zeroAddress))
  then panic "contract address should have been zeroed when envConf was initialized"
  else
    addr <-? getOrDeploySwapCreator (cfSwapCreatorAddr envConf) (cfEnv envConf) key ;;
    done (Ok (setSwapCreatorAddr addr envConf)).

(** A port that is not set has the default of its role; ports are converted to uint16. *)
Definition portOfFlags (c : cliContext) (flag : string) (maker taker : Z) : Z :=
  (if cIsSet c flag then cUint c flag
   else if cBool c flagDevXMRMaker then maker
   else if cBool c flagDevXMRTaker then taker
   else cUint c flag) mod 2 ^ 16.

Definition createSwapdConf (c : cliContext) (envConf : Config) : result SwapdConfig :=
  let libp2pKeyFile := if cIsSet c flagLibp2pKey then cString c flagLibp2pKey else LibP2PKeyFile envConf in
  if cIsSet c flagLibp2pKey && bool_decide (libp2pKeyFile = "") then Err errFlagValueEmpty
  else Ok (mkSwapd envConf
             (portOfFlags c flagLibp2pPort defaultXMRMakerLibp2pPort defaultXMRTakerLibp2pPort) libp2pKeyFile
             (portOfFlags c flagRPCPort defaultXMRMakerRPCPort defaultXMRTakerRPCPort)
             (cBool c flagRelayer) (cBool c flagNoTransferBack)).

Definition maybeBackgroundMine (devXMRMaker : bool) (address : bytes) : boot unit :=
  if negb devXMRMaker then done tt else perform (MineBlocks address).

(** From the Ethereum client on. *)
Definition runWithWallet (c : cliContext) (envConf : Config) : boot errors :=
  key <-! createEthClient c envConf ;;
  deferring (perform CloseEth)
    (envConf <-! validateOrDeployContracts c envConf key ;;
     conf <-! done (createSwapdConf c envConf) ;;
     errs <- Daemon.RunSwapDaemon conf ;;
     done (if negb (bool_decide (errs = [])) && negb (multiIs errs Canceled) then errs else [])).

Definition runDaemon (c : cliContext) : boot errors :=
  if bool_decide (cArgs c ≠ []) then done [errorf "unknown command"]
  else
    _ <-! SetLogLevelsFromContext c ;;
    _ <-! maybeStartProfiler c ;;
    let devXMRMaker := cBool c flagDevXMRMaker in
    let devXMRTaker := cBool c flagDevXMRTaker in
    if devXMRMaker && devXMRTaker then done [errFlagsMutuallyExclusive]
    else
      envConf <-! getEnvConfig c devXMRMaker devXMRTaker ;;
      mc <-! createMoneroClient c envConf ;;
      let '(envConf, address) := mc in
      deferring (perform CloseWallet)
        (maybeBackgroundMine devXMRMaker address ;;;
         runWithWallet c envConf).

End swapd.
End Swapd.
