(* ===== verification/DaemonProofs.v ===== *)
(** * Properties of start-up and shut-down

    The daemon holds four resources: the Monero wallet process, the connection to the
    Ethereum node, the database and the network host.  [replay] follows what a run opens,
    uses and closes; [balanced] is the triple that composes it. *)

From stdpp Require Import base gmap list strings.
From Stdlib Require Import ZArith Strings.Byte Strings.Ascii.
From S2P Require Import Prelude Calls Coins Types TypesProofs Bytes Contracts External Relayer Config Wallet EthClient Rpc Daemon.

Open Scope Z_scope.
Open Scope go_scope.

Module DaemonProofs.
Import Daemon Flags Swapd CliUtil.

Inductive resource : Type := RWallet | REth | RDatabase | RHost.

#[global] Instance resource_eq_dec : EqDecision resource.
Proof. solve_decision. Defined.

(** ** Opening, using and closing *)

Section resources.
Context `{SL : SigLib} `{!Answers (@bootCall SL)} {S : Type}.
Abbreviation boot A := (prog (caller (@bootCall SL) S) A).
Implicit Types s : caller (@bootCall SL) S.

Definition opened (e : event (@bootCall SL)) : list resource :=
  match e with
  | Ev c a =>
      match c in bootCall A return A → list resource with
      | OpenWallet _ => fun r => if isOk r then [RWallet] else []
      | OpenEth _ _ _ => fun r => if isOk r then [REth] else []
      | OpenDatabase _ => fun r => if isOk r then [RDatabase] else []
      | MakeHost _ => fun r => if isOk r then [RHost] else []
      | _ => fun _ => []
      end a
  end.

Definition closed (e : event (@bootCall SL)) : option resource :=
  match e with
  | Ev c _ =>
      match c with
      | CloseWallet => Some RWallet
      | CloseEth => Some REth
      | CloseDatabase => Some RDatabase
      | StopHost => Some RHost
      | _ => None
      end
  end.

(** What must be open when a call is made. *)
Definition needs (e : event (@bootCall SL)) : list resource :=
  match e with
  | Ev c _ =>
      match c with
      | MineBlocks _ => [RWallet]
      | EthGasPrice _ | EthGasLimit _ | EthCodeAt _ | EthChainOf | EthTransactor _ _ | DeployTx | EthAwaitReceipt _ => [REth]
      | LoadManager => [RDatabase]
      | MakeBackend _ _ | MakeTaker _ _ | MakeMaker _ => [RHost; RDatabase; REth; RWallet]
      | SetHandlers | StartHost | MakeServer _ _ _ | ServerSelect => [RHost]
      | _ => []
      end
  end.

(** One event, on what is open, the latest first: only the latest may be closed. *)
Definition replay1 (open : list resource) (e : event (@bootCall SL)) : option (list resource) :=
  match closed e with
  | Some r =>
      match open with
      | r' :: rest => if bool_decide (r = r') then Some rest else None
      | [] => None
      end
  | None => if forallb (fun r => bool_decide (r ∈ open)) (needs e) then Some (opened e ++ open) else None
  end.

(** The events with the latest first, as a log has them. *)
Fixpoint replay (open : list resource) (es : list (event (@bootCall SL))) : option (list resource) :=
  match es with
  | [] => Some open
  | e :: earlier => open' ← replay open earlier; replay1 open' e
  end.

Lemma replay_app open es1 es2 : replay open (es2 ++ es1) = replay open es1 ≫= (fun o => replay o es2).
Proof. induction es2 as [|e es2 IH]; cbn; [by destruct (replay open es1)|]. rewrite IH. by destruct (replay open es1). Qed.


Definition goes (open open' : list resource) s s' : Prop := ∃ es, since s s' es ∧ replay open es = Some open'.

Lemma goes_refl open s : goes open open s s.
Proof. by exists []. Qed.

Lemma goes_trans o1 o2 o3 s1 s2 s3 : goes o1 o2 s1 s2 → goes o2 o3 s2 s3 → goes o1 o3 s1 s3.
Proof.
  intros (e1 & E1 & R1) (e2 & E2 & R2). exists (e2 ++ e1). split; [by eapply since_trans|].
  by rewrite replay_app, R1.
Qed.

(** From [open] the run returns with [Q] open, or panics with [pan] open. *)
Definition balanced {A} (pan open : list resource) (m : boot A) (Q : A → list resource) : Prop :=
  ∀ s, match m s with
       | (Done a, s') => goes open (Q a) s s'
       | (Panicked _, s') => goes open pan s s'
       | _ => False
       end.

Lemma balanced_done {A} pan open (a : A) Q : Q a = open → balanced pan open (done a) Q.
Proof. intros HQ s. cbn. rewrite HQ. apply goes_refl. Qed.

Lemma balanced_panic {A} open msg Q : balanced open open (@panic _ A msg) Q.
Proof. intros s. apply goes_refl. Qed.

Lemma balanced_pure {A} open (o : outcome A) : oreturning o → balanced open open (pure o) (fun _ => open).
Proof. intros Ho s. unfold pure. destruct o; try done; apply goes_refl. Qed.

Lemma balanced_perform {A} pan open (c : bootCall A) Q :
  (∀ a, replay1 open (Ev c a) = Some (Q a)) → balanced pan open (perform c) Q.
Proof. intros HQ s. cbn. exists [Ev c (respond A (ticks s) c)]. split; [done|]. apply HQ. Qed.

Lemma balanced_bind {A B} pan open (m : boot A) (k : A → boot B) Q1 Q :
  balanced pan open m Q1 → (∀ a, balanced pan (Q1 a) (k a) Q) → balanced pan open (pbind m k) Q.
Proof.
  intros Hm Hk s. unfold pbind. specialize (Hm s). destruct (m s) as [[a|?| |] s1]; try done.
  specialize (Hk a s1). destruct (k a s1) as [[b|?| |] s2]; try done; by eapply goes_trans.
Qed.

Lemma balanced_try {A B} pan open (m : boot (result A)) (k : A → boot (result B)) :
  balanced pan open m (fun _ => open) → (∀ a, balanced pan open (k a) (fun _ => open)) →
  balanced pan open (tryBind m k) (fun _ => open).
Proof. intros Hm Hk. eapply balanced_bind; [exact Hm|]. intros [a|e]; [apply Hk | by apply balanced_done]. Qed.

(** The last step may open something. *)
Lemma balanced_try_last {A B} pan open (m : boot (result A)) (k : A → boot (result B)) Q :
  balanced pan open m (fun _ => open) → (∀ a, balanced pan open (k a) Q) → (∀ e, Q (Err e) = open) →
  balanced pan open (tryBind m k) Q.
Proof. intros Hm Hk HQ. eapply balanced_bind; [exact Hm|]. intros [a|e]; [apply Hk | by apply balanced_done]. Qed.

Lemma balanced_mapErr {A} pan open f (m : boot (result A)) :
  balanced pan open m (fun _ => open) → balanced pan open (mapErr f m) (fun _ => open).
Proof. intros Hm. eapply balanced_bind; [exact Hm|]. intros r. by apply balanced_done. Qed.

Lemma balanced_orReturn {A} pan open (m : boot (result A)) (k : A → boot errors) Q1 :
  balanced pan open m Q1 → (∀ e, Q1 (Err e) = open) → (∀ a, balanced pan (Q1 (Ok a)) (k a) (fun _ => open)) →
  balanced pan open (orReturn m k) (fun _ => open).
Proof. intros Hm He Hk. eapply balanced_bind; [exact Hm|]. intros [a|e]; [apply Hk | by apply balanced_done]. Qed.

(** Closing what was opened last brings back what was open before, also in a panic. *)
Lemma balanced_closing open r (close : bootCall (option error)) f (body : boot errors) :
  (∀ a, closed (Ev close a) = Some r) → balanced (r :: open) (r :: open) body (fun _ => r :: open) →
  balanced open (r :: open) (closing (perform close) f body) (fun _ => open).
Proof.
  intros Hc Hb s. unfold closing. specialize (Hb s).
  assert (G : ∀ s1, goes (r :: open) (r :: open) s s1 → goes (r :: open) open s (perform close s1).2).
  { intros s1 Hg. eapply goes_trans; [exact Hg|]. eexists [_]. split; [done|]. cbn. unfold replay1. rewrite Hc.
    by rewrite bool_decide_true. }
  destruct (body s) as [[errs|?| |] s1]; try done; specialize (G s1 Hb);
    destruct (perform close s1) as [[[e|]|?| |] s2] eqn:E; done.
Qed.


Lemma balanced_deferring_seq open r {A B} (close : bootCall B) (body : boot A) :
  (∀ a, closed (Ev close a) = Some r) → balanced (r :: open) (r :: open) body (fun _ => r :: open) →
  balanced open (r :: open) (deferring (perform close ;;; done tt) body) (fun _ => open).
Proof.
  intros Hc Hb s. unfold deferring. specialize (Hb s).
  destruct (body s) as [[a|?| |] s1]; try done; cbn; (eapply goes_trans; [exact Hb|]);
    (eexists [_]; split; [done|]); cbn; unfold replay1; rewrite Hc; by rewrite bool_decide_true.
Qed.

Lemma balanced_onwards {A} pan open (m : boot A) Q : balanced pan open m Q → keeps onwards m.
Proof.
  intros Hb s. specialize (Hb s). destruct (m s) as [[a|?| |] s']; try done;
    destruct Hb as (es & E & _); by eapply onwards_since.
Qed.

Lemma run_onwards {A} (m : boot A) s a s' : keeps onwards m → m s = (Done a, s') → onwards s s'.
Proof. intros K E. specialize (K s). by rewrite E in K. Qed.

(** ** Runs with an event of interest *)

Lemma did_orReturn_inv {A} q (m : boot (result A)) (k : A → boot errors) s :
  keeps (only (fun e => negb (q e))) m → did q s (orReturn m k s).2 →
  ∃ a s1, m s = (Done (Ok a), s1) ∧ did q s1 (k a s1).2 ∧ orReturn m k s = k a s1.
Proof.
  intros Km Hd. apply (did_bind_inv q m _ s Km) in Hd as ([a|e] & s1 & Hm & Hd & E).
  - by exists a, s1.
  - by destruct Hd.
Qed.

Lemma did_closing_inv q (c : bootCall (option error)) f (b : boot errors) s :
  keeps (only (fun e => negb (q e))) (perform c : boot _) → did q s (closing (perform c) f b s).2 → did q s (b s).2.
Proof.
  intros Kc Hd Ho. apply Hd. unfold closing.
  destruct (b s) as [[a|?| |] s1]; cbn [snd] in *; [| |done..]; specialize (Kc s1);
    destruct (perform c s1) as [[[?|]|?| |] s2] eqn:E; cbn [snd] in *; by etrans.
Qed.

End resources.

Ltac bal_step :=
  match goal with
  | |- ∀ _, balanced _ _ _ _ => intro
  | |- balanced _ _ (done _) _ => apply balanced_done; reflexivity
  | |- balanced _ _ (panic _) _ => apply balanced_panic
  | |- balanced _ _ (perform _) (fun _ => _) => apply balanced_perform; intros ?; reflexivity
  | |- balanced _ _ (mapErr _ _) _ => apply balanced_mapErr
  | |- balanced _ _ (tryBind _ _) (fun _ => _) => apply balanced_try
  | |- balanced _ ?o (orReturn _ _) _ => apply (balanced_orReturn _ _ _ _ (fun _ => o)); [|reflexivity|]
  | |- balanced _ ?o (pbind _ _) _ => apply (balanced_bind _ _ _ _ (fun _ => o))
  | |- balanced _ _ (let '_ := ?x in _) _ => destruct x
  | |- balanced _ _ (if ?b then _ else _) _ => destruct b
  | |- balanced _ _ (match ?x with _ => _ end) _ => destruct x
  | |- balanced _ _ _ _ => solve [eauto with balanced]
  end.
Ltac bal_auto := repeat bal_step.

Create HintDb balanced.

Section daemon_balance.
Context `{SL : SigLib} `{!TextLib} `{TL : TypesLib} `{!Answers (@bootCall SL)} {S : Type}.
Context (homeDir makerTempDir takerTempDir : string) (expectedCode : bytes).
Abbreviation boot A := (prog (caller (@bootCall SL) S) A).

Lemma bal_SetLogLevels pan open c : balanced pan open (SetLogLevelsFromContext c : boot _) (fun _ => open).
Proof.
  unfold SetLogLevelsFromContext. bal_step; [|bal_auto]. bal_step; [|bal_auto]. unfold SetLogLevels.
  induction logPackages as [|p ps IH]; cbn [foldr]; bal_auto; exact IH.
Qed.

Lemma bal_GetKey open f env m t : balanced open open (GetEthereumPrivateKey f env m t : boot _) (fun _ => open).
Proof. unfold GetEthereumPrivateKey, createAndWriteEthKeyFile. bal_auto. Qed.

Lemma defaults_return env : oreturning (Config.ConfigDefaultsForEnv homeDir env).
Proof. by destruct env. Qed.

Lemma node_returns c conf : oreturning (nodeOfFlags c conf).
Proof.
  unfold nodeOfFlags. destruct (_ || _); [|done]. destruct (Config.cfEnv conf); cbn; try done;
    by repeat destruct (_ && _).
Qed.

Hint Resolve bal_SetLogLevels bal_GetKey balanced_pure defaults_return node_returns : balanced.

Lemma bal_getEnvConfig open c m t :
  balanced open open (getEnvConfig homeDir makerTempDir takerTempDir c m t : boot _) (fun _ => open).
Proof. unfold getEnvConfig, checked. bal_auto. Qed.

Definition orOpen {A} (r : resource) (open : list resource) (res : result A) : list resource :=
  if isOk res then r :: open else open.

Lemma bal_createMoneroClient c conf :
  balanced [] [] (createMoneroClient c conf : boot _) (orOpen RWallet []).
Proof.
  unfold createMoneroClient. apply balanced_try_last; [bal_auto | | done]. intros conf'. bal_step; [bal_auto|].
  eapply balanced_bind with (Q1 := orOpen RWallet []); [apply balanced_perform; by intros []|].
  intros [a|e]; by apply balanced_done.
Qed.

Lemma bal_createEthClient c conf :
  balanced [RWallet] [RWallet] (createEthClient c conf : boot _) (orOpen REth [RWallet]).
Proof.
  unfold createEthClient. bal_step; [bal_auto|]. bal_step; [bal_auto|].
  apply balanced_try_last; [unfold keyOfFlags; bal_auto | | done]. intros key.
  eapply balanced_bind with (Q1 := orOpen REth [RWallet]); [apply balanced_perform; by intros []|].
  intros [a|e]; [|by apply balanced_done]. cbn. bal_auto.
Qed.


Lemma bal_runServer pan open : balanced pan (RHost :: open) (runServer : boot _) (fun _ => RHost :: open).
Proof. unfold runServer, Start. bal_auto. Qed.

Lemma bal_RunSwapDaemon conf :
  balanced [REth; RWallet] [REth; RWallet] (RunSwapDaemon conf : boot _) (fun _ => [REth; RWallet]).
Proof.
  unfold RunSwapDaemon. bal_step; [bal_auto|].
  eapply balanced_orReturn with (Q1 := orOpen RDatabase _); [apply balanced_perform; by intros [] | done|].
  intros ?; cbv beta. apply balanced_closing; [done|]. bal_step; [bal_auto|]. intros _. unfold withHost.
  eapply balanced_orReturn with (Q1 := orOpen RHost _); [apply balanced_perform; by intros [] | done|].
  intros ?; cbv beta. apply balanced_closing; [done|]. unfold runParts, checked. bal_auto. apply bal_runServer.
Qed.









Lemma bal_RunBootnode cfg : balanced [] [] (Bootnode.RunBootnode cfg : boot _) (fun _ => []).
Proof.
  unfold Bootnode.RunBootnode.
  eapply balanced_orReturn with (Q1 := orOpen RHost []); [apply balanced_perform; by intros [] | done|].
  intros ?; cbv beta. apply balanced_deferring_seq; [done|]. unfold checked. bal_auto. apply bal_runServer.
Qed.

(** The same of a bootnode, which has a host only. *)
Theorem bootnode_releases_host (c : cliContext) (s : caller (@bootCall SL) S) :
  let r := Bootnode.runBootnode homeDir c s in
  oreturning r.1 ∧ ∃ es, since s r.2 es ∧ replay [] es = Some [].
Proof.
  cbn zeta. assert (Hb : balanced [] [] (Bootnode.runBootnode homeDir c : boot _) (fun _ => [])).
  { unfold Bootnode.runBootnode, Bootnode.getBootnodeConfig, checked. bal_auto; apply bal_RunBootnode. }
  specialize (Hb s). destruct (Bootnode.runBootnode _ c s) as [[errs|m| |] s']; [by split..|done|done].
Qed.

End daemon_balance.
(** ** The contract of a daemon *)

Section contract.
Context `{SL : SigLib} `{!TextLib} `{TL : TypesLib} `{!Answers (@bootCall SL)} {S : Type}.
Context (homeDir makerTempDir takerTempDir : string) (expectedCode : bytes).
Abbreviation boot A := (prog (caller (@bootCall SL) S) A).
Implicit Types s : caller (@bootCall SL) S.

(** A backend is made with this contract. *)
Definition makesBackend (a : Address) (e : event (@bootCall SL)) : bool :=
  match e with
  | Ev c _ => match c with MakeBackend _ a' => bool_decide (a' = a) | _ => false end
  end.

Abbreviation quiet a m := (keeps (only (fun e => negb (makesBackend a e))) m).

Lemma quiet_SetLogLevels a c : quiet a (SetLogLevelsFromContext c : boot _).
Proof.
  unfold SetLogLevelsFromContext, SetLogLevels. keeps_auto.
  induction logPackages as [|p ps IH]; cbn [foldr]; keeps_auto.
Qed.

Lemma quiet_getEnvConfig a c m t : quiet a (getEnvConfig homeDir makerTempDir takerTempDir c m t : boot _).
Proof. unfold getEnvConfig, checked. keeps_auto. Qed.

Lemma quiet_createMoneroClient a c conf : quiet a (createMoneroClient c conf : boot _).
Proof. unfold createMoneroClient. keeps_auto. Qed.

Lemma quiet_createEthClient a c conf : quiet a (createEthClient c conf : boot _).
Proof. unfold createEthClient, keyOfFlags, GetEthereumPrivateKey, createAndWriteEthKeyFile. keeps_auto. Qed.

Lemma quiet_contracts a c conf key : quiet a (validateOrDeployContracts expectedCode c conf key : boot _).
Proof.
  unfold validateOrDeployContracts, getOrDeploySwapCreator, deploySwapCreator, DeploySwapCreatorWithKey, newTXOpts, checkCode.
  keeps_auto.
Qed.

Lemma quiet_nothing a s : ¬ did (makesBackend a) s s.
Proof. intros Hd. apply Hd. reflexivity. Qed.

Lemma contractOfFlags_Ok c conf conf' : contractOfFlags c conf = Ok conf' →
  bool_decide (Config.cfSwapCreatorAddr conf' = zeroAddress) = cBool c flagDeploy.
Proof.
  unfold contractOfFlags. destruct (cBool c flagDeploy).
  - destruct (cIsSet c _); [done|]. intros [= <-]. by apply bool_decide_true.
  - destruct (_ && _); [done|]. destruct (bool_decide (_ = zeroAddress)) eqn:E; [done|]. by intros [= <-].
Qed.

Lemma getEnvConfig_Ok c m t s conf s' :
  getEnvConfig homeDir makerTempDir takerTempDir c m t s = (Done (Ok conf), s') →
  bool_decide (Config.cfSwapCreatorAddr conf = zeroAddress) = cBool c flagDeploy.
Proof.
  unfold getEnvConfig. intros E. apply pbind_inv_Done in E as ([env|] & s1 & _ & E); [|done].
  apply pbind_inv_Done in E as (c0 & s2 & _ & E). apply pbind_inv_Done in E as ([c1|] & s3 & _ & E); [|done].
  apply pbind_inv_Done in E as ([[]|] & s4 & _ & E); [|done]. injection E as E <-. by eapply contractOfFlags_Ok.
Qed.

Lemma createMoneroClient_Ok c conf s conf' a s' : createMoneroClient c conf s = (Done (Ok (conf', a)), s') →
  Config.cfSwapCreatorAddr conf' = Config.cfSwapCreatorAddr conf.
Proof.
  unfold createMoneroClient. intros E. apply pbind_inv_Done in E as ([c1|] & s1 & Hn & E); [|done].
  apply pure_inv in Hn as [Hn ->]. destruct (_ && _); [done|].
  apply pbind_inv_Done in E as ([?|] & s2 & _ & E); [|done]. injection E as <- <- <-. revert Hn. unfold nodeOfFlags.
  destruct (_ || _); [|by intros [= <-]]. destruct (DefaultMoneroPortFromEnv _); try done. cbn.
  repeat (destruct (_ && _); [done|]). by intros [= <-].
Qed.

(** Where a contract comes from. *)
Definition contractFrom (deployed : bool) (a : Address) s s' : Prop :=
  if deployed then ∃ h, happened s s' (Ev DeployTx (Ok (a, h))) ∧ happened s s' (Ev (EthAwaitReceipt h) (Ok tt))
  else happened s s' (Ev (EthCodeAt a) (Ok expectedCode)).

Lemma contractFrom_within deployed a s0 s s' s1 : onwards s0 s → contractFrom deployed a s s' → onwards s' s1 →
  contractFrom deployed a s0 s1.
Proof.
  intros O Hc O'. assert (T : ∀ e, happened s s' e → happened s0 s1 e)
    by (intros e He; eapply happened_later; [by eapply happened_earlier | done]).
  destruct deployed; [destruct Hc as (h & H1 & H2); exists h; split; by apply T | by apply T].
Qed.

Lemma DeploySwapCreatorWithKey_Ok k s a s' : DeploySwapCreatorWithKey k s = (Done (Ok a), s') → contractFrom true a s s'.
Proof.
  unfold DeploySwapCreatorWithKey. intros E. apply pbind_inv_Done in E as ([[]|] & s1 & H1 & E); [|done].
  apply pbind_inv_Done in E as ([[a' h]|] & s2 & H2 & E); [|done]. apply mapErr_Ok_run in H2.
  apply pbind_inv_Done in E as ([[]|] & s3 & H3 & E); [|done]. injection E as <- <-.
  assert (O1 : onwards s s1).
  { assert (K : keeps onwards (newTXOpts k : boot _)) by (unfold newTXOpts, onwards; keeps_auto).
    specialize (K s). by rewrite H1 in K. }
  assert (O3 : onwards s2 s3) by (eapply onwards_since; apply (perform_inv _ _ _ _ H3)).
  exists h. split.
  - eapply happened_earlier; [exact O1|]. eapply happened_later; [by eapply perform_happened | done].
  - eapply happened_earlier; [|by eapply perform_happened]. etrans; [exact O1|]. eapply onwards_since.
    apply (perform_inv _ _ _ _ H2).
Qed.

Lemma contracts_Ok c conf key s conf' s' :
  bool_decide (Config.cfSwapCreatorAddr conf = zeroAddress) = cBool c flagDeploy →
  validateOrDeployContracts expectedCode c conf key s = (Done (Ok conf'), s') →
  contractFrom (cBool c flagDeploy) (Config.cfSwapCreatorAddr conf') s s'.
Proof.
  intros Hz E. unfold validateOrDeployContracts in E. destruct (_ && _); [done|].
  apply pbind_inv_Done in E as ([a|] & s1 & Hg & E); [|done]. injection E as <- <-. cbn.
  unfold getOrDeploySwapCreator in Hg. rewrite Hz in Hg. destruct (cBool c flagDeploy).
  - apply pbind_inv_Done in Hg as ([] & s2 & H2 & Hg). apply mapErr_Ok_run in Hg.
    destruct key as [k|]; [|done]. apply DeploySwapCreatorWithKey_Ok in Hg.
    eapply contractFrom_within; [|exact Hg | reflexivity].
    destruct (bool_decide (Config.cfEnv conf = Mainnet)); [|by injection H2 as <-].
    eapply onwards_since. apply (perform_inv _ _ _ _ H2).
  - apply pbind_inv_Done in Hg as ([[]|] & s2 & H2 & Hg); [|done]. injection Hg as <- <-. unfold checkCode in H2.
    apply pbind_inv_Done in H2 as ([code|] & s3 & H3 & H2); [|done]. apply mapErr_Ok_run in H3.
    destruct (negb _); [done|]. case_bool_decide as Hcode; [|done]. injection H2 as <-. subst code.
    by eapply perform_happened.
Qed.

Lemma RunSwapDaemon_backend a conf s : did (makesBackend a) s (RunSwapDaemon conf s).2 →
  Config.cfSwapCreatorAddr (sdEnvConf conf) = a ∧ a ≠ zeroAddress.
Proof.
  intros Hd. unfold RunSwapDaemon in Hd. case_bool_decide as Hz; [by apply quiet_nothing in Hd|].
  apply did_orReturn_inv in Hd as ([] & s1 & _ & Hd & _); [|keeps_auto].
  apply did_closing_inv in Hd; [|keeps_auto].
  apply did_orReturn_inv in Hd as ([] & s2 & _ & Hd & _); [|keeps_auto]. unfold withHost in Hd.
  apply did_orReturn_inv in Hd as ([] & s3 & _ & Hd & _); [|keeps_auto].
  apply did_closing_inv in Hd; [|keeps_auto]. unfold runParts in Hd.
  assert (Hm : did (makesBackend a) s3 (perform (MakeBackend (Config.cfEnv (sdEnvConf conf))
    (Config.cfSwapCreatorAddr (sdEnvConf conf))) s3).2).
  { eapply did_bind_left in Hd; [eapply did_bind_left in Hd; [exact Hd | intros ?; keeps_auto] |].
    intros [[]|]; [|keeps_auto]. unfold orReturn, checked, runServer, Start. keeps_auto. }
  apply did_perform_inv in Hm. apply bool_decide_eq_true in Hm as <-. done.
Qed.

(** From the Ethereum client on. *)
Lemma runWithWallet_backend a c conf s :
  bool_decide (Config.cfSwapCreatorAddr conf = zeroAddress) = cBool c flagDeploy →
  did (makesBackend a) s (runWithWallet expectedCode c conf s).2 →
  a ≠ zeroAddress ∧ contractFrom (cBool c flagDeploy) a s (runWithWallet expectedCode c conf s).2.
Proof.
  intros Hz Hd. unfold runWithWallet in Hd |- *.
  apply did_orReturn_inv in Hd as (key & s1 & H1 & Hd & ->); [|apply quiet_createEthClient].
  assert (O1 : onwards s s1) by (eapply run_onwards; [eapply balanced_onwards, bal_createEthClient | exact H1]).
  pose proof Hd as Hb. apply did_deferring_inv in Hb; [|keeps_auto].
  apply did_orReturn_inv in Hb as (conf' & s2 & H2 & Hb & Eb); [|apply quiet_contracts].
  apply did_orReturn_inv in Hb as (sc & s3 & H3 & Hb & Eb'); [|keeps_auto]. injection H3 as H3 <-.
  assert (Hsc : sdEnvConf sc = conf') by (revert H3; unfold createSwapdConf; destruct (_ && _); [done|]; by intros [= <-]).
  pose proof (contracts_Ok _ _ _ _ _ _ Hz H2) as Hc.
  assert (Hr : did (makesBackend a) s2 (RunSwapDaemon sc s2).2) by (eapply did_bind_left in Hb; [exact Hb | intros ?; keeps_auto]).
  destruct (RunSwapDaemon_backend a sc s2 Hr) as [Ha Hne]. rewrite Hsc in Ha. subst a. split; [done|].
  eapply contractFrom_within; [exact O1 | exact Hc |].
  etrans; [|apply onwards_deferring; unfold onwards; keeps_auto]. cbv beta. rewrite Eb, Eb'.
  eapply (balanced_onwards [REth; RWallet] [REth; RWallet] _ (fun _ => [REth; RWallet])).
  bal_step; [apply bal_RunSwapDaemon | bal_auto].
Qed.

(** C26: safety.  The swaps of a daemon use only a contract with the expected code, or one
    the daemon deployed itself because it was told to: the backend is made with an address
    that is not zero, whose code the node reported as the expected one, or, with the flag
    deploy, that the deployment returned and whose transaction has a receipt. *)
Theorem swapd_uses_checked_contract (c : cliContext) (s : caller (@bootCall SL) S)
    (env : Environment) (a : Address) (r : result unit) :
  let s' := (runDaemon homeDir makerTempDir takerTempDir expectedCode c s).2 in
  happened s s' (Ev (MakeBackend env a) r) →
  a ≠ zeroAddress ∧ contractFrom (cBool c flagDeploy) a s s'.
Proof.
  intros s' Hh. subst s'. assert (Hd : did (makesBackend a) s (runDaemon homeDir makerTempDir takerTempDir expectedCode c s).2)
    by (eapply happened_did; [exact Hh | by apply bool_decide_true]).
  clear Hh. unfold runDaemon in Hd |- *. destruct (bool_decide _); [by apply quiet_nothing in Hd|].
  apply did_orReturn_inv in Hd as ([] & s1 & H1 & Hd & ->); [|apply quiet_SetLogLevels].
  apply did_orReturn_inv in Hd as ([] & s2 & H2 & Hd & ->); [|unfold maybeStartProfiler, fatal; keeps_auto].
  destruct (_ && _); [by apply quiet_nothing in Hd|].
  apply did_orReturn_inv in Hd as (conf & s3 & H3 & Hd & ->); [|apply quiet_getEnvConfig].
  apply did_orReturn_inv in Hd as ([conf' address] & s4 & H4 & Hd & ->); [|apply quiet_createMoneroClient].
  pose proof (getEnvConfig_Ok _ _ _ _ _ _ H3) as Hz. rewrite <- (createMoneroClient_Ok _ _ _ _ _ _ H4) in Hz.
  pose proof Hd as Hb. apply did_deferring_inv in Hb; [|keeps_auto].
  apply did_bind_inv in Hb as ([] & s5 & H5 & Hb & Eb); [|unfold maybeBackgroundMine; keeps_auto].
  destruct (runWithWallet_backend a c conf' s5 Hz Hb) as [Hne Hc]. split; [done|].
  assert (O : onwards s s5).
  { eapply run_onwards in H1, H2, H3, H4, H5; [by do 4 (etrans; [eassumption|])| ..].
    - unfold maybeBackgroundMine, onwards. keeps_auto.
    - eapply balanced_onwards, bal_createMoneroClient.
    - eapply (balanced_onwards []), bal_getEnvConfig.
    - unfold maybeStartProfiler, fatal, onwards. keeps_auto.
    - eapply (balanced_onwards [] []), bal_SetLogLevels. }
  eapply contractFrom_within; [exact O | exact Hc |]. rewrite <- Eb. apply onwards_deferring. unfold onwards. keeps_auto.
Qed.

End contract.
(** ** Texts *)

Definition startsSpace (ps : list (list ascii)) (c : ascii) : bool :=
  existsb (fun p => match p with a :: _ => Ascii.eqb a c | [] => true end) ps.

Lemma trimWith_none fuel ps c l : startsSpace ps c = false → trimWith fuel ps (c :: l) = c :: l.
Proof.
  intros Hs. assert (Hd : dropAny ps (c :: l) = None).
  { induction ps as [|[|a p] ps IH]; cbn in *; [done | done |]. apply orb_false_iff in Hs as [-> Hs]. by apply IH. }
  destruct fuel; cbn; by rewrite ?Hd.
Qed.

(** A character that no white space starts or ends with. *)
Definition plainChar (c : ascii) : Prop := startsSpace spaces c = false ∧ startsSpace (reverse <$> spaces) c = false.

Lemma TrimSpace_plain s : Forall plainChar (String.list_ascii_of_string s) → TrimSpace s = s.
Proof.
  intros Hp. unfold TrimSpace. destruct (String.list_ascii_of_string s) as [|c l] eqn:E; [by destruct s|].
  rewrite trimWith_none by (by inversion Hp as [|?? [? ?]]). apply Forall_reverse in Hp.
  destruct (reverse (c :: l)) as [|c' l'] eqn:Er; [by apply (f_equal length) in Er; rewrite length_reverse in Er|].
  rewrite trimWith_none by (by inversion Hp as [|?? [? ?]]).
  rewrite <- Er, reverse_involutive, <- E. apply String.string_of_list_ascii_of_string.
Qed.

Lemma hexChar_plain n : (n < 16)%N → plainChar (hexChar n).
Proof.
  intros Hn. assert (Hf : ∀ k, (k < 16)%nat → plainChar (hexChar (N.of_nat k))).
  { intros k Hk. do 16 (destruct k as [|k]; [split; vm_compute; reflexivity|]). lia. }
  rewrite <- (N2Nat.id n). apply Hf. lia.
Qed.

Lemma hex_plain b : Forall plainChar (String.list_ascii_of_string (hexEncodeToString b)).
Proof.
  induction b as [|c b IH]; cbn; [constructor|]. pose proof (Byte.to_N_bounded c) as Hb.
  constructor; [apply hexChar_plain|]; [|constructor; [apply hexChar_plain | done]].
  - apply N.Div0.div_lt_upper_bound. lia.
  - apply N.mod_lt. lia.
Qed.

Fixpoint joinComma (nodes : list string) : string :=
  match nodes with
  | [] => ""
  | [n] => n
  | n :: rest => n +:+ String "," (joinComma rest)
  end.

Lemma stringsSplit_plain n : ","%char ∉ String.list_ascii_of_string n → stringsSplit "," n = [n].
Proof.
  induction n as [|c n IH]; cbn; [done|]. rewrite not_elem_of_cons. intros [Hc Hn].
  destruct (Ascii.eqb_spec c ","); [done|]. by rewrite IH.
Qed.

Lemma stringsSplit_app n rest : ","%char ∉ String.list_ascii_of_string n →
  stringsSplit "," (n +:+ String "," rest) = n :: stringsSplit "," rest.
Proof.
  induction n as [|c n IH]; [done|]. change (String c n +:+ String "," rest) with (String c (n +:+ String "," rest)).
  cbn [stringsSplit String.list_ascii_of_string]. rewrite not_elem_of_cons. intros [Hc Hn].
  destruct (Ascii.eqb_spec c ","); [done|]. by rewrite (IH Hn).
Qed.

(** Bootnodes that are given in one flag, separated by commas, are the nodes themselves. *)
Theorem ExpandBootnodes_join (nodes : list string) :
  nodes ≠ [] → Forall (fun n => n ≠ ""%string ∧ (","%char ∉ String.list_ascii_of_string n) ∧ TrimSpace n = n) nodes →
  ExpandBootnodes [joinComma nodes] = nodes.
Proof.
  intros Hne HF. unfold ExpandBootnodes, splitNodes. cbn [foldl app].
  assert (Hs : stringsSplit "," (joinComma nodes) = nodes).
  { induction HF as [|n nodes (_ & Hc & _) HF IH]; [done|]. destruct nodes as [|n' nodes]; [by apply stringsSplit_plain|].
    cbn [joinComma]. rewrite stringsSplit_app by done. f_equal. by apply IH. }
  rewrite Hs. assert (Ht : TrimSpace <$> nodes = nodes).
  { clear Hne Hs. induction HF as [|n l (_ & _ & Hn) _ IH]; cbn; [done|]. by rewrite Hn, IH. }
  rewrite Ht. replace (filter (fun n => n ≠ ""%string) nodes) with nodes; [done|].
  clear Hne Hs Ht. induction HF as [|n l (Hn & _) _ IH]; [done|]. rewrite filter_cons_True by done. by rewrite <- IH.
Qed.

(** ** The key file *)

Section key.
Context `{SL : SigLib} `{TX : !TextLib} `{!TextSpec} `{TL : TypesLib} `{!Answers (@bootCall SL)} {S : Type}.
Implicit Types s : caller (@bootCall SL) S.

(** What a daemon that starts for the first time writes to its key file is, as the file is
    read, the key that was generated. *)
Theorem new_key_reads_back (f : string) (env : Environment) (m t : bool) s s' :
  createAndWriteEthKeyFile f env m t s = (Done (Ok tt), s') →
  ∃ k data, happened s s' (Ev (WriteFile f data) None) ∧ HexToECDSA (TrimSpace data) = Ok k ∧
    (env ≠ Development → happened s s' (Ev GenerateKey (Ok k))).
Proof.
  intros E. unfold createAndWriteEthKeyFile in E. apply pbind_inv_Done in E as ([k|] & s1 & H1 & E); [|done].
  apply pbind_inv_Done in E as ([e|] & s2 & H2 & E); [done|]. injection E as <-. rewrite trimPrefix_app in H2.
  exists k, (hexEncodeToString (FromECDSA k)). split_and!.
  - eapply happened_earlier; [|by eapply perform_happened]. eapply run_onwards, H1. unfold onwards. keeps_auto.
  - rewrite TrimSpace_plain by apply hex_plain. apply HexToECDSA_hex.
  - intros He. rewrite !bool_decide_false in H1 by done. cbn [andb] in H1.
    eapply happened_later; [by eapply perform_happened|]. eapply onwards_since. apply (perform_inv _ _ _ _ H2).
Qed.

End key.
End DaemonProofs.
