(* ===== verification/DaemonWitness.v ===== *)
(** * Start-up at concrete command lines *)

From stdpp Require Import base gmap list strings.
From Stdlib Require Import ZArith Strings.Byte Strings.Ascii.
From S2P Require Import Prelude Calls Coins RefApd Types TypesProofs Bytes Contracts External SampleWorld Relayer RelayWitness Config Wallet EthClient Rpc Daemon DaemonProofs.

Open Scope Z_scope.
Open Scope go_scope.

Module DaemonWitness.
Import RelayWitness DaemonProofs.

#[local] Instance sampleText : @TextLib refSig := {|
  HexToECDSA := hexDecodeString : string → result (@EthKey refSig);
  FromECDSA := (fun k => k) : @EthKey refSig → bytes;
  apdSetString := fun _ => Err (errorf "parse exponent")
|}.

#[local] Instance sampleTextSpec : @TextSpec refSig sampleText.
Proof. split. intros k. apply hexDecode_encode. Qed.

Definition theCode : bytes := [x60; x80].
Definition theCreator : Address := repeat x37 20.

(** A system in which everything works but what [closeDb] and [stopHost] say, whose server
    runs until its context is cancelled. *)
Definition system (closeDb stopHost : option error) : Answers (@bootCall refSig) := fun A i c =>
  match c in bootCall B return B with
  | SetLogLevel _ _ | SleepFor _ => tt
  | ServeProfiler _ => None
  | MkdirAll _ | WriteFile _ _ => None
  | FileStat _ => StatFile
  | ReadFile _ => Ok (hexEncodeToString (repeat x21 20))
  | GenerateKey => Ok (repeat x21 20 : @EthKey refSig)
  | OpenWallet _ => Ok []
  | CloseWallet | MineBlocks _ => tt
  | OpenEth _ _ _ => Ok tt
  | CloseEth | EthGasPrice _ | EthGasLimit _ => tt
  | EthCodeAt _ => Ok theCode
  | EthChainOf => Ok 1
  | EthTransactor _ _ => Ok tt
  | DeployTx => Ok (theCreator, lockTx)
  | EthAwaitReceipt _ => Ok tt
  | OpenDatabase _ | LoadManager => Ok tt
  | CloseDatabase => closeDb
  | MakeHost _ => Ok tt
  | StopHost => stopHost
  | MakeBackend _ _ | MakeTaker _ _ | MakeMaker _ => Ok tt
  | SetHandlers => tt
  | StartHost => None
  | MakeServer _ _ _ => Ok tt
  | ServerCtxErr => if (i <? 40)%nat then None else Some Canceled
  | ServerSelect => None
  | HttpShutdown => None
  end.

(** [swapd --env stagenet --eth-endpoint http://127.0.0.1:8545 --rpc-port 70000]; the other flags have their
    defaults. *)
Definition stagenetFlags : cliContext :=
  mkCli (fun f => bool_decide (f ∈ [Flags.flagEnv; Flags.flagEthEndpoint; Flags.flagRPCPort]))
    (fun f => if bool_decide (f = Flags.flagEnv) then "stagenet"
              else if bool_decide (f = Flags.flagEthEndpoint) then "http://127.0.0.1:8545"
              else if bool_decide (f = CliUtil.FlagLogLevel) then "info" else "")%string
    (fun f => if bool_decide (f = Flags.flagRPCPort) then 70000
              else if bool_decide (f = Flags.flagLibp2pPort) then 9900 else 0)
    (fun _ => false) (fun _ => []) [].

Definition boot0 : caller (@bootCall refSig) unit := mkCaller tt 0 [].

Definition runIn (closeDb stopHost : option error) : outcome (list error) * caller (@bootCall refSig) unit :=
  Swapd.runDaemon (H0 := refTypes) (Answers0 := system closeDb stopHost) "/home/u" "" "" theCode stagenetFlags boot0.

Definition stepsOf (r : outcome (list error) * caller (@bootCall refSig) unit) : nat := length (log r.2).

Definition diskFull : error := errorf "no space left on device".

(** Whether a call of the run got this far, and what it said. *)
Definition closeSaid (e : event (@bootCall refSig)) : option (option error) :=
  match e with
  | Ev c a =>
      match c in bootCall B return B → option (option error) with
      | CloseDatabase => Some
      | _ => fun _ => None
      end a
  end.

Definition stopSaid (e : event (@bootCall refSig)) : option (option error) :=
  match e with
  | Ev c a =>
      match c in bootCall B return B → option (option error) with
      | StopHost => Some
      | _ => fun _ => None
      end a
  end.

Definition serverPort (e : event (@bootCall refSig)) : option Z :=
  match e with
  | Ev c _ => match c with MakeServer _ p _ => Some p | _ => None end
  end.

(** A daemon is stopped by cancelling its context.  When its database cannot be synchronised
    then, the error is appended to the cancellation, and the whole is taken for a clean
    exit. *)
Example close_error_hidden_by_cancellation :
  (runIn (Some diskFull) None).1 = Done [] ∧
  omap closeSaid (log (runIn (Some diskFull) None).2) = [Some diskFull].
Proof. split; vm_compute; reflexivity. Qed.

(** A port above 65535 is taken modulo 65536, without an error. *)
Example port_wraps : omap serverPort (log (runIn None None).2) = [4464].
Proof. vm_compute. reflexivity. Qed.

Definition bootnodeFlags : cliContext :=
  mkCli (fun _ => false) (fun f => if bool_decide (f = CliUtil.FlagLogLevel) then "info"%string else ""%string)
    (fun _ => 9909) (fun _ => false) (fun _ => []) [].

Definition bootnodeIn (stopHost : option error) : outcome (list error) * caller (@bootCall refSig) unit :=
  Bootnode.runBootnode (Answers0 := system None stopHost) "/home/u" bootnodeFlags (mkCaller tt 40 []).

(** The error of a bootnode that cannot stop its host is not returned, though the comment of
    its last line says so. *)
Example bootnode_stop_error_lost :
  (bootnodeIn (Some diskFull)).1 = (bootnodeIn None).1 ∧
  omap stopSaid (log (bootnodeIn (Some diskFull)).2) = [Some diskFull].
Proof. split; vm_compute; reflexivity. Qed.

(** The node reports the expected code for the default contract. *)
Lemma swapd_uses_checked_contract_witness :
  Config.deployedSwapCreator ≠ zeroAddress ∧
  contractFrom (S := unit) theCode false Config.deployedSwapCreator boot0 (runIn None None).2.
Proof.
  apply (swapd_uses_checked_contract (TL := refTypes) (Answers0 := system None None) "/home/u" "" "" theCode
           stagenetFlags boot0 Stagenet Config.deployedSwapCreator (Ok tt)).
  exists (log (runIn None None).2). split; [symmetry; apply app_nil_r|]. vm_compute (log _).
  repeat (first [apply list_elem_of_here | apply list_elem_of_further]).
Defined.

Lemma ExpandBootnodes_join_witness :
  CliUtil.ExpandBootnodes [joinComma ["/ip4/1.2.3.4/tcp/9909"; "/ip4/5.6.7.8/tcp/9909"]%string] =
  ["/ip4/1.2.3.4/tcp/9909"; "/ip4/5.6.7.8/tcp/9909"]%string.
Proof.
  apply ExpandBootnodes_join; [done|]. repeat constructor; try done; cbn; rewrite !not_elem_of_cons;
    (split_and!; [done..|]); by apply not_elem_of_nil.
Defined.

Lemma new_key_reads_back_witness : ∃ k data,
  happened boot0 (CliUtil.createAndWriteEthKeyFile (H := sampleText) (Answers0 := system None None)
                    "eth.key" Mainnet false false boot0).2 (Ev (WriteFile "eth.key" data) None) ∧
  HexToECDSA (TrimSpace data) = Ok k ∧
  (Mainnet ≠ Development → happened boot0 (CliUtil.createAndWriteEthKeyFile (H := sampleText)
     (Answers0 := system None None) "eth.key" Mainnet false false boot0).2 (Ev GenerateKey (Ok k))).
Proof.
  apply (new_key_reads_back (TX := sampleText) (H := sampleTextSpec) (Answers0 := system None None)
    "eth.key" Mainnet false false boot0). vm_compute. reflexivity.
Defined.

End DaemonWitness.
