(* ===== verification/RpcClient.v ===== *)
(** * The codec of method names, the daemon service and the client (packages rpc and rpcclient)

    HTTP and websocket connections, and the channel a subscription returns, are
    [clientCall]s. *)

From stdpp Require Import base gmap list strings.
From Stdlib Require Import ZArith Strings.Byte Strings.Ascii.
From S2P Require Import Prelude Coins Types Swap Bytes Crypto Base58 Contracts External EthClient Wallet Net Rpc Daemon.

Open Scope Z_scope.
Open Scope go_scope.

(** ** rpc/codec.go *)

(** The first character of a method name in upper case, if it is in lower case: Go's tables
    for a character outside ASCII. *)
Class UnicodeLib := upperFirstRune : string → option string.

Definition upperAscii (c : ascii) : ascii :=
  let n := N_of_ascii c in if ((97 <=? n) && (n <=? 122))%N then ascii_of_N (n - 32) else c.

Definition upperFirst `{UnicodeLib} (s : string) : option string :=
  match s with
  | EmptyString => None
  | String c rest =>
      let n := N_of_ascii c in
      if (n <? 128)%N then
        if ((97 <=? n) && (n <=? 122))%N then Some (String (upperAscii c) rest) else None
      else upperFirstRune s
  end.

Module Codec.

(** A method of a request, by the name of its service and of its Go method. *)
Definition Method `{UnicodeLib} (method : string) : result string :=
  match stringsSplit "_" method with
  | service :: name :: _ =>
      Ok (service +:+ "." +:+ match upperFirst name with Some upper => upper | None => name end)
  | _ => Err (errorf "invalid method")
  end.

End Codec.

(** ** rpc/daemon.go *)

Record VersionResponse : Type := mkVersion {
  vrSwapdVersion : string;
  vrP2PVersion : string;
  vrEnv : Environment;
  vrSwapCreatorAddr : option Address
}.

Module DaemonService.
Section service.
Context `{TypesLib} `{CryptoLib} {S : Type} `{!RpcEnv S}.
Context (env : Environment) (swapCreatorAddr : option Address) (info : option CliUtil.buildInfo).

Definition Shutdown : prog S unit := invoke CancelServer.

Definition Version : prog S VersionResponse :=
  p2p <- pure (Net.ChainProtocolID env) ;;
  done (mkVersion (CliUtil.GetVersion info) p2p env swapCreatorAddr).

End service.
End DaemonService.

(** ** The calls of the client *)

Inductive clientCall : Type → Type :=
(* HTTP *)
| NewHttpRequest (body : bytes) : clientCall (option error)
| HttpDo (body : bytes) : clientCall (result bytes)
| CloseBody : clientCall (option error)
(* websockets *)
| DialWs : clientCall (option error)
| WriteRequest (method : string) (params : bytes) : clientCall (option error)
| ReadMessage : clientCall (result bytes)
| CloseConn : clientCall unit
(* sending on the unbuffered channel of a subscription: whether a receiver takes the status *)
| PutStatus (st : Status) : clientCall bool
| CloseChan : clientCall unit
(* receiving from it: none when it is closed *)
| TakeStatus : clientCall (option Status).

Class ClientEnv (S : Type) := ask : ∀ {A}, clientCall A → prog S A.

(** encoding/json, its validation, and json2. *)
Class ClientJson := {
  encodeClientRequest : ∀ Q : Type, string → Q → result bytes;
  (* into a response, which may be nil *)
  decodeClientResponse : ∀ R : Type, bytes → result R;
  decodeClientError : bytes → option error;
  marshalParams : ∀ Q : Type, Q → result bytes;
  (* the error of a response, or its result *)
  parseResponse : bytes → result (option error * bytes);
  parseStatusResponse : bytes → result Status;
  parseOfferResponse : bytes → result (string * Hash)
}.

Definition ErrNullResult : error := Sentinel "json2.ErrNullResult" "result is null".

(** The methods the client calls. *)
Inductive clientMethod : Type :=
| SwapGetOngoing | SwapGetPast | SwapGetStatus | SwapClearOffers | SwapClaim | SwapRefund | SwapSuggestedExchangeRate
| SwapCancel | SwapGetOffers | PersonalSetSwapTimeout | PersonalGetSwapTimeout | PersonalTokenInfo | PersonalBalances
| PersonalTransferXMR | PersonalSweepXMR | PersonalTransferETH | PersonalSweepETH | NetDiscoverMethod | NetQueryAllMethod
| NetQueryPeerMethod | NetMakeOfferMethod | NetTakeOfferMethod | NetPairsMethod | NetAddressesMethod | NetPeersMethod
| DatabaseGetContractSwapInfo | DatabaseGetSwapSecret | DaemonShutdown | DaemonVersion.

Definition methodName (m : clientMethod) : string :=
  match m with
  | SwapGetOngoing => "swap_getOngoing"
  | SwapGetPast => "swap_getPast"
  | SwapGetStatus => "swap_getStatus"
  | SwapClearOffers => "swap_clearOffers"
  | SwapClaim => "swap_claim"
  | SwapRefund => "swap_refund"
  | SwapSuggestedExchangeRate => "swap_suggestedExchangeRate"
  | SwapCancel => "swap_cancel"
  | SwapGetOffers => "swap_getOffers"
  | PersonalSetSwapTimeout => "personal_setSwapTimeout"
  | PersonalGetSwapTimeout => "personal_getSwapTimeout"
  | PersonalTokenInfo => "personal_tokenInfo"
  | PersonalBalances => "personal_balances"
  | PersonalTransferXMR => "personal_transferXMR"
  | PersonalSweepXMR => "personal_sweepXMR"
  | PersonalTransferETH => "personal_transferETH"
  | PersonalSweepETH => "personal_sweepETH"
  | NetDiscoverMethod => "net_discover"
  | NetQueryAllMethod => "net_queryAll"
  | NetQueryPeerMethod => "net_queryPeer"
  | NetMakeOfferMethod => "net_makeOffer"
  | NetTakeOfferMethod => "net_takeOffer"
  | NetPairsMethod => "net_pairs"
  | NetAddressesMethod => "net_addresses"
  | NetPeersMethod => "net_peers"
  | DatabaseGetContractSwapInfo => "database_getContractSwapInfo"
  | DatabaseGetSwapSecret => "database_getSwapSecret"
  | DaemonShutdown => "daemon_shutdown"
  | DaemonVersion => "daemon_version"
  end.

(** The exported methods of the services under the names of their namespaces. *)
Definition servedMethods : list string :=
  ((fun m => "daemon." +:+ m) <$> ["Shutdown"; "Version"]) ++
  ((fun m => "database." +:+ m) <$> ["GetContractSwapInfo"; "GetSwapSecret"]) ++
  ((fun m => "net." +:+ m) <$> ["Addresses"; "Peers"; "Pairs"; "QueryAll"; "Discover"; "QueryPeer"; "TakeOffer"; "MakeOffer"]) ++
  ((fun m => "personal." +:+ m) <$> ["SetSwapTimeout"; "GetSwapTimeout"; "SetGasPrice"; "TokenInfo"; "Balances";
                                      "TransferXMR"; "SweepXMR"; "TransferETH"; "SweepETH"]) ++
  ((fun m => "swap." +:+ m) <$> ["GetPast"; "GetOngoing"; "GetStatus"; "GetOffers"; "ClearOffers"; "Cancel"; "Claim";
                                  "Refund"; "SuggestedExchangeRate"]).

(** ** Package rpcclient *)

Module Client.
Section client.
Context `{Apd} `{TypesLib} `{CryptoLib} `{!ClientJson} {S : Type} `{!ClientEnv S}.

Definition quoted (method : string) (e : error) : error := Wrapf (method +:+ " failed") e.

(** The exchange of [post], with what to do with the body of the response. *)
Definition exchange {Q R} (m : clientMethod) (request : Q) (decode : bytes → result R) : prog S (result R) :=
  data <-? done (encodeClientRequest Q (methodName m) request) ;;
  _ <-? mapErr (Wrapf "failed to create HTTP request") (checked (ask (NewHttpRequest data))) ;;
  body <-? mapErr (Wrapf "failed to post request") (ask (HttpDo data)) ;;
  deferring (ask CloseBody ;;; done tt)
    (mapErr (quoted (methodName m)) (done (decode body))).

(** With a response, and with a nil response, for which a null result is no error. *)
Definition post {Q R} (m : clientMethod) (request : Q) : prog S (result R) :=
  exchange m request (decodeClientResponse R).

Definition postNil {Q} (m : clientMethod) (request : Q) : prog S (result unit) :=
  exchange m request (fun body =>
    match decodeClientError body with
    | Some e => if errorsIs e ErrNullResult then Ok tt else Err e
    | None => Ok tt
    end).

(** The methods, with the requests and responses of Rpc.v as tuples. *)
Definition GetOngoingSwap (id : option Hash) : prog S (result (list OngoingSwap)) := post SwapGetOngoing id.
Definition GetPastSwap (id : option Hash) : prog S (result (list PastSwap)) := post SwapGetPast id.
Definition GetStatus (id : Hash) : prog S (result (Status * string * Z)) := post SwapGetStatus id.
Definition ClearOffers (ids : list Hash) : prog S (result unit) :=
  mapErr (Wrapf "failed to call swap_clearOffers") (postNil SwapClearOffers ids).
Definition Claim (id : Hash) : prog S (result Hash) := post SwapClaim id.
Definition Refund (id : Hash) : prog S (result Hash) := post SwapRefund id.
Definition SuggestedExchangeRate : prog S (result (PriceFeed.PriceFeed * PriceFeed.PriceFeed * Decimal)) :=
  post SwapSuggestedExchangeRate tt.
Definition Cancel (id : Hash) : prog S (result Status) := post SwapCancel id.
Definition GetOffers : prog S (result (string * list Offer)) := post SwapGetOffers tt.
Definition SetSwapTimeout (seconds : Z) : prog S (result unit) := postNil PersonalSetSwapTimeout seconds.
Definition GetSwapTimeout : prog S (result Z) := post PersonalGetSwapTimeout tt.
Definition TokenInfo (token : Address) : prog S (result ERC20TokenInfo) := post PersonalTokenInfo token.
Definition Balances (req : option (list Address)) : prog S (result BalancesResponse) := post PersonalBalances req.
Definition TransferXMR (to : bytes) (amount : Decimal) : prog S (result string) := post PersonalTransferXMR (to, amount).
Definition SweepXMR (to : bytes) : prog S (result (list string)) := post PersonalSweepXMR to.
Definition TransferETH (to : Address) (amount : Decimal) (limit : option Z) : prog S (result Hash) :=
  post PersonalTransferETH (to, amount, limit).
Definition SweepETH (to : Address) : prog S (result Hash) := post PersonalSweepETH to.
Definition Discover (provides : string) (searchTime : Z) : prog S (result (list string)) :=
  post NetDiscoverMethod (provides, searchTime).
Definition QueryAll (provides : string) (searchTime : Z) : prog S (result (list (string * list Offer))) :=
  post NetQueryAllMethod (provides, searchTime).
Definition Query (who : string) : prog S (result (list Offer)) := post NetQueryPeerMethod who.
Definition MakeOffer (req : MakeOfferRequest) : prog S (result (string * Hash)) := post NetMakeOfferMethod req.
Definition TakeOffer (req : TakeOfferRequest) : prog S (result unit) := postNil NetTakeOfferMethod req.
Definition Pairs (searchTime : Z) : prog S (result (list Pair)) := post NetPairsMethod searchTime.
Definition Addresses : prog S (result (list string)) := post NetAddressesMethod tt.
Definition Peers : prog S (result (list string)) := post NetPeersMethod tt.
Definition GetContractSwapInfo (id : Hash) : prog S (result EthereumSwapInfo) := post DatabaseGetContractSwapInfo id.
Definition GetSwapSecret (id : Hash) : prog S (result Scalar) := post DatabaseGetSwapSecret id.
Definition Shutdown : prog S (result unit) := postNil DaemonShutdown tt.
Definition Version : prog S (result VersionResponse) := post DaemonVersion tt.

(** *** Websockets *)

Definition wsConnect : prog S (result unit) :=
  _ <-? mapErr (Wrapf "failed to dial WS endpoint") (checked (ask DialWs)) ;;
  checked (ask CloseBody).

(** Close the connection when something that uses it fails. *)
Definition orCloseConn {A} (m : prog S (result A)) : prog S (result A) :=
  r <- m ;;
  match r with
  | Ok a => done (Ok a)
  | Err e => ask CloseConn ;;; done (Err e)
  end.

Definition writeJSON (method : string) (params : bytes) : prog S (result unit) :=
  checked (ask (WriteRequest method params)).

(** The status of a message. *)
Definition decodeStatus (message : bytes) : result Status :=
  match parseResponse message with
  | Err e => Err (Wrapf "failed to unmarshal response" e)
  | Ok (Some e, _) => Err (Wrapf "error" e)
  | Ok (None, res) =>
      match parseStatusResponse res with
      | Err e => Err (Wrapf "failed to unmarshal swap status response" e)
      | Ok st => Ok st
      end
  end.

(** Hand a status over; whether more are to come. *)
Definition forward (st : Status) : prog S bool :=
  taken <- ask (PutStatus st) ;;
  if taken : bool then pure (IsOngoing st) else block.

(** The goroutine of a subscription, at most [fuel] messages. *)
Fixpoint forwardLoop (fuel : nat) : prog S unit :=
  match fuel with
  | O => nofuel
  | Datatypes.S fuel' =>
      message <- ask ReadMessage ;;
      match message with
      | Err _ => done tt
      | Ok message =>
          match decodeStatus message with
          | Err _ => done tt
          | Ok st =>
              more <- forward st ;;
              if more : bool then forwardLoop fuel' else done tt
          end
      end
  end.

(** The channel is closed before the connection. *)
Definition forwardStatuses (fuel : nat) : prog S unit :=
  deferring (ask CloseConn) (deferring (ask CloseChan) (forwardLoop fuel)).

(** The goroutine is [forwardStatuses]. *)
Definition SubscribeSwapStatus (id : Hash) : prog S (result unit) :=
  bz <-? done (marshalParams Hash id) ;;
  _ <-? wsConnect ;;
  orCloseConn (writeJSON WsServer.SubscribeSwapStatus bz).

Definition readTakeOfferResponse : prog S (result Status) :=
  message <- ask ReadMessage ;;
  match message with
  | Err _ => done (Err (errorf "failed to read websockets message"))
  | Ok message => done (decodeStatus message)
  end.

(** The first status, or an immediate error; the goroutine is [forwardTake]. *)
Definition TakeOfferAndSubscribe (req : TakeOfferRequest) : prog S (result Status) :=
  bz <-? done (marshalParams TakeOfferRequest req) ;;
  _ <-? wsConnect ;;
  _ <-? orCloseConn (writeJSON WsServer.SubscribeTakeOffer bz) ;;
  orCloseConn readTakeOfferResponse.

Fixpoint takeLoop (fuel : nat) (st : Status) : prog S unit :=
  match fuel with
  | O => nofuel
  | Datatypes.S fuel' =>
      more <- forward st ;;
      if more : bool then
        next <- readTakeOfferResponse ;;
        match next with
        | Err _ => done tt
        | Ok st' => takeLoop fuel' st'
        end
      else done tt
  end.

Definition forwardTake (fuel : nat) (st : Status) : prog S unit :=
  deferring (ask CloseConn) (deferring (ask CloseChan) (takeLoop fuel st)).

(** The first response to an offer. *)
Definition readOfferResponse : prog S (result (string * Hash)) :=
  message <- ask ReadMessage ;;
  match message with
  | Err _ => done (Err (errorf "failed to read websockets message"))
  | Ok message =>
      match parseResponse message with
      | Err e => done (Err (Wrapf "failed to unmarshal response" e))
      | Ok (Some e, _) => done (Err (Wrapf "net_makeOfferAndSubscribe error" e))
      | Ok (None, res) =>
          match parseOfferResponse res with
          | Err _ => done (Err (errorf "failed to unmarshal response"))
          | Ok resp => done (Ok resp)
          end
      end
  end.

(** A connection that was not made is a nil pointer, and is closed.  The goroutine is
    [forwardStatuses]. *)
Definition MakeOfferAndSubscribe (req : MakeOfferRequest) : prog S (result (string * Hash)) :=
  bz <-? done (marshalParams MakeOfferRequest req) ;;
  r <- wsConnect ;;
  match r with
  | Err _ => panic "nil pointer dereference"
  | Ok _ =>
      _ <-? orCloseConn (writeJSON WsServer.SubscribeMakeOffer bz) ;;
      orCloseConn readOfferResponse
  end.

End client.
End Client.
