(* ===== verification/RpcClientProofs.v ===== *)
(** * The client against the server

    Every method the client calls is served, and the statuses a swap goes through reach the
    channel of a client that subscribed. *)

From stdpp Require Import base gmap list strings.
From Stdlib Require Import ZArith Strings.Byte Strings.Ascii.
From S2P Require Import Prelude Calls Coins RefApd Types TypesProofs Swap SwapProofs Bytes Crypto CryptoProofs Base58 Contracts External SampleWorld EthClient Wallet Net NetWitness RelayWitness Rpc RpcProofs RpcWitness Daemon RpcClient.

Open Scope Z_scope.
Open Scope go_scope.

Module RpcClientProofs.
Import Client RpcProofs.

(** The codec turns the name of every method of the client into that of a method of a
    service. *)
Theorem client_methods_served `{UnicodeLib} (m : clientMethod) :
  ∃ name, Codec.Method (methodName m) = Ok name ∧ name ∈ servedMethods.
Proof. destruct m; eexists; (split; [reflexivity|]); apply (bool_decide_unpack _); reflexivity. Qed.

Section subscription.
Context `{!ClientJson} {S : Type} `{!ClientEnv S}.
Implicit Types s : S.

(** A connection that gives the messages of [inbox] until it is closed, and a receiver
    that takes what is put on the channel until that is closed. *)
Class Receiving := {
  inbox : S → list bytes;
  received : S → list Status;
  chanClosed : S → bool;
  hungUp : S → bool;
  reads m rest s : inbox s = m :: rest → hungUp s = false → ∃ s', ask ReadMessage s = (Done (Ok m), s') ∧
    inbox s' = rest ∧ received s' = received s ∧ chanClosed s' = chanClosed s ∧ hungUp s' = false;
  puts st s : chanClosed s = false → ∃ s', ask (PutStatus st) s = (Done true, s') ∧
    inbox s' = inbox s ∧ received s' = received s ++ [st] ∧ chanClosed s' = false ∧ hungUp s' = hungUp s;
  closes_chan s : chanClosed s = false → ∃ s', ask CloseChan s = (Done tt, s') ∧
    received s' = received s ∧ chanClosed s' = true ∧ hungUp s' = hungUp s;
  closes_conn s : ∃ s', ask CloseConn s = (Done tt, s') ∧
    received s' = received s ∧ chanClosed s' = chanClosed s ∧ hungUp s' = true
}.
Context `{!Receiving}.

(** Neither the channel nor the connection is closed. *)
Definition listening s : Prop := chanClosed s = false ∧ hungUp s = false.

Lemma forwardLoop_turn fuel msg st rest b s : listening s → inbox s = msg :: rest → decodeStatus msg = Ok st →
  IsOngoing st = Done b →
  ∃ s1, forwardLoop (Datatypes.S fuel) s = (if b then forwardLoop fuel s1 else (Done tt, s1)) ∧ listening s1 ∧
    inbox s1 = rest ∧ received s1 = received s ++ [st].
Proof.
  intros [Hc Hh] Hi Hd Hb. cbn [forwardLoop]. destruct (reads msg rest s Hi Hh) as (s1 & E1 & I1 & R1 & C1 & H1).
  rewrite (pbind_Done _ _ _ _ _ E1), Hd. rewrite Hc in C1. destruct (puts st s1 C1) as (s2 & E2 & I2 & R2 & C2 & H2).
  assert (Ef : forward st s1 = (Done b, s2))
    by (unfold forward; rewrite (pbind_Done _ _ _ _ _ E2); unfold pure; by rewrite Hb).
  rewrite (pbind_Done _ _ _ _ _ Ef). exists s2. split; [by destruct b|]. unfold listening. split_and!; congruence.
Qed.

Lemma forwardLoop_run fuel msgs sts final lastMsg rest s : (length sts < fuel)%nat →
  listening s → inbox s = msgs ++ lastMsg :: rest →
  Forall2 (fun m st => decodeStatus m = Ok st ∧ IsOngoing st = Done true) msgs sts →
  decodeStatus lastMsg = Ok final → IsOngoing final = Done false →
  ∃ s', forwardLoop fuel s = (Done tt, s') ∧ listening s' ∧ received s' = received s ++ sts ++ [final].
Proof.
  intros Hf Hl Hi HF Hd Hfin. revert fuel s Hf Hl Hi.
  induction HF as [|m st msgs sts [Hm Hst] _ IH]; intros fuel s Hf Hl Hi;
    (destruct fuel as [|fuel]; [cbn in Hf; lia|]).
  - destruct (forwardLoop_turn fuel _ _ _ _ s Hl Hi Hd Hfin) as (s1 & E & L1 & _ & R). by exists s1.
  - destruct (forwardLoop_turn fuel _ _ _ _ s Hl Hi Hm Hst) as (s1 & E & L1 & I1 & R).
    destruct (IH fuel s1) as (s2 & E2 & L2 & R2); [cbn in Hf; lia | done | done |].
    exists s2. rewrite E, E2. split; [done|]. split; [done|]. by rewrite R2, R, <- (assoc_L (++)).
Qed.

Lemma forwardStatuses_run fuel s s1 : forwardLoop fuel s = (Done tt, s1) → listening s1 →
  ∃ s', forwardStatuses fuel s = (Done tt, s') ∧ received s' = received s1 ∧ chanClosed s' = true ∧ hungUp s' = true.
Proof.
  intros E [Hc _]. destruct (closes_chan s1 Hc) as (s2 & E2 & R2 & C2 & _).
  destruct (closes_conn s2) as (s3 & E3 & R3 & C3 & H3). exists s3.
  unfold forwardStatuses, deferring at 1. unfold deferring. rewrite E, E2, E3. split_and!; congruence || done.
Qed.

End subscription.

(** The server's messages as the client decodes them. *)
Class WsCodec `{ClientJson} := {
  encodeMessage : wsMessage → bytes;
  decode_status st : st ≠ UnknownStatus → decodeStatus (encodeMessage (WsStatus st)) = Ok st
}.

(** C19: liveness.  A client that subscribed sees the life of a swap: up to five ongoing
    statuses and a final one that are pushed in the daemon while the buffer of the swap
    is empty, and that the server then writes to the connection, come out of the client's
    channel, all of them and in order; then the channel is closed and the connection is
    hung up.  Nothing blocks on the way.  That the client decodes the server's messages
    ([WsCodec]) and that the connection and the receiver work ([Receiving]) is assumed. *)
Theorem client_sees_every_status `{Apd} `{IJ : InfoJson} `{CryptoLib} `{!WsJson} {S : Type} `{!SwapEnv S}
    `{!SwapEnvSpec S} `{!RpcEnv S} `{!OpenConn (S := S)} `{CJ : ClientJson} {T : Type} `{!ClientEnv T} `{!Receiving (S := T)} `{!WsCodec}
    (id : Hash) (c : nat) (sts : list Status) (final : Status) (s : S) (t : T) :
  mgrWf (getManager s) → statusChannels (getManager s) !! id = Some c → chans (getManager s) !! c = Some [] →
  Forall (fun st => IsOngoing st = Done true) sts → IsOngoing final = Done false → (length sts < statusChSize)%nat →
  listening t →
  ∃ s1 s2, pushAll id (sts ++ [final]) s = (Done tt, s1) ∧
    WsServer.statusLoop (Datatypes.S statusChSize) c s1 = (Done (Ok tt), s2) ∧
    (inbox t = encodeMessage <$> drop (length (written s1)) (written s2) →
     ∃ t', forwardStatuses (Datatypes.S statusChSize) t = (Done tt, t') ∧
       received t' = received t ++ sts ++ [final] ∧ chanClosed t' = true ∧ hungUp t' = true).
Proof.
  intros W Hid Hc Hon Hfin Hlen Hlis.
  destruct (pushAll_final_run id c sts final s W Hid Hc Hon Hfin Hlen) as (s1 & Hp & Hc1 & _).
  destruct (statusLoop_run (Datatypes.S statusChSize) c sts final s1) as (s2 & E & Hw); [lia | done.. |].
  exists s1, s2. split_and!; [done..|]. rewrite Hw, drop_app_length. intros Hi.
  assert (Hf : IsOngoing final = Done false → final ≠ UnknownStatus) by (by intros ? ->).
  destruct (forwardLoop_run (Datatypes.S statusChSize) ((fun st => encodeMessage (WsStatus st)) <$> sts) sts final
    (encodeMessage (WsStatus final)) [] t) as (t1 & E1 & L1 & R1).
  - lia.
  - done.
  - rewrite Hi, fmap_app, fmap_app. cbn. by rewrite <- list_fmap_compose.
  - clear -Hon. induction Hon as [|st sts Hst _ IH]; constructor; [|done]. split; [|done].
    apply decode_status. by intros ->.
  - by apply decode_status, Hf.
  - done.
  - destruct (forwardStatuses_run _ t t1 E1 L1) as (t' & E' & R' & H'). exists t'. by rewrite R', R1.
Qed.

(** ** A concrete client *)

#[local] Existing Instance RpcWitness.loggedSwapEnv.
#[local] Existing Instance RpcWitness.loggedSwapSpec.
#[local] Existing Instance RpcWitness.undisturbed.
#[local] Existing Instance RpcWitness.sampleServices.
#[local] Existing Instance RpcWitness.sampleWsJson.
#[local] Existing Instance RpcWitness.sampleConn.

Record clientState : Type := mkClient {
  clInbox : list bytes; clReceived : list Status; clClosed : bool; clHungUp : bool
}.

Definition sampleAnswer {A} (c : clientCall A) : prog clientState A :=
  match c in clientCall B return prog clientState B with
  | NewHttpRequest _ | CloseBody | DialWs | WriteRequest _ _ => done None
  | HttpDo _ => done (Ok [])
  | ReadMessage => fun s =>
      match clInbox s with
      | m :: rest => (Done (Ok m), mkClient rest (clReceived s) (clClosed s) (clHungUp s))
      | [] => (Blocked, s)
      end
  | CloseConn => fun s => (Done tt, mkClient (clInbox s) (clReceived s) (clClosed s) true)
  | PutStatus st => fun s => (Done true, mkClient (clInbox s) (clReceived s ++ [st]) (clClosed s) (clHungUp s))
  | CloseChan => fun s =>
      if clClosed s then (Panicked "close of closed channel", s)
      else (Done tt, mkClient (clInbox s) (clReceived s) true (clHungUp s))
  | TakeStatus => done None
  end.

#[local] Instance sampleClient : ClientEnv clientState := @sampleAnswer.

Definition statuses : list Status :=
  [UnknownStatus; ExpectingKeys; KeysExchanged; ETHLocked; XMRLocked; ContractReady; SweepingXMR; CompletedSuccess;
   CompletedRefund; CompletedAbort].

Definition statusNumber (st : Status) : nat := default 0%nat (fst <$> list_find (fun x => x = st) statuses).

(** A status is sent as so many zeros. *)
#[local] Instance sampleClientJson : ClientJson := {|
  encodeClientRequest := fun _ _ _ => Ok [];
  decodeClientResponse := fun _ _ => Err (errorf "unexpected end of JSON input");
  decodeClientError := fun _ => None;
  marshalParams := fun _ _ => Ok [];
  parseResponse := fun m => Ok (None, m);
  parseStatusResponse := fun m =>
    match statuses !! length m with Some st => Ok st | None => Err (errorf "unknown status") end;
  parseOfferResponse := fun _ => Err (errorf "unexpected end of JSON input")
|}.

#[local] Instance sampleCodec : WsCodec.
Proof.
  refine {| encodeMessage := fun m => match m with WsStatus st => repeat x00 (statusNumber st) | _ => [] end |}.
  by intros [].
Defined.

#[local] Instance sampleReceiving : Receiving (S := clientState).
Proof.
  refine {| inbox := clInbox; received := clReceived; chanClosed := clClosed; hungUp := clHungUp |}.
  - intros m rest s Hi Hh. eexists. split; [cbn; by rewrite Hi | done].
  - intros st s Hc. by eexists.
  - intros s Hc. eexists. split; [cbn; by rewrite Hc | done].
  - intros s. by eexists.
Defined.

(** The messages of a swap that succeeds. *)
Definition waiting : clientState :=
  mkClient (encodeMessage <$> (WsStatus <$> [ExpectingKeys; ETHLocked; CompletedSuccess])) [] false false.

Lemma client_sees_every_status_witness :
  ∃ t', forwardStatuses (Datatypes.S statusChSize) waiting = (Done tt, t') ∧
    received t' = received waiting ++ [ExpectingKeys; ETHLocked] ++ [CompletedSuccess] ∧
    chanClosed t' = true ∧ hungUp t' = true.
Proof.
  destruct (client_sees_every_status (repeat Byte.x07 32) 0 [ExpectingKeys; ETHLocked] CompletedSuccess
              RpcWitness.subscribed waiting) as (s1 & s2 & Hp & Hl & K); try reflexivity.
  - apply sampleSubscribed_wf.
  - by repeat constructor.
  - unfold statusChSize. cbn. lia.
  - done.
  - apply K. apply (f_equal snd) in Hp, Hl. cbn [snd] in Hp, Hl. rewrite <- Hl, <- Hp. reflexivity.
Defined.

(** A client that cannot connect panics when it makes an offer, and returns an error when it
    takes one. *)
Definition refusedAnswer {A} (c : clientCall A) : prog clientState A :=
  match c in clientCall B return prog clientState B with
  | DialWs => done (Some (errorf "connection refused"))
  | c => sampleAnswer c
  end.

Example making_offer_panics_without_server :
  (MakeOfferAndSubscribe (ClientEnv0 := @refusedAnswer) (mkMake (apdNew 1 0) (apdNew 2 0) (apdNew 1 (-1)) EthAssetETH false) waiting).1
    = Panicked "nil pointer dereference" ∧
  (TakeOfferAndSubscribe (ClientEnv0 := @refusedAnswer) (mkTake "peer" (repeat x07 32) (apdNew 1 0)) waiting).1
    = Done (Err (Wrapf "failed to dial WS endpoint" (errorf "connection refused"))).
Proof. split; reflexivity. Qed.

End RpcClientProofs.
