(* ===== verification/Swapcli.v ===== *)
(** * The command line client (package cmd/swapcli)

    A command reads its flags, calls the daemon through the client of RpcClient.v, and
    prints; what is printed is kept as values, and its texts are left out.  The cache of
    token information is a global variable of the program. *)

From stdpp Require Import base gmap list strings.
From Stdlib Require Import ZArith Strings.Byte Strings.Ascii.
From S2P Require Import Prelude Calls Coins Types Swap Bytes Crypto Base58 Contracts External Relayer EthClient Wallet Net Rpc Daemon RpcClient.

Open Scope Z_scope.
Open Scope go_scope.

Inductive output `{TypesLib} `{CryptoLib} : Type :=
| OutAddresses (addrs : list string)
| OutPeers (addrs : list string)
| OutPairs (pairs : list Pair)
| OutBalances (b : BalancesResponse)
| OutEthAddress (a : Address)
| OutXmrAddress (a : bytes)
| OutDiscovered (peers : list string)
| OutPeer (peer : string)
| OutOffer (o : Offer) (minTake maxTake : Decimal) (provided received : string)
| OutPublished (offerID : Hash) (peer : string) (takerMin takerMax : Decimal) (symbol : string)
| OutStage (st : Status)
| OutInitiated (offerID : Hash)
| OutOngoing (info : OngoingSwap) (provided received : string)
| OutPast (info : PastSwap) (receivedAmt : Decimal) (provided received : string)
| OutCancelled (st : Status)
| OutCleared (ids : list Hash)
| OutOwnPeer (peer : string)
| OutStatus (st : Status * string * Z)
| OutTxHash (env : Environment) (h : Hash)
| OutTimeout (seconds : Z)
| OutRate (r : PriceFeed.PriceFeed * PriceFeed.PriceFeed * Decimal)
| OutVersion (v : VersionResponse)
| OutContractSwap (i : EthereumSwapInfo)
| OutSecret (k : Scalar)
| OutTransferXMR (to : bytes) (txIDs : list string).

(** The other functions a command uses: libp2p's decoder of peer IDs, [strconv.Quote], and
    the subtraction of apd's decimal context. *)
Class CliLib := {
  peerDecode : string → result string;
  strconvQuote : string → string;
  apdSub : Z → Decimal → Decimal → result Decimal
}.

Record cliFields `{TypesLib} `{CryptoLib} : Type := mkFields {
  tokenCache : gmap Address ERC20TokenInfo;
  printed : list output
}.

Module Swapcli.
Import Client CliUtil.
Section swapcli.
Context `{Apd} `{TL : TypesLib} `{CL : CryptoLib} `{!Base58Lib} `{SL : SigLib} `{!TextLib} `{!ClientJson} `{!CliLib}
  `{!Answers clientCall}.

#[export] Instance loggedClient : ClientEnv (caller clientCall cliFields) := fun A c => perform c.

Abbreviation cmd A := (prog (caller clientCall cliFields) A).

Definition flagToken : string := "token".
Definition flagPeerID : string := "peer-id".
Definition flagOfferID : string := "offer-id".
Definition flagOfferIDs : string := "offer-ids".
Definition flagMinAmount : string := "min-amount".
Definition flagMaxAmount : string := "max-amount".
Definition flagExchangeRate : string := "exchange-rate".
Definition flagProvides : string := "provides".
Definition flagProvidesAmount : string := "provides-amount".
Definition flagUseRelayer : string := "use-relayer".
Definition flagDetached : string := "detached".
Definition flagSearchTime : string := "search-time".
Definition flagTo : string := "to".
Definition flagAmount : string := "amount".
Definition flagGasLimit : string := "gas-limit".

Definition errNoDuration : error := errorf "must provide non-zero --duration".
Definition errInvalidFlagValue (e : error) : error := Wrapf "invalid value passed to flag" e.

Definition out (o : output) : cmd unit := modF (fun f => mkFields _ _ (tokenCache f) (printed f ++ [o])).

(** A hash, or a peer, of a flag. *)
Definition hashFlag (c : cliContext) (flag : string) : result Hash :=
  match HexToHash (cString c flag) with Ok h => Ok h | Err e => Err (errInvalidFlagValue e) end.

Definition peerFlag (c : cliContext) : result string :=
  match peerDecode (cString c flagPeerID) with Ok p => Ok p | Err e => Err (errInvalidFlagValue e) end.

(** ** util.go *)

Definition lookupToken (tokenAddr : Address) : cmd (result ERC20TokenInfo) :=
  cache <- getF tokenCache ;;
  match cache !! tokenAddr with
  | Some token => done (Ok token)
  | None =>
      token <-? TokenInfo tokenAddr ;;
      modF (fun f => mkFields _ _ (<[tokenAddr := token]> (tokenCache f)) (printed f)) ;;;
      done (Ok token)
  end.

Definition ethAssetSymbol (ethAsset : Address) : cmd (result string) :=
  if IsETH ethAsset then done (Ok "ETH"%string)
  else token <-? lookupToken ethAsset ;; done (Ok (strconvQuote (tokSymbol token))).

Definition providedAndReceivedSymbols (provides : string) (ethAsset : Address) : cmd (result (string * string)) :=
  symbol <-? ethAssetSymbol ethAsset ;;
  done (if bool_decide (provides = ProvidesXMR) then Ok ("XMR"%string, symbol)
        else if bool_decide (provides = ProvidesETH) then Ok (symbol, "XMR"%string)
        else Err (errorf "unhandled provides value")).

(** The amounts an offer asks for, in its asset; a rate or an amount that is missing is a
    nil pointer. *)
Definition takerAmounts (ethAsset : Address) (rate min max : Decimal) (token : cmd (result ERC20TokenInfo))
    : cmd (result (Decimal * Decimal)) :=
  if IsETH ethAsset then
    minTake <-? done (ToETH rate min) ;;
    maxTake <-? done (ToETH rate max) ;;
    done (Ok (minTake, maxTake))
  else
    info <-? token ;;
    minTake <-? pure (ToERC20Amount rate min info) ;;
    maxTake <-? pure (ToERC20Amount rate max info) ;;
    done (Ok (minTake, maxTake)).

Definition printOffer (o : Offer) : cmd (result unit) :=
  xRate <- pure (deref (oExchangeRate o)) ;;
  min <- pure (deref (oMinAmount o)) ;;
  max <- pure (deref (oMaxAmount o)) ;;
  takes <-? takerAmounts (oEthAsset o) xRate min max (lookupToken (oEthAsset o)) ;;
  symbols <-? providedAndReceivedSymbols (oProvides o) (oEthAsset o) ;;
  out (OutOffer o takes.1 takes.2 symbols.1 symbols.2) ;;;
  done (Ok tt).

Fixpoint printOffers (offers : list Offer) : cmd (result unit) :=
  match offers with
  | [] => done (Ok tt)
  | o :: rest => _ <-? printOffer o ;; printOffers rest
  end.

Definition queryEnv : cmd (result Environment) :=
  verResp <-? Version ;;
  done (Ok (vrEnv verResp)).

(** Without the environment the hash is printed without a link. *)
Definition printSuccessWithETHTxHash (txHash : Hash) : cmd unit :=
  env <- queryEnv ;;
  out (OutTxHash (match env with Ok e => e | Err _ => Undefined end) txHash).

(** ** main.go *)

Definition runAddresses : cmd (result unit) :=
  addrs <-? Addresses ;; out (OutAddresses addrs) ;;; done (Ok tt).

Definition runPeers : cmd (result unit) :=
  addrs <-? Peers ;; out (OutPeers addrs) ;;; done (Ok tt).

Definition runPairs (c : cliContext) : cmd (result unit) :=
  pairs <-? Pairs (cUint c flagSearchTime) ;; out (OutPairs pairs) ;;; done (Ok tt).

(** The tokens of a flag: all of them are checked before the daemon is called. *)
Fixpoint tokenAddrs (tokens : list string) : result (list Address) :=
  match tokens with
  | [] => Ok []
  | t :: rest =>
      if negb (isHexAddress t) then Err (errorf "invalid token address")
      else match tokenAddrs rest with Ok l => Ok (hexToAddress t :: l) | Err e => Err e end
  end.

Definition runBalances (c : cliContext) : cmd (result unit) :=
  addrs <-? done (tokenAddrs (cStringSlice c flagToken)) ;;
  balances <-? Balances (Some addrs) ;;
  out (OutBalances balances) ;;;
  done (Ok tt).

Definition runETHAddress : cmd (result unit) :=
  balances <-? Balances None ;; out (OutEthAddress (blEthAddress balances)) ;;; done (Ok tt).

Definition runXMRAddress : cmd (result unit) :=
  balances <-? Balances None ;; out (OutXmrAddress (blMoneroAddress balances)) ;;; done (Ok tt).

Definition runDiscover (c : cliContext) : cmd (result unit) :=
  peerIDs <-? Discover (cString c flagProvides) (cUint c flagSearchTime) ;;
  out (OutDiscovered peerIDs) ;;;
  done (Ok tt).

Definition runQuery (c : cliContext) : cmd (result unit) :=
  peerID <-? done (peerFlag c) ;;
  offers <-? Query peerID ;;
  printOffers offers.

Definition providesStrToVal (providesStr : string) : result string :=
  if bool_decide (providesStr = "") then Ok ""%string else NewProvidesCoin providesStr.

Fixpoint printPeers (peers : list (string * list Offer)) : cmd (result unit) :=
  match peers with
  | [] => done (Ok tt)
  | (p, offers) :: rest =>
      out (OutPeer p) ;;;
      _ <-? printOffers offers ;;
      printPeers rest
  end.

Definition runQueryAll (c : cliContext) : cmd (result unit) :=
  provides <-? done (providesStrToVal (cString c flagProvides)) ;;
  peerOffers <-? QueryAll provides (cUint c flagSearchTime) ;;
  printPeers peerOffers.

(** The loop over the channel of a subscription, at most [fuel] statuses. *)
Fixpoint stageLoop (fuel : nat) : cmd (result unit) :=
  match fuel with
  | O => nofuel
  | S fuel' =>
      stage <- perform TakeStatus ;;
      match stage with
      | None => done (Ok tt)
      | Some st =>
          out (OutStage st) ;;;
          ongoing <- pure (IsOngoing st) ;;
          if ongoing : bool then stageLoop fuel' else done (Ok tt)
      end
  end.

(** The token flag is not checked: what it names is what [HexToAddress] makes of it. *)
Definition runMake (fuel : nat) (c : cliContext) : cmd (result unit) :=
  min <-? done (ReadPositiveUnsignedDecimalFlag c flagMinAmount) ;;
  max <-? done (ReadPositiveUnsignedDecimalFlag c flagMaxAmount) ;;
  let ethAssetStr := cString c flagToken in
  let ethAsset := if bool_decide (ethAssetStr = "") then EthAssetETH else hexToAddress ethAssetStr in
  exchangeRate <-? done (ReadPositiveUnsignedDecimalFlag c flagExchangeRate) ;;
  info <-? (if IsETH ethAsset then done (Ok None) else token <-? TokenInfo ethAsset ;; done (Ok (Some token))) ;;
  let symbol := match info with None => "ETH"%string | Some token => strconvQuote (tokSymbol token) end in
  other <-? takerAmounts ethAsset exchangeRate min max
              (match info with None => panic "unreachable" | Some token => done (Ok token) end) ;;
  let req := mkMake min max exchangeRate ethAsset (cBool c flagUseRelayer) in
  if negb (cBool c flagDetached) then
    resp <-? MakeOfferAndSubscribe req ;;
    out (OutPublished resp.2 resp.1 other.1 other.2 symbol) ;;;
    stageLoop fuel
  else
    resp <-? MakeOffer req ;;
    out (OutPublished resp.2 resp.1 other.1 other.2 symbol) ;;;
    done (Ok tt).

Definition runTake (fuel : nat) (c : cliContext) : cmd (result unit) :=
  peerID <-? done (peerFlag c) ;;
  offerID <-? done (hashFlag c flagOfferID) ;;
  providesAmount <-? done (ReadPositiveUnsignedDecimalFlag c flagProvidesAmount) ;;
  let req := mkTake peerID offerID providesAmount in
  if negb (cBool c flagDetached) then
    _ <-? TakeOfferAndSubscribe req ;;
    out (OutInitiated offerID) ;;;
    stageLoop fuel
  else
    _ <-? TakeOffer req ;;
    out (OutInitiated offerID) ;;;
    done (Ok tt).

(** The offer of a flag that may be missing. *)
Definition optionalHash (c : cliContext) : result (option Hash) :=
  if cIsSet c flagOfferID then match hashFlag c flagOfferID with Ok h => Ok (Some h) | Err e => Err e end else Ok None.

Fixpoint printOngoing (swaps : list OngoingSwap) : cmd (result unit) :=
  match swaps with
  | [] => done (Ok tt)
  | info :: rest =>
      symbols <-? providedAndReceivedSymbols (osProvided info) (osEthAsset info) ;;
      out (OutOngoing info symbols.1 symbols.2) ;;;
      printOngoing rest
  end.

Definition runGetOngoingSwap (c : cliContext) : cmd (result unit) :=
  offerID <-? done (optionalHash c) ;;
  swaps <-? GetOngoingSwap offerID ;;
  printOngoing swaps.

(** What was received: the expected amount less the fee of the relayer. *)
Definition receivedAmount (info : PastSwap) : result Decimal :=
  match psRelayerFee info with
  | None => Ok (psExpectedAmount info)
  | Some fee => apdSub MaxCoinPrecision (psExpectedAmount info) fee
  end.

Fixpoint printPast (swaps : list PastSwap) : cmd (result unit) :=
  match swaps with
  | [] => done (Ok tt)
  | info :: rest =>
      symbols <-? providedAndReceivedSymbols (psProvided info) (psEthAsset info) ;;
      receivedAmt <-? done (receivedAmount info) ;;
      out (OutPast info receivedAmt symbols.1 symbols.2) ;;;
      printPast rest
  end.

Definition runGetPastSwap (c : cliContext) : cmd (result unit) :=
  offerID <-? done (optionalHash c) ;;
  swaps <-? GetPastSwap offerID ;;
  printPast swaps.

Definition runCancel (c : cliContext) : cmd (result unit) :=
  offerID <-? done (hashFlag c flagOfferID) ;;
  st <-? Cancel offerID ;;
  out (OutCancelled st) ;;;
  done (Ok tt).

Fixpoint parseHashes (ids : list string) : result (list Hash) :=
  match ids with
  | [] => Ok []
  | s :: rest =>
      match HexToHash (TrimSpace s) with
      | Err e => Err (errInvalidFlagValue e)
      | Ok h => match parseHashes rest with Ok l => Ok (h :: l) | Err e => Err e end
      end
  end.

(** Without IDs all offers are cleared. *)
Definition runClearOffers (c : cliContext) : cmd (result unit) :=
  let ids := cString c flagOfferIDs in
  if bool_decide (ids = "") then
    _ <-? ClearOffers [] ;; out (OutCleared []) ;;; done (Ok tt)
  else
    offerIDs <-? done (parseHashes (stringsSplit "," ids)) ;;
    _ <-? ClearOffers offerIDs ;;
    out (OutCleared offerIDs) ;;;
    done (Ok tt).

Definition runGetOffers : cmd (result unit) :=
  resp <-? GetOffers ;;
  out (OutOwnPeer resp.1) ;;;
  printOffers resp.2.

Definition runGetStatus (c : cliContext) : cmd (result unit) :=
  offerID <-? done (hashFlag c flagOfferID) ;;
  st <-? GetStatus offerID ;;
  out (OutStatus st) ;;;
  done (Ok tt).

Definition runClaim (c : cliContext) : cmd (result unit) :=
  offerID <-? done (hashFlag c flagOfferID) ;;
  h <-? Claim offerID ;;
  out (OutTxHash Undefined h) ;;;
  done (Ok tt).

Definition runRefund (c : cliContext) : cmd (result unit) :=
  offerID <-? done (hashFlag c flagOfferID) ;;
  h <-? Refund offerID ;;
  out (OutTxHash Undefined h) ;;;
  done (Ok tt).

Definition runSetSwapTimeout (c : cliContext) : cmd (result unit) :=
  let duration := cUint c "duration" in
  if duration =? 0 then done (Err errNoDuration)
  else
    _ <-? SetSwapTimeout duration ;;
    out (OutTimeout duration) ;;;
    done (Ok tt).

Definition runGetSwapTimeout : cmd (result unit) :=
  t <-? GetSwapTimeout ;; out (OutTimeout t) ;;; done (Ok tt).

Definition runSuggestedExchangeRate : cmd (result unit) :=
  r <-? SuggestedExchangeRate ;; out (OutRate r) ;;; done (Ok tt).

Definition runGetVersions : cmd (result unit) :=
  v <-? Version ;; out (OutVersion v) ;;; done (Ok tt).

Definition runShutdown : cmd (result unit) := Shutdown.

Definition runGetContractSwapInfo (c : cliContext) : cmd (result unit) :=
  offerID <-? done (hashFlag c flagOfferID) ;;
  i <-? GetContractSwapInfo offerID ;;
  out (OutContractSwap i) ;;;
  done (Ok tt).

Definition runGetSwapSecret (c : cliContext) : cmd (result unit) :=
  offerID <-? done (hashFlag c flagOfferID) ;;
  k <-? GetSwapSecret offerID ;;
  out (OutSecret k) ;;;
  done (Ok tt).

(** The receiver of XMR is checked for the network of the daemon. *)
Definition xmrReceiver (c : cliContext) : cmd (result bytes) :=
  env <-? queryEnv ;;
  r <- pure (NewAddress (bytesOfString (cString c flagTo)) env) ;;
  match r with
  | (_, Some e) => done (Err e)
  | (Some a, None) => done (Ok a)
  | (None, None) => panic "nil pointer dereference"
  end.

Definition runTransferXMR (c : cliContext) : cmd (result unit) :=
  to <-? xmrReceiver c ;;
  amount <-? done (ReadPositiveUnsignedDecimalFlag c flagAmount) ;;
  txID <-? TransferXMR to amount ;;
  out (OutTransferXMR to [txID]) ;;;
  done (Ok tt).

Definition runSweepXMR (c : cliContext) : cmd (result unit) :=
  to <-? xmrReceiver c ;;
  _ <-? Balances (Some []) ;;
  txIDs <-? SweepXMR to ;;
  out (OutTransferXMR to txIDs) ;;;
  done (Ok tt).

Definition runTransferETH (c : cliContext) : cmd (result unit) :=
  to <-? done (ReadETHAddress c flagTo) ;;
  amount <-? done (ReadUnsignedDecimalFlag c flagAmount) ;;
  let gasLimit := if cIsSet c flagGasLimit then Some (cUint c flagGasLimit) else None in
  h <-? TransferETH to amount gasLimit ;;
  printSuccessWithETHTxHash h ;;;
  done (Ok tt).

Definition runSweepETH (c : cliContext) : cmd (result unit) :=
  to <-? done (ReadETHAddress c flagTo) ;;
  _ <-? Balances (Some []) ;;
  h <-? SweepETH to ;;
  printSuccessWithETHTxHash h ;;;
  done (Ok tt).

End swapcli.
End Swapcli.
