(* ===== verification/SwapcliProofs.v ===== *)
(** * Properties of the command line client

    The information of a token is asked for once, whatever is listed; the statuses of a
    subscription are printed up to the final one. *)

From stdpp Require Import base gmap list strings.
From Stdlib Require Import ZArith Strings.Byte Strings.Ascii.
From S2P Require Import Prelude Calls Coins Types Swap Bytes Crypto Base58 Contracts External Relayer EthClient Wallet Net Rpc Daemon RpcClient Swapcli.

Open Scope Z_scope.
Open Scope go_scope.

Module SwapcliProofs.
Import Client CliUtil Swapcli.

Section cli.
Context `{Apd} `{TL : TypesLib} `{CL : CryptoLib} `{!Base58Lib} `{SL : SigLib} `{!TextLib} `{!ClientJson} `{!CliLib}
  `{!Answers clientCall}.
Abbreviation state := (caller clientCall cliFields).
Implicit Types s : state.

(** ** Asking for tokens

    [asks T s s']: between the states the cache only grew, to tokens of [T], and at most
    three calls (a request, its response and the body's end) were made for each token that
    is new. *)

Definition cached s : gset Address := dom (tokenCache (fields s)).

(** The tokens of [T] that are not cached. *)
Definition missing (T : gset Address) s : nat := size (T ∖ cached s).

Record asks (T : gset Address) s s' : Prop := mkAsks {
  asks_grow : cached s ⊆ cached s';
  asks_calls : (length (log s') + 3 * missing T s' ≤ length (log s) + 3 * missing T s)%nat
}.

#[local] Instance asks_preorder T : PreOrder (asks T).
Proof.
  split.
  - intros s. split; [done | lia].
  - intros s1 s2 s3 [G1 C1] [G2 C2]. split; [by etrans | lia].
Qed.

(** A run that fails may have asked once more, for the token it failed on. *)
Definition asksFor {A : Type} (T : gset Address) (m : prog state (result A)) : Prop :=
  ∀ s, match m s with
       | (Done (Ok _), s') => asks T s s'
       | (Done (Err _), s') => (length (log s') ≤ length (log s) + 3 * missing T s)%nat
       | (_, s') => (length (log s') ≤ length (log s) + 3 * missing T s)%nat
       end.

Lemma asks_bound T s s' : asks T s s' → (length (log s') ≤ length (log s) + 3 * missing T s)%nat.
Proof. intros [_ Hc]. lia. Qed.

Lemma asksFor_try {A B : Type} T (m : prog state (result A)) (k : A → prog state (result B)) :
  asksFor T m → (∀ a, asksFor T (k a)) → asksFor T (tryBind m k).
Proof.
  intros Hm Hk s. unfold tryBind, pbind. specialize (Hm s).
  destruct (m s) as [[[a|e]|?| |] s1]; try done. specialize (Hk a s1). destruct Hm as [G1 C1].
  destruct (k a s1) as [[[b|e]|?| |] s2]; try lia. destruct Hk as [G2 C2]. split; [by etrans | lia].
Qed.

Lemma asksFor_same {A : Type} T (m : prog state (result A)) :
  (∀ s, cached (m s).2 = cached s ∧ log (m s).2 = log s) → asksFor T m.
Proof.
  intros Hm s. specialize (Hm s). destruct (m s) as [[[a|e]|?| |] s1]; cbn [snd] in Hm; destruct Hm as [Hc Hl];
    [split; [by rewrite Hc|]; unfold missing; rewrite Hc, Hl; lia | rewrite Hl; lia..].
Qed.

Lemma asksFor_seq {A : Type} T (m : prog state unit) (k : prog state (result A)) :
  (∀ s, (m s).1 = Done tt ∧ cached (m s).2 = cached s ∧ log (m s).2 = log s) → asksFor T k → asksFor T (m ;;; k).
Proof.
  intros Hm Hk s. specialize (Hm s). unfold pbind. destruct (m s) as [o s1]. cbn [fst snd] in Hm.
  destruct Hm as (-> & Hc & Hl). specialize (Hk s1). unfold missing in *. rewrite Hc, Hl in Hk.
  destruct (k s1) as [[[b|e]|?| |] s2]; try done. destruct Hk as [G C]. split; [by rewrite <- Hc|].
  unfold missing in *. rewrite Hc, Hl in C. exact C.
Qed.

Lemma asksFor_pure {A B : Type} T (o : outcome B) (k : B → prog state (result A)) :
  (∀ b, asksFor T (k b)) → asksFor T (b <- pure o ;; k b).
Proof.
  intros Hk s. unfold pbind, pure. destruct o as [b|?| |]; [apply Hk | cbn; lia..].
Qed.

(** A request is at most three calls, and leaves the cache alone. *)
Lemma exchange_calls {Q R} m (req : Q) (decode : bytes → result R) s :
  cached (exchange m req decode s).2 = cached s ∧
  (length (log (exchange m req decode s).2) ≤ length (log s) + 3)%nat.
Proof.
  unfold exchange, tryBind, mapErr, checked, deferring, pbind, done, ask, loggedClient, perform. cbn.
  destruct (encodeClientRequest _ _ _) as [data|e]; cbn; [|split; [done | lia]].
  destruct (respond _ _ (NewHttpRequest data)); cbn; [split; [done | lia]|].
  destruct (respond _ _ (HttpDo data)) as [body|e]; cbn; [|split; [done | lia]].
  destruct (decode body); cbn; (split; [done | lia]).
Qed.

Lemma missing_insert a T s s' : a ∈ T → a ∉ cached s → cached s' = {[a]} ∪ cached s →
  missing T s = S (missing T s').
Proof.
  intros Ha Hn Hc. unfold missing. rewrite Hc.
  replace (T ∖ cached s) with ({[a]} ∪ (T ∖ ({[a]} ∪ cached s))).
  - rewrite size_union; [by rewrite size_singleton|]. apply disjoint_singleton_l.
    intros [_ Hx]%elem_of_difference. apply Hx, elem_of_union_l. by apply elem_of_singleton.
  - apply set_eq. intros x. rewrite !elem_of_union, !elem_of_difference, elem_of_union, elem_of_singleton.
    destruct (decide (x = a)) as [->|]; [tauto|]. destruct (decide (x ∈ cached s)); tauto.
Qed.

Lemma lookupToken_asks T a : a ∈ T → asksFor T (lookupToken a).
Proof.
  intros Ha s. unfold lookupToken, getF. unfold pbind at 1, gets. cbn.
  destruct (tokenCache (fields s) !! a) as [token|] eqn:E; [cbn; reflexivity|].
  assert (Hn : a ∉ cached s) by (unfold cached; by apply not_elem_of_dom).
  destruct (exchange_calls PersonalTokenInfo a (decodeClientResponse ERC20TokenInfo) s) as [Hc Hl].
  unfold tryBind, TokenInfo, post, pbind.
  destruct (exchange _ _ _ s) as [[[token|e]|?| |] s1]; cbn [snd] in Hc, Hl; cbn.
  2-5: pose proof (missing_insert a T s (mkCaller (mkFields _ _ (<[a := mkToken zeroAddress 0 "" ""]> (tokenCache (fields s))) []) 0 [])
         Ha Hn ltac:(unfold cached; cbn; by rewrite dom_insert_L)); lia.
  assert (Hc' : cached (mkCaller (mkFields _ _ (<[a:=token]> (tokenCache (fields s1))) (printed (fields s1))) (ticks s1) (log s1))
    = {[a]} ∪ cached s) by (unfold cached in *; cbn; by rewrite dom_insert_L, Hc).
  split; [rewrite Hc'; apply union_subseteq_r|]. rewrite (missing_insert a T s _ Ha Hn Hc'). cbn. lia.
Qed.

Lemma asksFor_done {A : Type} T (r : result A) : asksFor T (done r).
Proof. apply asksFor_same. by intros s. Qed.

Definition tokensOf (offers : list Offer) : gset Address := list_to_set (oEthAsset <$> offers).

Lemma symbols_ask T provides a : a ∈ T → asksFor T (providedAndReceivedSymbols provides a).
Proof.
  intros Ha. unfold providedAndReceivedSymbols, ethAssetSymbol. apply asksFor_try; [|intros ?; apply asksFor_done].
  destruct (IsETH a); [apply asksFor_done|]. apply asksFor_try; [by apply lookupToken_asks | intros ?; apply asksFor_done].
Qed.

Lemma printOffer_asks T o : oEthAsset o ∈ T → asksFor T (printOffer o).
Proof.
  intros Ho. unfold printOffer. do 3 (apply asksFor_pure; intros ?). apply asksFor_try.
  - unfold takerAmounts. destruct (IsETH _); repeat (apply asksFor_try; [|intros ?]); try apply asksFor_done;
      try (by apply lookupToken_asks); apply asksFor_same; by intros s.
  - intros takes. apply asksFor_try; [by apply symbols_ask|]. intros symbols.
    apply asksFor_seq; [by intros s | apply asksFor_done].
Qed.

(** Whatever offers are printed, the daemon is asked at most once for every token that is
    not known yet: at most one request, three calls, per token, however often it occurs. *)
Theorem printOffers_asks_once (offers : list Offer) s :
  (length (log (printOffers offers s).2) ≤ length (log s) + 3 * missing (tokensOf offers) s)%nat.
Proof.
  assert (Hp : ∀ T, tokensOf offers ⊆ T → asksFor T (printOffers offers)).
  { unfold tokensOf. induction offers as [|o offers IH]; intros T HT; cbn [printOffers]; [apply asksFor_done|].
    apply asksFor_try; [apply printOffer_asks, HT; cbn; apply elem_of_union_l; by apply elem_of_singleton|].
    intros ?. apply IH. etrans; [|exact HT]. cbn. apply union_subseteq_r. }
  specialize (Hp _ (reflexivity _) s). destruct (printOffers offers s) as [[[a|e]|?| |] s']; cbn; [by apply asks_bound | done..].
Qed.

(** ** Following a swap *)

(** The statuses that come out of the channel. *)
Fixpoint taken (es : list (event clientCall)) : list (option Status) :=
  match es with
  | [] => []
  | Ev c a :: earlier =>
      taken earlier ++ match c in clientCall A return A → list (option Status) with
                       | TakeStatus => fun st => [st]
                       | _ => fun _ => []
                       end a
  end.

(** Every status that is taken from the channel is printed, in order, and the loop ends at
    the first that is final or when the channel is closed. *)
Theorem stageLoop_prints_what_it_takes (fuel : nat) s s' :
  stageLoop fuel s = (Done (Ok tt), s') →
  ∃ es, since s s' es ∧ printed (fields s') = printed (fields s) ++ (OutStage <$> omap id (taken es)) ∧
    ∃ sts final, taken es = (Some <$> sts) ++ [final] ∧ Forall (fun st => IsOngoing st = Done true) sts ∧
      from_option (fun st => IsOngoing st = Done false) True final.
Proof.
  revert s. induction fuel as [|fuel IH]; intros s E; cbn [stageLoop] in E; [done|].
  apply pbind_inv_Done in E as (st & s1 & E1 & E). destruct (perform_inv _ _ _ _ E1) as (_ & L1 & _ & F1).
  destruct st as [st|].
  - apply pbind_inv_Done in E as ([] & s2 & E2 & E). injection E2 as <-.
    apply pbind_inv_Done in E as (b & s3 & E3 & E). apply pure_inv in E3 as [Hb ->]. destruct b.
    + destruct (IH _ E) as (es & L & P & sts & final & Ht & Hon & Hfin).
      exists (es ++ [Ev TakeStatus (Some st)]).
      assert (Htk : taken (es ++ [Ev TakeStatus (Some st)]) = Some st :: taken es).
      { clear. induction es as [|[A c a] es IHe]; [done|]. cbn. by rewrite IHe. }
      split; [eapply since_trans; [exact L1 | exact L]|]. rewrite Htk. split.
      * cbn in P. rewrite P, F1. cbn. by rewrite <- (assoc_L (++)).
      * exists (st :: sts), final. split_and!; [by rewrite Ht | by constructor | done].
    + injection E as <-. exists [Ev TakeStatus (Some st)]. split; [done|]. split; [cbn; by rewrite F1|].
      exists [], (Some st). split_and!; [done | constructor | done].
  - injection E as <-. exists [Ev TakeStatus None]. split; [done|]. split; [rewrite F1; cbn; by rewrite app_nil_r|].
    exists [], None. split_and!; [done | constructor | done].
Qed.

End cli.
End SwapcliProofs.
