(* ===== verification/CliApps.v ===== *)
(** * The command lines of the executables (cliApp of cmd/swapcli, cmd/swapd, cmd/bootnode)

    The declarations of commands and flags, as values.  urfave/cli finds a command by its
    name or one of its aliases, the first that matches; a flag that was not declared reads as
    the zero value of its type, whatever the user passed.  The theorems compare the
    declarations with what the actions of Swapcli.v and Daemon.v read. *)

From stdpp Require Import base gmap list strings.
From Stdlib Require Import ZArith Strings.Byte.
From S2P Require Import Prelude Calls Coins Types Swap Bytes Crypto Base58 Contracts External Relayer EthClient Wallet Net Config Rpc Daemon RpcClient Swapcli.

Open Scope Z_scope.
Open Scope go_scope.

(** ** Flags and commands *)

(** A flag has the type of its default. *)
Inductive flagValue : Type :=
| StringValue (s : string)
| UintValue (z : Z)
| BoolValue (b : bool)
| StringSliceValue (l : list string).

Record Flag : Type := mkFlag {
  flName : string;
  flAliases : list string;
  flRequired : bool;
  flValue : flagValue;
  flEnvVars : list string
}.

Record Command (A : Type) : Type := mkCommand {
  cmName : string;
  cmAliases : list string;
  cmAction : cliContext → A;
  cmFlags : list Flag
}.
Arguments mkCommand {A} _ _ _ _.
Arguments cmName {A} _.
Arguments cmAliases {A} _.
Arguments cmAction {A} _ _.
Arguments cmFlags {A} _.

(** [Command.HasName], and the first command that has the name. *)
Definition HasName {A} (name : string) (cm : Command A) : bool :=
  bool_decide (name ∈ cmName cm :: cmAliases cm).

Definition findCommand {A} (cms : list (Command A)) (name : string) : option (Command A) :=
  List.find (HasName name) cms.

(** What a flag is set to on the command line or in its environment variables. *)
Abbreviation given := (string → option flagValue).

Definition flagOf (flags : list Flag) (name : string) : option Flag :=
  List.find (fun f => bool_decide (name ∈ flName f :: flAliases f)) flags.

Definition valueOf (flags : list Flag) (g : given) (name : string) : option flagValue :=
  f ← flagOf flags name; Some (default (flValue f) (g (flName f))).

(** The context of a command: its own flags, with their defaults. *)
Definition contextOf (flags : list Flag) (g : given) (args : list string) : cliContext := {|
  cIsSet := fun n => match flagOf flags n with Some f => bool_decide (is_Some (g (flName f))) | None => false end;
  cString := fun n => match valueOf flags g n with Some (StringValue s) => s | _ => "" end;
  cUint := fun n => match valueOf flags g n with Some (UintValue z) => z | _ => 0 end;
  cBool := fun n => match valueOf flags g n with Some (BoolValue b) => b | _ => false end;
  cStringSlice := fun n => match valueOf flags g n with Some (StringSliceValue l) => l | _ => [] end;
  cArgs := args
|}.

Definition missingRequired (flags : list Flag) (g : given) : list Flag :=
  filter (fun f => flRequired f = true ∧ g (flName f) = None) flags.

(** A command runs when its required flags are set. *)
Definition runCommand {A} (cm : Command A) (g : given) (args : list string) : result A :=
  match missingRequired (cmFlags cm) g with
  | [] => Ok (cmAction cm (contextOf (cmFlags cm) g args))
  | _ => Err (errorf "Required flag not set")
  end.

Definition plainFlag (name : string) (v : flagValue) : Flag := mkFlag name [] false v [].
Definition requiredFlag (name : string) : Flag := mkFlag name [] true (StringValue "") [].

(** ** cmd/swapcli/main.go *)

Module SwapcliApp.
Import Swapcli.

Definition defaultDiscoverSearchTimeSecs : Z := 12.
Definition DefaultSwapdPort : Z := 5000.
Definition flagSwapdPort : string := "swapd-port".

Definition swapdPortFlag : Flag := mkFlag flagSwapdPort ["p"] false (UintValue DefaultSwapdPort) ["SWAPD_PORT"].
Definition searchTimeFlag : Flag := plainFlag flagSearchTime (UintValue defaultDiscoverSearchTimeSecs).
Definition providesFlag : Flag := plainFlag flagProvides (StringValue ProvidesXMR).
Definition detachedFlag : Flag := plainFlag flagDetached (BoolValue false).

Section app.
Context `{Apd} `{TL : TypesLib} `{CL : CryptoLib} `{!Base58Lib} `{SL : SigLib} `{!TextLib} `{!ClientJson} `{!CliLib}
  `{!Answers clientCall}.
Context (fuel : nat).

Abbreviation Action := (prog (caller clientCall cliFields) (result unit)).

Definition cmdAddresses : Command Action := mkCommand "addresses" ["a"] (fun _ => runAddresses) [swapdPortFlag].
Definition cmdPeers : Command Action := mkCommand "peers" ["p"] (fun _ => runPeers) [swapdPortFlag].
Definition cmdPairs : Command Action := mkCommand "pairs" ["p"] runPairs [swapdPortFlag; searchTimeFlag].
Definition cmdBalances : Command Action := mkCommand "balances" ["b"] runBalances
  [swapdPortFlag; mkFlag flagToken ["t"] false (StringSliceValue []) ["SWAPCLI_TOKENS"]].
Definition cmdETHAddress : Command Action := mkCommand "eth-address" [] (fun _ => runETHAddress) [swapdPortFlag].
Definition cmdXMRAddress : Command Action := mkCommand "xmr-address" [] (fun _ => runXMRAddress) [swapdPortFlag].
Definition cmdDiscover : Command Action := mkCommand "discover" ["d"] runDiscover [providesFlag; searchTimeFlag; swapdPortFlag].
Definition cmdQuery : Command Action := mkCommand "query" ["q"] runQuery [requiredFlag flagPeerID; swapdPortFlag].
Definition cmdQueryAll : Command Action := mkCommand "query-all" ["qall"] runQueryAll [providesFlag; searchTimeFlag; swapdPortFlag].
Definition cmdMake : Command Action := mkCommand "make" ["m"] (runMake fuel)
  [mkFlag flagMinAmount ["min"] true (StringValue "") []; mkFlag flagMaxAmount ["max"] true (StringValue "") [];
   requiredFlag flagExchangeRate; detachedFlag; plainFlag flagToken (StringValue "");
   plainFlag flagUseRelayer (BoolValue false); swapdPortFlag].
Definition cmdTake : Command Action := mkCommand "take" ["t"] (runTake fuel)
  [requiredFlag flagPeerID; requiredFlag flagOfferID; mkFlag flagProvidesAmount ["pa"] true (StringValue "") [];
   detachedFlag; swapdPortFlag].
Definition cmdOngoing : Command Action := mkCommand "ongoing" [] runGetOngoingSwap
  [plainFlag flagOfferID (StringValue ""); swapdPortFlag].
Definition cmdPast : Command Action := mkCommand "past" [] runGetPastSwap
  [plainFlag flagOfferID (StringValue ""); swapdPortFlag].
Definition cmdCancel : Command Action := mkCommand "cancel" [] runCancel
  [plainFlag flagOfferID (StringValue ""); swapdPortFlag].
Definition cmdClearOffers : Command Action := mkCommand "clear-offers" [] runClearOffers
  [plainFlag flagOfferIDs (StringValue ""); swapdPortFlag].
Definition cmdGetOffers : Command Action := mkCommand "get-offers" [] (fun _ => runGetOffers) [swapdPortFlag].
Definition cmdGetStatus : Command Action := mkCommand "get-status" [] runGetStatus
  [requiredFlag flagOfferID; swapdPortFlag].
Definition cmdSetSwapTimeout : Command Action := mkCommand "set-swap-timeout" [] runSetSwapTimeout
  [mkFlag "duration" [] true (UintValue 0) []; swapdPortFlag].
Definition cmdPriceFeed : Command Action := mkCommand "price-feed" ["suggested-exchange-rate"]
  (fun _ => runSuggestedExchangeRate) [swapdPortFlag].
Definition cmdGetSwapTimeout : Command Action := mkCommand "get-swap-timeout" [] (fun _ => runGetSwapTimeout) [swapdPortFlag].
Definition cmdTransferXMR : Command Action := mkCommand "transfer-xmr" [] runTransferXMR
  [requiredFlag flagTo; requiredFlag flagAmount; swapdPortFlag].
Definition cmdSweepXMR : Command Action := mkCommand "sweep-xmr" [] runSweepXMR [requiredFlag flagTo; swapdPortFlag].
Definition cmdTransferETH : Command Action := mkCommand "transfer-eth" [] runTransferETH
  [requiredFlag flagTo; requiredFlag flagAmount; plainFlag flagGasLimit (UintValue 0); swapdPortFlag].
Definition cmdSweepETH : Command Action := mkCommand "sweep-eth" [] runSweepETH [requiredFlag flagTo; swapdPortFlag].
Definition cmdVersion : Command Action := mkCommand "version" [] (fun _ => runGetVersions) [swapdPortFlag].
Definition cmdShutdown : Command Action := mkCommand "shutdown" [] (fun _ => runShutdown) [swapdPortFlag].

Definition cmdGetContractSwapInfo : Command Action := mkCommand "get-contract-swap-info" [] runGetContractSwapInfo
  [requiredFlag flagOfferID; swapdPortFlag].
Definition cmdGetSwapSecret : Command Action := mkCommand "get-swap-secret" [] runGetSwapSecret
  [requiredFlag flagOfferID; swapdPortFlag].
Definition cmdClaim : Command Action := mkCommand "claim" [] runClaim [requiredFlag flagOfferID; swapdPortFlag].
Definition cmdRefund : Command Action := mkCommand "refund" [] runRefund [requiredFlag flagOfferID; swapdPortFlag].

Definition commands : list (Command Action) :=
  [cmdAddresses; cmdPeers; cmdPairs; cmdBalances; cmdETHAddress; cmdXMRAddress; cmdDiscover; cmdQuery; cmdQueryAll;
   cmdMake; cmdTake; cmdOngoing; cmdPast; cmdCancel; cmdClearOffers; cmdGetOffers; cmdGetStatus; cmdSetSwapTimeout;
   cmdPriceFeed; cmdGetSwapTimeout; cmdTransferXMR; cmdSweepXMR; cmdTransferETH; cmdSweepETH; cmdVersion; cmdShutdown].

(** The subcommands of "recovery". *)
Definition recoveryCommands : list (Command Action) :=
  [cmdGetContractSwapInfo; cmdGetSwapSecret; cmdClaim; cmdRefund].

End app.
End SwapcliApp.

(** ** cmd/swapd/main.go and cmd/bootnode/main.go *)

Module SwapdApp.
Import Config Flags CliUtil.

Definition swapdLibp2pPort : Z := 9900.
Definition DefaultMoneroDaemonMainnetPort : Z := 18081.

Definition swapdFlags : list Flag :=
  [mkFlag flagRPCPort [] false (UintValue Swapd.defaultRPCPort) ["SWAPD_RPC_PORT"];
   plainFlag flagDataDir (StringValue "{HOME}/.atomicswap/{ENV}");
   plainFlag flagLibp2pKey (StringValue ("{DATA_DIR}/" +:+ DefaultLibp2pKeyFileName));
   mkFlag flagLibp2pPort [] false (UintValue swapdLibp2pPort) ["SWAPD_LIBP2P_PORT"];
   mkFlag flagEnv [] false (StringValue "mainnet") ["SWAPD_ENV"];
   mkFlag flagMoneroDaemonHost [] false (StringValue "") ["SWAPD_MONEROD_HOST"];
   mkFlag flagMoneroDaemonPort [] false (UintValue DefaultMoneroDaemonMainnetPort) ["SWAPD_MONEROD_PORT"];
   plainFlag flagMoneroWalletPath (StringValue ("{DATA-DIR}/wallet/" +:+ DefaultMoneroWalletName));
   plainFlag flagMoneroWalletPassword (StringValue "");
   plainFlag flagMoneroWalletPort (UintValue 0);
   mkFlag flagEthEndpoint ["ethereum-endpoint"] false (StringValue "") ["SWAPD_ETH_ENDPOINT"];
   mkFlag flagEthPrivKey ["ethereum-privkey"] false (StringValue ("{DATA-DIR}/" +:+ DefaultEthKeyFileName)) ["SWAPD_ETH_PRIVKEY"];
   plainFlag flagContractAddress (StringValue "");
   mkFlag flagBootnodes ["bn"] false (StringSliceValue []) ["SWAPD_BOOTNODES"];
   plainFlag flagGasPrice (UintValue 0);
   plainFlag flagGasLimit (UintValue 0);
   plainFlag flagDevXMRTaker (BoolValue false);
   plainFlag flagDevXMRMaker (BoolValue false);
   plainFlag flagDeploy (BoolValue false);
   plainFlag flagNoTransferBack (BoolValue false);
   mkFlag FlagLogLevel [] false (StringValue "info") ["SWAPD_LOG_LEVEL"];
   plainFlag flagUseExternalSigner (BoolValue false);
   plainFlag flagRelayer (BoolValue false);
   plainFlag flagProfile (StringValue "")].

End SwapdApp.

Module BootnodeApp.
Import Config Flags CliUtil.

Definition bootnodeLibp2pPort : Z := 9909.
Definition bootnodeRPCPort : Z := 5000.

Definition bootnodeFlags : list Flag :=
  [plainFlag flagDataDir (StringValue "{HOME}/.atomicswap/bootnode");
   plainFlag flagLibp2pKey (StringValue ("{DATA_DIR}/" +:+ DefaultLibp2pKeyFileName));
   mkFlag flagLibp2pPort [] false (UintValue bootnodeLibp2pPort) ["SWAPD_LIBP2P_PORT"];
   mkFlag flagBootnodes ["bn"] false (StringSliceValue []) ["SWAPD_BOOTNODES"];
   mkFlag flagRPCPort [] false (UintValue bootnodeRPCPort) ["SWAPD_RPC_PORT"];
   plainFlag flagLibp2pIP (StringValue "0.0.0.0");
   mkFlag FlagLogLevel [] false (StringValue "info") ["SWAPD_LOG_LEVEL"]].

End BootnodeApp.

(** ** The actions read what is declared *)

(** Two contexts agree on a flag, read as a value of its type. *)
Definition sameFlag (c c' : cliContext) (f : Flag) : Prop :=
  cIsSet c (flName f) = cIsSet c' (flName f) ∧
  match flValue f with
  | StringValue _ => cString c (flName f) = cString c' (flName f)
  | UintValue _ => cUint c (flName f) = cUint c' (flName f)
  | BoolValue _ => cBool c (flName f) = cBool c' (flName f)
  | StringSliceValue _ => cStringSlice c (flName f) = cStringSlice c' (flName f)
  end.

Fixpoint sameFlags (fs : list Flag) (c c' : cliContext) : Prop :=
  match fs with
  | [] => cArgs c = cArgs c'
  | f :: rest => sameFlag c c' f ∧ sameFlags rest c c'
  end.

(** Only declared flags, each at its type, decide what the action does. *)
Definition readsDeclared {A} (fs : list Flag) (action : cliContext → A) : Prop :=
  ∀ c c', sameFlags fs c c' → action c = action c'.

Ltac same_flags :=
  intros c c' Hs;
  cbv beta iota delta [SwapdApp.swapdFlags BootnodeApp.bootnodeFlags sameFlags sameFlag flName flValue cmFlags plainFlag requiredFlag SwapcliApp.swapdPortFlag SwapcliApp.searchTimeFlag
    SwapcliApp.providesFlag SwapcliApp.detachedFlag] in Hs;
  destruct_and? Hs.

Ltac rewrite_flags :=
  repeat match goal with
         | E : _ = _ |- _ => progress rewrite E; clear E
         | E : _ = _ |- _ => clear E
         end.

Module CliAppProofs.
Import Swapcli SwapcliApp CliUtil.

Section swapcli.
Context `{Apd} `{TL : TypesLib} `{CL : CryptoLib} `{!Base58Lib} `{SL : SigLib} `{!TextLib} `{!ClientJson} `{!CliLib}
  `{!Answers clientCall}.
Context (fuel : nat).

Ltac reads_declared :=
  same_flags; cbn [cmAction];
  cbv delta [runPairs runBalances runDiscover runQuery runQueryAll runMake runTake runGetOngoingSwap runGetPastSwap
    runCancel runClearOffers runGetStatus runSetSwapTimeout runTransferXMR runSweepXMR runTransferETH runSweepETH
    runGetContractSwapInfo runGetSwapSecret runClaim runRefund peerFlag hashFlag optionalHash xmrReceiver
    ReadUnsignedDecimalFlag ReadPositiveUnsignedDecimalFlag ReadETHAddress] beta;
  rewrite_flags; reflexivity.

(** Every command of swapcli reads only flags it declares, with their types. *)
Lemma swapcli_reads_declared :
  Forall (fun cm => readsDeclared (cmFlags cm) (cmAction cm)) (commands fuel ++ recoveryCommands).
Proof.
  unfold commands, recoveryCommands. cbn [app].
  cbv delta [cmdAddresses cmdPeers cmdPairs cmdBalances cmdETHAddress cmdXMRAddress cmdDiscover cmdQuery cmdQueryAll cmdMake cmdTake cmdOngoing cmdPast cmdCancel cmdClearOffers
    cmdGetOffers cmdGetStatus cmdSetSwapTimeout cmdPriceFeed cmdGetSwapTimeout cmdTransferXMR cmdSweepXMR cmdTransferETH cmdSweepETH cmdVersion cmdShutdown cmdGetContractSwapInfo cmdGetSwapSecret cmdClaim cmdRefund].
  repeat (apply Forall_cons; split; [try done|]); [..|by constructor].
  all: reads_declared.
Qed.

(** Every command can reach the daemon: [newClient] reads the port. *)
Lemma swapcli_port_declared :
  Forall (fun cm => swapdPortFlag ∈ cmFlags cm) (commands fuel ++ recoveryCommands).
Proof. repeat (apply Forall_cons; split; [cbn; set_solver|]). by constructor. Qed.

(** A command is found under its name; the names and the flags of a command differ. *)
Lemma swapcli_names : NoDup (cmName <$> commands fuel) ∧ NoDup (cmName <$> recoveryCommands) ∧
  Forall (fun cm => findCommand (commands fuel) (cmName cm) = Some cm) (commands fuel) ∧
  Forall (fun cm => NoDup (concat ((fun f => flName f :: flAliases f) <$> cmFlags cm))) (commands fuel ++ recoveryCommands).
Proof.
  split_and!.
  - apply (bool_decide_unpack (NoDup _)). vm_compute. exact I.
  - apply (bool_decide_unpack (NoDup _)). vm_compute. exact I.
  - repeat (apply Forall_cons; split; [reflexivity|]). by constructor.
  - repeat (apply Forall_cons; split; [apply (bool_decide_unpack (NoDup _)); vm_compute; exact I|]). by constructor.
Qed.

(** Two commands have the alias "p": the pairs are never listed by it. *)
Example alias_p_lists_peers :
  HasName "p" (A := prog (caller clientCall cliFields) (result unit)) cmdPairs = true ∧
  findCommand (commands fuel) "p" = Some cmdPeers.
Proof. split; reflexivity. Qed.

(** A missing required flag stops the command before it does anything. *)
Lemma required_flag_missing {A} (cm : Command A) g args f : f ∈ cmFlags cm → flRequired f = true → g (flName f) = None →
  ∃ e, runCommand cm g args = Err e.
Proof.
  intros Hf Hr Hg. unfold runCommand. destruct (missingRequired (cmFlags cm) g) as [|f' r] eqn:E; [|by eexists].
  assert (f ∈ missingRequired (cmFlags cm) g) as Hin by (apply list_elem_of_filter; by split).
  rewrite E in Hin. by apply not_elem_of_nil in Hin.
Qed.

End swapcli.

Section daemons.
Context `{SL : SigLib} `{!TextLib} `{TypesLib} `{!Answers (@bootCall SL)} {S : Type}.
Context (homeDir makerTempDir takerTempDir : string) (expectedCode : bytes).

Lemma swapd_reads_declared :
  readsDeclared SwapdApp.swapdFlags (Swapd.runDaemon (S := S) homeDir makerTempDir takerTempDir expectedCode).
Proof.
  same_flags.
  cbv delta [Swapd.runDaemon Swapd.maybeStartProfiler Swapd.envOfFlags Swapd.dataDirOfFlags Swapd.contractOfFlags
    Swapd.getEnvConfig Swapd.nodeOfFlags Swapd.createMoneroClient Swapd.keyOfFlags Swapd.createEthClient
    Swapd.validateOrDeployContracts Swapd.portOfFlags Swapd.createSwapdConf Swapd.runWithWallet
    SetLogLevelsFromContext] beta.
  rewrite_flags. reflexivity.
Qed.

Lemma bootnode_reads_declared : readsDeclared BootnodeApp.bootnodeFlags (Bootnode.runBootnode (S := S) homeDir).
Proof.
  same_flags. cbv delta [Bootnode.runBootnode Bootnode.getBootnodeConfig SetLogLevelsFromContext] beta.
  rewrite_flags. reflexivity.
Qed.

(** Without flags swapd runs on mainnet, and the deprecated names of flags still set them. *)
Example swapd_defaults :
  Swapd.envOfFlags (contextOf SwapdApp.swapdFlags (fun _ => None) []) false false = Ok Mainnet ∧
  cString (contextOf SwapdApp.swapdFlags (fun n => if bool_decide (n = "eth-endpoint") then Some (StringValue "e") else None) [])
    "ethereum-endpoint" = "e"%string.
Proof. split; vm_compute; reflexivity. Qed.

End daemons.
End CliAppProofs.
