(* ===== verification/Wsxmr.v ===== *)
(** * The wsXMR tools (packages cmd/wsxmr-daemon and cmd/deploy-wsxmr, ethereum/deploy_wsxmr.go)

    The daemon of the mint and burn protocol reports the events of the vault manager; the
    deployment makes the token and its vault manager.  The Ethereum node and the bindings of
    the contracts are [vaultCall]s. *)

From stdpp Require Import base gmap list strings.
From Stdlib Require Import ZArith Strings.Byte.
From S2P Require Import Prelude Calls Types Bytes Contracts External Relayer Daemon.

Open Scope Z_scope.
Open Scope go_scope.

(** The events of the vault manager the daemon reports. *)
Inductive vaultEventKind : Type :=
| MintInitiated | MintReady | MintFinalized | BurnInitiated | BurnFinalized | VaultLiquidated.

#[global] Instance vaultEventKind_eq_dec : EqDecision vaultEventKind.
Proof. solve_decision. Defined.

(** An event: its block, its place in it, and its arguments. *)
Record vaultEvent : Type := mkVaultEvent {
  veKind : vaultEventKind;
  veBlock : Z;
  veIndex : Z;
  veData : bytes
}.

#[global] Instance vaultEvent_eq_dec : EqDecision vaultEvent.
Proof. solve_decision. Defined.

(** The numbers the daemon prints when it starts. *)
Inductive vaultConstant : Type := CollateralRatio | LiquidationRatio | LiquidationBonus.

Inductive vaultCall `{SigLib} : Type → Type :=
| VDial (endpoint : string) : vaultCall (option error)
| VClose : vaultCall unit
| VBlockNumber : vaultCall (result Z)
| VBind (a : Address) : vaultCall (option error)
| VConstant (c : vaultConstant) : vaultCall (result Z)
(* the events of a kind in a range of blocks, both ends included *)
| VFilter (k : vaultEventKind) (start end_ : Z) : vaultCall (result (list vaultEvent))
| VReport (e : vaultEvent) : vaultCall unit
(* a tick, or else a signal *)
| VSelect : vaultCall bool
(* deployment *)
| VBalanceAt (a : Address) : vaultCall (result Z)
| VChainID : vaultCall (result Z)
| VTransactor (key : EthKey) (chainID : Z) : vaultCall (result unit)
| VDeployToken (owner : Address) : vaultCall (result (Address * Hash))
| VDeployManager (token xmrOracle ethOracle owner : Address) : vaultCall (result (Address * Hash))
| VSetVaultManager (token manager : Address) : vaultCall (result Hash)
| VAwaitReceipt (h : Hash) : vaultCall (result unit).

Module Wsxmr.
Section wsxmr.
Context `{SL : SigLib} `{!TextLib} `{TypesLib} `{!Answers (@vaultCall SL)} {S : Type}.
Abbreviation vlt A := (prog (caller (@vaultCall SL) S) A).

(** ** cmd/wsxmr-daemon *)

Definition kinds : list vaultEventKind :=
  [MintInitiated; MintReady; MintFinalized; BurnInitiated; BurnFinalized; VaultLiquidated].

Fixpoint reportAll (events : list vaultEvent) : vlt unit :=
  match events with
  | [] => done tt
  | e :: rest => perform (VReport e) ;;; reportAll rest
  end.

Fixpoint monitorKinds (ks : list vaultEventKind) (start end_ : Z) : vlt (result unit) :=
  match ks with
  | [] => done (Ok tt)
  | k :: rest =>
      events <-? mapErr (Wrapf "failed to filter") (perform (VFilter k start end_)) ;;
      reportAll events ;;;
      monitorKinds rest start end_
  end.

Definition monitorEvents (fromBlock : Z) : vlt (result unit) :=
  currentBlock <-? mapErr (Wrapf "failed to get current block") (perform VBlockNumber) ;;
  if currentBlock <=? fromBlock then done (Ok tt)
  else monitorKinds kinds (fromBlock + 1) currentBlock.

(** One tick: an error of [monitorEvents] is logged, and the head of the chain is asked for
    again. *)
Definition tick (lastBlock : Z) : vlt Z :=
  _ <- monitorEvents lastBlock ;;
  currentBlock <- perform VBlockNumber ;;
  done (match currentBlock with
        | Err _ => lastBlock
        | Ok b => if lastBlock <? b then b else lastBlock
        end).

(** The loop, at most [fuel] ticks. *)
Fixpoint monitorLoop (fuel : nat) (lastBlock : Z) : vlt unit :=
  match fuel with
  | O => nofuel
  | Datatypes.S fuel' =>
      ticked <- perform VSelect ;;
      if ticked : bool then
        lastBlock' <- tick lastBlock ;;
        monitorLoop fuel' lastBlock'
      else done tt
  end.

(** The errors of the constants are ignored, and a number that was not read is a nil
    pointer. *)
Definition readConstant (c : vaultConstant) : vlt Z :=
  r <- perform (VConstant c) ;;
  match r with Ok z => done z | Err _ => panic "nil pointer dereference" end.

(** [main]: a failure ends the process. *)
Definition main (fuel : nat) (rpcURL : string) (vaultMgrAddr wsxmrAddr : Address) : vlt (result unit) :=
  _ <-? checked (perform (VDial rpcURL)) ;;
  deferring (perform VClose)
    (_ <-? checked (perform (VBind vaultMgrAddr)) ;;
     _ <-? checked (perform (VBind wsxmrAddr)) ;;
     readConstant CollateralRatio ;;;
     readConstant LiquidationRatio ;;;
     readConstant LiquidationBonus ;;;
     currentBlock <-? perform VBlockNumber ;;
     monitorLoop fuel currentBlock ;;;
     done (Ok tt)).

(** ** ethereum/deploy_wsxmr.go *)

Definition DeployWsXMRProtocol (privKey : EthKey) (xmrUsdOracle ethUsdOracle deployer : Address)
    : vlt (result (Address * Address)) :=
  chainID <-? perform VChainID ;;
  _ <-? mapErr (Wrapf "failed to make transactor") (perform (VTransactor privKey chainID)) ;;
  token <-? mapErr (Wrapf "failed to deploy wsXMR token") (perform (VDeployToken deployer)) ;;
  _ <-? perform (VAwaitReceipt token.2) ;;
  manager <-? mapErr (Wrapf "failed to deploy VaultManager")
                (perform (VDeployManager token.1 xmrUsdOracle ethUsdOracle deployer)) ;;
  _ <-? perform (VAwaitReceipt manager.2) ;;
  _ <-? mapErr (Wrapf "failed to instantiate wsXMR token") (checked (perform (VBind token.1))) ;;
  tx <-? mapErr (Wrapf "failed to set vault manager") (perform (VSetVaultManager token.1 manager.1)) ;;
  _ <-? perform (VAwaitReceipt tx) ;;
  done (Ok (token.1, manager.1)).

Definition DeployWsXMRWithKey (privKey : EthKey) (xmrUsdOracle ethUsdOracle : Address) : vlt (result (Address * Address)) :=
  addrs <-? DeployWsXMRProtocol privKey xmrUsdOracle ethUsdOracle (pubkeyToAddress (publicKey privKey)) ;;
  _ <-? mapErr (Wrapf "failed to instantiate VaultManager") (checked (perform (VBind addrs.2))) ;;
  done (Ok addrs).

(** ** cmd/deploy-wsxmr *)

Definition deployProtocol (privKey : EthKey) (xmrOracle ethOracle : Address) : vlt (result (Address * Address)) :=
  mapErr (Wrapf "failed to deploy")
    (DeployWsXMRProtocol privKey xmrOracle ethOracle (pubkeyToAddress (publicKey privKey))).

(** The oracles are not checked to be addresses. *)
Definition deployMain (rpcURL privKeyHex xmrOracleStr ethOracleStr : string) : vlt (result (Address * Address)) :=
  if bool_decide (privKeyHex = "") then done (Err (errorf "--key is required"))
  else if bool_decide (xmrOracleStr = "") then done (Err (errorf "--xmr-oracle is required"))
  else if bool_decide (ethOracleStr = "") then done (Err (errorf "--eth-oracle is required"))
  else
    privKey <-? done (HexToECDSA privKeyHex) ;;
    _ <-? checked (perform (VDial rpcURL)) ;;
    deferring (perform VClose)
      (_ <-? perform (VBalanceAt (pubkeyToAddress (publicKey privKey))) ;;
       deployProtocol privKey (hexToAddress xmrOracleStr) (hexToAddress ethOracleStr)).

End wsxmr.
End Wsxmr.

(** ** Reporting *)

Module WsxmrProofs.
Import Wsxmr.
Section reports.
Context `{SL : SigLib} `{!TextLib} `{TL : TypesLib} `{!Answers (@vaultCall SL)} {S : Type}.
Implicit Types s : caller (@vaultCall SL) S.
Abbreviation vlt A := (prog (caller (@vaultCall SL) S) A).

(** What was reported, the latest first. *)
Definition reportOf (e : event (@vaultCall SL)) : option vaultEvent :=
  match e with
  | Ev c _ => match c with VReport v => Some v | _ => None end
  end.

Definition reported s : list vaultEvent := omap reportOf (log s).

(** The node knows a chain of different events; it gives those of a range or an error, and
    its head, which never goes back. *)
Class VaultNode (chain : list vaultEvent) (head : nat → Z) := {
  chain_nodup : NoDup chain;
  head_mono i j : (i ≤ j)%nat → head i ≤ head j;
  node_head i : respond _ i VBlockNumber = Ok (head i);
  node_events i k a b es : respond _ i (VFilter k a b) = Ok es →
    es = filter (fun e => veKind e = k ∧ a ≤ veBlock e ≤ b) chain
}.
Context (chain : list vaultEvent) (head : nat → Z) `{!VaultNode chain head}.

(** Everything that was reported is different and lies in blocks up to [last], which is not
    past the head. *)
Record upTo (last : Z) s : Prop := mkUpTo {
  upTo_nodup : NoDup (reported s);
  upTo_block e : e ∈ reported s → veBlock e ≤ last
}.

Lemma reportAll_run es s : ∃ s', reportAll es s = (Done tt, s') ∧ reported s' = reverse es ++ reported s ∧
  (ticks s ≤ ticks s')%nat.
Proof.
  revert s. induction es as [|e es IH]; intros s; cbn [reportAll]; [by exists s|].
  destruct (IH (perform (VReport e) s).2) as (s' & E & R & T). exists s'. split; [exact E|].
  rewrite R, reverse_cons, <- (assoc_L (++)). split; [done|]. cbn in T. lia.
Qed.

(** While the range from [a] to [b] is reported: what comes is of the kinds that are done. *)
Record within (a b : Z) (ks : list vaultEventKind) s s' : Prop := mkWithin {
  wi_new : ∃ new, reported s' = new ++ reported s ∧ NoDup new ∧
    ∀ e, e ∈ new → e ∈ chain ∧ veKind e ∈ ks ∧ a ≤ veBlock e ≤ b;
  wi_ticks : (ticks s ≤ ticks s')%nat
}.

Lemma monitorKinds_run ks a b s : NoDup ks → ∃ r s', monitorKinds ks a b s = (Done r, s') ∧ within a b ks s s' ∧
  (r = Ok tt → ∀ e, e ∈ chain → veKind e ∈ ks → a ≤ veBlock e ≤ b → e ∈ reported s').
Proof.
  intros Hnd. revert s. induction Hnd as [|k ks Hk Hnd IH]; intros s; cbn [monitorKinds].
  { exists (Ok tt), s. split; [done|]. split; [split; [|done]; exists []; split_and!; [done | constructor|]; by intros e ?%not_elem_of_nil|].
    by intros _ e _ ?%not_elem_of_nil. }
  unfold tryBind, mapErr. cbn -[reported monitorKinds]. unfold pbind, perform, done at 1.
  destruct (respond _ (ticks s) (VFilter k a b)) as [es|e] eqn:Er.
  2: { eexists _, _. split; [done|]. split; [split; [|cbn; lia]; exists []; split_and!; [done | constructor|];
         by intros ? ?%not_elem_of_nil | done]. }
  apply node_events in Er. set (s0 := mkCaller _ _ _).
  destruct (reportAll_run es s0) as (s1 & E1 & R1 & T1). rewrite E1.
  destruct (IH s1) as (r & s2 & E2 & [(new & R2 & N2 & I2) T2] & C2). exists r, s2. split; [exact E2|].
  change (reported s0) with (reported s) in R1. cbn in T1. split; [split; [|lia]|].
  - exists (new ++ reverse es). split; [by rewrite R2, R1, (assoc_L (++))|]. split.
    + apply NoDup_app. split_and!; [done | | rewrite reverse_Permutation, Er; apply NoDup_filter, chain_nodup].
      intros e He. destruct (I2 e He) as (_ & Hek & _). rewrite elem_of_reverse, Er, list_elem_of_filter.
      intros [[Hke _] _]. apply Hk. by rewrite <- Hke.
    + intros e [He|He]%elem_of_app.
      * destruct (I2 e He) as (? & ? & ?). split_and!; [done | by right | lia | lia].
      * rewrite elem_of_reverse, Er, list_elem_of_filter in He. destruct He as [[Hke Hb] Hc].
        split_and!; [done | rewrite Hke; by left | lia | lia].
  - intros -> e Hc [Hke|Hin]%elem_of_cons Hb; [|by apply C2]. rewrite R2, R1. apply elem_of_app. right.
    apply elem_of_app. left. rewrite elem_of_reverse, Er. by apply list_elem_of_filter.
Qed.

Lemma kinds_nodup : NoDup kinds.
Proof. apply (bool_decide_unpack _). reflexivity. Qed.

Lemma kinds_all k : k ∈ kinds.
Proof. destruct k; apply (bool_decide_unpack _); reflexivity. Qed.

(** A tick returns; it reports only events of blocks that were not reached before, each
    once, and when nothing fails and no block is added meanwhile, all of them. *)
Lemma tick_run last s : upTo last s → ∃ last' s', tick last s = (Done last', s') ∧ last ≤ last' ∧ upTo last' s' ∧
  ∃ r s1, monitorEvents last s = (Done r, s1) ∧
    (r = Ok tt → head (ticks s) = head (ticks s1) → ∀ e, e ∈ chain → last < veBlock e ≤ last' → e ∈ reported s').
Proof.
  intros [Hnd Hle]. unfold tick.
  assert (Hm : ∃ r s1, monitorEvents last s = (Done r, s1) ∧ within (last + 1) (head (ticks s)) kinds s s1 ∧
    (r = Ok tt → ∀ e, e ∈ chain → last < veBlock e ≤ head (ticks s) → e ∈ reported s1)).
  { unfold monitorEvents, tryBind, mapErr, pbind, perform, done. cbn -[monitorKinds reported]. rewrite node_head.
    destruct (Z.leb_spec (head (ticks s)) last) as [Hl|Hl].
    - eexists _, _. split; [done|]. split; [split; [|cbn; lia]; exists []; split_and!; [done | constructor|];
        by intros ? ?%not_elem_of_nil|]. intros _ e _ He. lia.
    - match goal with |- context [monitorKinds _ _ _ ?s0] => destruct (monitorKinds_run kinds (last + 1) (head (ticks s)) s0 kinds_nodup)
        as (r & s1 & E & [(new & R & N & I) T] & C) end.
      exists r, s1. split; [exact E|]. split; [split; [by exists new | cbn in T; lia]|].
      intros Hr e Hc Hb. apply C; [done | done | apply kinds_all | lia]. }
  destruct Hm as (r & s1 & E1 & [(new & R & N & I) T] & C). rewrite (pbind_Done _ _ _ _ _ E1).
  unfold pbind, perform, done. rewrite node_head. eexists _, _. split; [done|].
  pose proof (head_mono (ticks s) (ticks s1) T) as Hh. set (last' := if _ <? _ then _ else _).
  assert (Hl : last ≤ last' ∧ head (ticks s) ≤ Z.max last last' ∧ last' = Z.max last (head (ticks s1)))
    by (subst last'; destruct (Z.ltb_spec last (head (ticks s1))); lia).
  split; [lia|]. split.
  - split; unfold reported in *; cbn; rewrite R.
    + apply NoDup_app. split_and!; [done | | done]. intros e He Hs. destruct (I e He) as (_ & _ & ?). specialize (Hle e Hs). lia.
    + intros e [He|He]%elem_of_app; [destruct (I e He) as (_ & _ & ?); lia | specialize (Hle e He); lia].
  - exists r, s1. split; [done|]. intros Hr Heq e Hc Hb. apply (C Hr e Hc). lia.
Qed.

(** Over any number of ticks no event of the vault manager is reported twice, and the loop
    itself never waits or panics, when the node always knows its head. *)
Theorem monitor_reports_at_most_once (fuel : nat) (last : Z) s : upTo last s →
  NoDup (reported (monitorLoop fuel last s).2).
Proof.
  revert last s. induction fuel as [|fuel IH]; intros last s U; cbn [monitorLoop]; [apply U|].
  unfold pbind at 1, perform. destruct (respond _ (ticks s) VSelect); [|apply U].
  set (s0 := mkCaller _ _ _). assert (U0 : upTo last s0) by (destruct U; by split).
  destruct (tick_run last s0 U0) as (last' & s1 & E & _ & U1 & _). rewrite (pbind_Done _ _ _ _ _ E). by apply IH.
Qed.

(** ** Deployment *)

(** The steps of a deployment that succeeds, the first one first. *)
Theorem deployed_protocol_is_linked (k : EthKey) (xo eo owner w v : Address) s s' :
  DeployWsXMRProtocol k xo eo owner s = (Done (Ok (w, v)), s') →
  ∃ cid h1 h2 h3, since s s' (reverse
    [Ev VChainID (Ok cid); Ev (VTransactor k cid) (Ok tt); Ev (VDeployToken owner) (Ok (w, h1));
     Ev (VAwaitReceipt h1) (Ok tt); Ev (VDeployManager w xo eo owner) (Ok (v, h2)); Ev (VAwaitReceipt h2) (Ok tt);
     Ev (VBind w) None; Ev (VSetVaultManager w v) (Ok h3); Ev (VAwaitReceipt h3) (Ok tt)]).
Proof.
  unfold DeployWsXMRProtocol, since. intros E.
  apply pbind_inv_Done in E as ([cid|] & s1 & E1 & E); [|done].
  apply pbind_inv_Done in E as ([[]|] & s2 & E2 & E); [|done]. apply mapErr_Ok_run in E2.
  apply pbind_inv_Done in E as ([[w' h1]|] & s3 & E3 & E); [|done]. apply mapErr_Ok_run in E3.
  apply pbind_inv_Done in E as ([[]|] & s4 & E4 & E); [|done].
  apply pbind_inv_Done in E as ([[v' h2]|] & s5 & E5 & E); [|done]. apply mapErr_Ok_run in E5.
  apply pbind_inv_Done in E as ([[]|] & s6 & E6 & E); [|done].
  apply pbind_inv_Done in E as ([[]|] & s7 & E7 & E); [|done]. apply mapErr_Ok_run in E7.
  unfold checked in E7. apply pbind_inv_Done in E7 as ([|] & s7' & E7 & E7'); [done|]. injection E7' as <-.
  apply pbind_inv_Done in E as ([h3|] & s8 & E8 & E); [|done]. apply mapErr_Ok_run in E8.
  apply pbind_inv_Done in E as ([[]|] & s9 & E9 & E); [|done]. injection E as <- <- <-.
  apply perform_inv in E1 as (_ & L1 & _), E2 as (_ & L2 & _), E3 as (_ & L3 & _), E4 as (_ & L4 & _), E5 as (_ & L5 & _),
    E6 as (_ & L6 & _), E7 as (_ & L7 & _), E8 as (_ & L8 & _), E9 as (_ & L9 & _). unfold since in *. cbn in *.
  exists cid, h1, h2, h3. by rewrite L9, L8, L7, L6, L5, L4, L3, L2, L1.
Qed.

End reports.
End WsxmrProofs.
