(* ===== verification/WsxmrWitness.v ===== *)
(** * The wsXMR tools at concrete runs *)

From stdpp Require Import base gmap list strings.
From Stdlib Require Import ZArith Strings.Byte.
From S2P Require Import Prelude Calls Types TypesProofs Bytes Contracts External Relayer RelayWitness Daemon DaemonWitness Wsxmr.

Open Scope Z_scope.
Open Scope go_scope.

Module WsxmrWitness.
Import RelayWitness Wsxmr WsxmrProofs.

Definition minted : vaultEvent := mkVaultEvent MintInitiated 11 0 [x01].
Definition burned : vaultEvent := mkVaultEvent BurnInitiated 12 0 [x02].
Definition chain0 : list vaultEvent := [minted; burned].

(** A node with these events whose head, errors of its filters and errors of its head are
    functions of the number of the call; it ticks until call [stop]. *)
Definition node (head : nat → Z) (filterFails headFails : nat → bool) (stop : nat) : Answers (@vaultCall refSig) :=
  fun A i c =>
  match c in vaultCall B return B with
  | VDial _ | VBind _ => None
  | VClose | VReport _ => tt
  | VBlockNumber => if headFails i then Err (errorf "timeout") else Ok (head i)
  | VConstant _ => Ok 150
  | VFilter k a b => if filterFails i then Err (errorf "timeout")
                     else Ok (filter (fun e => veKind e = k ∧ a ≤ veBlock e ≤ b) chain0)
  | VSelect => (i <? stop)%nat
  | VBalanceAt _ => Ok (10 ^ 18)
  | VChainID => Ok 1
  | VTransactor _ _ => Ok tt
  | VDeployToken _ => Ok (repeat x57 20, repeat x01 32)
  | VDeployManager _ _ _ _ => Ok (repeat x58 20, repeat x02 32)
  | VSetVaultManager _ _ => Ok (repeat x03 32)
  | VAwaitReceipt _ => Ok tt
  end.

Definition never (i : nat) : bool := false.
Definition watch0 : caller (@vaultCall refSig) unit := mkCaller tt 0 [].

(** The head goes from 10 to 12 before the second tick. *)
Definition steady (i : nat) : Z := if (i <? 4)%nat then 10 else 12.

#[local] Instance steadyNode : VaultNode (Answers0 := node steady never never 20) chain0 steady.
Proof.
  split.
  - apply (bool_decide_unpack _). reflexivity.
  - intros i j Hij. unfold steady. destruct (Nat.ltb_spec i 4), (Nat.ltb_spec j 4); lia.
  - done.
  - intros i k a b es. cbn. by intros [= <-].
Qed.

Lemma watch0_upTo last : upTo last watch0.
Proof. split; [constructor|]. by intros e ?%not_elem_of_nil. Qed.

Lemma monitor_reports_at_most_once_witness :
  NoDup (reported (monitorLoop (Answers0 := node steady never never 20) 9 10 watch0).2).
Proof.
  apply (monitor_reports_at_most_once (Answers0 := node steady never never 20) chain0 steady 9 10 watch0 (watch0_upTo 10)).
Defined.

Example steady_reports_both :
  reported (monitorLoop (Answers0 := node steady never never 20) 9 10 watch0).2 = [burned; minted].
Proof. vm_compute. reflexivity. Qed.

(** The head moves from 10 to 12 between the two calls of a tick: what the new blocks hold
    is never reported. *)
Example blocks_between_calls_are_missed :
  let run := monitorLoop (Answers0 := node (fun i => if (i <? 2)%nat then 10 else 12) never never 20) 9 10 watch0 in
  run.1 = Done tt ∧ reported run.2 = [].
Proof. vm_compute. done. Qed.

(** A filter fails at the tick that should report the events; the next ticks start behind
    them. *)
Example failed_filter_loses_events :
  let run := monitorLoop (Answers0 := node (fun _ => 12) (fun i => (i <? 3)%nat) never 20) 9 10 watch0 in
  run.1 = Done tt ∧ reported run.2 = [].
Proof. vm_compute. done. Qed.

(** The second call for the head fails: the events are reported again. *)
Example failed_head_repeats_events :
  reported (monitorLoop (Answers0 := node (fun _ => 12) never (fun i => (i =? 10)%nat) 20) 9 10 watch0).2
    = [burned; minted; burned; minted].
Proof. vm_compute. reflexivity. Qed.

Lemma deployed_protocol_is_linked_witness : ∃ cid h1 h2 h3, since watch0
  (DeployWsXMRProtocol (Answers0 := node steady never never 20) (repeat x21 20 : @EthKey refSig) (repeat x0a 20)
     (repeat x0b 20) (repeat x21 20) watch0).2 (reverse
    [Ev VChainID (Ok cid); Ev (VTransactor (repeat x21 20 : @EthKey refSig) cid) (Ok tt);
     Ev (VDeployToken (repeat x21 20)) (Ok (repeat x57 20, h1));
     Ev (VAwaitReceipt h1) (Ok tt);
     Ev (VDeployManager (repeat x57 20) (repeat x0a 20) (repeat x0b 20) (repeat x21 20)) (Ok (repeat x58 20, h2));
     Ev (VAwaitReceipt h2) (Ok tt); Ev (VBind (repeat x57 20)) None;
     Ev (VSetVaultManager (repeat x57 20) (repeat x58 20)) (Ok h3); Ev (VAwaitReceipt h3) (Ok tt)]).
Proof.
  apply (deployed_protocol_is_linked (Answers0 := node steady never never 20) (repeat x21 20 : @EthKey refSig)
    (repeat x0a 20) (repeat x0b 20) (repeat x21 20) (repeat x57 20) (repeat x58 20) watch0). reflexivity.
Defined.

End WsxmrWitness.
