(* ===== verification/MakerProofs.v ===== *)
(** * Theorems about the XMR maker's swap *)

From stdpp Require Import base gmap list strings.
From Stdlib Require Import ZArith Strings.Byte.
From S2P Require Import Prelude Coins Types Swap Offers Bytes Crypto Contracts External Maker TraceLogic.

Open Scope Z_scope.
Open Scope go_scope.

Module MakerProofs.
Import Maker.

(** ** What matters on the trace *)

Section observations.
Context `{TypesLib} `{CryptoLib}.

(** The maker sends XMR. *)
Definition isSend (o : obs) : bool :=
  match o with Obs (XMRTransfer _ _ _) _ => true | _ => false end.

(** The maker hands out the secret that unlocks its half of the XMR. *)
Definition isReveal (o : obs) : bool :=
  match o with
  | Obs (SenderClaim _ _) _ | Obs (SubmitClaimToRelayer _ _ _ _) _ => true
  | _ => false
  end.

(** The status XMRLocked was written to the database. *)
Definition isLockRecord (o : obs) : bool :=
  match o with Obs (PutSwap i) (Ok _) => bool_decide (iStatus i = XMRLocked) | _ => false end.

(** The status XMRLocked could not be written to the database. *)
Definition isLockUnrecorded (o : obs) : bool :=
  match o with Obs (PutSwap i) (Err _) => bool_decide (iStatus i = XMRLocked) | _ => false end.

Definition inert (o : obs) : bool := negb (isSend o || isReveal o).

Lemma isDbObs_inert o : isDbObs o = true → inert o = true.
Proof. destruct o as [A c a]. by destruct c. Qed.

End observations.

(** ** The protocol the maker follows, abstractly

    [protocol ph new ph'] accepts the observations [new], the latest first.
    XMR is sent once, from the phase [Recorded] that a successful writing of
    XMRLocked enters.  The secret is only handed out once the XMR was sent
    ([Holding]), or after XMRLocked could not be written, when no XMR is sent any
    more ([Unrecorded]).  A swap that is over does neither. *)

Inductive Phase : Type := Waiting | Recorded | Unrecorded | Holding | Over.

Inductive protocol `{TypesLib} `{CryptoLib} : Phase → list obs → Phase → Prop :=
| p_nil ph : protocol ph [] ph
| p_inert ph new ph' o : protocol ph new ph' → inert o = true → protocol ph (o :: new) ph'
| p_record ph new o : protocol ph new Waiting → isLockRecord o = true → protocol ph (o :: new) Recorded
| p_unrecorded ph new o : protocol ph new Waiting → isLockUnrecorded o = true → protocol ph (o :: new) Unrecorded
| p_send ph new o : protocol ph new Recorded → isSend o = true → protocol ph (o :: new) Holding
| p_reveal ph new ph' o : protocol ph new ph' → ph' = Holding ∨ ph' = Unrecorded →
    isReveal o = true → protocol ph (o :: new) ph'
| p_end ph new ph' : protocol ph new ph' → protocol ph new Over.

(** The phases a swap can be in, by the event it expects. *)
Definition phaseOf (e : EventType) (ph : Phase) : Prop :=
  match e with
  | EventETHLockedType => ph = Waiting
  | EventContractReadyType => ph = Holding ∨ ph = Unrecorded
  | _ => ph = Over
  end.

(** Every [p] of a trace comes after some [q] (the latest observation is the first). *)
Definition preceded {A} (q p : A → bool) (l : list A) : Prop :=
  ∀ post o pre, l = post ++ o :: pre → p o = true → existsb q pre = true.

Lemma preceded_cons {A} (q p : A → bool) o l :
  preceded q p l → (p o = true → existsb q l = true) → preceded q p (o :: l).
Proof.
  intros Hl Ho [|o' post] o'' pre Heq Hp; simplify_list_eq; [auto | eauto].
Qed.

Lemma preceded_nil {A} (q p : A → bool) : preceded q p [].
Proof. intros [|? ?] o pre; discriminate. Qed.

Section protocol_facts.
Context `{TypesLib} `{CryptoLib}.

Lemma protocol_app ph new ph' new' ph'' :
  protocol ph new ph' → protocol ph' new' ph'' → protocol ph (new' ++ new) ph''.
Proof. intros H1 H2. induction H2; simpl; eauto using protocol. Qed.

Lemma protocol_inert ph new : forallb inert new = true → protocol ph new ph.
Proof.
  induction new as [|o new IH]; simpl; intros Hn; [constructor |].
  apply andb_true_iff in Hn as [Ho Hn]. constructor; auto.
Qed.

Lemma protocol_over new ph : protocol Over new ph → ph = Over ∧ forallb inert new = true.
Proof.
  intros Hp. remember Over as ph0 eqn:E.
  induction Hp; subst; simpl; auto; destruct IHHp as [? Hn]; auto; subst; try discriminate.
  - rewrite H1, Hn. auto.
  - destruct H1; discriminate.
Qed.

Lemma inert_classes o :
  inert o = true → isSend o = false ∧ isReveal o = false.
Proof. unfold inert. by destruct (isSend o), (isReveal o). Qed.

Lemma send_classes o : isSend o = true → isReveal o = false.
Proof. destruct o as [A c a]. by destruct c. Qed.

Lemma record_inert o : isLockRecord o = true ∨ isLockUnrecorded o = true → inert o = true.
Proof. intros Ho. destruct o as [A c a]. destruct c; simpl in Ho; auto; by destruct Ho. Qed.

(** The secret is handed out after the XMR was sent. *)
Definition revealsAfterSend (new : list obs) : Prop := preceded isSend isReveal new.

(** No XMR is sent, and the secret is handed out after XMRLocked could not be written. *)
Definition revealsUnsent (new : list obs) : Prop :=
  existsb isSend new = false ∧ preceded isLockUnrecorded isReveal new.

(** What the observations say of the phase they lead to, from [Waiting]. *)
Definition history (ph : Phase) (new : list obs) : Prop :=
  match ph with
  | Waiting => forallb inert new = true
  | Recorded => existsb isLockRecord new = true ∧ forallb inert new = true
  | Unrecorded => existsb isLockUnrecorded new = true ∧ revealsUnsent new
  | Holding => existsb isSend new = true ∧ revealsAfterSend new
  | Over => revealsAfterSend new ∨ revealsUnsent new
  end.

Lemma preceded_inert q p new :
  (∀ o, inert o = true → p o = false) → forallb inert new = true → preceded q p new.
Proof.
  intros Hp Hin post o pre -> Ho. rewrite forallb_app in Hin. apply andb_true_iff in Hin as [_ Hin].
  simpl in Hin. apply andb_true_iff in Hin as [Hi _]. apply Hp in Hi. congruence.
Qed.

Lemma inert_unsent new : forallb inert new = true → existsb isSend new = false.
Proof.
  induction new as [|o new IH]; simpl; [done |]. intros [Ho Hn]%andb_true_iff.
  apply inert_classes in Ho as [-> _]. auto.
Qed.

Lemma history_inert ph new o : history ph new → inert o = true → history ph (o :: new).
Proof.
  intros Hh Hi. pose proof (inert_classes _ Hi) as [Hs Hr].
  assert (∀ q, preceded q isReveal new → preceded q isReveal (o :: new)) as Hp
    by (intros q Hq; apply preceded_cons; [done | congruence]).
  destruct ph; unfold history, revealsUnsent, revealsAfterSend in *; simpl; rewrite ?Hi, ?Hs; simpl;
    intuition (rewrite ?orb_true_iff; auto).
Qed.

Lemma history_end ph new : history ph new → history Over new.
Proof.
  assert (forallb inert new = true → revealsAfterSend new) as Hi
    by (apply preceded_inert; intros o Ho; by apply inert_classes).
  destruct ph; simpl; tauto.
Qed.

Lemma history_reveal ph new o :
  history ph new → ph = Holding ∨ ph = Unrecorded → isReveal o = true → history ph (o :: new).
Proof.
  assert (isReveal o = true → isSend o = false) as Ho by (destruct o as [A c a]; by destruct c).
  intros Hh [-> | ->] Hr; simpl in *; unfold revealsAfterSend, revealsUnsent in *; simpl.
  - destruct Hh as [H1 H2]. split; [by rewrite H1, orb_true_r | by apply preceded_cons].
  - destruct Hh as (H1 & H2 & H3). rewrite H1, H2, Ho, orb_true_r by done.
    split; [done |]. split; [done | by apply preceded_cons].
Qed.

(** From [Waiting], every sending of XMR comes after a successful record. *)
Lemma protocol_waiting new ph :
  protocol Waiting new ph → history ph new ∧ preceded isLockRecord isSend new.
Proof.
  intros Hp. remember Waiting as ph0 eqn:E.
  induction Hp as [ph|ph new ph' o Hp IH Ho|ph new o Hp IH Ho|ph new o Hp IH Ho|ph new o Hp IH Ho
    |ph new ph' o Hp IH Hor Ho|ph new ph' Hp IH]; subst; [split; [done | apply preceded_nil] | ..];
    destruct (IH eq_refl) as [Hh Hs].
  - split; [by apply history_inert | apply preceded_cons; [done |]].
    apply inert_classes in Ho as [-> _]. discriminate.
  - pose proof (record_inert o (or_introl Ho)) as Hi. simpl in *. rewrite Ho, Hi, Hh.
    split; [done | apply preceded_cons; [done |]]. apply inert_classes in Hi as [-> _]. discriminate.
  - pose proof (record_inert o (or_intror Ho)) as Hi. pose proof (inert_classes _ Hi) as [Hx Hy].
    simpl in *. unfold revealsUnsent. simpl. rewrite Ho, Hx, (inert_unsent _ Hh).
    repeat split; auto; apply preceded_cons; auto; try congruence.
    apply preceded_inert; [intros o' Ho'; by apply inert_classes | done].
  - destruct Hh as [H1 H2]. split; [| by apply preceded_cons]. simpl. rewrite Ho.
    split; [done |]. apply preceded_cons; [| rewrite (send_classes _ Ho); discriminate].
    apply preceded_inert; [intros o' Ho'; by apply inert_classes | done].
  - split; [by apply history_reveal | apply preceded_cons; [done |]].
    intros Hx. apply send_classes in Hx. congruence.
  - split; [by eapply history_end | done].
Qed.

Definition sends (l : list obs) : nat := length (List.filter isSend l).

Lemma protocol_sends ph new ph' :
  protocol ph new ph' →
  (sends new ≤ match ph with Waiting | Recorded => 1 | _ => 0 end)%nat ∧
  (ph' = Waiting ∨ ph' = Recorded → sends new = 0%nat ∧ (ph = Waiting ∨ ph = Recorded)).
Proof.
  unfold sends.
  induction 1 as [ph|ph new ph' o Hp IH Ho|ph new o Hp IH Ho|ph new o Hp IH Ho|ph new o Hp IH Ho
    |ph new ph' o Hp IH Hor Ho|ph new ph' Hp IH]; simpl.
  - destruct ph; simpl; split; auto; lia.
  - apply inert_classes in Ho as [-> _]. exact IH.
  - pose proof (inert_classes _ (record_inert o (or_introl Ho))) as [-> _].
    destruct IH as [IH1 IH2]. split; [done |]. intros _. apply IH2. auto.
  - pose proof (inert_classes _ (record_inert o (or_intror Ho))) as [-> _].
    destruct IH as [IH1 IH2]. split; [done |]. intros [?|?]; discriminate.
  - rewrite Ho. simpl. destruct IH as [IH1 IH2]. destruct IH2 as [E [-> | ->]]; auto; rewrite E;
      (split; [lia |]); intros [?|?]; discriminate.
  - assert (isSend o = false) as -> by (destruct o as [A c a]; by destruct c). exact IH.
  - destruct IH as [IH1 IH2]. split; [done |]. intros [?|?]; discriminate.
Qed.

Lemma protocol_revealing ph new :
  ph = Holding ∨ ph = Unrecorded → forallb (fun o => negb (isSend o)) new = true → protocol ph new ph.
Proof.
  intros Hph. induction new as [|o new IH]; simpl; intros Hn; [constructor |].
  apply andb_true_iff in Hn as [Ho Hn].
  destruct (inert o) eqn:Hi; [by constructor; auto |].
  apply p_reveal; auto. unfold inert in Hi. apply negb_true_iff in Ho. rewrite Ho in Hi.
  by apply negb_false_iff in Hi.
Qed.

End protocol_facts.

#[export] Instance msHasSys `{TypesLib} `{CryptoLib} : HasSys MS := sys.

Create HintDb conforms.

Section simulation.
Context `{World} `{!InfoJson} `{Apd} `{AbiLib} (expectedSwapCreatorCode : bytes).

Definition next (s : MS) : EventType := nextExpectedEvent (sst s).

(** Runs that expect the same event all along and emit only [p]. *)
Definition steady (p : obs → bool) (s s' : MS) : Prop := next s' = next s ∧ emits p s s'.

#[export] Instance steady_preorder p : PreOrder (steady p).
Proof.
  split; unfold steady.
  - intros s. split; reflexivity.
  - intros a b c [E1 F1] [E2 F2]. split; [congruence | by etrans].
Qed.

Lemma keeps_steady_onSys p {A} (m : prog Sys A) : keeps (emits p) m → keeps (steady p) (onSys m).
Proof.
  intros Hm. apply keeps_zoom. intros s. split; [done |]. exact (Hm (sys s)).
Qed.

Lemma keeps_steady_modS p f :
  (∀ ss, nextExpectedEvent (f ss) = nextExpectedEvent ss) → keeps (steady p) (modS f).
Proof. intros Hf s. split; [apply Hf | by exists []]. Qed.

Lemma keeps_steady_getS p {A} (f : swapState → A) : keeps (steady p) (getS f).
Proof. unfold getS. apply keeps_gets; typeclasses eauto. Qed.

End simulation.

#[export] Hint Resolve emits_readInfo emits_updateInfo emits_Info_SetStatus emits_PushNewStatus
  emits_WriteSwapToDB emits_CompleteOngoingSwap emits_AddOffer emits_DeleteOffer : keeps.
#[export] Hint Extern 1 (keeps (emits _) (ext _)) => apply keeps_ext; intros; reflexivity : keeps.
#[export] Hint Extern 1 (keeps (steady _) (modS _)) =>
  apply keeps_steady_modS; intros; reflexivity : keeps.
#[export] Hint Resolve keeps_steady_getS keeps_steady_onSys isDbObs_inert : keeps.

Section steady_operations.
Context `{World} `{!InfoJson} `{Apd} `{AbiLib} (expectedSwapCreatorCode : bytes).

Lemma inert_ClaimMonero l kp addr b : keeps (emits inert) (ClaimMonero l kp addr b).
Proof. unfold ClaimMonero, setSweepStatus. keeps_auto. Qed.

Lemma inert_CheckCode c a : keeps (emits inert) (CheckSwapCreatorContractCode c a).
Proof. unfold CheckSwapCreatorContractCode, checkCode. keeps_auto. Qed.

Hint Resolve inert_ClaimMonero inert_CheckCode : keeps.

Lemma steady_extS {A} p (c : call A) : (∀ a, p (Obs c a) = true) → keeps (steady p) (extS c).
Proof. intros Hp. apply keeps_steady_onSys, keeps_ext, Hp. Qed.
Hint Extern 1 (keeps (steady _) (extS _)) => apply steady_extS; intros; reflexivity : keeps.

Lemma steady_derefS p {A} (f : swapState → option A) : keeps (steady p) (derefS f).
Proof. unfold derefS. keeps_auto. Qed.
Lemma steady_readS p : keeps (steady p) readS.
Proof. unfold readS. keeps_auto. Qed.
Hint Resolve steady_derefS steady_readS : keeps.
Lemma steady_OfferID p : keeps (steady p) OfferID.
Proof. unfold OfferID. keeps_auto. Qed.
Hint Resolve steady_OfferID : keeps.

Lemma steady_newErrCh p : keeps (steady p) newErrCh.
Proof. unfold newErrCh. keeps_auto. Qed.
Lemma steady_sendErr p c e : keeps (steady p) (sendErr c e).
Proof. unfold sendErr. keeps_auto. Qed.
Lemma steady_closeErr p c : keeps (steady p) (closeErr c).
Proof. unfold closeErr. keeps_auto. Qed.
Lemma steady_sendEvent p e : keeps (steady p) (sendEvent e).
Proof. unfold sendEvent. keeps_auto. Qed.
Lemma steady_recvEvent p : keeps (steady p) recvEvent.
Proof. unfold recvEvent. keeps_auto. Qed.
Lemma steady_closeReadyCh p : keeps (steady p) closeReadyCh.
Proof. unfold closeReadyCh. keeps_auto. Qed.
Lemma steady_closeDone p : keeps (steady p) closeDone.
Proof. unfold closeDone. keeps_auto. Qed.
Hint Resolve steady_newErrCh steady_sendErr steady_closeErr steady_sendEvent steady_recvEvent
  steady_closeReadyCh steady_closeDone : keeps.

Lemma steady_updateStatus st : keeps (steady inert) (updateStatus st).
Proof. unfold updateStatus. keeps_auto. Qed.
Hint Resolve steady_updateStatus : keeps.

Lemma steady_pollReceipt {A} n h (use : Receipt → prog MS (result A)) :
  (∀ r, keeps (steady inert) (use r)) → keeps (steady inert) (pollReceipt n h use).
Proof. intros Hu. induction n as [|n IH]; simpl; keeps_auto. Qed.

Lemma steady_waitForNewSwapReceipt h : keeps (steady inert) (waitForNewSwapReceipt h).
Proof. unfold waitForNewSwapReceipt. apply steady_pollReceipt. keeps_auto. Qed.

Lemma steady_waitForClaimRelayerReceipt h a i c :
  keeps (steady inert) (waitForClaimRelayerReceipt h a i c).
Proof.
  unfold waitForClaimRelayerReceipt, validateClaimRelayerReceipt. apply steady_pollReceipt. keeps_auto.
Qed.
Hint Resolve steady_waitForNewSwapReceipt steady_waitForClaimRelayerReceipt : keeps.

Lemma steady_getEthAssetAmount amt asset : keeps (steady inert) (getEthAssetAmount amt asset).
Proof. unfold getEthAssetAmount. keeps_auto. Qed.
Hint Resolve steady_getEthAssetAmount : keeps.

Lemma steady_checkContract h : keeps (steady inert) (checkContract h).
Proof. unfold checkContract. keeps_auto. Qed.

Lemma steady_checkAndSetTimeouts a b : keeps (steady inert) (checkAndSetTimeouts a b).
Proof. unfold checkAndSetTimeouts, setTimeouts. keeps_auto. Qed.

Lemma steady_setContract a : keeps (steady inert) (setContract a).
Proof. unfold setContract. keeps_auto. Qed.
Hint Resolve steady_checkContract steady_checkAndSetTimeouts steady_setContract : keeps.

Lemma steady_reclaimMonero sk : keeps (steady inert) (reclaimMonero sk).
Proof. unfold reclaimMonero. keeps_auto. Qed.

Lemma steady_exitCleanup : keeps (steady inert) exitCleanup.
Proof. unfold exitCleanup. keeps_auto. Qed.
Hint Resolve steady_reclaimMonero steady_exitCleanup : keeps.

(** *** Claiming: the secret may be handed out, no XMR is sent *)

Definition noSend (o : obs) : bool := negb (isSend o).

Lemma inert_noSend o : inert o = true → noSend o = true.
Proof. unfold inert, noSend. by destruct (isSend o). Qed.

Lemma steady_noSend {A} (m : prog MS A) : keeps (steady inert) m → keeps (steady noSend) m.
Proof.
  apply keeps_weaken. intros s s' [E F]. split; [done |].
  exact (emits_weaken _ _ _ _ inert_noSend F).
Qed.
Hint Extern 5 (keeps (steady noSend) _) => apply steady_noSend : keeps.

Lemma noSend_getSecret : keeps (steady noSend) getSecret.
Proof. unfold getSecret. keeps_auto. Qed.
Lemma noSend_relaySwapOf : keeps (steady noSend) relaySwapOf.
Proof. unfold relaySwapOf. keeps_auto. Qed.
Hint Resolve noSend_getSecret noSend_relaySwapOf : keeps.

Lemma noSend_submitAndWait w r o rs sc : keeps (steady noSend) (submitAndWait w r o rs sc).
Proof. unfold submitAndWait. keeps_auto. Qed.
Hint Resolve noSend_submitAndWait : keeps.

Lemma noSend_tryRelayers rs cp swap sc : keeps (steady noSend) (tryRelayers rs cp swap sc).
Proof. induction rs as [|r rs IH]; simpl; keeps_auto. Qed.
Hint Resolve noSend_tryRelayers : keeps.

Lemma isDbObs_noSend o : isDbObs o = true → noSend o = true.
Proof. intros Ho. by apply inert_noSend, isDbObs_inert. Qed.
Hint Resolve isDbObs_noSend : keeps.

Lemma noSend_claimWithRelay : keeps (steady noSend) claimWithRelay.
Proof. unfold claimWithRelay, claimWithAdvertisedRelayers, relayClaimWithXMRTaker. keeps_auto. Qed.
Hint Resolve noSend_claimWithRelay : keeps.

Lemma noSend_claimFunds : keeps (steady noSend) claimFunds.
Proof. unfold claimFunds, checkForMinClaimBalance, checkAssetBalance. keeps_auto. Qed.
Hint Resolve noSend_claimFunds : keeps.

(** *** Following the protocol

    A program conforms at [e] when, started in a state that expects [e] and from
    every phase that goes with it, its observations are accepted by the protocol,
    and the phase reached goes with the event it leaves expected if it completes.
    (A handler that blocked for ever or panicked leaves no later handler of the
    swap to run.) *)

Definition isDone {A} (o : outcome A) : bool := match o with Done _ => true | _ => false end.

Definition conformsAt {A} (e : EventType) (m : prog MS A) : Prop :=
  ∀ s, next s = e → ∃ new, trace (sys (m s).2) = new ++ trace (sys s) ∧
    ∀ ph, phaseOf e ph → ∃ ph', protocol ph new ph' ∧
      (isDone (m s).1 = true → phaseOf (next (m s).2) ph').

Definition conforms {A} (m : prog MS A) : Prop := ∀ e, conformsAt e m.

Lemma conforms_steady {A} (m : prog MS A) : keeps (steady inert) m → conforms m.
Proof.
  intros Hm e s Hs. destruct (Hm s) as [E (new & Et & Hn)]. exists new. split; [done |].
  intros ph Hph. exists ph. split; [by apply protocol_inert |]. intros _. by rewrite E, Hs.
Qed.

Lemma conformsAt_bind {A B} e (m : prog MS A) (k : A → prog MS B) :
  conformsAt e m → (∀ a, conforms (k a)) → conformsAt e (pbind m k).
Proof.
  intros Hm Hk s Hs. destruct (Hm s Hs) as (n1 & E1 & P1). unfold pbind.
  destruct (m s) as [[a|?| |] s1] eqn:E; simpl in *.
  2-4: exists n1; split; [done |]; intros ph Hph; destruct (P1 ph Hph) as (ph1 & Q1 & _);
       by exists ph1.
  destruct (Hk a (next s1) s1 eq_refl) as (n2 & E2 & P2).
  exists (n2 ++ n1). rewrite E2, E1, app_assoc. split; [done |]. intros ph Hph.
  destruct (P1 ph Hph) as (ph1 & Q1 & F1). destruct (P2 ph1 (F1 eq_refl)) as (ph2 & Q2 & F2).
  exists ph2. split; [by eapply protocol_app | done].
Qed.

Lemma conformsAt_steady {A B} e (m : prog MS A) (k : A → prog MS B) :
  keeps (steady inert) m → (∀ a, conformsAt e (k a)) → conformsAt e (pbind m k).
Proof.
  intros Hm Hk s Hs. destruct (Hm s) as [E (n1 & E1 & P1)]. unfold pbind.
  destruct (m s) as [[a|?| |] s1]; simpl in *.
  2-4: exists n1; split; [done |]; intros ph Hph; exists ph; split; [by apply protocol_inert | done].
  assert (next s1 = e) as Hs1 by congruence.
  destruct (Hk a s1 Hs1) as (n2 & E2 & P2). unfold sysOf, msHasSys in E1.
  exists (n2 ++ n1). rewrite E2, E1, app_assoc. split; [done |]. intros ph Hph.
  destruct (P2 ph Hph) as (ph2 & Q2 & F2). exists ph2. split; [| done].
  eapply protocol_app; [by apply protocol_inert | exact Q2].
Qed.

Lemma conformsAt_try {A B} e (m : prog MS (result A)) (k : A → prog MS (result B)) :
  keeps (steady inert) m → (∀ a, conformsAt e (k a)) → conformsAt e (tryBind m k).
Proof.
  intros Hm Hk. apply conformsAt_steady; [done |]. intros [a|err]; [done |].
  apply conforms_steady. keeps_auto.
Qed.

Lemma conforms_bind {A B} (m : prog MS A) (k : A → prog MS B) :
  conforms m → (∀ a, conforms (k a)) → conforms (pbind m k).
Proof. intros Hm Hk e. by apply conformsAt_bind. Qed.

Lemma conforms_try {A B} (m : prog MS (result A)) (k : A → prog MS (result B)) :
  conforms m → (∀ a, conforms (k a)) → conforms (tryBind m k).
Proof.
  intros Hm Hk. apply conforms_bind; [done |]. intros [a|err]; [done |].
  apply conforms_steady. keeps_auto.
Qed.

(** Deferred calls run after a panic too. *)
Lemma conformsAt_deferring {A} e (c : prog MS unit) (b : prog MS A) :
  keeps (steady inert) c → conformsAt e b → conformsAt e (deferring c b).
Proof.
  intros Hc Hb s Hs. destruct (Hb s Hs) as (n1 & E1 & P1). unfold deferring.
  destruct (b s) as [[a|?| |] s1]; simpl in *.
  3,4: exists n1; split; done.
  1,2: destruct (Hc s1) as [E (n2 & E2 & P2)]; exists (n2 ++ n1);
       assert (trace (sys (c s1).2) = (n2 ++ n1) ++ trace (sys s)) as Et
         by (unfold sysOf, msHasSys in E2; rewrite E2, E1; apply app_assoc);
       destruct (c s1) as [[?|?| |] s2]; simpl in *; (split; [done |]); intros ph Hph;
       destruct (P1 ph Hph) as (ph1 & Q1 & F1); exists ph1;
       (split; [eapply protocol_app; [exact Q1 | by apply protocol_inert] |]);
       try done; intros _; rewrite E; auto.
Qed.

Ltac conforms_step :=
  match goal with
  | |- ∀ _, conforms _ => intro
  | |- conforms (deferring _ _) => intros ?; apply conformsAt_deferring; [solve [keeps_auto] | ]
  | H : conforms ?m |- conforms ?m => exact H
  | H : conforms ?m |- conformsAt _ ?m => apply H
  | |- conformsAt _ (pbind _ _) =>
      first [apply conformsAt_steady; [solve [auto with keeps typeclass_instances] |] | apply conforms_bind]
  | |- conforms ?m => solve [apply conforms_steady; keeps_auto]
  | |- conforms ?m => solve [eauto with conforms]
  | |- conformsAt _ ?m => solve [eauto with conforms]
  | |- conforms (pbind _ _) => apply conforms_bind
  | |- conforms (tryBind _ _) => apply conforms_try
  | |- conforms (match ?x with _ => _ end) => destruct x
  | |- conformsAt _ (match ?x with _ => _ end) => destruct x
  | |- ∀ _, conformsAt _ _ => intro
  end.

Lemma conforms_clear st : conforms (clearNextExpectedEvent st).
Proof.
  unfold clearNextExpectedEvent. apply conforms_bind; [| intros _; apply conforms_steady; keeps_auto].
  intros e s _. exists []. split; [done |]. intros ph _. exists Over. split; [| done].
  eapply p_end. constructor.
Qed.
Hint Resolve conforms_clear : conforms.

Lemma conforms_claimFunds : conformsAt EventContractReadyType claimFunds.
Proof.
  intros s Hs. destruct (noSend_claimFunds s) as [E (new & Et & Hn)].
  exists new. split; [done |]. intros ph Hph. exists ph.
  split; [by apply protocol_revealing |]. intros _. by rewrite E, Hs.
Qed.

Lemma conforms_handleEventETHRefunded sk : conforms (handleEventETHRefunded sk).
Proof. unfold handleEventETHRefunded. repeat conforms_step. Qed.
Hint Resolve conforms_handleEventETHRefunded : conforms.

Lemma conforms_contractReady k :
  conforms k → conformsAt EventContractReadyType (handleEventContractReady k).
Proof.
  intros Hk. unfold handleEventContractReady.
  apply conformsAt_steady; [auto with keeps |]. intros _.
  apply conformsAt_steady; [auto with keeps |]. intros _.
  apply conformsAt_bind; [apply conforms_claimFunds |]. repeat conforms_step.
Qed.

Lemma conforms_expected {A} (k : EventType → prog MS A) :
  (∀ e, conformsAt e (k e)) → conforms (pbind (getS nextExpectedEvent) k).
Proof. intros Hk e s Hs. change (pbind _ k s) with (k (next s) s). rewrite Hs. by apply Hk. Qed.

Lemma conforms_exit fuel : conforms (exit fuel).
Proof.
  induction fuel as [|fuel IH]; simpl; [apply conforms_steady; auto with keeps typeclass_instances |].
  intros e0. apply conformsAt_deferring; [auto with keeps |]. revert e0.
  apply conforms_expected. intros e. destruct e.
  2: {
    apply conformsAt_steady; [auto with keeps |].
    intros [m ch|ch|sk ch|ch]; try solve [apply conforms_steady; keeps_auto].
    - apply conformsAt_deferring; [auto with keeps |]. by apply conforms_contractReady.
    - apply conformsAt_deferring; [auto with keeps |]. apply conforms_handleEventETHRefunded. }
  all: first [apply conforms_steady; solve [keeps_auto]
             | apply conforms_bind; [auto with conforms |]; intros; apply conforms_steady; keeps_auto].
Qed.
Hint Resolve conforms_exit : conforms.

(** *** Locking *)

Lemma onSys_inv {A} (m : prog Sys A) s o s1 :
  onSys m s = (o, s1) → ∃ y, m (sys s) = (o, y) ∧ s1 = mkMS _ _ y (sst s).
Proof. unfold onSys, zoom. destruct (m (sys s)) as [o' y]. intros [= -> <-]. eauto. Qed.

Lemma readS_inv s i s1 :
  readS s = (Done i, s1) → infos (mgr (sys s)) !! info (sst s) = Some i ∧ s1 = s.
Proof.
  unfold readS. intros Hr. apply pbind_inv_Done in Hr as (l & s2 & Hg & Hr). inversion Hg; subst.
  apply onSys_inv in Hr as (y & Hr & ->). apply readInfo_inv in Hr as [Hi ->]. by destruct s2.
Qed.

Lemma OfferID_inv s id s1 :
  OfferID s = (Done id, s1) → (∃ i, infos (mgr (sys s)) !! info (sst s) = Some i ∧ id = iOfferID i) ∧ s1 = s.
Proof.
  unfold OfferID. intros Hr. apply pbind_inv_Done in Hr as (i & s2 & Hg & Hr).
  apply readS_inv in Hg as [Hi ->]. inversion Hr; subst. eauto.
Qed.

Lemma updateStatus_inv st s s1 :
  updateStatus st s = (Done tt, s1) →
  sst s1 = sst s ∧
  ∃ now i, infos (mgr (sys s)) !! info (sst s) = Some i ∧
           infos (mgr (sys s1)) !! info (sst s) = Some (SetStatus now st i).
Proof.
  unfold updateStatus. intros Hr.
  apply pbind_inv_Done in Hr as (l & s2 & Hg & Hr). inversion Hg; subst; clear Hg.
  apply pbind_inv_Done in Hr as ([] & s3 & Hg & Hr). apply onSys_inv in Hg as (y & Hg & ->).
  apply Info_SetStatus_inv in Hg as (now & i & Hi & Hi' & _).
  apply pbind_inv_Done in Hr as (id & s4 & Hg & Hr). apply OfferID_inv in Hg as [_ ->].
  apply onSys_inv in Hr as (z & Hz & ->). simpl. split; [done |]. exists now, i. split; [done |].
  pose proof (sameInfos_PushNewStatus id st y) as Hs. simpl in Hz. rewrite Hz in Hs. simpl in Hs.
  unfold sameInfos, agreeing in Hs. by rewrite Hs.
Qed.

(** Moving on to [EventContractReadyType] records XMRLocked last. *)
Lemma setNextExpected_inv s r s1 :
  setNextExpected EventContractReadyType s = (Done r, s1) →
  next s ≠ EventNoneType ∧ next s ≠ EventContractReadyType ∧
  sst s1 = setNextExpectedEvent EventContractReadyType (sst s) ∧
  ∃ now i pre, infos (mgr (sys s)) !! info (sst s) = Some i ∧
    trace (sys s1) = Obs (PutSwap (SetStatus now XMRLocked i)) r :: pre ++ trace (sys s) ∧
    forallb inert pre = true.
Proof.
  unfold setNextExpected. intros Hr.
  apply pbind_inv_Done in Hr as (cur & s2 & Hg & Hr). inversion Hg; subst; clear Hg.
  destruct (bool_decide_reflect (nextExpectedEvent (sst s2) = EventNoneType)) as [|Hn]; [done |].
  destruct (bool_decide_reflect (EventContractReadyType = nextExpectedEvent (sst s2))) as [|Hc]; [done |].
  split; [done |]. split; [unfold next; congruence |].
  apply pbind_inv_Done in Hr as ([] & s3 & Hg & Hr). inversion Hg; subst; clear Hg.
  change (bool_decide (getStatus EventContractReadyType = UnknownStatus)) with false in Hr. cbn [getStatus] in Hr.
  apply pbind_inv_Done in Hr as ([] & s4 & Hu & Hr).
  pose proof (steady_updateStatus XMRLocked (mkMS _ _ (sys s2) (setNextExpectedEvent EventContractReadyType (sst s2)))) as [_ Hst].
  rewrite Hu in Hst. apply updateStatus_inv in Hu as (Hs4 & now & i & Hi & Hi'). simpl in *.
  apply pbind_inv_Done in Hr as (l & s5 & Hg & Hr). inversion Hg; subst; clear Hg.
  apply onSys_inv in Hr as (y & Hw & ->). apply WriteSwapToDB_inv in Hw as (i2 & Hi2 & Ht).
  simpl. split; [done |]. destruct Hst as (pre & Hpre & Hin). unfold sysOf, msHasSys in Hpre. simpl in Hpre.
  exists now, i, pre. split; [done |]. split; [| done]. rewrite Ht, Hpre.
  rewrite Hs4 in Hi2. simpl in Hi2. congruence.
Qed.

Lemma emits_steady {A} p (m : prog MS A) : keeps (steady p) m → keeps (emits p) m.
Proof. apply keeps_weaken. by intros s s' [_ ?]. Qed.
Hint Extern 5 (keeps (emits inert) _) => apply emits_steady : keeps.

Lemma emits_modS p f : keeps (emits p) (modS f).
Proof. intros s. by exists []. Qed.
Hint Resolve emits_modS : keeps.

Lemma emits_setNextExpected e : keeps (emits inert) (setNextExpected e).
Proof. unfold setNextExpected. keeps_auto. Qed.
Hint Resolve emits_setNextExpected : keeps.

Lemma emits_setNextExpected_noSend e : keeps (emits noSend) (setNextExpected e).
Proof.
  apply (keeps_weaken _ (emits inert)); [| apply emits_setNextExpected].
  intros s s'. exact (emits_weaken _ _ _ _ inert_noSend).
Qed.

Lemma conforms_sendStep f dest amt n :
  conformsAt EventETHLockedType
    (_ <-? mapErr f (setNextExpected EventContractReadyType) ;; extS (XMRTransfer dest amt n)).
Proof.
  intros s Hs. unfold tryBind, mapErr, pbind.
  pose proof (emits_setNextExpected EventContractReadyType s) as Hem.
  destruct (setNextExpected EventContractReadyType s) as [[r|?| |] s1] eqn:E; simpl in *.
  2-4: destruct Hem as (new & Et & Hn); exists new; split; [done |]; intros ph _; exists ph;
       split; [by apply protocol_inert | done].
  apply setNextExpected_inv in E as (_ & _ & Hs1 & now & i & pre & _ & Et & Hin).
  set (rec := Obs (PutSwap (SetStatus now XMRLocked i)) r) in *.
  destruct r as [u|e]; simpl.
  - rewrite Et. set (snd := Obs (XMRTransfer dest amt n) _). exists (snd :: rec :: pre).
    split; [done |]. intros ph ->. exists Holding. split; [apply p_send; [apply p_record; [by apply protocol_inert | done] | done] |].
    intros _. unfold next. simpl. rewrite Hs1. simpl. auto.
  - exists (rec :: pre). split; [done |]. intros ph ->. exists Unrecorded.
    split; [apply p_unrecorded; [by apply protocol_inert | done] |]. intros _. unfold next. rewrite Hs1. simpl. auto.
Qed.

Lemma conformsAt_mapErr {A} e f (m : prog MS (result A)) : conformsAt e m → conformsAt e (mapErr f m).
Proof.
  intros Hm. apply conformsAt_bind; [done |]. intros r. apply conforms_steady. keeps_auto.
Qed.

(** Strip the steady prefix of a program. *)
Ltac conforms_peel :=
  match goal with
  | |- conformsAt _ (pbind _ _) => apply conformsAt_steady; [solve [auto with keeps typeclass_instances] |]; intros ?
  | |- conformsAt _ (tryBind _ _) => apply conformsAt_try; [solve [auto with keeps typeclass_instances] |]; intros ?
  | |- conformsAt _ (if ?b then _ else _) => destruct b
  | |- conformsAt _ (mapErr _ _) => apply conformsAt_mapErr
  | |- conformsAt _ (done _) => apply conforms_steady; solve [keeps_auto]
  end.

Lemma conforms_lockFunds amt : conformsAt EventETHLockedType (lockFunds amt).
Proof.
  unfold lockFunds.
  repeat conforms_peel. apply conforms_sendStep.
Qed.

Lemma conforms_handleNotifyETHLocked msg :
  conformsAt EventETHLockedType (handleNotifyETHLocked expectedSwapCreatorCode msg).
Proof.
  unfold handleNotifyETHLocked. repeat case_match; try solve [apply conforms_steady; keeps_auto].
  repeat conforms_peel.
  apply conforms_lockFunds.
Qed.

Lemma conforms_handleEvent fuel ev : conforms (handleEvent expectedSwapCreatorCode fuel ev).
Proof.
  destruct ev as [m ch|ch|sk ch|ch]; simpl; intros e0; apply conformsAt_deferring; auto with keeps; revert e0.
  - apply conforms_expected. intros e. destruct (bool_decide_reflect (e = EventETHLockedType)) as [->|Hne]; simpl;
      [| apply conforms_steady; solve [keeps_auto]].
    apply conformsAt_bind; [apply conforms_handleNotifyETHLocked |]. repeat conforms_step.
  - apply conforms_expected. intros e. destruct (bool_decide_reflect (e = EventContractReadyType)) as [->|Hne]; simpl;
      [| apply conforms_steady; solve [keeps_auto]].
    apply conformsAt_bind; [apply conforms_contractReady, conforms_exit |]. repeat conforms_step.
  - repeat conforms_step.
  - repeat conforms_step.
Qed.
Hint Resolve conforms_handleEvent : conforms.

Lemma conforms_runHandleEvent : conforms (runHandleEvent expectedSwapCreatorCode).
Proof. unfold runHandleEvent. repeat conforms_step. Qed.

(** ** Whole swaps

    What the other goroutines do to a swap: the network, the user, the t1 timer
    and the contract's log watcher. *)

Inductive makerOp : Type :=
| OpExit
| OpStreamClosed
| OpMessage (m : Message)
| OpT1Timer
| OpWatchLog (readyEventSent : bool) (w : watchedLog).

Definition runOp (op : makerOp) : prog MS unit :=
  match op with
  | OpExit => Exit ;;; done tt
  | OpStreamClosed => NotifyStreamClosed ;;; done tt
  | OpMessage m => HandleProtocolMessage m ;;; done tt
  | OpT1Timer => runT1ExpirationHandler ;;; done tt
  | OpWatchLog b w => watchLog b w ;;; done tt
  end.

(** The flag says whether the event handler still runs: one that blocked for ever
    or panicked handles nothing more. *)
Inductive step : bool * MS → bool * MS → Prop :=
| step_handle s : step (true, s)
    (isDone (runHandleEvent expectedSwapCreatorCode s).1, (runHandleEvent expectedSwapCreatorCode s).2)
| step_op b op s : step (b, s) (b, (runOp op s).2).

(** Calls of the other goroutines are inert, and leave the phase as it is or end it. *)
Definition outside (s s' : MS) : Prop :=
  emits inert s s' ∧ (next s' = next s ∨ next s' = EventNoneType).

#[local] Instance outside_preorder : PreOrder outside.
Proof.
  split; unfold outside.
  - intros s. split; [reflexivity | auto].
  - intros a b c [E1 [F1|F1]] [E2 [F2|F2]]; (split; [by etrans |]); rewrite F2; auto.
Qed.

Lemma outside_steady {A} (m : prog MS A) : keeps (steady inert) m → keeps outside m.
Proof. apply keeps_weaken. intros s s' [E F]. split; auto. Qed.
Hint Extern 5 (keeps outside _) => apply outside_steady : keeps.

Lemma outside_clear st : keeps outside (clearNextExpectedEvent st).
Proof.
  unfold clearNextExpectedEvent. apply keeps_bind; [typeclasses eauto | | keeps_auto].
  intros s. split; [by exists [] | auto].
Qed.
Hint Resolve outside_clear : keeps.

Lemma outside_runOp op : keeps outside (runOp op).
Proof.
  destruct op as [| |m| |b [l|l|l]]; simpl;
    unfold NotifyStreamClosed, Exit, HandleProtocolMessage, runT1ExpirationHandler, handleT1Expired,
      handleReadyLogs, handleRefundLogs, handleClaimedLogs; keeps_auto.
Qed.

Lemma steps_protocol c c' ph :
  rtc step c c' → (c.1 = true → phaseOf (next c.2) ph) →
  ∃ new ph', trace (sys c'.2) = new ++ trace (sys c.2) ∧ protocol ph new ph' ∧
             (c'.1 = true → phaseOf (next c'.2) ph').
Proof.
  intros Hr. revert ph. induction Hr as [c|c c1 c2 Hs Hr IH]; intros ph Hph.
  { exists [], ph. split; [done |]. split; [constructor | done]. }
  assert (∃ new ph1, trace (sys c1.2) = new ++ trace (sys c.2) ∧ protocol ph new ph1 ∧
            (c1.1 = true → phaseOf (next c1.2) ph1)) as (n1 & ph1 & E1 & Q1 & F1).
  { destruct Hs as [s|b op s]; simpl in *.
    - destruct (conforms_runHandleEvent (next s) s eq_refl) as (n1 & E1 & P1).
      destruct (P1 ph (Hph eq_refl)) as (ph1 & Q1 & F1). eauto 10.
    - destruct (outside_runOp op s) as [(n1 & E1 & P1) [En|En]]; unfold next in *; rewrite En;
        exists n1; [exists ph | exists Over]; repeat split; auto.
      + by apply protocol_inert.
      + eapply p_end. by apply protocol_inert. }
  destruct (IH ph1 F1) as (n2 & ph2 & E2 & Q2 & F2). exists (n2 ++ n1), ph2.
  split; [rewrite E2, E1; apply app_assoc |]. split; [by eapply protocol_app | done].
Qed.

Lemma newObs_eq (s s' : MS) new : trace (sys s') = new ++ trace (sys s) → newObs s s' = new.
Proof. exact (newObs_app (S := MS) (HasSys0 := msHasSys) s s' new). Qed.

(** C1: refinement.  Whatever the other goroutines, the peer and the chain do, and
    in whatever order, the calls of a maker's swap that send XMR or hand out the
    secret follow the abstract protocol: XMRLocked is written to the database,
    then the XMR is sent, then the secret may be handed out to claim the ETH; when
    the writing failed no XMR is sent, but the secret may still be handed out; and
    as long as the swap's handler runs, the phase reached goes with the event the
    swap expects. *)
Theorem maker_follows_protocol (s s' : MS) (running : bool) (ph : Phase) :
  rtc step (true, s) (running, s') → phaseOf (next s) ph →
  ∃ ph', protocol ph (newObs s s') ph' ∧ (running = true → phaseOf (next s') ph').
Proof.
  intros Hr Hph. destruct (steps_protocol _ _ ph Hr (fun _ => Hph)) as (new & ph' & E & Q & F).
  rewrite (newObs_eq s s' new E). eauto.
Qed.

(** C2: safety.  Over the life of a swap that starts out waiting for the ETH, XMR
    is sent at most once, and only after XMRLocked was successfully written to the
    database.  Either the secret is only ever handed out after the XMR was sent, or
    no XMR is sent at all and the secret is handed out only after the writing of
    XMRLocked failed.  While the swap still waits for the ETH, neither has
    happened. *)
Theorem maker_locks_once (s s' : MS) (running : bool) :
  rtc step (true, s) (running, s') → next s = EventETHLockedType →
  (sends (newObs s s') ≤ 1)%nat ∧
  preceded isLockRecord isSend (newObs s s') ∧
  (revealsAfterSend (newObs s s') ∨ revealsUnsent (newObs s s')) ∧
  (running = true → next s' = EventETHLockedType → forallb inert (newObs s s') = true).
Proof.
  intros Hr Hn.
  destruct (steps_protocol _ _ Waiting Hr (fun _ => ltac:(simpl; rewrite Hn; done))) as (new & ph' & E & Q & F).
  rewrite (newObs_eq s s' new E). simpl in F.
  destruct (protocol_waiting _ _ Q) as (P1 & P2). split; [by apply (protocol_sends _ _ _ Q) |].
  split; [done |]. split; [exact (history_end _ _ P1) |].
  intros Hrun Hn'. specialize (F Hrun). rewrite Hn' in F. simpl in F. by subst.
Qed.

(** C30: a swap that is over sends no XMR and hands out no secret any more. *)
Theorem maker_over_is_final (s s' : MS) (running : bool) :
  rtc step (true, s) (running, s') → next s = EventNoneType →
  forallb inert (newObs s s') = true ∧ (running = true → next s' ≠ EventETHLockedType ∧ next s' ≠ EventContractReadyType).
Proof.
  intros Hr Hn.
  destruct (steps_protocol _ _ Over Hr (fun _ => ltac:(simpl; rewrite Hn; done))) as (new & ph' & E & Q & F).
  rewrite (newObs_eq s s' new E). destruct (protocol_over _ _ Q) as [-> Hin]. split; [done |].
  intros Hrun. specialize (F Hrun). simpl in F. split; intros Hx; rewrite Hx in F; simpl in F; [| destruct F]; discriminate.
Qed.

End steady_operations.

#[export] Hint Extern 1 (keeps (steady _) (extS _)) => apply steady_extS; intros; reflexivity : keeps.
#[export] Hint Resolve inert_CheckCode steady_derefS steady_readS steady_OfferID
  steady_updateStatus steady_waitForNewSwapReceipt steady_checkContract steady_checkAndSetTimeouts
  steady_setContract isDbObs_noSend : keeps.
#[export] Hint Extern 5 (keeps (steady noSend) _) => apply steady_noSend : keeps.
#[export] Hint Extern 6 (keeps (emits noSend) _) => apply emits_steady : keeps.
#[export] Hint Resolve emits_setNextExpected_noSend : keeps.

(** ** Termination: a handler never runs out of fuel *)

Definition fuelled {A} (o : outcome A) : Prop := o ≠ OutOfFuel.
Definition total {S A} (m : prog S A) : Prop := ∀ s, fuelled (m s).1.

Create HintDb fuel.
#[global] Hint Constants Opaque : fuel.

Section fuel_rules.

Lemma fuelled_obind {A B} (o : outcome A) (k : A → outcome B) :
  fuelled o → (∀ a, fuelled (k a)) → fuelled (obind o k).
Proof. intros Ho Hk. destruct o; simpl; auto; done. Qed.

Lemma total_done {S A} (a : A) : total (@done S A a).
Proof. done. Qed.
Lemma total_panic {S A} m : total (@panic S A m).
Proof. done. Qed.
Lemma total_block {S A} : total (@block S A).
Proof. done. Qed.
Lemma total_gets {S A} (f : S → A) : total (gets f).
Proof. done. Qed.
Lemma total_modify {S} (f : S → S) : total (modify f).
Proof. done. Qed.
Lemma total_pure {S A} (o : outcome A) : fuelled o → total (@pure S A o).
Proof. by intros Ho s. Qed.

Lemma total_bind {S A B} (m : prog S A) (k : A → prog S B) :
  total m → (∀ a, total (k a)) → total (pbind m k).
Proof.
  intros Hm Hk s. specialize (Hm s). unfold pbind.
  destruct (m s) as [[a|?| |] s1]; simpl in *; try done. apply Hk.
Qed.

Lemma total_try {S A B} (m : prog S (result A)) (k : A → prog S (result B)) :
  total m → (∀ a, total (k a)) → total (tryBind m k).
Proof. intros Hm Hk. apply total_bind; [done |]. by intros [a|e]. Qed.

Lemma total_mapErr {S A} f (m : prog S (result A)) : total m → total (mapErr f m).
Proof. intros Hm. by apply total_bind. Qed.

Lemma total_deferring {S A} (c : prog S unit) (b : prog S A) :
  total c → total b → total (deferring c b).
Proof.
  intros Hc Hb s. specialize (Hb s). unfold deferring.
  destruct (b s) as [[a|?| |] s1]; simpl in *; try done;
    specialize (Hc s1); destruct (c s1) as [[?|?| |] s2]; simpl in *; done.
Qed.

Lemma total_zoom {S T A} (get : S → T) put (m : prog T A) : total m → total (zoom get put m).
Proof. intros Hm s. specialize (Hm (get s)). unfold zoom. by destruct (m (get s)). Qed.

End fuel_rules.

#[export] Hint Resolve total_done total_panic total_block total_gets total_modify total_pure
  total_zoom total_mapErr : fuel.

Ltac total_step :=
  match goal with
  | |- ∀ _, total _ => intro
  | |- ∀ _, fuelled _ => intro
  | |- total (pbind _ _) => apply total_bind
  | |- total (tryBind _ _) => apply total_try
  | |- total (mapErr _ _) => apply total_mapErr
  | |- total (deferring _ _) => apply total_deferring
  | |- total (match ?x with _ => _ end) => destruct x
  | |- total (pure _) => apply total_pure
  | |- total _ => solve [eauto with fuel]
  | |- fuelled (obind _ _) => apply fuelled_obind
  | |- fuelled (match ?x with _ => _ end) => destruct x
  | |- fuelled _ => solve [eauto with fuel | discriminate]
  end.
Ltac total_auto := repeat total_step.

Section fuel.
Context `{World} `{!InfoJson} `{Apd} `{AbiLib} (expectedSwapCreatorCode : bytes).

Lemma total_ext {A} (c : call A) : total (ext c).
Proof. done. Qed.
Lemma total_onSys {A} (m : prog Sys A) : total m → total (onSys m).
Proof. apply total_zoom. Qed.
Lemma total_modS f : total (modS f).
Proof. done. Qed.
Lemma total_getS {A} (f : swapState → A) : total (getS f).
Proof. done. Qed.
Lemma total_extS {A} (c : call A) : total (extS c).
Proof. done. Qed.
Lemma total_readInfo l : total (readInfo l : prog Sys _).
Proof. intros s. unfold readInfo. by destruct (infos _ !! l). Qed.
Lemma fuelled_deref {A} (p : option A) : fuelled (deref p).
Proof. by destruct p. Qed.
Hint Resolve total_ext total_onSys total_modS total_getS total_extS total_readInfo fuelled_deref : fuel.

Lemma fuelled_exponents n d : fuelled (increaseExponent n d) ∧ fuelled (decreaseExponent n d).
Proof. unfold increaseExponent, decreaseExponent. split; total_auto. Qed.

Lemma fuelled_increase n d : fuelled (increaseExponent n d).
Proof. apply fuelled_exponents. Qed.
Lemma fuelled_decrease n d : fuelled (decreaseExponent n d).
Proof. apply fuelled_exponents. Qed.
Hint Resolve fuelled_increase fuelled_decrease : fuel.

Lemma fuelled_round n d : fuelled (roundToDecimalPlace n d).
Proof. unfold roundToDecimalPlace. total_auto. Qed.
Hint Resolve fuelled_round : fuel.

Lemma fuelled_MoneroToPiconero n : fuelled (MoneroToPiconero n).
Proof. unfold MoneroToPiconero. total_auto. Qed.
Lemma fuelled_EtherToWei n : fuelled (EtherToWei n).
Proof. unfold EtherToWei. total_auto. Qed.
Lemma fuelled_WeiBigInt n : fuelled (WeiAmount_BigInt n).
Proof. unfold WeiAmount_BigInt. total_auto. Qed.
Hint Resolve fuelled_MoneroToPiconero fuelled_EtherToWei fuelled_WeiBigInt : fuel.
Lemma fuelled_BigInt n : fuelled (EthAssetAmount_BigInt n).
Proof. unfold EthAssetAmount_BigInt. total_auto. Qed.
Lemma fuelled_NewToken n t : fuelled (NewTokenAmountFromDecimals n t).
Proof. unfold NewTokenAmountFromDecimals. total_auto. Qed.
Lemma fuelled_fee : fuelled RelayerFeeETH.
Proof. unfold RelayerFeeETH, AsEther. total_auto. Qed.
Lemma fuelled_SwapID sw : fuelled (SwapID sw).
Proof. unfold SwapID. total_auto. Qed.
Lemma fuelled_Address kp env : fuelled (PublicKeyPair_Address kp env).
Proof. unfold PublicKeyPair_Address. total_auto. Qed.
Lemma fuelled_ValidateEnv a env : fuelled (ValidateEnv a env).
Proof. unfold ValidateEnv, Address_Network. total_auto. Qed.
Lemma fuelled_Timeout env : fuelled (SwapTimeoutFromEnv env).
Proof. unfold SwapTimeoutFromEnv. total_auto. Qed.
Lemma fuelled_IsOngoing st : fuelled (IsOngoing st).
Proof. unfold IsOngoing. total_auto. Qed.
Hint Resolve fuelled_BigInt fuelled_NewToken fuelled_fee fuelled_SwapID fuelled_Address
  fuelled_ValidateEnv fuelled_Timeout fuelled_IsOngoing : fuel.

Lemma total_dbPutSwap i : total (dbPutSwap i : prog Sys _).
Proof. done. Qed.
Lemma total_timeNow : total (timeNow : prog Sys _).
Proof. done. Qed.
Lemma total_dbPutOffer o : total (dbPutOffer o : prog Sys _).
Proof. done. Qed.
Lemma total_dbDeleteOffer id : total (dbDeleteOffer id : prog Sys _).
Proof. done. Qed.
Hint Resolve total_dbPutSwap total_timeNow total_dbPutOffer total_dbDeleteOffer : fuel.
Lemma total_updateInfo f l : total (updateInfo f l : prog Sys _).
Proof. unfold updateInfo, withManager. total_auto. Qed.
Hint Resolve total_updateInfo : fuel.
Lemma total_SetStatus l st : total (Info_SetStatus l st : prog Sys _).
Proof. unfold Info_SetStatus. total_auto. Qed.
Lemma total_Push id st : total (PushNewStatus id st : prog Sys _).
Proof.
  unfold PushNewStatus, sendStatus, getStatusChan, newStatusChannel, DeleteStatusChan, onManager, withManager.
  total_auto. done.
Qed.
Lemma total_Write l : total (WriteSwapToDB l : prog Sys _).
Proof. unfold WriteSwapToDB. total_auto. Qed.
Lemma total_Complete l : total (CompleteOngoingSwap l : prog Sys _).
Proof. unfold CompleteOngoingSwap, withManager. total_auto. Qed.
Lemma total_AddOffer o b : total (AddOffer o b : prog Sys _).
Proof. unfold AddOffer, withOffers. total_auto. Qed.
Lemma total_DeleteOffer id : total (OfferManager_DeleteOffer id : prog Sys _).
Proof. unfold OfferManager_DeleteOffer, withOffers. total_auto. Qed.
Hint Resolve total_SetStatus total_Push total_Write total_Complete total_AddOffer total_DeleteOffer : fuel.
Lemma total_ClaimMonero l kp a b : total (ClaimMonero l kp a b).
Proof. unfold ClaimMonero, setSweepStatus. total_auto. Qed.
Lemma total_CheckCode c a : total (CheckSwapCreatorContractCode c a).
Proof. unfold CheckSwapCreatorContractCode, checkCode. total_auto. Qed.
Hint Resolve total_ClaimMonero total_CheckCode : fuel.

Lemma total_derefS {A} (f : swapState → option A) : total (derefS f).
Proof. unfold derefS. total_auto. Qed.
Lemma total_readS : total readS.
Proof. unfold readS. total_auto. Qed.
Hint Resolve total_derefS total_readS : fuel.
Lemma total_OfferID : total OfferID.
Proof. unfold OfferID. total_auto. Qed.
Hint Resolve total_OfferID : fuel.
Lemma total_sendErr c e : total (sendErr c e).
Proof. unfold sendErr. total_auto. Qed.
Lemma total_closeErr c : total (closeErr c).
Proof. unfold closeErr. total_auto. Qed.
Lemma total_recvEvent : total recvEvent.
Proof. unfold recvEvent. total_auto. Qed.
Lemma total_updateStatus st : total (updateStatus st).
Proof. unfold updateStatus. total_auto. Qed.
Hint Resolve total_sendErr total_closeErr total_recvEvent total_updateStatus : fuel.
Lemma total_clear st : total (clearNextExpectedEvent st).
Proof. unfold clearNextExpectedEvent. total_auto. Qed.
Lemma total_setNextExpected e : total (setNextExpected e).
Proof. unfold setNextExpected. total_auto. Qed.
Hint Resolve total_clear total_setNextExpected : fuel.

Lemma total_pollReceipt {A} n h (use : Receipt → prog MS (result A)) :
  (∀ r, total (use r)) → total (pollReceipt n h use).
Proof. intros Hu. induction n as [|n IH]; simpl; total_auto. Qed.

Lemma total_waitClaim h a i c : total (waitForClaimRelayerReceipt h a i c).
Proof.
  unfold waitForClaimRelayerReceipt, validateClaimRelayerReceipt. apply total_pollReceipt. total_auto.
Qed.
Hint Resolve total_waitClaim : fuel.

Lemma total_getSecret : total getSecret.
Proof. unfold getSecret. total_auto. Qed.
Hint Resolve total_getSecret : fuel.
Lemma total_submitAndWait w r o rs sc : total (submitAndWait w r o rs sc).
Proof. unfold submitAndWait. total_auto. Qed.
Hint Resolve total_submitAndWait : fuel.
Lemma total_tryRelayers rs cp swap sc : total (tryRelayers rs cp swap sc).
Proof. induction rs as [|r rs IH]; simpl; total_auto. Qed.
Hint Resolve total_tryRelayers : fuel.
Lemma total_claimWithRelay : total claimWithRelay.
Proof.
  unfold claimWithRelay, claimWithAdvertisedRelayers, relayClaimWithXMRTaker, relaySwapOf. total_auto.
Qed.
Hint Resolve total_claimWithRelay : fuel.
Lemma total_claimFunds : total claimFunds.
Proof. unfold claimFunds, checkForMinClaimBalance, checkAssetBalance. total_auto. Qed.

Lemma total_ETHRefunded sk : total (handleEventETHRefunded sk).
Proof. unfold handleEventETHRefunded, reclaimMonero. total_auto. Qed.
Lemma total_exitCleanup : total exitCleanup.
Proof. unfold exitCleanup, closeDone. total_auto. Qed.
Lemma total_handleNotify msg : total (handleNotifyETHLocked expectedSwapCreatorCode msg).
Proof.
  unfold handleNotifyETHLocked, setContract, checkContract, getEthAssetAmount, checkAndSetTimeouts,
    setTimeouts, lockFunds. total_auto. apply total_pollReceipt. total_auto.
Qed.
Hint Resolve total_claimFunds total_ETHRefunded total_exitCleanup total_handleNotify : fuel.

(** The queue of events, which only a receive shortens. *)
Definition queue (s : MS) : list Event := eventCh (sst s).
Definition sameQueue : MS → MS → Prop := agreeing queue.

#[local] Instance sameQueue_preorder : PreOrder sameQueue.
Proof. apply agreeing_preorder. Qed.

Lemma sameQueue_onSys {A} (m : prog Sys A) : keeps sameQueue (onSys m).
Proof. by apply keeps_zoom. Qed.
Lemma sameQueue_extS {A} (c : call A) : keeps sameQueue (extS c).
Proof. done. Qed.
Lemma sameQueue_getS {A} (f : swapState → A) : keeps sameQueue (getS f).
Proof. done. Qed.
Hint Resolve sameQueue_onSys sameQueue_extS sameQueue_getS : keeps.
Hint Extern 1 (keeps sameQueue (modS _)) => apply keeps_modify; intros; reflexivity : keeps.
Lemma sameQueue_derefS {A} (f : swapState → option A) : keeps sameQueue (derefS f).
Proof. unfold derefS. keeps_auto. Qed.
Hint Resolve sameQueue_derefS : keeps.
Lemma sameQueue_readS : keeps sameQueue readS.
Proof. unfold readS. keeps_auto. Qed.
Lemma sameQueue_getSecret : keeps sameQueue getSecret.
Proof. unfold getSecret. keeps_auto. Qed.
Lemma sameQueue_pollReceipt {A} n h (use : Receipt → prog MS (result A)) :
  (∀ r, keeps sameQueue (use r)) → keeps sameQueue (pollReceipt n h use).
Proof. intros Hu. induction n as [|n IH]; simpl; keeps_auto. Qed.
Lemma sameQueue_waitClaim h a i c : keeps sameQueue (waitForClaimRelayerReceipt h a i c).
Proof.
  unfold waitForClaimRelayerReceipt, validateClaimRelayerReceipt. apply sameQueue_pollReceipt. keeps_auto.
Qed.
Hint Resolve sameQueue_readS sameQueue_getSecret sameQueue_waitClaim : keeps.
Lemma sameQueue_submit w r o rs sc : keeps sameQueue (submitAndWait w r o rs sc).
Proof. unfold submitAndWait. keeps_auto. Qed.
Hint Resolve sameQueue_submit : keeps.
Lemma sameQueue_tryRelayers rs cp swap sc : keeps sameQueue (tryRelayers rs cp swap sc).
Proof. induction rs as [|r rs IH]; simpl; keeps_auto. Qed.
Hint Resolve sameQueue_tryRelayers : keeps.
Lemma sameQueue_claimWithRelay : keeps sameQueue claimWithRelay.
Proof.
  unfold claimWithRelay, claimWithAdvertisedRelayers, relayClaimWithXMRTaker, relaySwapOf. keeps_auto.
Qed.
Hint Resolve sameQueue_claimWithRelay : keeps.
Lemma sameQueue_claimFunds : keeps sameQueue claimFunds.
Proof. unfold claimFunds, checkForMinClaimBalance, checkAssetBalance. keeps_auto. Qed.

(** Fuel at a state. *)
Lemma fuelled_bind_at {A B} (m : prog MS A) (k : A → prog MS B) s :
  total m → keeps sameQueue m → (∀ a s1, queue s1 = queue s → fuelled (k a s1).1) →
  fuelled (pbind m k s).1.
Proof.
  intros Hm Hq Hk. specialize (Hm s). specialize (Hq s). unfold pbind.
  destruct (m s) as [[a|?| |] s1]; simpl in *; try done. by apply Hk.
Qed.

Lemma fuelled_deferring_at {A} (c : prog MS unit) (b : prog MS A) s :
  total c → fuelled (b s).1 → fuelled (deferring c b s).1.
Proof.
  intros Hc Hb. unfold deferring. destruct (b s) as [[a|?| |] s1]; simpl in *; try done;
    specialize (Hc s1); destruct (c s1) as [[?|?| |] s2]; simpl in *; done.
Qed.

Lemma fuelled_contractReady k s :
  (∀ s1, queue s1 = queue s → fuelled (k s1).1) → fuelled (handleEventContractReady k s).1.
Proof.
  intros Hk. unfold handleEventContractReady.
  apply fuelled_bind_at; [unfold closeReadyCh; total_auto | unfold closeReadyCh; keeps_auto |]. intros _ s1 E1.
  apply fuelled_bind_at; [total_auto | keeps_auto |]. intros _ s2 E2.
  apply fuelled_bind_at; [apply total_claimFunds | apply sameQueue_claimFunds |]. intros [r|e] s3 E3.
  - enough (total (clearNextExpectedEvent CompletedSuccess;;; done (Ok tt))) as Ht by apply Ht. total_auto.
  - assert (fuelled (k s3).1) as Hk3 by (apply Hk; congruence). unfold pbind.
    destruct (k s3) as [[[?|?]|?| |] s4]; simpl in *; done.
Qed.

Lemma fuelled_exit fuel s : (length (queue s) < fuel)%nat → fuelled (exit fuel s).1.
Proof.
  revert s. induction fuel as [|fuel IH]; intros s Hl; [lia |]. cbn [exit].
  apply fuelled_deferring_at; [apply total_exitCleanup |].
  apply fuelled_bind_at; [total_auto | keeps_auto |]. intros e s1 E1. rewrite <- E1 in Hl.
  destruct e; try solve [match goal with |- fuelled (?m s1).1 =>
    enough (total m) as Ht by apply Ht; total_auto end].
  unfold recvEvent, pbind, getS, gets. unfold queue in *.
  destruct (eventCh (sst s1)) as [|[m ch|ch|sk ch|ch] rest] eqn:Eq; simpl; try done.
  - apply fuelled_deferring_at; [total_auto |]. apply fuelled_contractReady. intros s2 E2.
    apply IH. unfold queue in *. rewrite E2. simpl in *. lia.
  - apply fuelled_deferring_at; [total_auto |]. apply total_ETHRefunded.
Qed.

Lemma sameQueue_OfferID : keeps sameQueue OfferID.
Proof. unfold OfferID. keeps_auto. Qed.
Lemma sameQueue_sendErr c e : keeps sameQueue (sendErr c e).
Proof. unfold sendErr. keeps_auto. Qed.
Hint Resolve sameQueue_OfferID sameQueue_sendErr : keeps.
Lemma sameQueue_updateStatus st : keeps sameQueue (updateStatus st).
Proof. unfold updateStatus. keeps_auto. Qed.
Hint Resolve sameQueue_updateStatus : keeps.
Lemma sameQueue_handleNotify msg : keeps sameQueue (handleNotifyETHLocked expectedSwapCreatorCode msg).
Proof.
  unfold handleNotifyETHLocked, setContract, checkContract, getEthAssetAmount, checkAndSetTimeouts,
    setTimeouts, lockFunds, setNextExpected. keeps_auto. apply sameQueue_pollReceipt. keeps_auto.
Qed.
Lemma sameQueue_ETHRefunded sk : keeps sameQueue (handleEventETHRefunded sk).
Proof. unfold handleEventETHRefunded, reclaimMonero, clearNextExpectedEvent. keeps_auto. Qed.
Hint Resolve sameQueue_handleNotify sameQueue_ETHRefunded : keeps.

Lemma fuelled_handleEvent fuel ev s :
  (length (queue s) < fuel)%nat → fuelled (handleEvent expectedSwapCreatorCode fuel ev s).1.
Proof.
  intros Hl. destruct ev as [m ch|ch|sk ch|ch]; simpl; (apply fuelled_deferring_at; [total_auto |]).
  - apply fuelled_bind_at; [total_auto | keeps_auto |]. intros cur s1 E1.
    destruct (negb _); [apply total_sendErr |].
    apply fuelled_bind_at; [total_auto | keeps_auto |]. intros r s2 E2.
    assert (length (queue s2) < fuel)%nat as Hl2 by (rewrite E2, E1; done).
    assert (total (id <- OfferID;; extS (CloseProtocolStream id))) as Hclose by total_auto.
    destruct r as [?|e]; [apply Hclose |]. unfold pbind at 1.
    assert (fuelled ((sendErr ch (Wrapf "failed to handle EventETHLocked" e);;; exit fuel;;; done tt) s2).1) as Hx.
    { apply fuelled_bind_at; [total_auto | keeps_auto |]. intros _ s3 E3.
      assert (fuelled (exit fuel s3).1) as Hk by (apply fuelled_exit; by rewrite E3).
      unfold pbind. destruct (exit fuel s3) as [[?|?| |] s4]; simpl in *; done. }
    destruct ((sendErr _ _;;; _) s2) as [[?|?| |] s3]; simpl in *; done.
  - apply fuelled_bind_at; [total_auto | keeps_auto |]. intros cur s1 E1.
    destruct (negb _); [apply total_sendErr |].
    assert (fuelled (handleEventContractReady (exit fuel) s1).1) as Hk.
    { apply fuelled_contractReady. intros s2 E2. apply fuelled_exit. by rewrite E2, E1. }
    unfold pbind. destruct (handleEventContractReady (exit fuel) s1) as [[[?|?]|?| |] s2]; simpl in *; try done.
    apply total_sendErr.
  - apply fuelled_bind_at; [total_auto | keeps_auto |]. intros [r|e] s1 E1; [| apply total_sendErr].
    assert (fuelled (exit fuel s1).1) as Hk by (apply fuelled_exit; by rewrite E1).
    unfold pbind. destruct (exit fuel s1) as [[?|?| |] s2]; simpl in *; done.
  - assert (fuelled (exit fuel s).1) as Hk by (by apply fuelled_exit).
    unfold pbind. destruct (exit fuel s) as [[[?|?]|?| |] s2]; simpl in *; try done. apply total_sendErr.
Qed.

(** C31: termination.  The mutual recursion of [exit] and [handleEventContractReady]
    ends: handling the next event of a swap never runs out of the fuel
    [runHandleEvent] gives it, one more than the number of events still queued. *)
Theorem runHandleEvent_terminates (s : MS) : (runHandleEvent expectedSwapCreatorCode s).1 ≠ OutOfFuel.
Proof.
  change (fuelled (runHandleEvent expectedSwapCreatorCode s).1).
  unfold runHandleEvent, pbind, getS, gets. destruct (cancelled (sst s)); [done |].
  destruct (eventCh (sst s)) as [|ev rest] eqn:Eq; simpl; [done |].
  apply fuelled_handleEvent. unfold queue. simpl. lia.
Qed.

End fuel.

(** ** What has been checked when the XMR is sent *)

Section locking.
Context `{World} `{!InfoJson} `{Apd} `{AbiLib} (expectedSwapCreatorCode : bytes).

(** Only calls were made. *)
Definition onlyCalls (s s' : MS) : Prop :=
  sst s' = sst s ∧ mgr (sys s') = mgr (sys s) ∧ forward s s'.

#[export] Instance onlyCalls_preorder : PreOrder onlyCalls.
Proof.
  split; unfold onlyCalls.
  - intros s. repeat split. reflexivity.
  - intros a b c (E1 & F1 & G1) (E2 & F2 & G2). split; [congruence |]. split; [congruence | by etrans].
Qed.

Lemma onlyCalls_extS {A} (c : call A) : keeps onlyCalls (extS c).
Proof. intros s. repeat split. by exists [Obs c (answer A (clock (sys s)) c)]. Qed.

Lemma onlyCalls_pollReceipt {A} n h (use : Receipt → prog MS (result A)) :
  (∀ r, keeps onlyCalls (use r)) → keeps onlyCalls (pollReceipt n h use).
Proof.
  intros Hu. induction n as [|n IH]; simpl; keeps_auto; try apply onlyCalls_extS; auto.
Qed.

Lemma extS_inv {A} (c : call A) s a s1 :
  extS c s = (Done a, s1) → saw c a s s1 ∧ onlyCalls s s1.
Proof.
  intros E. pose proof (onlyCalls_extS c s) as Ho. rewrite E in Ho. split; [| exact Ho].
  apply onSys_inv in E as (y & E & ->). inversion E; subst. by exists [], [].
Qed.

Lemma extS_trace {A} (c : call A) s a s1 :
  extS c s = (Done a, s1) → trace (sys s1) = Obs c a :: trace (sys s).
Proof. intros E. apply onSys_inv in E as (y & E & ->). by inversion E; subst. Qed.

Lemma getS_inv {A} (f : swapState → A) s a s1 : getS f s = (Done a, s1) → a = f (sst s) ∧ s1 = s.
Proof. by intros [= <- <-]. Qed.

Lemma derefS_inv {A} (f : swapState → option A) s a s1 :
  derefS f s = (Done a, s1) → f (sst s) = Some a ∧ s1 = s.
Proof.
  unfold derefS. intros E. apply pbind_inv_Done in E as (x & s2 & Hg & Hp).
  apply getS_inv in Hg as [-> ->]. apply pure_inv in Hp as [Hp ->].
  unfold deref in Hp. destruct (f (sst s)); [by inversion Hp | done].
Qed.

Lemma try_inv_Ok {A B} (m : prog MS (result A)) (k : A → prog MS (result B)) s b s' :
  tryBind m k s = (Done (Ok b), s') → ∃ a s1, m s = (Done (Ok a), s1) ∧ k a s1 = (Done (Ok b), s').
Proof.
  intros E. apply pbind_inv_Done in E as ([a|e] & s1 & Hm & Hk); [eauto | done].
Qed.

Lemma mapErr_inv_Ok {A} f (m : prog MS (result A)) s a s' :
  mapErr f m s = (Done (Ok a), s') → m s = (Done (Ok a), s').
Proof.
  intros E. apply pbind_inv_Done in E as ([x|e] & s1 & Hm & Hk); by inversion Hk; subst.
Qed.

Lemma pollReceipt_inv {A} n h (use : Receipt → prog MS (result A)) s a s' :
  (∀ r, keeps onlyCalls (use r)) →
  pollReceipt n h use s = (Done (Ok a), s') →
  ∃ r s1 s2, saw (TransactionReceipt h) (Ok r) s s1 ∧ use r s1 = (Done (Ok a), s2) ∧ s2 = s'.
Proof.
  intros Hu. revert s. induction n as [|n IH]; intros s E; [done |].
  apply pbind_inv_Done in E as ([r|e] & s1 & Hx & E).
  - apply extS_inv in Hx as [Hx _]. eauto 10.
  - apply extS_inv in Hx as (_ & _ & _ & Hf). destruct (errorsIs e NotFound); [| done]. simpl in E.
    apply pbind_inv_Done in E as ([e'|] & s2 & Hy & E); [done |].
    apply extS_inv in Hy as (_ & _ & _ & Hf'). apply IH in E as (r & s3 & s4 & Hs & Hr & ->).
    exists r, s3, s'. split; [| auto]. eapply saw_earlier; [| exact Hs]. by etrans.
Qed.

Lemma waitForNewSwapReceipt_inv h s r s' :
  waitForNewSwapReceipt h s = (Done (Ok r), s') →
  saw (TransactionReceipt h) (Ok r) s s' ∧ rcStatus r = 1 ∧ onlyCalls s s'.
Proof.
  unfold waitForNewSwapReceipt. intros E.
  match type of E with pollReceipt ?n h ?use s = _ =>
    assert (∀ r, keeps onlyCalls (use r)) as Hu by (intros ?; keeps_auto);
    pose proof (onlyCalls_pollReceipt n h use Hu s) as Ho end.
  rewrite E in Ho. apply pollReceipt_inv in E as (r' & s1 & s2 & Hs & Hr & ->); [| done].
  destruct (Z.eqb_spec (rcStatus r') 1) as [H1s|]; simpl in Hr; [| done].
  inversion Hr; subst. auto.
Qed.

Lemma CheckCode_inv addr s s' :
  onSys (CheckSwapCreatorContractCode expectedSwapCreatorCode addr) s = (Done (Ok tt), s') →
  saw (CodeAt addr) (Ok expectedSwapCreatorCode) s s' ∧ onlyCalls s s'.
Proof.
  intros E. apply onSys_inv in E as (y & E & ->).
  unfold CheckSwapCreatorContractCode, checkCode in E.
  apply pbind_inv_Done in E as ([code|e] & s1 & Hm & E); [| done].
  apply pbind_inv_Done in Hm as ([c|e] & s2 & Hm & E2); [| by inversion E2].
  inversion E2; subst. clear E2.
  destruct (bool_decide _); [| done]. simpl in E.
  destruct (bool_decide_reflect (expectedSwapCreatorCode = code)) as [->|]; [| done].
  inversion E; subst. unfold ext in Hm. injection Hm as Ha <-. rewrite Ha.
  split; [by exists [], [] |]. repeat split. by exists [Obs (CodeAt addr) (Ok code)].
Qed.

Lemma setContract_inv addr s s' :
  setContract addr s = (Done (Ok tt), s') →
  sst s' = setSwapCreatorAddr addr (sst s) ∧ mgr (sys s') = mgr (sys s) ∧ forward s s'.
Proof.
  unfold setContract. intros E. apply pbind_inv_Done in E as ([] & s1 & Hm & E).
  inversion Hm; subst; clear Hm. apply try_inv_Ok in E as (x & s2 & Hm & E).
  apply extS_inv in Hm as (_ & E2 & F2 & G2). apply pbind_inv_Done in E as ([] & s3 & Hm & E).
  apply extS_inv in Hm as (_ & E3 & F3 & G3). inversion E; subst.
  rewrite E3, E2, F3, F2. split; [done |]. split; [done |]. etrans; [| exact G3].
  etrans; [| exact G2]. by exists [].
Qed.

(** The value in the contract's units of a standard amount of its asset. *)
Definition assetValue (amt : Decimal) (asset : Address) (v : Z) (s s' : MS) : Prop :=
  ∃ a, EthAssetAmount_BigInt a = Done v ∧
  if IsToken asset
  then ∃ token, saw (ERC20Info asset) (Ok token) s s' ∧
         (ExceedsDecimals amt (tokNumDecimals token)).1 = false ∧
         NewTokenAmountFromDecimals (ExceedsDecimals amt (tokNumDecimals token)).2 token = Done a
  else ∃ w, (ExceedsDecimals amt NumEtherDecimals).1 = false ∧
         EtherToWei (ExceedsDecimals amt NumEtherDecimals).2 = Done w ∧ a = WeiAmount w.

Lemma getEthAssetAmount_inv amt asset a v s s' :
  getEthAssetAmount amt asset s = (Done (Ok a), s') → EthAssetAmount_BigInt a = Done v →
  assetValue amt asset v s s' ∧ onlyCalls s s'.
Proof.
  unfold getEthAssetAmount, assetValue. intros E Hv. destruct (IsToken asset).
  - apply try_inv_Ok in E as (token & s1 & Hm & E). apply mapErr_inv_Ok in Hm.
    apply extS_inv in Hm as (Hs & Ho). destruct (ExceedsDecimals _ _) as [[] amt'] eqn:Hx; [done |].
    apply pbind_inv_Done in E as (a' & s2 & Hp & E). apply pure_inv in Hp as [Hp ->].
    inversion E; subst. split; [| done]. exists a. split; [done |]. exists token. by rewrite Hx.
  - destruct (ExceedsDecimals _ _) as [[] amt'] eqn:Hx; [done |].
    apply pbind_inv_Done in E as (w & s2 & Hp & E). apply pure_inv in Hp as [Hp ->].
    inversion E; subst. split; [| reflexivity]. exists (WeiAmount w). split; [done |]. by exists w.
Qed.

(** The New event found in the receipt agrees with what the maker expects. *)
Record eventChecks (ss : swapState) (ev : SwapCreatorNew) (swap : SwapCreatorSwap) : Prop := {
  ec_id : evSwapID ev = contractSwapID ss;
  ec_claim : ∃ ours, secp256k1Pub ss = Some ours ∧ evClaimKey ev = Secp256k1_Keccak256 ours;
  ec_refund : ∃ theirs, xmrtakerSecp256K1PublicKey ss = Some theirs ∧
                evRefundKey ev = Secp256k1_Keccak256 theirs;
  ec_asset : evAsset ev = swAsset swap;
  ec_value : evValue ev = swValue swap
}.

Lemma checkContract_inv h s s' :
  checkContract h s = (Done (Ok tt), s') →
  onlyCalls s s' ∧
  ∃ txp r ev swap i,
    saw (TransactionByHash h) (Ok txp) s s' ∧ txTo txp.1 = Some (swapCreatorAddr (sst s)) ∧
    saw (WaitForReceipt h) (Ok r) s s' ∧ rcStatus r ≠ 0 ∧
    findNewLog (rcLogs r) = Some ev ∧
    contractSwap (sst s) = Some swap ∧ eventChecks (sst s) ev swap ∧
    infos (mgr (sys s)) !! info (sst s) = Some i ∧
    assetValue (iExpectedAmount i) (swAsset swap) (swValue swap) s s'.
Proof.
  unfold checkContract. intros E.
  apply try_inv_Ok in E as (txp & s1 & Hm & E). apply mapErr_inv_Ok in Hm.
  apply extS_inv in Hm as (Htx & Ho1).
  apply pbind_inv_Done in E as (addr & s2 & Hm & E). apply getS_inv in Hm as [-> ->].
  destruct (bool_decide_reflect (txTo txp.1 = Some (swapCreatorAddr (sst s1)))) as [Hto|]; [| done].
  simpl in E. apply try_inv_Ok in E as (r & s2 & Hm & E). apply mapErr_inv_Ok in Hm.
  apply extS_inv in Hm as (Hr & Ho2).
  destruct (Z.eqb_spec (rcStatus r) 0) as [|Hst]; [done |].
  destruct (findNewLog (rcLogs r)) as [ev|] eqn:Hev; [| done].
  apply pbind_inv_Done in E as (id & s3 & Hm & E). apply getS_inv in Hm as [-> ->].
  destruct (bool_decide_reflect (evSwapID ev = contractSwapID (sst s2))) as [Hid|]; [| done]. simpl in E.
  apply pbind_inv_Done in E as (ours & s3 & Hm & E). apply derefS_inv in Hm as [Hours ->].
  destruct (bool_decide_reflect (evClaimKey ev = Secp256k1_Keccak256 ours)) as [Hck|]; [| done]. simpl in E.
  apply pbind_inv_Done in E as (theirs & s3 & Hm & E). apply derefS_inv in Hm as [Htheirs ->].
  destruct (bool_decide_reflect (evRefundKey ev = Secp256k1_Keccak256 theirs)) as [Hrk|]; [| done]. simpl in E.
  apply pbind_inv_Done in E as (swap & s3 & Hm & E). apply derefS_inv in Hm as [Hsw ->].
  destruct (bool_decide_reflect (swAsset swap = evAsset ev)) as [Has|]; [| done]. simpl in E.
  destruct (Z.eqb_spec (swValue swap) (evValue ev)) as [Hva|]; [| done]. simpl in E.
  apply pbind_inv_Done in E as (i & s3 & Hm & E). apply readS_inv in Hm as [Hi ->].
  apply try_inv_Ok in E as (a & s3 & Hm & E).
  apply pbind_inv_Done in E as (v & s4 & Hp & E). apply pure_inv in Hp as [Hp ->].
  destruct (Z.eqb_spec (swValue swap) v) as [Hv|]; [| done]. simpl in E. inversion E; subst s3.
  subst v. eapply getEthAssetAmount_inv in Hm as [Hval Ho3]; [| done].
  assert (onlyCalls s s2) as Ho by (etrans; eauto). destruct Ho as (Es & Em & Ef).
  rewrite Es, Em in *. destruct Ho1 as (Es1 & _ & Ef1). rewrite Es1 in *.
  destruct Ho2 as (_ & _ & Ef2). destruct Ho3 as (Es3 & Em3 & Ef3).
  split. { split; [congruence |]. split; [congruence | etrans; eauto]. }
  exists txp, r, ev, swap, i. split; [eapply saw_later; [exact Htx | etrans; eauto] |]. split; [done |].
  split; [apply (saw_later _ _ s s2); [by apply (saw_earlier _ _ s s1) | done] |].
  repeat (split; [first [done | constructor; eauto] |]).
  destruct Hval as (a' & Ha & Hval). exists a'. split; [done |].
  destruct (IsToken (swAsset swap)); [| done]. destruct Hval as (t & Ht & Hval). exists t.
  split; [eapply saw_earlier; eauto | done].
Qed.

Lemma timeSub_exact x y T : 0 ≤ T < int64_max → timeSub x y = T → x = y + T.
Proof. unfold timeSub, clampDuration, int64_max, int64_min. lia. Qed.

Lemma timeSub_abs_le x y D : 0 ≤ D < int64_max → durationAbs (timeSub x y) ≤ D → Z.abs (x - y) ≤ D.
Proof.
  unfold durationAbs, timeSub, clampDuration. intros HD.
  destruct (Z.leb_spec 0 (Z.max int64_min (Z.min int64_max (x - y)))).
  - unfold int64_max, int64_min in *. lia.
  - destruct (Z.eqb_spec (Z.max int64_min (Z.min int64_max (x - y))) int64_min);
      unfold int64_max, int64_min in *; lia.
Qed.

Lemma SwapTimeoutFromEnv_range env T : SwapTimeoutFromEnv env = Done T → 0 ≤ T < int64_max.
Proof.
  unfold SwapTimeoutFromEnv. destruct env; intros [= <-];
    unfold Hour, Minute, Second, int64_max; lia.
Qed.

(** The timeouts the maker accepts: t2 exactly one period after t1, and t1 one
    period from now up to a twentieth of it. *)
Definition timeoutsOk (swap : SwapCreatorSwap) (s s' : MS) : Prop :=
  Env = Development ∨
  ∃ T now, SwapTimeoutFromEnv Env = Done T ∧ saw Now now s s' ∧
    timeUnix (swTimeout2 swap) = timeUnix (swTimeout1 swap) + T ∧
    Z.abs (now + T - timeUnix (swTimeout1 swap)) ≤ T / 20.

Lemma setTimeouts_inv a b s s' :
  setTimeouts a b s = (Done tt, s') →
  sst s' = setT2 (timeUnix b) (setT1 (timeUnix a) (sst s)) ∧ trace (sys s') = trace (sys s) ∧
  ∃ i, infos (mgr (sys s)) !! info (sst s) = Some i ∧
       infos (mgr (sys s')) !! info (sst s) = Some (SetTimeouts (Some (timeUnix a)) (Some (timeUnix b)) i).
Proof.
  unfold setTimeouts. intros E.
  apply pbind_inv_Done in E as ([] & s1 & Hm & E). inversion Hm; subst; clear Hm.
  apply pbind_inv_Done in E as ([] & s2 & Hm & E). inversion Hm; subst; clear Hm.
  apply pbind_inv_Done in E as (l & s3 & Hm & E). apply getS_inv in Hm as [-> ->].
  apply onSys_inv in E as (y & E & ->). apply updateInfo_inv in E as (i & Hi & ->). simpl in *.
  split; [done |]. split; [done |]. exists i. split; [done |]. by rewrite lookup_insert_eq.
Qed.

Lemma checkAndSetTimeouts_inv swap s s' :
  checkAndSetTimeouts (swTimeout1 swap) (swTimeout2 swap) s = (Done (Ok tt), s') →
  sst s' = setT2 (timeUnix (swTimeout2 swap)) (setT1 (timeUnix (swTimeout1 swap)) (sst s)) ∧
  forward s s' ∧ timeoutsOk swap s s' ∧
  ∃ i, infos (mgr (sys s)) !! info (sst s) = Some i ∧
       infos (mgr (sys s')) !! info (sst s) =
         Some (SetTimeouts (Some (timeUnix (swTimeout1 swap))) (Some (timeUnix (swTimeout2 swap))) i).
Proof.
  unfold checkAndSetTimeouts. intros E.
  apply pbind_inv_Done in E as ([] & s1 & Hm & E). apply setTimeouts_inv in Hm as (Hs1 & Ht1 & i & Hi & Hi').
  destruct (bool_decide_reflect (Env = Development)) as [Hd|Hd].
  { inversion E; subst. split; [done |]. split; [by exists [] |]. split; [by left | eauto]. }
  apply pbind_inv_Done in E as (T & s2 & Hm & E). apply pure_inv in Hm as [HT ->].
  apply pbind_inv_Done in E as (x1 & s2 & Hm & E). apply getS_inv in Hm as [-> ->].
  apply pbind_inv_Done in E as (x2 & s2 & Hm & E). apply getS_inv in Hm as [-> ->].
  rewrite Hs1 in E. simpl in E.
  destruct (Z.eqb_spec (timeSub (timeUnix (swTimeout2 swap)) (timeUnix (swTimeout1 swap))) T) as [Heq|]; [| done].
  simpl in E. apply pbind_inv_Done in E as (now & s2 & Hm & E).
  apply extS_inv in Hm as (Hnow & Hs2 & Hm2 & Hf2).
  destruct (Z.ltb_spec (T / 20) (durationAbs (timeSub (now + T) (timeUnix (swTimeout1 swap))))) as [|Hle]; [done |].
  inversion E; subst. pose proof (SwapTimeoutFromEnv_range _ _ HT) as HR.
  assert (forward s s1) as Hf1 by (exists []; done).
  split; [congruence |]. split; [by etrans |]. split.
  - right. eexists _, now. split; [done |]. split; [by eapply saw_earlier |].
    split; [by apply timeSub_exact |]. apply timeSub_abs_le; [| done].
    split; [apply Z.div_pos; lia |]. apply Z.div_lt_upper_bound; lia.
  - exists i. rewrite Hm2. auto.
Qed.

(** The address both parties' keys make. *)
Definition lockAddress (ss : swapState) (addr : bytes) : Prop :=
  ∃ spend view ours,
    xmrtakerPublicSpendKey ss = Some spend ∧ xmrtakerPrivateViewKey ss = Some view ∧
    pubkeys ss = Some ours ∧
    PublicKeyPair_Address (SumSpendAndViewKeys (NewPublicKeyPair spend (Public view)) ours) Env = Done addr.

Lemma lockFunds_inv amt s :
  ¬ emits noSend s (lockFunds amt s).2 →
  ∃ dest ans i now pre,
    lockAddress (sst s) dest ∧ infos (mgr (sys s)) !! info (sst s) = Some i ∧
    trace (sys (lockFunds amt s).2) =
      Obs (XMRTransfer dest amt MinSpendConfirmations) ans ::
      Obs (PutSwap (SetStatus now XMRLocked i)) (Ok tt) :: pre ++ trace (sys s) ∧
    forallb inert pre = true.
Proof.
  unfold lockFunds. intros Hn.
  apply emits_bind_inv in Hn as (spend & s1 & Hm & _ & Hn & ->); [| keeps_auto].
  apply derefS_inv in Hm as [Hspend ->].
  apply emits_bind_inv in Hn as (view & s1 & Hm & _ & Hn & ->); [| keeps_auto].
  apply derefS_inv in Hm as [Hview ->].
  apply emits_bind_inv in Hn as (ours & s1 & Hm & _ & Hn & ->); [| keeps_auto].
  apply derefS_inv in Hm as [Hours ->]. cbn zeta in *.
  apply emits_bind_inv in Hn as (dest & s1 & Hm & _ & Hn & ->); [| keeps_auto].
  apply pure_inv in Hm as [Hdest ->].
  apply emits_try_inv in Hn as (bal & s1 & Hm & _ & Hn & ->); [| keeps_auto].
  pose proof (extS_trace _ _ _ _ Hm) as Ht1. apply extS_inv in Hm as (_ & Hs1 & Hm1 & _).
  apply emits_try_inv in Hn as ([] & s2 & Hm & _ & Hn & ->); [| keeps_auto].
  apply mapErr_inv_Ok in Hm. apply setNextExpected_inv in Hm as (_ & _ & _ & now & i & pre & Hi & Ht2 & Hin).
  destruct (extS (XMRTransfer dest amt MinSpendConfirmations) s2) as [o s3] eqn:E.
  assert (∃ ans, o = Done ans) as [ans ->] by (unfold extS, onSys, zoom, ext in E; inversion E; eauto).
  apply extS_trace in E. simpl. rewrite Hs1, Hm1 in Hi.
  exists dest, ans, i, now, (pre ++ [Obs XMRGetBalance (Ok bal)]).
  split; [by exists spend, view, ours |]. split; [done |].
  rewrite E, Ht2, Ht1, <- app_assoc. split; [done |]. by rewrite forallb_app, Hin.
Qed.

(** Everything that was checked between [s] and [s'] about a NotifyETHLocked message. *)
Record lockChecks (msg : NotifyETHLocked) (i : Info) (s s' : MS) : Prop := {
  lc_address : nlAddress msg ≠ zeroAddress;
  lc_id_set : nlContractSwapID msg ≠ EmptyHash;
  lc_id : SwapID (nlContractSwap msg) = Done (nlContractSwapID msg);
  lc_mined : ∃ r, saw (TransactionReceipt (nlTxHash msg)) (Ok r) s s' ∧ rcStatus r = 1 ∧
    saw (PutContractSwapInfo (iOfferID i) (mkEthInfo (rcBlockNumber r) (nlContractSwapID msg)
           (nlContractSwap msg) (nlAddress msg))) (Ok tt) s s';
  lc_code : saw (CodeAt (nlAddress msg)) (Ok expectedSwapCreatorCode) s s';
  lc_to : ∃ txp, saw (TransactionByHash (nlTxHash msg)) (Ok txp) s s' ∧ txTo txp.1 = Some (nlAddress msg);
  lc_event : ∃ r ev, saw (WaitForReceipt (nlTxHash msg)) (Ok r) s s' ∧ rcStatus r ≠ 0 ∧
    findNewLog (rcLogs r) = Some ev ∧
    eventChecks (setContractSwapID (nlContractSwapID msg) (sst s)) ev (nlContractSwap msg);
  lc_value : assetValue (iExpectedAmount i) (swAsset (nlContractSwap msg)) (swValue (nlContractSwap msg)) s s';
  lc_timeouts : timeoutsOk (nlContractSwap msg) s s'
}.

Lemma assetValue_widen amt asset v s0 s1 s2 s3 :
  assetValue amt asset v s1 s2 → forward s0 s1 → forward s2 s3 → assetValue amt asset v s0 s3.
Proof.
  intros (a & Ha & Hx) F G. exists a. split; [done |]. destruct (IsToken asset); [| done].
  destruct Hx as (t & Ht & Hx). exists t. split; [by eapply saw_widen | done].
Qed.

Lemma timeoutsOk_widen swap s0 s1 s2 s3 :
  timeoutsOk swap s1 s2 → forward s0 s1 → forward s2 s3 → timeoutsOk swap s0 s3.
Proof.
  intros [Hd|(T & now & HT & Hn & Hx)] F G; [by left | right]. exists T, now. split; [done |].
  split; [by eapply saw_widen | done].
Qed.

Lemma mapErr_snd {A} f (m : prog MS (result A)) s : (mapErr f m s).2 = (m s).2.
Proof. unfold mapErr, pbind. by destruct (m s) as [[?|?| |] ?]. Qed.

Lemma forallb_true {A} (l : list A) : forallb (fun _ => true) l = true.
Proof. by induction l. Qed.

Lemma forallb_weaken {A} (p q : A → bool) l :
  (∀ x, p x = true → q x = true) → forallb p l = true → forallb q l = true.
Proof. rewrite !forallb_forall. auto. Qed.

Lemma send_not_emitted (s s' : MS) : existsb isSend (newObs s s') = true → ¬ emits noSend s s'.
Proof. apply not_emitted. Qed.

(** The end of the handler, from the check of the contract on. *)
Definition lockRest (msg : NotifyETHLocked) : prog MS (result unit) :=
  _ <-? checkContract (nlTxHash msg) ;;
  _ <-? checkAndSetTimeouts (swTimeout1 (nlContractSwap msg)) (swTimeout2 (nlContractSwap msg)) ;;
  i <- readS ;;
  amount <- pure (MoneroToPiconero (iProvidedAmount i)) ;;
  mapErr (Wrapf "failed to lock funds") (lockFunds amount).

Lemma handleNotify_reaches msg s :
  ¬ emits noSend s (handleNotifyETHLocked expectedSwapCreatorCode msg s).2 →
  ∃ s1 i r,
    nlAddress msg ≠ zeroAddress ∧ nlContractSwapID msg ≠ EmptyHash ∧
    SwapID (nlContractSwap msg) = Done (nlContractSwapID msg) ∧
    infos (mgr (sys s)) !! info (sst s) = Some i ∧
    saw (TransactionReceipt (nlTxHash msg)) (Ok r) s s1 ∧ rcStatus r = 1 ∧
    saw (CodeAt (nlAddress msg)) (Ok expectedSwapCreatorCode) s s1 ∧
    saw (PutContractSwapInfo (iOfferID i) (mkEthInfo (rcBlockNumber r) (nlContractSwapID msg)
           (nlContractSwap msg) (nlAddress msg))) (Ok tt) s s1 ∧
    sst s1 = setSwapCreatorAddr (nlAddress msg) (setContractSwap (Some (nlContractSwap msg))
               (setContractSwapID (nlContractSwapID msg) (sst s))) ∧
    mgr (sys s1) = mgr (sys s) ∧ emits noSend s s1 ∧
    handleNotifyETHLocked expectedSwapCreatorCode msg s = lockRest msg s1 ∧
    ¬ emits noSend s1 (lockRest msg s1).2.
Proof.
  unfold handleNotifyETHLocked. intros Hsend.
  destruct (bool_decide_reflect (nlAddress msg = zeroAddress)) as [|Haddr];
    [destruct Hsend; reflexivity |].
  unfold IsHashZero in *. destruct (bool_decide_reflect (nlContractSwapID msg = EmptyHash)) as [|Hid0];
    [destruct Hsend; reflexivity |].
  apply emits_bind_inv in Hsend as (id & s1 & Hm & _ & Hn & ->); [| keeps_auto].
  apply pure_inv in Hm as [Hid ->].
  destruct (bool_decide_reflect (id = nlContractSwapID msg)) as [->|]; [| destruct Hn; reflexivity].
  simpl in Hn |- *.
  apply emits_bind_inv in Hn as ([] & s1 & Hm & Hf1 & Hn & ->); [| auto with keeps]. inversion Hm; subst; clear Hm.
  apply emits_bind_inv in Hn as ([] & s2 & Hm & Hf2 & Hn & ->); [| auto with keeps]. inversion Hm; subst; clear Hm.
  apply emits_try_inv in Hn as (r & s3 & Hm & Hf3 & Hn & ->); [| auto with keeps].
  apply waitForNewSwapReceipt_inv in Hm as (Hs3 & Hr & E3 & M3 & F3).
  apply emits_try_inv in Hn as ([] & s4 & Hm & Hf4 & Hn & ->); [| auto with keeps].
  apply CheckCode_inv in Hm as (Hs4 & E4 & M4 & F4).
  apply emits_try_inv in Hn as ([] & s5 & Hm & Hf5 & Hn & ->); [| keeps_auto].
  apply mapErr_inv_Ok in Hm. apply setContract_inv in Hm as (E5 & M5 & F5).
  apply emits_bind_inv in Hn as (oid & s6 & Hm & Hf6 & Hn & ->); [| auto with keeps].
  apply OfferID_inv in Hm as [(i & Hi & ->) ->].
  apply emits_try_inv in Hn as ([] & s6 & Hm & Hf6' & Hn & ->); [| auto with keeps].
  apply extS_inv in Hm as (Hs6 & E6 & M6 & F6). simpl in *.
  assert (infos (mgr (sys s)) !! info (sst s) = Some i) as Hi'
    by (rewrite E5, E4, E3, M5, M4, M3 in Hi; exact Hi).
  exists s6, i, r. repeat (split; [done |]).
  match type of Hs3 with saw _ _ ?x _ => assert (forward s x) as F0 by (exists []; done) end.
  assert (forward s s3) as F03 by (etrans; eauto). assert (forward s s4) as F04 by (etrans; eauto).
  assert (forward s s5) as F05 by (etrans; eauto). assert (forward s5 s6) as F56 by done.
  assert (forward s4 s6) as F46 by (etrans; eauto). assert (forward s3 s6) as F36 by (etrans; eauto).
  split; [by eapply saw_widen |]. split; [done |]. split; [by eapply saw_widen |].
  split; [by eapply saw_earlier |]. split; [congruence |]. split; [congruence |].
  split; [| done]. etrans; [exact Hf1 |]. etrans; [exact Hf2 |]. etrans; [exact Hf3 |].
  etrans; [exact Hf4 |]. by etrans.
Qed.

(** C3: safety.  When the handler of NotifyETHLocked sends XMR, the contract swap,
    its transaction, its code, its New event, its value and its timeouts have been
    checked and the recovery data stored; the XMR goes to the address made of both
    parties' keys, in the amount of the swap, and the call before it wrote
    XMRLocked to the database; and it is the only XMR sent. *)
Theorem XMR_sent_only_after_checks (msg : NotifyETHLocked) (s : MS) :
  let s' := (handleNotifyETHLocked expectedSwapCreatorCode msg s).2 in
  existsb isSend (newObs s s') = true →
  ∃ i dest amount ans now pre,
    infos (mgr (sys s)) !! info (sst s) = Some i ∧
    lockChecks msg i s s' ∧ lockAddress (sst s) dest ∧
    MoneroToPiconero (iProvidedAmount i) = Done amount ∧
    newObs s s' =
      Obs (XMRTransfer dest amount MinSpendConfirmations) ans ::
      Obs (PutSwap (SetStatus now XMRLocked
             (SetTimeouts (Some (timeUnix (swTimeout1 (nlContractSwap msg))))
                (Some (timeUnix (swTimeout2 (nlContractSwap msg)))) i))) (Ok tt) :: pre ∧
    forallb noSend pre = true.
Proof.
  intros s' Hsend. apply send_not_emitted in Hsend. unfold s' in *; clear s'.
  apply handleNotify_reaches in Hsend
    as (s1 & i & r & Haddr & Hid0 & Hid & Hi & Hr & Hr1 & Hcode & Hput & Es1 & Em1 & Hf1 & -> & Hn).
  unfold lockRest in *.
  apply emits_try_inv in Hn as ([] & s2 & Hm & Hf2 & Hn & ->); [| auto with keeps].
  apply checkContract_inv in Hm as ((Es2 & Em2 & F2) & txp & r2 & ev & swap & i2 & Htx & Hto & Hw & Hst & Hev & Hsw & Hec & Hi2 & Hval).
  apply emits_try_inv in Hn as ([] & s3 & Hm & Hf3 & Hn & ->); [| auto with keeps].
  apply checkAndSetTimeouts_inv in Hm as (Es3 & F3 & Hto3 & i3 & Hi3 & Hi3').
  apply emits_bind_inv in Hn as (i4 & s4 & Hm & _ & Hn & ->); [| auto with keeps].
  apply readS_inv in Hm as [Hi4 ->].
  apply emits_bind_inv in Hn as (amt & s4 & Hm & _ & Hn & ->); [| keeps_auto].
  apply pure_inv in Hm as [Hamt ->]. apply emits_mapErr_inv in Hn.
  apply lockFunds_inv in Hn as (dest & ans & i5 & now & pre & Hdest & Hi5 & Htr & Hin).
  rewrite Es1, Em1 in Hi2. rewrite Es2, Es1, Em2, Em1 in Hi3. simpl in Hi2, Hi3.
  assert (i2 = i) as -> by congruence. assert (i3 = i) as -> by congruence.
  rewrite Es3, Es2, Es1 in Hdest, Hi4, Hi5. rewrite Es2, Es1 in Hi3'. simpl in Hi4, Hi5, Hi3'.
  rewrite Hi3' in Hi4, Hi5. injection Hi4 as <-. injection Hi5 as <-.
  rewrite Es1 in Hsw, Hec, Hto. injection Hsw as <-. simpl in Hto.
  rewrite mapErr_snd. set (s' := (lockFunds amt s3).2) in *.
  assert (emits noSend s s3) as Hs3 by (etrans; [exact Hf1 |]; by etrans).
  destruct Hs3 as (n3 & En3 & Hn3). unfold sysOf, msHasSys in En3.
  match type of Htr with _ = ?a :: ?b :: _ =>
    assert (trace (sys s') = (a :: b :: pre ++ n3) ++ trace (sys s)) as Htr'
      by (rewrite Htr, En3; simpl; by rewrite app_assoc) end.
  exists i, dest, amt, ans, now, (pre ++ n3). rewrite (newObs_eq _ _ _ Htr').
  assert (forward s3 s') as F3'. { eexists (_ :: _ :: pre). split; [exact Htr |]. apply forallb_true. }
  assert (forward s s1) as F1 by exact (emits_forward _ _ _ Hf1).
  assert (forward s2 s') as F2' by (etrans; eauto). assert (forward s s2) as F02 by (etrans; eauto).
  assert (forward s1 s') as F1' by (etrans; eauto).
  split; [done |]. split.
  { constructor; [done | done | done | | by eapply saw_later | | | by eapply assetValue_widen
                 | by eapply timeoutsOk_widen].
    - exists r. split; [by eapply saw_later |]. split; [done |]. by eapply saw_later.
    - exists txp. split; [by eapply saw_widen | done].
    - exists r2, ev. split; [by eapply saw_widen |]. repeat (split; [done |]).
      destruct Hec as [X1 X2 X3 X4 X5]. by constructor. }
  split; [exact Hdest |]. split; [done |]. split; [done |].
  rewrite forallb_app, Hn3. by rewrite (forallb_weaken _ _ _ inert_noSend Hin).
Qed.

End locking.

(** ** Events out of order, and aborting *)

Section errors.
Context `{World} `{!InfoJson} `{Apd} `{AbiLib} (expectedSwapCreatorCode : bytes).

(** The channel of an event that can be handled: nothing sent, not closed. *)
Definition freshCh (ch : nat) (s : MS) : Prop := errChs (sst s) !! ch = Some (mkErrChan None false).

(** What remains of a refused event: its sender gets the error. *)
Definition refused (ch : nat) (e : error) (s : MS) : MS :=
  mkMS _ _ (sys s) (setErrChs (<[ch := mkErrChan (Some (Some e)) true]> (errChs (sst s))) (sst s)).

Lemma refuse_run ch e s :
  freshCh ch s → deferring (closeErr ch) (sendErr ch e) s = (Done tt, refused ch e s).
Proof.
  intros Hch. unfold deferring, sendErr, closeErr, derefS, pbind, getS, gets, pure, deref. rewrite Hch. simpl.
  rewrite lookup_insert_eq. simpl. rewrite insert_insert_eq. done.
Qed.

(** Error path.  An event that is not the one the swap expects is refused: its
    sender gets an error, no call is made and the swap is left as it was. *)
Theorem unexpected_event_refused (fuel : nat) (s : MS) (msg : NotifyETHLocked) (ch : nat) :
  freshCh ch s →
  (next s ≠ EventETHLockedType →
     handleEvent expectedSwapCreatorCode fuel (EventETHLocked msg ch) s =
       (Done tt, refused ch (errorf "nextExpectedEvent was not EventETHLockedType") s)) ∧
  (next s ≠ EventContractReadyType →
     handleEvent expectedSwapCreatorCode fuel (EventContractReady ch) s =
       (Done tt, refused ch (errorf "nextExpectedEvent was not EventContractReadyType") s)).
Proof.
  intros Hch. unfold next. split; intros Hn; rewrite <- (refuse_run _ _ _ Hch); unfold handleEvent, deferring, pbind, getS, gets;
    by rewrite bool_decide_eq_false_2.
Qed.

(** The database accepts every write. *)
Definition dbWrites : Prop :=
  (∀ n i, answer _ n (PutSwap i) = Ok tt) ∧ (∀ n o, answer _ n (PutOffer o) = Ok tt).

(** A swap that is registered, not yet over, with its offer taken. *)
Record liveSwap (i : Info) (s : MS) : Prop := {
  lv_info : infos (mgr (sys s)) !! info (sst s) = Some i;
  lv_ongoing : ongoing (mgr (sys s)) !! iOfferID i = Some (info (sst s));
  lv_room : statusRoom (iOfferID i) (mgr (sys s));
  lv_offer : IsSet (offer (sst s)) = true;
  lv_taken : offerCache (sys s) !! oID (offer (sst s)) = None;
  lv_done : doneClosed (sst s) = false
}.

Lemma clear_run st b i s :
  IsOngoing st = Done b → infos (mgr (sys s)) !! info (sst s) = Some i → statusRoom (iOfferID i) (mgr (sys s)) →
  ∃ now y, clearNextExpectedEvent st s = (Done tt, mkMS _ _ y (setNextExpectedEvent EventNoneType (sst s))) ∧
    infos (mgr y) = <[info (sst s) := SetStatus now st i]> (infos (mgr (sys s))) ∧
    ongoing (mgr y) = ongoing (mgr (sys s)) ∧ past (mgr y) = past (mgr (sys s)) ∧
    offerCache y = offerCache (sys s).
Proof.
  intros Hb Hi Hroom. unfold clearNextExpectedEvent, updateStatus, OfferID, readS, onSys, zoom, modS, modify,
    getS, gets, pbind, Info_SetStatus, updateInfo, readInfo, withManager, modify, timeNow.
  simpl. unfold pbind, gets, modify. simpl. rewrite Hi. simpl. rewrite lookup_insert_eq. simpl.
  set (y0 := setMgr _ _).
  destruct (PushNewStatus_sys (iOfferID i) st b y0 Hb Hroom) as (m' & -> & Hm1 & Hm2 & Hm3).
  eexists _, _. split; [reflexivity |]. simpl. by rewrite Hm1, Hm2, Hm3.
Qed.

Lemma exitCleanup_run i s :
  dbWrites → infos (mgr (sys s)) !! info (sst s) = Some i →
  ongoing (mgr (sys s)) !! iOfferID i = Some (info (sst s)) → iStatus i ≠ CompletedSuccess →
  IsSet (offer (sst s)) = true → offerCache (sys s) !! oID (offer (sst s)) = None →
  doneClosed (sst s) = false →
  ∃ now y, exitCleanup s = (Done tt, mkMS _ _ y (setDoneClosed true (setCancelled true (sst s)))) ∧
    infos (mgr y) = <[info (sst s) := MarkSwapComplete now i]> (infos (mgr (sys s))) ∧
    ongoing (mgr y) = delete (iOfferID i) (ongoing (mgr (sys s))) ∧
    past (mgr y) = <[iOfferID i := info (sst s)]> (past (mgr (sys s))) ∧
    offerCache y = <[oID (offer (sst s)) := (offer (sst s), NewOfferExtra (oeUseRelayer (offerExtra (sst s))))]>
                     (offerCache (sys s)).
Proof.
  intros [Hp Ho] Hi Hk Hst Hset Htaken Hdone.
  unfold exitCleanup, OfferID, readS, pbind, getS, gets, onSys, zoom, readInfo. simpl. rewrite Hi. simpl.
  set (y0 := mkSys _ _ _ _ _ _).
  destruct (CompleteOngoingSwap_sys (info (sst s)) i _ y0 Hi Hk) as (now & r & y1 & -> & -> & Hc & H1i & H1o & H1p & _ & _ & H1c).
  rewrite Hp. simpl. rewrite H1i, lookup_insert_eq. simpl. rewrite bool_decide_eq_false_2 by done. simpl.
  rewrite Hset. unfold AddOffer, tryBind, pbind, gets, withOffers, modify. simpl.
  assert (offerCache y1 !! oID (offer (sst s)) = None) as -> by (by rewrite H1c). simpl. rewrite Ho. simpl.
  unfold closeDone, pbind, getS, gets. simpl. rewrite Hdone. simpl.
  eexists _, _. split; [reflexivity |]. simpl. rewrite H1c. done.
Qed.

(** Functional.  Exiting a live swap that still waits for the ETH aborts it: the
    swap is filed as a completed abort, its offer is on sale again, its goroutines
    are stopped, and neither XMR nor the secret has left the maker. *)
Theorem exit_before_lock_aborts (fuel : nat) (i : Info) (s : MS) :
  dbWrites → liveSwap i s → next s = EventETHLockedType →
  ∃ i' s', exit (S fuel) s = (Done (Ok tt), s') ∧
    next s' = EventNoneType ∧ cancelled (sst s') = true ∧ doneClosed (sst s') = true ∧
    infos (mgr (sys s')) !! info (sst s) = Some i' ∧ iStatus i' = CompletedAbort ∧ is_Some (iEndTime i') ∧
    ongoing (mgr (sys s')) !! iOfferID i = None ∧ past (mgr (sys s')) !! iOfferID i = Some (info (sst s)) ∧
    offerCache (sys s') !! oID (offer (sst s)) =
      Some (offer (sst s), NewOfferExtra (oeUseRelayer (offerExtra (sst s)))) ∧
    forallb inert (newObs s s') = true.
Proof.
  intros Hdb [Hi Hk Hroom Hset Htaken Hdone] Hn.
  destruct (clear_run CompletedAbort false i s eq_refl Hi Hroom) as (now & y1 & Hc & H1i & H1o & H1p & H1c).
  set (s1 := mkMS _ _ y1 _) in Hc.
  destruct (exitCleanup_run (SetStatus now CompletedAbort i) s1 Hdb) as (now2 & y2 & Hx & H2i & H2o & H2p & H2c);
    simpl; rewrite ?H1i, ?H1o, ?H1c, ?lookup_insert_eq; try done.
  exists (MarkSwapComplete now2 (SetStatus now CompletedAbort i)).
  assert (exit (S fuel) s = (Done (Ok tt), mkMS _ _ y2 (setDoneClosed true (setCancelled true (sst s1))))) as E.
  { simpl. unfold deferring, pbind at 1, getS, gets. unfold next in Hn. rewrite Hn.
    unfold pbind. rewrite Hc. simpl. by rewrite Hx. }
  eexists. split; [exact E |]. simpl. rewrite H2i, H2o, H2p, H2c. simpl.
  rewrite !lookup_insert_eq, lookup_delete_eq.
  repeat (split; [first [done | by eauto] |]).
  pose proof (proj1 (outside_clear CompletedAbort s)) as He1. rewrite Hc in He1.
  pose proof (proj2 (steady_exitCleanup s1)) as He2. rewrite Hx in He2.
  apply (emits_newObs (S := MS)). by etrans.
Qed.

End errors.

End MakerProofs.
