(* ===== verification/MakerWitness.v ===== *)
(** * Concrete runs of the XMR maker

    The theorems of [MakerProofs] at runs in the sample world, and runs that show
    defects of the code. *)

From stdpp Require Import base gmap list strings.
From Stdlib Require Import ZArith Strings.Byte.
From S2P Require Import Prelude Coins RefApd Types TypesProofs Bytes Swap SwapProofs Offers Crypto CryptoProofs Contracts External SampleWorld Maker TraceLogic MakerProofs.

Open Scope Z_scope.
Open Scope go_scope.

Module MakerWitness.
Import Maker MakerProofs.

(** ** A swap of 2.5 XMR for 0.5 ETH *)

Definition offerID : Hash := repeat x07 32.
Definition theOffer : Offer :=
  mkOffer _ CurOfferVersion offerID ProvidesXMR (Some (apdNew 1 0)) (Some (apdNew 3 0))
    (Some (apdNew 2 (-1))) EthAssetETH 9.

Definition takerSecp : Secp256k1PublicKey := NewPublicKey (repeat x05 32) (repeat x06 32).

Definition lockedSwap (claimer asset : Address) : SwapCreatorSwap :=
  mkSwap takerAddr claimer (Secp256k1_Keccak256 (kpSecp256k1 sampleKeys)) (Secp256k1_Keccak256 takerSecp)
    1700003600 1700007200 asset (5 * 10 ^ 17) 7.

Definition idOf (sw : SwapCreatorSwap) : Hash :=
  match SwapID sw with Done id => id | _ => EmptyHash end.

Definition receiptOf (sw : SwapCreatorSwap) : Receipt :=
  mkReceipt 1 [newLogOf contractAt (idOf sw) sw] lockTx 100.

Definition honest : SwapCreatorSwap := lockedSwap makerAddr EthAssetETH.

Definition msgOf (sw : SwapCreatorSwap) : NotifyETHLocked :=
  mkNotifyETHLocked contractAt lockTx (idOf sw) sw.

Definition theInfo (st : Status) : Info :=
  NewInfo 5 5 "taker" offerID ProvidesXMR (apdNew 25 (-1)) (apdNew 5 (-1)) (Some (apdNew 2 (-1)))
    EthAssetETH st 2990.

Definition startSys (st : Status) : Sys :=
  mkSys _ _ 0 [] (mkManager _ {[ 0%nat := theInfo st ]} 1 {[ offerID := 0%nat ]} ∅ ∅ ∅ 0) ∅.

(** A maker's swap after the exchange of keys, with events in its channel. *)
Definition startState (next : EventType) (events : list Event) (chs : gmap nat errChan) : swapState :=
  mkState _ _ 0 theOffer (NewOfferExtra false) (Some (kpProof sampleKeys)) (Some (kpSecp256k1 sampleKeys))
    (Some (kpPrivate sampleKeys)) (Some (kpPublic sampleKeys)) zeroAddress EmptyHash None 0 0
    (Some (pt 11)) (Some (sc 12)) (Some takerSecp) 2990 next events chs (size chs) false false false.

Definition start : MS := mkMS _ _ (startSys KeysExchanged) (startState EventETHLockedType [] ∅).

Section honest_run.
#[local] Instance honestWorld : World := worldWith (receiptOf honest).

(** The message arrives, then its event is handled. *)
Definition notified : MS := (runOp (OpMessage (MsgNotifyETHLocked (msgOf honest))) start).2.
Definition locked : MS := (runHandleEvent code notified).2.

Lemma honest_steps : rtc (step code) (true, start) (true, locked).
Proof.
  eapply rtc_l; [apply (step_op code true (OpMessage (MsgNotifyETHLocked (msgOf honest))) start) |].
  eapply rtc_l; [apply (step_handle code notified) |].
  assert (isDone (runHandleEvent code notified).1 = true) as -> by (vm_compute; reflexivity).
  apply rtc_refl.
Qed.

Lemma maker_locks_once_witness :
  sends (newObs start locked) = 1%nat ∧ preceded isLockRecord isSend (newObs start locked).
Proof.
  split; [vm_compute; reflexivity |].
  exact (proj1 (proj2 (maker_locks_once code start locked true honest_steps eq_refl))).
Defined.

Lemma maker_follows_protocol_witness :
  ∃ ph', protocol Waiting (newObs start locked) ph' ∧ (true = true → phaseOf (next locked) ph').
Proof. exact (maker_follows_protocol code start locked true Waiting honest_steps eq_refl). Defined.

Lemma XMR_sent_only_after_checks_witness :
  ∃ i dest amount ans now pre,
    infos (mgr (sys start)) !! info (sst start) = Some i ∧
    lockChecks code (msgOf honest) i start (handleNotifyETHLocked code (msgOf honest) start).2 ∧
    lockAddress (sst start) dest ∧ MoneroToPiconero (iProvidedAmount i) = Done amount ∧
    newObs start (handleNotifyETHLocked code (msgOf honest) start).2 =
      Obs (XMRTransfer dest amount MinSpendConfirmations) ans ::
      Obs (PutSwap (SetStatus now XMRLocked
             (SetTimeouts (Some (timeUnix (swTimeout1 (nlContractSwap (msgOf honest)))))
                (Some (timeUnix (swTimeout2 (nlContractSwap (msgOf honest))))) i))) (Ok tt) :: pre ∧
    forallb noSend pre = true.
Proof. apply (XMR_sent_only_after_checks code (msgOf honest) start). vm_compute. reflexivity. Defined.

(** A swap whose maker has cleared the expected event, with an event queued. *)
Definition overState : MS :=
  mkMS _ _ (startSys CompletedSuccess)
    (startState EventNoneType [EventContractReady 0] {[ 0%nat := mkErrChan None false ]}).

Definition overNext : MS := (runHandleEvent code overState).2.

Lemma over_steps : rtc (step code) (true, overState) (true, overNext).
Proof.
  eapply rtc_l; [apply (step_handle code overState) |].
  assert (isDone (runHandleEvent code overState).1 = true) as -> by (vm_compute; reflexivity).
  apply rtc_refl.
Qed.

Lemma maker_over_is_final_witness :
  forallb inert (newObs overState overNext) = true ∧
  (true = true → next overNext ≠ EventETHLockedType ∧ next overNext ≠ EventContractReadyType).
Proof. exact (maker_over_is_final code overState overNext true over_steps eq_refl). Defined.

Lemma unexpected_event_refused_witness :
  handleEvent code 1 (EventContractReady 0) overState =
    (Done tt, refused 0 (errorf "nextExpectedEvent was not EventContractReadyType") overState).
Proof.
  refine (proj2 (unexpected_event_refused code 1 overState (msgOf honest) 0 _) _); [reflexivity | discriminate].
Defined.

Lemma exit_before_lock_aborts_witness :
  ∃ i' s', exit 1 start = (Done (Ok tt), s') ∧
    next s' = EventNoneType ∧ cancelled (sst s') = true ∧ doneClosed (sst s') = true ∧
    infos (mgr (sys s')) !! 0%nat = Some i' ∧ iStatus i' = CompletedAbort ∧ is_Some (iEndTime i') ∧
    ongoing (mgr (sys s')) !! offerID = None ∧ past (mgr (sys s')) !! offerID = Some 0%nat ∧
    offerCache (sys s') !! offerID = Some (theOffer, NewOfferExtra false) ∧
    forallb inert (newObs start s') = true.
Proof.
  apply (exit_before_lock_aborts 0 (theInfo KeysExchanged) start).
  - by split.
  - split; [apply lookup_singleton_eq | apply lookup_singleton_eq | apply Nat.ltb_lt; vm_compute; reflexivity
           | vm_compute; reflexivity | apply lookup_empty | reflexivity].
  - reflexivity.
Defined.

(** *** Two events that [exit] does not expect *)

(** A swap that has locked its XMR, with two exit events in its channel. *)
Definition twoExits : MS :=
  mkMS _ _ (startSys XMRLocked)
    (startState EventContractReadyType [EventExit 0; EventExit 1]
       {[ 0%nat := mkErrChan None false; 1%nat := mkErrChan None false ]}).

(** While [exit] waits for the refund or the claim of a swap with locked XMR, a second
    exit event makes it give up: the swap is filed as past with the status XMRLocked,
    its offer is on sale again, and the sender of the second event waits for ever. *)
Example second_exit_abandons_locked_swap :
  let s := (runHandleEvent code twoExits).2 in
  (runHandleEvent code twoExits).1 = Done tt ∧
  (iStatus <$> infos (mgr (sys s)) !! 0%nat) = Some XMRLocked ∧
  past (mgr (sys s)) !! offerID = Some 0%nat ∧ ongoing (mgr (sys s)) !! offerID = None ∧
  (oID ∘ fst <$> offerCache (sys s) !! offerID) = Some offerID ∧ cancelled (sst s) = true ∧
  errChs (sst s) !! 1%nat = Some (mkErrChan None false).
Proof. repeat apply conj; vm_compute; reflexivity. Qed.

End honest_run.

(** *** What the maker does not check *)

(** A token contract of the taker's choice. *)
Definition worthless : Address := repeat xdd 20.

(** The maker's offer and record ask for ETH; the taker locks the same number of
    units of another token, and the maker sends its XMR. *)
Example other_asset_accepted :
  let sw := lockedSwap makerAddr worthless in
  let W : World := worldWith (receiptOf sw) in
  existsb isSend (newObs start (handleNotifyETHLocked code (msgOf sw) start).2) = true ∧
  (iEthAsset <$> infos (mgr (sys start)) !! 0%nat) = Some EthAssetETH ∧ swAsset sw ≠ EthAssetETH.
Proof. split; [vm_compute; reflexivity |]. split; [vm_compute; reflexivity | done]. Qed.

(** The taker names itself as the claimer of the swap, and the maker, whose address is
    [makerAddr] and who can therefore never claim, sends its XMR. *)
Example other_claimer_accepted :
  let sw := lockedSwap takerAddr EthAssetETH in
  let W : World := worldWith (receiptOf sw) in
  existsb isSend (newObs start (handleNotifyETHLocked code (msgOf sw) start).2) = true ∧
  (ext ETHAddress (sys start)).1 = Done makerAddr ∧ swClaimer sw ≠ makerAddr.
Proof. split; [vm_compute; reflexivity |]. split; [vm_compute; reflexivity | done]. Qed.

(** The timeouts of the contract are 256-bit numbers, of which the maker checks the low 64
    bits: a taker that adds 2^64 seconds to both is sent the XMR, and the contract lets the
    maker claim only when the taker sets it to ready. *)
Example far_timeouts_accepted :
  let sw := mkSwap takerAddr makerAddr (swClaimCommitment honest) (swRefundCommitment honest)
              (1700003600 + 2 ^ 64) (1700007200 + 2 ^ 64) EthAssetETH (5 * 10 ^ 17) 7 in
  let W : World := worldWith (receiptOf sw) in
  existsb isSend (newObs start (handleNotifyETHLocked code (msgOf sw) start).2) = true ∧
  in_uint256 (swTimeout1 sw) ∧ Env ≠ Development.
Proof. split; [vm_compute; reflexivity |]. split; [by split | done]. Qed.

(** *** A second ready event after a failed claim *)

Section failing_claim.
#[local] Instance failingWorld : World := {|
  answer := fun A _ c =>
    match c in call B return B with
    | SenderClaim _ _ => Err (errorf "nonce too low")
    | c' => goodAnswer (receiptOf honest) _ c'
    end;
  Env := Stagenet;
  SwapCreatorAddr := contractAt;
  SwapTimeout := Hour
|}.

Definition twoReady : MS :=
  mkMS _ _ (startSys XMRLocked)
    (setContractSwap (Some honest) (startState EventContractReadyType [EventContractReady 0; EventContractReady 1]
       {[ 0%nat := mkErrChan None false; 1%nat := mkErrChan None false ]})).

(** The claim fails, [exit] takes the next event, which is the t1 timer's or the
    log watcher's second ready event, and closing [readyCh] again panics. *)
Example second_ready_event_panics :
  (runHandleEvent code twoReady).1 = Panicked "close of closed channel".
Proof. vm_compute. reflexivity. Qed.

End failing_claim.

(** *** A lock that could not be recorded *)

Section failing_record.
#[local] Instance unrecordedWorld : World := {|
  answer := fun A _ c =>
    match c in call B return B with
    | PutSwap i => if bool_decide (iStatus i = XMRLocked) then Err (errorf "no space left on device") else Ok tt
    | c' => goodAnswer (receiptOf honest) _ c'
    end;
  Env := Stagenet;
  SwapCreatorAddr := contractAt;
  SwapTimeout := Hour
|}.

(** The ETH is locked, and the contract's ready log follows. *)
Definition lockedThenReady : MS :=
  mkMS _ _ (startSys KeysExchanged)
    (startState EventETHLockedType [EventETHLocked (msgOf honest) 0; EventContractReady 1]
       {[ 0%nat := mkErrChan None false; 1%nat := mkErrChan None false ]}).

(** When XMRLocked cannot be written, the maker sends no XMR, but its exit waits for the
    ready event as if it had: it claims the ETH, and files the swap as successful. *)
Example unrecorded_lock_still_claims :
  let s := (runHandleEvent code lockedThenReady).2 in
  (runHandleEvent code lockedThenReady).1 = Done tt ∧
  existsb isLockUnrecorded (newObs lockedThenReady s) = true ∧
  existsb isSend (newObs lockedThenReady s) = false ∧
  existsb isReveal (newObs lockedThenReady s) = true ∧
  (iStatus <$> infos (mgr (sys s)) !! 0%nat) = Some CompletedSuccess.
Proof. repeat apply conj; vm_compute; reflexivity. Qed.

End failing_record.

End MakerWitness.
