(* ===== verification/Taker.v ===== *)
(** * The XMR taker (package protocol/xmrtaker)

    The same conventions as for the maker: a swap's handlers are programs over the
    daemon's [Sys] and the swap's state and run one at a time; [eventCh] holds the
    events in the order in which they are received, those that arrive while a
    handler waits included; the sender of an event reads its error channel once.
    The channel [txHashCh] of a refund event, buffered for its one hash and never read, is
    left out. *)

From stdpp Require Import base gmap list strings.
From Stdlib Require Import ZArith Strings.Byte.
From S2P Require Import Prelude Coins Types Swap Offers Bytes Crypto Contracts External.

Open Scope Z_scope.
Open Scope go_scope.

Module Taker.

(** ** errors.go *)

Definition revertSwapCompleted : string := "swap is already completed".

Definition errNoOngoingSwap : error :=
  Sentinel "errNoOngoingSwap" "no ongoing swap with given offer ID".
Definition errUnexpectedMessageType : error :=
  Sentinel "xmrtaker.errUnexpectedMessageType" "unexpected message type".
Definition errUnexpectedEventType : error :=
  Sentinel "errUnexpectedEventType" "unexpected event type".
Definition errMissingKeys : error :=
  Sentinel "xmrtaker.errMissingKeys" "did not receive XMRMaker's public spend or private view key".
Definition errMissingProvidedAmount : error :=
  Sentinel "errMissingProvidedAmount" "did not receive provided amount".
Definition errMissingAddress : error :=
  Sentinel "xmrtaker.errMissingAddress" "did not receive XMRMaker's address".
Definition errNoClaimLogsFound : error := Sentinel "errNoClaimLogsFound" "no Claimed logs found".
Definition errRefundInvalid : error :=
  Sentinel "errRefundInvalid" "cannot refund, swap does not exist".
Definition errSwapCompleted : error := Sentinel "errSwapCompleted" "swap is already completed".
(** [fmt.Errorf("cannot refund, %w", ..)]; the separator in the text is a colon here. *)
Definition errRefundSwapCompleted : error := Wrapf "cannot refund" errSwapCompleted.
Definition errSwapInstantiationNoLogs : error :=
  Sentinel "errSwapInstantiationNoLogs" "expected 1 log, got 0".
Definition errProtocolAlreadyInProgress : error :=
  Sentinel "xmrtaker.errProtocolAlreadyInProgress" "protocol already in progress".
Definition errInvalidStageForRecovery : error :=
  Sentinel "xmrtaker.errInvalidStageForRecovery"
    "cannot create ongoing swap state if stage is not ETHLocked or ContractReady".
Definition errContractAddrMismatch : error :=
  errorf "cannot recover from swap where contract address is not the one loaded at start-up".
Definition errTokenBalanceTooLow : error := errorf "token balance is below provided amount".
Definition errETHBalanceTooLow : error := errorf "balance is under required amount".
Definition errAmountProvidedTooLow : error := errorf "provided amount converted to XMR is under offer min".
Definition errAmountProvidedTooHigh : error := errorf "provided amount converted to XMR is over offer max".

(** ** event.go: events *)

Inductive EventType : Type :=
| EventKeysReceivedType | EventXMRLockedType | EventETHClaimedType | EventShouldRefundType
| EventExitType | EventNoneType.

#[global] Instance eventType_eq_dec : EqDecision EventType.
Proof. solve_decision. Defined.

Definition nextExpectedEventFromStatus (s : Status) : EventType :=
  match s with
  | ExpectingKeys => EventKeysReceivedType
  | ETHLocked => EventXMRLockedType
  | ContractReady => EventETHClaimedType
  | _ => EventExitType
  end.

Definition getStatus (t : EventType) : Status :=
  match t with
  | EventXMRLockedType => ETHLocked
  | EventETHClaimedType => ContractReady
  | _ => UnknownStatus
  end.

Inductive Event `{CryptoLib} : Type :=
| EventKeysReceived (message : SendKeysMessage) (errCh : nat)
| EventXMRLocked (errCh : nat)
| EventETHClaimed (sk : Scalar) (errCh : nat)
| EventShouldRefund (errCh : nat)
| EventExit (errCh : nat).

(** ** swap_state.go: the state of a swap *)

Record swapState `{TypesLib} `{CryptoLib} : Type := mkState {
  info : nat;
  noTransferBack : bool;
  providedAmount : EthAssetAmount;
  dleqProof : option DLEqProof;
  secp256k1Pub : option Secp256k1PublicKey;
  privkeys : option PrivateKeyPair;
  pubkeys : option PublicKeyPair;
  xmrmakerPublicSpendKey : option Point;
  xmrmakerPrivateViewKey : option Scalar;
  xmrmakerSecp256k1PublicKey : option Secp256k1PublicKey;
  xmrmakerAddress : Address;
  walletScanHeight : Z;
  contractSwapID : Hash;
  contractSwap : option SwapCreatorSwap;
  t1 : Z;
  t2 : Z;
  nextExpectedEvent : EventType;
  fundsLocked : bool;
  eventCh : list Event;
  errChs : gmap nat errChan;
  nextCh : nat;
  xmrLockedClosed : bool;
  claimedClosed : bool;
  doneClosed : bool;
  cancelled : bool
}.

(** The daemon together with one swap. *)
Record TS `{TypesLib} `{CryptoLib} : Type := mkTS { sys : Sys; sst : swapState }.

Section setters.
Context `{TypesLib} `{CryptoLib}.

Definition setInfo (x : nat) (s : swapState) : swapState :=
  mkState _ _ x (noTransferBack s) (providedAmount s) (dleqProof s) (secp256k1Pub s) (privkeys s)
    (pubkeys s) (xmrmakerPublicSpendKey s) (xmrmakerPrivateViewKey s)
    (xmrmakerSecp256k1PublicKey s) (xmrmakerAddress s) (walletScanHeight s) (contractSwapID s)
    (contractSwap s) (t1 s) (t2 s) (nextExpectedEvent s) (fundsLocked s) (eventCh s) (errChs s)
    (nextCh s) (xmrLockedClosed s) (claimedClosed s) (doneClosed s) (cancelled s).
Definition setNoTransferBack (x : bool) (s : swapState) : swapState :=
  mkState _ _ (info s) x (providedAmount s) (dleqProof s) (secp256k1Pub s) (privkeys s)
    (pubkeys s) (xmrmakerPublicSpendKey s) (xmrmakerPrivateViewKey s)
    (xmrmakerSecp256k1PublicKey s) (xmrmakerAddress s) (walletScanHeight s) (contractSwapID s)
    (contractSwap s) (t1 s) (t2 s) (nextExpectedEvent s) (fundsLocked s) (eventCh s) (errChs s)
    (nextCh s) (xmrLockedClosed s) (claimedClosed s) (doneClosed s) (cancelled s).
Definition setProvidedAmount (x : EthAssetAmount) (s : swapState) : swapState :=
  mkState _ _ (info s) (noTransferBack s) x (dleqProof s) (secp256k1Pub s) (privkeys s)
    (pubkeys s) (xmrmakerPublicSpendKey s) (xmrmakerPrivateViewKey s)
    (xmrmakerSecp256k1PublicKey s) (xmrmakerAddress s) (walletScanHeight s) (contractSwapID s)
    (contractSwap s) (t1 s) (t2 s) (nextExpectedEvent s) (fundsLocked s) (eventCh s) (errChs s)
    (nextCh s) (xmrLockedClosed s) (claimedClosed s) (doneClosed s) (cancelled s).
Definition setDleqProof (x : option DLEqProof) (s : swapState) : swapState :=
  mkState _ _ (info s) (noTransferBack s) (providedAmount s) x (secp256k1Pub s) (privkeys s)
    (pubkeys s) (xmrmakerPublicSpendKey s) (xmrmakerPrivateViewKey s)
    (xmrmakerSecp256k1PublicKey s) (xmrmakerAddress s) (walletScanHeight s) (contractSwapID s)
    (contractSwap s) (t1 s) (t2 s) (nextExpectedEvent s) (fundsLocked s) (eventCh s) (errChs s)
    (nextCh s) (xmrLockedClosed s) (claimedClosed s) (doneClosed s) (cancelled s).
Definition setSecp256k1Pub (x : option Secp256k1PublicKey) (s : swapState) : swapState :=
  mkState _ _ (info s) (noTransferBack s) (providedAmount s) (dleqProof s) x (privkeys s)
    (pubkeys s) (xmrmakerPublicSpendKey s) (xmrmakerPrivateViewKey s)
    (xmrmakerSecp256k1PublicKey s) (xmrmakerAddress s) (walletScanHeight s) (contractSwapID s)
    (contractSwap s) (t1 s) (t2 s) (nextExpectedEvent s) (fundsLocked s) (eventCh s) (errChs s)
    (nextCh s) (xmrLockedClosed s) (claimedClosed s) (doneClosed s) (cancelled s).
Definition setPrivkeys (x : option PrivateKeyPair) (s : swapState) : swapState :=
  mkState _ _ (info s) (noTransferBack s) (providedAmount s) (dleqProof s) (secp256k1Pub s) x
    (pubkeys s) (xmrmakerPublicSpendKey s) (xmrmakerPrivateViewKey s)
    (xmrmakerSecp256k1PublicKey s) (xmrmakerAddress s) (walletScanHeight s) (contractSwapID s)
    (contractSwap s) (t1 s) (t2 s) (nextExpectedEvent s) (fundsLocked s) (eventCh s) (errChs s)
    (nextCh s) (xmrLockedClosed s) (claimedClosed s) (doneClosed s) (cancelled s).
Definition setPubkeys (x : option PublicKeyPair) (s : swapState) : swapState :=
  mkState _ _ (info s) (noTransferBack s) (providedAmount s) (dleqProof s) (secp256k1Pub s)
    (privkeys s) x (xmrmakerPublicSpendKey s) (xmrmakerPrivateViewKey s)
    (xmrmakerSecp256k1PublicKey s) (xmrmakerAddress s) (walletScanHeight s) (contractSwapID s)
    (contractSwap s) (t1 s) (t2 s) (nextExpectedEvent s) (fundsLocked s) (eventCh s) (errChs s)
    (nextCh s) (xmrLockedClosed s) (claimedClosed s) (doneClosed s) (cancelled s).
Definition setXmrmakerPublicSpendKey (x : option Point) (s : swapState) : swapState :=
  mkState _ _ (info s) (noTransferBack s) (providedAmount s) (dleqProof s) (secp256k1Pub s)
    (privkeys s) (pubkeys s) x (xmrmakerPrivateViewKey s) (xmrmakerSecp256k1PublicKey s)
    (xmrmakerAddress s) (walletScanHeight s) (contractSwapID s) (contractSwap s) (t1 s) (t2 s)
    (nextExpectedEvent s) (fundsLocked s) (eventCh s) (errChs s) (nextCh s) (xmrLockedClosed s)
    (claimedClosed s) (doneClosed s) (cancelled s).
Definition setXmrmakerPrivateViewKey (x : option Scalar) (s : swapState) : swapState :=
  mkState _ _ (info s) (noTransferBack s) (providedAmount s) (dleqProof s) (secp256k1Pub s)
    (privkeys s) (pubkeys s) (xmrmakerPublicSpendKey s) x (xmrmakerSecp256k1PublicKey s)
    (xmrmakerAddress s) (walletScanHeight s) (contractSwapID s) (contractSwap s) (t1 s) (t2 s)
    (nextExpectedEvent s) (fundsLocked s) (eventCh s) (errChs s) (nextCh s) (xmrLockedClosed s)
    (claimedClosed s) (doneClosed s) (cancelled s).
Definition setXmrmakerSecp256k1PublicKey (x : option Secp256k1PublicKey) (s : swapState) : swapState :=
  mkState _ _ (info s) (noTransferBack s) (providedAmount s) (dleqProof s) (secp256k1Pub s)
    (privkeys s) (pubkeys s) (xmrmakerPublicSpendKey s) (xmrmakerPrivateViewKey s) x
    (xmrmakerAddress s) (walletScanHeight s) (contractSwapID s) (contractSwap s) (t1 s) (t2 s)
    (nextExpectedEvent s) (fundsLocked s) (eventCh s) (errChs s) (nextCh s) (xmrLockedClosed s)
    (claimedClosed s) (doneClosed s) (cancelled s).
Definition setXmrmakerAddress (x : Address) (s : swapState) : swapState :=
  mkState _ _ (info s) (noTransferBack s) (providedAmount s) (dleqProof s) (secp256k1Pub s)
    (privkeys s) (pubkeys s) (xmrmakerPublicSpendKey s) (xmrmakerPrivateViewKey s)
    (xmrmakerSecp256k1PublicKey s) x (walletScanHeight s) (contractSwapID s) (contractSwap s)
    (t1 s) (t2 s) (nextExpectedEvent s) (fundsLocked s) (eventCh s) (errChs s) (nextCh s)
    (xmrLockedClosed s) (claimedClosed s) (doneClosed s) (cancelled s).
Definition setWalletScanHeight (x : Z) (s : swapState) : swapState :=
  mkState _ _ (info s) (noTransferBack s) (providedAmount s) (dleqProof s) (secp256k1Pub s)
    (privkeys s) (pubkeys s) (xmrmakerPublicSpendKey s) (xmrmakerPrivateViewKey s)
    (xmrmakerSecp256k1PublicKey s) (xmrmakerAddress s) x (contractSwapID s) (contractSwap s)
    (t1 s) (t2 s) (nextExpectedEvent s) (fundsLocked s) (eventCh s) (errChs s) (nextCh s)
    (xmrLockedClosed s) (claimedClosed s) (doneClosed s) (cancelled s).
Definition setContractSwapID (x : Hash) (s : swapState) : swapState :=
  mkState _ _ (info s) (noTransferBack s) (providedAmount s) (dleqProof s) (secp256k1Pub s)
    (privkeys s) (pubkeys s) (xmrmakerPublicSpendKey s) (xmrmakerPrivateViewKey s)
    (xmrmakerSecp256k1PublicKey s) (xmrmakerAddress s) (walletScanHeight s) x (contractSwap s)
    (t1 s) (t2 s) (nextExpectedEvent s) (fundsLocked s) (eventCh s) (errChs s) (nextCh s)
    (xmrLockedClosed s) (claimedClosed s) (doneClosed s) (cancelled s).
Definition setContractSwap (x : option SwapCreatorSwap) (s : swapState) : swapState :=
  mkState _ _ (info s) (noTransferBack s) (providedAmount s) (dleqProof s) (secp256k1Pub s)
    (privkeys s) (pubkeys s) (xmrmakerPublicSpendKey s) (xmrmakerPrivateViewKey s)
    (xmrmakerSecp256k1PublicKey s) (xmrmakerAddress s) (walletScanHeight s) (contractSwapID s) x
    (t1 s) (t2 s) (nextExpectedEvent s) (fundsLocked s) (eventCh s) (errChs s) (nextCh s)
    (xmrLockedClosed s) (claimedClosed s) (doneClosed s) (cancelled s).
Definition setT1 (x : Z) (s : swapState) : swapState :=
  mkState _ _ (info s) (noTransferBack s) (providedAmount s) (dleqProof s) (secp256k1Pub s)
    (privkeys s) (pubkeys s) (xmrmakerPublicSpendKey s) (xmrmakerPrivateViewKey s)
    (xmrmakerSecp256k1PublicKey s) (xmrmakerAddress s) (walletScanHeight s) (contractSwapID s)
    (contractSwap s) x (t2 s) (nextExpectedEvent s) (fundsLocked s) (eventCh s) (errChs s)
    (nextCh s) (xmrLockedClosed s) (claimedClosed s) (doneClosed s) (cancelled s).
Definition setT2 (x : Z) (s : swapState) : swapState :=
  mkState _ _ (info s) (noTransferBack s) (providedAmount s) (dleqProof s) (secp256k1Pub s)
    (privkeys s) (pubkeys s) (xmrmakerPublicSpendKey s) (xmrmakerPrivateViewKey s)
    (xmrmakerSecp256k1PublicKey s) (xmrmakerAddress s) (walletScanHeight s) (contractSwapID s)
    (contractSwap s) (t1 s) x (nextExpectedEvent s) (fundsLocked s) (eventCh s) (errChs s)
    (nextCh s) (xmrLockedClosed s) (claimedClosed s) (doneClosed s) (cancelled s).
Definition setNextExpectedEvent (x : EventType) (s : swapState) : swapState :=
  mkState _ _ (info s) (noTransferBack s) (providedAmount s) (dleqProof s) (secp256k1Pub s)
    (privkeys s) (pubkeys s) (xmrmakerPublicSpendKey s) (xmrmakerPrivateViewKey s)
    (xmrmakerSecp256k1PublicKey s) (xmrmakerAddress s) (walletScanHeight s) (contractSwapID s)
    (contractSwap s) (t1 s) (t2 s) x (fundsLocked s) (eventCh s) (errChs s) (nextCh s)
    (xmrLockedClosed s) (claimedClosed s) (doneClosed s) (cancelled s).
Definition setFundsLocked (x : bool) (s : swapState) : swapState :=
  mkState _ _ (info s) (noTransferBack s) (providedAmount s) (dleqProof s) (secp256k1Pub s)
    (privkeys s) (pubkeys s) (xmrmakerPublicSpendKey s) (xmrmakerPrivateViewKey s)
    (xmrmakerSecp256k1PublicKey s) (xmrmakerAddress s) (walletScanHeight s) (contractSwapID s)
    (contractSwap s) (t1 s) (t2 s) (nextExpectedEvent s) x (eventCh s) (errChs s) (nextCh s)
    (xmrLockedClosed s) (claimedClosed s) (doneClosed s) (cancelled s).
Definition setEventCh (x : list Event) (s : swapState) : swapState :=
  mkState _ _ (info s) (noTransferBack s) (providedAmount s) (dleqProof s) (secp256k1Pub s)
    (privkeys s) (pubkeys s) (xmrmakerPublicSpendKey s) (xmrmakerPrivateViewKey s)
    (xmrmakerSecp256k1PublicKey s) (xmrmakerAddress s) (walletScanHeight s) (contractSwapID s)
    (contractSwap s) (t1 s) (t2 s) (nextExpectedEvent s) (fundsLocked s) x (errChs s) (nextCh s)
    (xmrLockedClosed s) (claimedClosed s) (doneClosed s) (cancelled s).
Definition setErrChs (x : gmap nat errChan) (s : swapState) : swapState :=
  mkState _ _ (info s) (noTransferBack s) (providedAmount s) (dleqProof s) (secp256k1Pub s)
    (privkeys s) (pubkeys s) (xmrmakerPublicSpendKey s) (xmrmakerPrivateViewKey s)
    (xmrmakerSecp256k1PublicKey s) (xmrmakerAddress s) (walletScanHeight s) (contractSwapID s)
    (contractSwap s) (t1 s) (t2 s) (nextExpectedEvent s) (fundsLocked s) (eventCh s) x (nextCh s)
    (xmrLockedClosed s) (claimedClosed s) (doneClosed s) (cancelled s).
Definition setNextCh (x : nat) (s : swapState) : swapState :=
  mkState _ _ (info s) (noTransferBack s) (providedAmount s) (dleqProof s) (secp256k1Pub s)
    (privkeys s) (pubkeys s) (xmrmakerPublicSpendKey s) (xmrmakerPrivateViewKey s)
    (xmrmakerSecp256k1PublicKey s) (xmrmakerAddress s) (walletScanHeight s) (contractSwapID s)
    (contractSwap s) (t1 s) (t2 s) (nextExpectedEvent s) (fundsLocked s) (eventCh s) (errChs s) x
    (xmrLockedClosed s) (claimedClosed s) (doneClosed s) (cancelled s).
Definition setXmrLockedClosed (x : bool) (s : swapState) : swapState :=
  mkState _ _ (info s) (noTransferBack s) (providedAmount s) (dleqProof s) (secp256k1Pub s)
    (privkeys s) (pubkeys s) (xmrmakerPublicSpendKey s) (xmrmakerPrivateViewKey s)
    (xmrmakerSecp256k1PublicKey s) (xmrmakerAddress s) (walletScanHeight s) (contractSwapID s)
    (contractSwap s) (t1 s) (t2 s) (nextExpectedEvent s) (fundsLocked s) (eventCh s) (errChs s)
    (nextCh s) x (claimedClosed s) (doneClosed s) (cancelled s).
Definition setClaimedClosed (x : bool) (s : swapState) : swapState :=
  mkState _ _ (info s) (noTransferBack s) (providedAmount s) (dleqProof s) (secp256k1Pub s)
    (privkeys s) (pubkeys s) (xmrmakerPublicSpendKey s) (xmrmakerPrivateViewKey s)
    (xmrmakerSecp256k1PublicKey s) (xmrmakerAddress s) (walletScanHeight s) (contractSwapID s)
    (contractSwap s) (t1 s) (t2 s) (nextExpectedEvent s) (fundsLocked s) (eventCh s) (errChs s)
    (nextCh s) (xmrLockedClosed s) x (doneClosed s) (cancelled s).
Definition setDoneClosed (x : bool) (s : swapState) : swapState :=
  mkState _ _ (info s) (noTransferBack s) (providedAmount s) (dleqProof s) (secp256k1Pub s)
    (privkeys s) (pubkeys s) (xmrmakerPublicSpendKey s) (xmrmakerPrivateViewKey s)
    (xmrmakerSecp256k1PublicKey s) (xmrmakerAddress s) (walletScanHeight s) (contractSwapID s)
    (contractSwap s) (t1 s) (t2 s) (nextExpectedEvent s) (fundsLocked s) (eventCh s) (errChs s)
    (nextCh s) (xmrLockedClosed s) (claimedClosed s) x (cancelled s).
Definition setCancelled (x : bool) (s : swapState) : swapState :=
  mkState _ _ (info s) (noTransferBack s) (providedAmount s) (dleqProof s) (secp256k1Pub s)
    (privkeys s) (pubkeys s) (xmrmakerPublicSpendKey s) (xmrmakerPrivateViewKey s)
    (xmrmakerSecp256k1PublicKey s) (xmrmakerAddress s) (walletScanHeight s) (contractSwapID s)
    (contractSwap s) (t1 s) (t2 s) (nextExpectedEvent s) (fundsLocked s) (eventCh s) (errChs s)
    (nextCh s) (xmrLockedClosed s) (claimedClosed s) (doneClosed s) x.

End setters.

Section operations.
Context `{World} `{!InfoJson} `{Apd} `{AbiLib}.

Definition onSys {A} (m : prog Sys A) : prog TS A := zoom sys (fun x s => mkTS _ _ x (sst s)) m.
Definition getS {A} (f : swapState → A) : prog TS A := gets (fun s => f (sst s)).
Definition modS (f : swapState → swapState) : prog TS unit :=
  modify (fun s => mkTS _ _ (sys s) (f (sst s))).
Definition extS {A} (c : call A) : prog TS A := onSys (ext c).
Definition derefS {A} (f : swapState → option A) : prog TS A := x <- getS f ;; pure (deref x).

Definition readS : prog TS Info := l <- getS info ;; onSys (readInfo l).
Definition OfferID : prog TS Hash := i <- readS ;; done (iOfferID i).

(** [s.info.Status.IsOngoing()] *)
Definition statusOngoing : prog TS bool := i <- readS ;; pure (IsOngoing (iStatus i)).

(** ** Channels *)

Definition newErrCh : prog TS nat :=
  c <- getS nextCh ;;
  modS (fun s => setNextCh (S c) (setErrChs (<[c := mkErrChan None false]> (errChs s)) s)) ;;;
  done c.

Definition sendErr (c : nat) (e : error) : prog TS unit :=
  ch <- derefS (fun s => errChs s !! c) ;;
  if chClosed ch then panic "send on closed channel"
  else
    match delivered ch with
    | Some _ => block
    | None => modS (fun s => setErrChs (<[c := mkErrChan (Some (Some e)) false]> (errChs s)) s)
    end.

Definition closeErr (c : nat) : prog TS unit :=
  ch <- derefS (fun s => errChs s !! c) ;;
  if chClosed ch then panic "close of closed channel"
  else
    modS (fun s => setErrChs (<[c := mkErrChan (Some (default None (delivered ch))) true]> (errChs s)) s).

Definition sendEvent (e : Event) : prog TS unit :=
  modS (fun s => setEventCh (eventCh s ++ [e]) s).

Definition closeXmrLockedCh : prog TS unit :=
  b <- getS xmrLockedClosed ;;
  if b : bool then panic "close of closed channel" else modS (setXmrLockedClosed true).

Definition closeClaimedCh : prog TS unit :=
  b <- getS claimedClosed ;;
  if b : bool then panic "close of closed channel" else modS (setClaimedClosed true).

Definition closeDone : prog TS unit :=
  b <- getS doneClosed ;;
  if b : bool then panic "close of closed channel" else modS (setDoneClosed true).

(** ** Status updates *)

Definition updateStatus (status : Status) : prog TS unit :=
  l <- getS info ;;
  onSys (Info_SetStatus l status) ;;;
  id <- OfferID ;;
  onSys (PushNewStatus id status).

Definition clearNextExpectedEvent (status : Status) : prog TS unit :=
  modS (setNextExpectedEvent EventNoneType) ;;;
  updateStatus status.

Definition setNextExpected (event : EventType) : prog TS (result unit) :=
  cur <- getS nextExpectedEvent ;;
  if bool_decide (cur = EventNoneType) then panic "cannot set next expected event to EventNoneType"
  else if bool_decide (event = cur) then panic "cannot set next expected event to same as current"
  else
    modS (setNextExpectedEvent event) ;;;
    let status := getStatus event in
    if bool_decide (status = UnknownStatus)
    then panic "status corresponding to event cannot be UnknownStatus"
    else
      updateStatus status ;;;
      l <- getS info ;;
      onSys (WriteSwapToDB l).

Definition setTimeouts (a b : Z) : prog TS unit :=
  modS (setT1 (timeUnix a)) ;;;
  modS (setT2 (timeUnix b)) ;;;
  l <- getS info ;;
  onSys (updateInfo (SetTimeouts (Some (timeUnix a)) (Some (timeUnix b))) l).

(** ** Keys *)

Definition generateAndSetKeys : prog TS (result unit) :=
  kp <- getS privkeys ;;
  match kp with
  | Some _ => panic "generateAndSetKeys should only be called once"
  | None =>
      rnd <- extS GenerateSecret ;;
      keysAndProof <-? pure (GenerateKeysAndProof rnd) ;;
      modS (setDleqProof (Some (kpProof keysAndProof))) ;;;
      modS (setSecp256k1Pub (Some (kpSecp256k1 keysAndProof))) ;;;
      modS (setPrivkeys (Some (kpPrivate keysAndProof))) ;;;
      modS (setPubkeys (Some (kpPublic keysAndProof))) ;;;
      id <- OfferID ;;
      extS (PutSwapPrivateKey id (kpSpend (kpPrivate keysAndProof)))
  end.

(** [[32]byte(slice)] panics on a shorter slice. *)
Definition toArray32 (b : bytes) : outcome bytes :=
  if (length b <? 32)%nat then Panicked "cannot convert slice" else Done (take 32 b).

Definition getSecret : prog TS bytes :=
  p <- getS dleqProof ;;
  match p with
  | None => kp <- derefS privkeys ;; pure (toArray32 (Reverse (SpendKeyBytes kp)))
  | Some proof => done (goCopy 32 (Proof_Secret proof))
  end.

Definition setXMRMakerKeys (sk : Point) (vk : Scalar) (secp : Secp256k1PublicKey)
    : prog TS (result unit) :=
  modS (setXmrmakerPublicSpendKey (Some sk)) ;;;
  modS (setXmrmakerPrivateViewKey (Some vk)) ;;;
  modS (setXmrmakerSecp256k1PublicKey (Some secp)) ;;;
  id <- OfferID ;;
  extS (PutCounterpartySwapKeys id sk vk).

(** The message the taker starts with. *)
Definition makeSendKeysMessage : prog TS SendKeysMessage :=
  pub <- derefS pubkeys ;;
  priv <- derefS privkeys ;;
  proof <- derefS dleqProof ;;
  secp <- derefS secp256k1Pub ;;
  done (mkSendKeys _ EmptyHash None (Some (pkSpend pub)) (Some (kpView priv)) (proofBytes proof) secp
          zeroAddress).

Definition expectedPiconeroAmount : prog TS Decimal :=
  i <- readS ;; pure (MoneroToPiconero (iExpectedAmount i)).

Definition expectedXMRLockAccount : prog TS (bytes * Scalar) :=
  makerView <- derefS xmrmakerPrivateViewKey ;;
  priv <- derefS privkeys ;;
  let vk := SumPrivateViewKeys makerView (kpView priv) in
  makerSpend <- derefS xmrmakerPublicSpendKey ;;
  pub <- derefS pubkeys ;;
  let sk := SumPublicKeys makerSpend (pkSpend pub) in
  addr <- pure (PublicKeyPair_Address (NewPublicKeyPair sk (Public vk)) Env) ;;
  done (addr, vk).

(** ** Locking the asset *)

(** [NewSwap] of the private-key sender, which saves the transaction's hash before it waits
    for the receipt.  The sender that leaves signing to the front end is modelled, with this
    one, in TxSender.v; here the daemon has a private key. *)
Definition lockAndWaitForReceipt (cmtXMRMaker cmtXMRTaker : Hash) (nonce : Z) : prog TS (result Receipt) :=
  claimer <- getS xmrmakerAddress ;;
  amount <- getS providedAmount ;;
  mapErr (Wrapf "failed to instantiate swap on-chain")
    (txHash <-? extS (SenderNewSwap cmtXMRMaker cmtXMRTaker claimer (SwapTimeout / Second) nonce amount) ;;
     id <- OfferID ;;
     _ <-? mapErr (Wrapf "failed to write newSwap tx hash to db") (extS (PutNewSwapTxHash id txHash)) ;;
     mapErr (Wrapf "NewSwap tx failed waiting for receipt") (extS (WaitForReceipt txHash))).

(** The first log for which [f] succeeds; the last error if there is none. *)
Fixpoint firstLog {A} (f : Log → outcome (result A)) (e : error) (logs : list Log) : outcome (result A) :=
  match logs with
  | [] => Done (Err e)
  | l :: rest =>
      r <~ f l ;;
      match r with
      | Ok a => Done (Ok a)
      | Err e' => firstLog f e' rest
      end
  end.

Definition lockAsset : prog TS (result Receipt) :=
  spend <- getS xmrmakerPublicSpendKey ;;
  view <- getS xmrmakerPrivateViewKey ;;
  match spend, view with
  | Some _, Some _ =>
      ours <- derefS secp256k1Pub ;;
      theirs <- derefS xmrmakerSecp256k1PublicKey ;;
      let cmtXMRTaker := Secp256k1_Keccak256 ours in
      let cmtXMRMaker := Secp256k1_Keccak256 theirs in
      nonce <- extS GenerateNonce ;;
      receipt <-? lockAndWaitForReceipt cmtXMRMaker cmtXMRTaker nonce ;;
      match rcLogs receipt with
      | [] => done (Err errSwapInstantiationNoLogs)
      | logs =>
          r <- pure (firstLog GetIDFromLog errSwapInstantiationNoLogs logs) ;;
          match r with
          | Err e =>
              modS (setContractSwapID EmptyHash) ;;;
              done (Err (Wrapf "swap ID not found in transaction receipt's logs" e))
          | Ok id =>
              modS (setContractSwapID id) ;;;
              ts <-? mapErr (Wrapf "timeouts not found in transaction receipt's logs")
                       (pure (firstLog GetTimeoutsFromLog errSwapInstantiationNoLogs logs)) ;;
              modS (setFundsLocked true) ;;;
              setTimeouts ts.1 ts.2 ;;;
              owner <- extS ETHAddress ;;
              claimer <- getS xmrmakerAddress ;;
              i <- readS ;;
              amount <- getS providedAmount ;;
              value <- pure (EthAssetAmount_BigInt amount) ;;
              let swap := mkSwap owner claimer cmtXMRMaker cmtXMRTaker ts.1 ts.2 (iEthAsset i) value nonce in
              modS (setContractSwap (Some swap)) ;;;
              _ <-? extS (PutContractSwapInfo (iOfferID i)
                            (mkEthInfo (rcBlockNumber receipt) id swap SwapCreatorAddr)) ;;
              done (Ok receipt)
          end
      end
  | _, _ => panic "counterparty's keys aren't set"
  end.

(** ** Handling the maker's keys *)

(** The goroutines started at the end are [runT1ExpirationHandler] and [checkForXMRLock]. *)
Definition handleSendKeysMessage (msg : SendKeysMessage) : prog TS (result NotifyETHLocked) :=
  match skProvidedAmount msg with
  | None => done (Err errMissingProvidedAmount)
  | Some provided =>
      i <- readS ;;
      if apdCmp provided (iExpectedAmount i) <? 0
      then done (Err (errorf "provided amount is not the same as expected"))
      else
        match skPublicSpendKey msg, skPrivateViewKey msg with
        | Some spend, Some vk =>
            if bool_decide (skEthAddress msg = zeroAddress) then done (Err errMissingAddress)
            else
              res <-? pure (VerifyKeysAndProof (skDLEqProof msg) (skSecp256k1PublicKey msg) spend) ;;
              modS (setXmrmakerAddress (skEthAddress msg)) ;;;
              _ <-? onSys (AssetSymbol (iEthAsset i)) ;;
              _ <-? mapErr (Wrapf "failed to set xmrmaker keys") (setXMRMakerKeys res.2 vk res.1) ;;
              receipt <-? mapErr (Wrapf "failed to lock ethereum asset in contract") lockAsset ;;
              id <- getS contractSwapID ;;
              swap <- derefS contractSwap ;;
              done (Ok (mkNotifyETHLocked SwapCreatorAddr (rcTxHash receipt) id swap))
        | _, _ => done (Err errMissingKeys)
        end
  end.

Definition handleEventKeysReceived (msg : SendKeysMessage) : prog TS (result unit) :=
  resp <-? handleSendKeysMessage msg ;;
  id <- OfferID ;;
  _ <-? extS (SendSwapMessage (MsgNotifyETHLocked resp) id) ;;
  extS (CloseProtocolStream id) ;;;
  done (Ok tt).

(** ** Setting the contract to ready *)

(** [go s.Exit()]: the sender of an exit event. *)
Definition Exit : prog TS nat :=
  ch <- newErrCh ;; sendEvent (EventExit ch) ;;; done ch.

Definition setReady : prog TS (result unit) :=
  id <- getS contractSwapID ;;
  stage <-? extS (ContractSwaps SwapCreatorAddr id) ;;
  if negb (stage =? StagePending) then
    if stage =? StageReady then done (Ok tt)
    else if stage =? StageCompleted then Exit ;;; done (Ok tt)
    else done (Err (errorf "cannot set contract to ready when swap stage is wrong"))
  else
    swap <- derefS contractSwap ;;
    r <- extS (SenderSetReady swap) ;;
    match r with
    | Ok _ => done (Ok tt)
    | Err e =>
        if stringsContains (errorText e) revertSwapCompleted then
          ongoing <- statusOngoing ;;
          done (if ongoing : bool then Err e else Ok tt)
        else done (Err e)
    end.

(** The goroutine started at the end is [runT2ExpirationHandler]. *)
Definition handleNotifyXMRLock : prog TS (result unit) :=
  closeXmrLockedCh ;;;
  mapErr (Wrapf "failed to call Ready") setReady.

(** ** Claiming the XMR (claim.go) *)

Definition claimMonero (skB : Scalar) : prog TS (result unit) :=
  ongoing <- statusOngoing ;;
  if negb ongoing then done (Err errSwapCompleted)
  else
    id <- OfferID ;;
    _ <-? extS (PutCounterpartySwapPrivateKey id skB) ;;
    depositAddr <- extS (XMRDepositAddress id) ;;
    noBack <- getS noTransferBack ;;
    let depositAddr' := if noBack : bool then None else depositAddr in
    priv <- derefS privkeys ;;
    makerView <- derefS xmrmakerPrivateViewKey ;;
    let kpAB := GetClaimKeypair skB (kpSpend priv) makerView (kpView priv) in
    l <- getS info ;;
    _ <-? onSys (ClaimMonero l kpAB depositAddr' noBack) ;;
    closeClaimedCh ;;;
    _ <- pure (PublicKeyPair_Address (PrivateKeyPair_PublicKeyPair kpAB) Env) ;;
    done (Ok tt).

(** The first log of the swap. *)
Fixpoint findClaim (logs : list Log) (id : Hash) : option Log :=
  match logs with
  | [] => None
  | l :: rest =>
      match CheckIfLogIDMatches l claimedTopic id with
      | Ok true => Some l
      | _ => findClaim rest id
      end
  end.

Definition filterForClaim : prog TS (result Scalar) :=
  logs <-? mapErr (Wrapf "failed to filter logs") (extS (FilterLogs SwapCreatorAddr None [claimedTopic])) ;;
  match logs with
  | [] => done (Err errNoClaimLogsFound)
  | _ =>
      id <- getS contractSwapID ;;
      match findClaim logs id with
      | None => done (Err errNoClaimLogsFound)
      | Some l =>
          match GetSecretFromLog l claimedTopic with
          | Err e => done (Err (Wrapf "failed to get secret from log" e))
          | Ok sa => done (Ok sa)
          end
      end
  end.

Definition tryClaim : prog TS (result unit) :=
  ongoing <- statusOngoing ;;
  if negb ongoing then done (Ok tt)
  else
    skA <-? filterForClaim ;;
    _ <-? claimMonero skA ;;
    clearNextExpectedEvent CompletedSuccess ;;;
    done (Ok tt).

Definition handleEventETHClaimed (sk : Scalar) : prog TS (result unit) :=
  _ <-? claimMonero sk ;;
  clearNextExpectedEvent CompletedSuccess ;;;
  done (Ok tt).

(** ** Refunding *)

Definition refund : prog TS (result Receipt) :=
  sc <- getSecret ;;
  swap <- derefS contractSwap ;;
  receipt <-? extS (SenderRefund swap sc) ;;
  clearNextExpectedEvent CompletedRefund ;;;
  done (Ok receipt).

(** The loop of [tryRefund]: an event that is received, or the timer of t2. A sender
    whose event is taken here is never answered. *)
Fixpoint waitForT2 (pending : list Event) : prog TS (result Receipt) :=
  x2 <- getS t2 ;;
  let timer :=
    r <- extS (WaitForTimestamp x2) ;;
    match r with
    | Some e => done (Err (Wrapf "failed to wait for T2" e))
    | None => refund
    end in
  match pending with
  | [] => timer
  | e :: rest =>
      takeEvent <- extS SelectReady ;;
      if negb takeEvent then timer
      else
        modS (setEventCh rest) ;;;
        match e with
        | EventShouldRefund _ => refund
        | EventETHClaimed _ _ => done (Err (errorf revertSwapCompleted))
        | EventExit _ => waitForT2 rest
        | _ => panic "got unexpected event while waiting for Claimed/T2"
        end
  end.

Definition tryRefund : prog TS (result Receipt) :=
  id <- getS contractSwapID ;;
  stage <-? extS (ContractSwaps SwapCreatorAddr id) ;;
  if stage =? StageInvalid then done (Err (Wrapf "contract swap ID" errRefundInvalid))
  else if stage =? StageCompleted then done (Err errRefundSwapCompleted)
  else if negb ((stage =? StagePending) || (stage =? StageReady)) then panic "Unhandled stage value"
  else
    ts <-? extS LatestBlockTimestamp ;;
    x1 <- getS t1 ;;
    x2 <- getS t2 ;;
    let later :=
      if x2 <? ts then refund
      else q <- getS eventCh ;; waitForT2 q in
    if (ts <? x1) && negb (stage =? StageReady) then
      r <- refund ;;
      match r with
      | Ok receipt => done (Ok receipt)
      | Err _ => later
      end
    else later.

Definition handleEventShouldRefund : prog TS (result unit) :=
  ongoing <- statusOngoing ;;
  if negb ongoing then done (Ok tt)
  else
    r <- refund ;;
    match r with
    | Ok _ => done (Ok tt)
    | Err e => done (if stringsContains (errorText e) revertSwapCompleted then Ok tt else Err e)
    end.

(** ** Exiting and handling events *)

(** The deferred function of [exit]. *)
Definition exitCleanup : prog TS unit :=
  id <- OfferID ;;
  extS (CloseProtocolStream id) ;;;
  l <- getS info ;;
  r <- onSys (CompleteOngoingSwap l) ;;
  match r with
  | Err _ => done tt
  | Ok _ =>
      extS (DeleteOngoingSwap id) ;;;
      extS (RecoveryDeleteSwap id) ;;;
      modS (setCancelled true) ;;;
      closeDone
  end.

(** The case of [exit] in which the asset is locked. *)
Definition exitLocked : prog TS (result unit) :=
  r <- tryRefund ;;
  match r with
  | Ok _ => clearNextExpectedEvent CompletedRefund ;;; done (Ok tt)
  | Err e =>
      if errorsIs e errRefundSwapCompleted || stringsContains (errorText e) revertSwapCompleted then
        c <- tryClaim ;;
        match c with
        | Ok _ => done (Ok tt)
        | Err e' =>
            if errorsIs e' errNoClaimLogsFound then
              clearNextExpectedEvent CompletedRefund ;;; done (Ok tt)
            else done (Err (Wrapf "failed to claim even though swap was completed on-chain" e'))
        end
      else done (Err (Wrapf "failed to refund" e))
  end.

Definition exit : prog TS (result unit) :=
  deferring exitCleanup
    (cur <- getS nextExpectedEvent ;;
     match cur with
     | EventKeysReceivedType => clearNextExpectedEvent CompletedAbort ;;; done (Ok tt)
     | EventXMRLockedType | EventETHClaimedType => exitLocked
     | EventNoneType => done (Ok tt)
     | _ =>
         clearNextExpectedEvent CompletedAbort ;;;
         done (Err errUnexpectedEventType)
     end).

Definition handleEvent (event : Event) : prog TS unit :=
  match event with
  | EventKeysReceived message ch =>
      deferring (closeErr ch)
        (cur <- getS nextExpectedEvent ;;
         if negb (bool_decide (cur = EventKeysReceivedType))
         then sendErr ch (errorf "nextExpectedEvent was not EventKeysReceivedType")
         else
           r <- handleEventKeysReceived message ;;
           goOn <- (match r with
                    | Err e =>
                        sendErr ch (Wrapf "failed to handle EventKeysReceivedType" e) ;;;
                        getS fundsLocked
                    | Ok _ => done true
                    end) ;;
           if negb goOn then done tt
           else
             r2 <- setNextExpected EventXMRLockedType ;;
             match r2 with
             | Err e => sendErr ch (Wrapf "failed to set next expected event to EventXMRLockedType" e)
             | Ok _ => done tt
             end)
  | EventXMRLocked ch =>
      deferring (closeErr ch)
        (cur <- getS nextExpectedEvent ;;
         if negb (bool_decide (cur = EventXMRLockedType))
         then sendErr ch (errorf "nextExpectedEvent was not EventXMRLockedType")
         else
           r <- handleNotifyXMRLock ;;
           match r with
           | Err e => sendErr ch (Wrapf "failed to handle EventXMRLockedType" e)
           | Ok _ =>
               r2 <- setNextExpected EventETHClaimedType ;;
               match r2 with
               | Err e => sendErr ch (Wrapf "failed to set next expected event to EventETHClaimedType" e)
               | Ok _ => done tt
               end
           end)
  | EventETHClaimed sk ch =>
      deferring (closeErr ch)
        (cur <- getS nextExpectedEvent ;;
         if negb (bool_decide (cur = EventETHClaimedType))
         then sendErr ch (errorf "nextExpectedEvent was not EventETHClaimedType")
         else
           r <- handleEventETHClaimed sk ;;
           match r with
           | Err e => sendErr ch (Wrapf "failed to handle EventETHClaimedType" e)
           | Ok _ => done tt
           end ;;;
           exit ;;; done tt)
  | EventShouldRefund ch =>
      deferring (closeErr ch)
        (cur <- getS nextExpectedEvent ;;
         (if negb (bool_decide (cur = EventXMRLockedType)) && negb (bool_decide (cur = EventETHClaimedType))
             && negb (bool_decide (cur = EventKeysReceivedType))
          then sendErr ch (errorf "nextExpectedEvent was not as expected")
          else done tt) ;;;
         r <- handleEventShouldRefund ;;
         match r with
         | Err e => sendErr ch (Wrapf "failed to handle EventShouldRefundType" e)
         | Ok _ => done tt
         end ;;;
         exit ;;; done tt)
  | EventExit ch =>
      deferring (closeErr ch)
        (r <- exit ;;
         match r with
         | Err e => sendErr ch (Wrapf "failed to handle EventExit" e)
         | Ok _ => done tt
         end)
  end.

(** One turn of [runHandleEvents]. *)
Definition runHandleEvent : prog TS unit :=
  stop <- getS cancelled ;;
  if stop : bool then done tt
  else
    q <- getS eventCh ;;
    match q with
    | [] => done tt
    | e :: rest => modS (setEventCh rest) ;;; handleEvent e
    end.

(** ** The senders of events *)

Definition NotifyStreamClosed : prog TS (option nat) :=
  cur <- getS nextExpectedEvent ;;
  match cur with
  | EventKeysReceivedType => ch <- Exit ;; done (Some ch)
  | _ => done None
  end.

Definition HandleProtocolMessage (msg : Message) : prog TS (result nat) :=
  match msg with
  | MsgSendKeys m => ch <- newErrCh ;; sendEvent (EventKeysReceived m ch) ;;; done (Ok ch)
  | _ => done (Err errUnexpectedMessageType)
  end.

(** The ticks of [checkForXMRLock], at most [n] of them; the swap may end between two. *)
Fixpoint watchForXMR (n : nat) : prog TS (option nat) :=
  match n with
  | O => done None
  | S n' =>
      stop <- getS cancelled ;;
      if stop : bool then done None
      else
        r <- extS XMRViewBalance ;;
        match r with
        | Err _ => watchForXMR n'
        | Ok balance =>
            expected <- expectedPiconeroAmount ;;
            if PiconeroAmount_CmpU64 expected balance.2 <=? 0 then
              ch <- newErrCh ;; sendEvent (EventXMRLocked ch) ;;; done (Some ch)
            else watchForXMR n'
        end
  end.

Definition checkForXMRLock (n : nat) : prog TS (option nat) :=
  acct <- expectedXMRLockAccount ;;
  height <- getS walletScanHeight ;;
  r <- extS (XMRCreateViewWallet acct.2 acct.1 height) ;;
  match r with
  | Err _ => done None
  | Ok _ => deferring (extS XMRCloseAndRemoveWallet) (watchForXMR n)
  end.

(** The timer fires when 15% of the time until t1 is left; only that it fires matters. *)
Definition runT1ExpirationHandler : prog TS (option nat) :=
  now <- extS Now ;;
  x1 <- getS t1 ;;
  if timeSub x1 now <=? 0 then done None
  else
    stop <- getS cancelled ;;
    locked <- getS xmrLockedClosed ;;
    if (stop : bool) || locked then done None
    else ch <- newErrCh ;; sendEvent (EventShouldRefund ch) ;;; done (Some ch).

Definition handleT2Expired : prog TS nat :=
  ch <- newErrCh ;; sendEvent (EventShouldRefund ch) ;;; done ch.

Definition runT2ExpirationHandler : prog TS (option nat) :=
  x2 <- getS t2 ;;
  r <- extS (WaitForTimestamp x2) ;;
  stop <- getS cancelled ;;
  claimed <- getS claimedClosed ;;
  if (stop : bool) || claimed then done None
  else
    match r with
    | Some _ => done None
    | None => ch <- handleT2Expired ;; done (Some ch)
    end.

Definition handleClaimedLogs (l : Log) : prog TS (result (option nat)) :=
  id <- getS contractSwapID ;;
  match CheckSwapID l claimedTopic id with
  | Err e => done (if errorsIs e ErrLogNotForUs then Ok None else Err e)
  | Ok _ =>
      match GetSecretFromLog l claimedTopic with
      | Err e => done (Err e)
      | Ok sk => ch <- newErrCh ;; sendEvent (EventETHClaimed sk ch) ;;; done (Ok (Some ch))
      end
  end.

End operations.

End Taker.
