(* ===== verification/TakerInstance.v ===== *)
(** * The XMR taker's instance (protocol/xmrtaker: instance.go, net.go,
    min_balance.go, and the constructors of swap_state.go)

    [swapStates] and the goroutines that wait for the end of a swap are as in the
    maker's instance. *)

From stdpp Require Import base gmap list strings.
From Stdlib Require Import ZArith Strings.Byte.
From S2P Require Import Prelude Coins Types Swap Offers Bytes Crypto Contracts External Taker.

Open Scope Z_scope.
Open Scope go_scope.

Module TakerInstance.
Import Taker.

Record Instance_ `{TypesLib} `{CryptoLib} : Type := mkInst {
  isys : Sys;
  instNoTransferBack : bool;
  states : gmap nat swapState;
  nextState : nat;
  swapStates : gmap Hash nat;
  doneWatchers : list (nat * Hash)
}.

Section operations.
Context `{World} `{!InfoJson} `{Apd} `{AbiLib}.

Definition inState {A} (ss : swapState) (m : prog TS A) : prog Sys (A * swapState) := fun s =>
  match m (mkTS _ _ s ss) with
  | (Done a, ts) => (Done (a, sst ts), sys ts)
  | (o, ts) => (abort o, sys ts)
  end.

(** ** swap_state.go: constructors *)

Definition newSwapState (noBack : bool) (l : nat) (ethStartNumber moneroStartNumber : Z)
    : prog Sys (result swapState) :=
  hasKey <- ext ETHHasPrivateKey ;;
  let noBack' := if hasKey : bool then noBack else false in
  i <- readInfo l ;;
  _ <-? (if IsToken (iEthAsset i) then
           _ <-? ext (NewIERC20 (iEthAsset i)) ;; ext (NewTxSender (iEthAsset i))
         else ext (NewTxSender (iEthAsset i))) ;;
  _ <-? ext (StartWatcher claimedTopic ethStartNumber) ;;
  providedAmt <-? (if IsETH (iEthAsset i) then
                     w <- pure (EtherToWei (iProvidedAmount i)) ;; done (Ok (WeiAmount w))
                   else
                     tokenInfo <-? ext (ERC20Info (iEthAsset i)) ;;
                     a <- pure (NewTokenAmountFromDecimals (iProvidedAmount i) tokenInfo) ;;
                     done (Ok a)) ;;
  done (Ok (mkState _ _ l noBack' providedAmt None None None None None None None zeroAddress
              moneroStartNumber EmptyHash None 0 0 (nextExpectedEventFromStatus (iStatus i)) false [] ∅ 0
              false false false false)).

Definition newSwapStateFromStart (makerPeerID : string) (offerID : Hash) (noBack : bool)
    (provided : EthAssetAmount) (exchangeRate : option Decimal) (ethAsset : Address)
    : prog Sys (result swapState) :=
  height <-? ext XMRGetHeight ;;
  let moneroStart := if MinSpendConfirmations <=? height then height - MinSpendConfirmations else height in
  ethHeader <-? ext HeaderByNumber ;;
  rate <- pure (deref exchangeRate) ;;
  expectedAmount <-? pure (ToXMR rate provided) ;;
  std <- pure (AsStd provided) ;;
  now1 <- ext Now ;;
  now2 <- ext Now ;;
  l <- newInfoObject (NewInfo now1 now2 makerPeerID offerID ProvidesETH std expectedAmount
                        exchangeRate ethAsset ExpectingKeys moneroStart) ;;
  _ <-? AddSwap l ;;
  s <-? newSwapState noBack l ethHeader moneroStart ;;
  r <- inState s generateAndSetKeys ;;
  match r.1 with
  | Err e => done (Err e)
  | Ok _ => PushNewStatus offerID ExpectingKeys ;;; done (Ok r.2)
  end.

(** The goroutines started at the end are [checkForXMRLock] for a swap with status
    ETHLocked, and the handlers of t1 and t2. *)
Definition newSwapStateFromOngoing (l : nat) (noBack : bool) (ethSwapInfo : EthereumSwapInfo)
    (sk : PrivateKeyPair) : prog Sys (result swapState) :=
  i <- readInfo l ;;
  if negb (bool_decide (iStatus i = ETHLocked)) && negb (bool_decide (iStatus i = ContractReady))
  then done (Err errInvalidStageForRecovery)
  else
  keys <-? mapErr (Wrapf "failed to get xmrmaker swap keys from db")
             (ext (GetCounterpartySwapKeys (iOfferID i))) ;;
  s <-? newSwapState noBack l (esStartNumber ethSwapInfo) (iMoneroStartHeight i) ;;
  if negb (bool_decide (SwapCreatorAddr = esSwapCreatorAddr ethSwapInfo))
  then done (Err errContractAddrMismatch)
  else
  r <- inState s
         (setTimeouts (swTimeout1 (esSwap ethSwapInfo)) (swTimeout2 (esSwap ethSwapInfo)) ;;;
          modS (setPrivkeys (Some sk)) ;;;
          modS (setPubkeys (Some (PrivateKeyPair_PublicKeyPair sk))) ;;;
          modS (setContractSwapID (esSwapID ethSwapInfo)) ;;;
          modS (setContractSwap (Some (esSwap ethSwapInfo))) ;;;
          modS (setXmrmakerPublicSpendKey (Some keys.1)) ;;;
          modS (setXmrmakerPrivateViewKey (Some keys.2))) ;;
  done (Ok r.2).

(** ** The instance *)

Definition onInst {A} (m : prog Sys A) : prog Instance_ A :=
  zoom isys (fun x i => mkInst _ _ x (instNoTransferBack i) (states i) (nextState i) (swapStates i)
                          (doneWatchers i)) m.
Definition extI {A} (c : call A) : prog Instance_ A := onInst (ext c).

(** The pointer of a new swap state, with the goroutine that waits for its end. *)
Definition startState (ss : swapState) (id : Hash) : prog Instance_ nat := fun i =>
  (Done (nextState i),
   mkInst _ _ (isys i) (instNoTransferBack i) (<[nextState i := ss]> (states i)) (S (nextState i))
     (swapStates i) ((nextState i, id) :: doneWatchers i)).

Definition putSwapState (id : Hash) (p : nat) : prog Instance_ unit :=
  modify (fun i => mkInst _ _ (isys i) (instNoTransferBack i) (states i) (nextState i)
                     (<[id := p]> (swapStates i)) (doneWatchers i)).

(** The goroutine of [startState] when the swap is done. *)
Definition reapDone (w : nat * Hash) : prog Instance_ unit := fun i =>
  match states i !! w.1 with
  | Some ss =>
      if doneClosed ss
      then (Done tt, mkInst _ _ (isys i) (instNoTransferBack i) (states i) (nextState i)
                       (delete w.2 (swapStates i)) (filter (fun x => x ≠ w) (doneWatchers i)))
      else (Blocked, i)
  | None => (Blocked, i)
  end.

(** ** instance.go *)

Definition abortOngoingSwap (l : nat) : prog Sys (result unit) :=
  updateInfo (assignStatus CompletedAbort) l ;;;
  _ <-? CompleteOngoingSwap l ;;
  i <- readInfo l ;;
  ext (RecoveryDeleteSwap (iOfferID i)).

Record newSwapParameters : Type := mkNewSwapParameters {
  npSwapCreatorAddr : Address;
  npOwner : Address;
  npClaimer : Address;
  npCmtXMRMaker : Hash;
  npCmtXMRTaker : Hash;
  npAsset : Address;
  npValue : Z;
  npNonce : Z
}.

Definition getNewSwapParametersFromTx (txHash : Hash) : prog Sys (result newSwapParameters) :=
  txp <-? ext (TransactionByHash txHash) ;;
  let tx := txp.1 in
  match txTo tx with
  | None => done (Err (errorf "invalid transaction: to address is nil"))
  | Some to =>
      if (length (txData tx) <? 4)%nat
      then done (Err (errorf "invalid transaction data: too short"))
      else
        inputs <-? done (abiUnpackNewSwap (drop 4 (txData tx))) ;;
        let '(claimer, cmtXMRMaker, cmtXMRTaker, asset, value, nonce) := inputs in
        from <-? done (txSender tx) ;;
        done (Ok (mkNewSwapParameters to from claimer cmtXMRMaker cmtXMRTaker asset value nonce))
  end.

Definition maybeCancelNewSwap (txHash : Hash) : prog Sys (result bool) :=
  txp <-? mapErr (Wrapf "failed to get newSwap transaction") (ext (TransactionByHash txHash)) ;;
  let '(tx, isPending) := txp in
  if negb isPending then done (Ok false)
  else
    r <- ext (CancelTxWithNonce (txNonce tx) (txGasPrice tx * 2)) ;;
    match r with
    | Ok _ => done (Ok true)
    | Err e =>
        done (if errorsIs e NotFound then Ok false
              else Err (Wrapf "failed to get cancel transaction receipt" e))
    end.

Definition refundOrCancelNewSwap (l : nat) (txHash : Hash) : prog Sys (result unit) :=
  cancelled <-? maybeCancelNewSwap txHash ;;
  if cancelled : bool then done (Ok tt)
  else
  receipt <-? mapErr (Wrapf "failed to get newSwap transaction receipt") (ext (WaitForReceipt txHash)) ;;
  match rcLogs receipt with
  | [] => done (Err errSwapInstantiationNoLogs)
  | logs =>
      ts <-? mapErr (Wrapf "timeouts not found in transaction receipt's logs")
               (pure (firstLog GetTimeoutsFromLog errSwapInstantiationNoLogs logs)) ;;
      params <-? mapErr (Wrapf "failed to get newSwap parameters from tx") (getNewSwapParametersFromTx txHash) ;;
      let swap := mkSwap (npOwner params) (npClaimer params) (npCmtXMRMaker params) (npCmtXMRTaker params)
                    ts.1 ts.2 (npAsset params) (npValue params) (npNonce params) in
      i <- readInfo l ;;
      secret <-? mapErr (Wrapf "failed to get private key for ongoing swap")
                   (ext (GetSwapPrivateKey (iOfferID i))) ;;
      _ <-? mapErr (Wrapf "failed to instantiate SwapCreator contract")
              (ext (NewSwapCreator (npSwapCreatorAddr params))) ;;
      id <- pure (SwapID swap) ;;
      stage <-? mapErr (Wrapf "failed to get swap stage")
                  (ext (ContractSwaps (npSwapCreatorAddr params) id)) ;;
      if negb (stage =? StagePending)
      then done (Err (errorf "swap is not in pending stage, aborting"))
      else
        _ <-? mapErr (Wrapf "failed to get tx opts") (ext ETHTxOpts) ;;
        sc <- pure (toArray32 (Reverse (scalarBytes secret))) ;;
        refundTx <-? mapErr (Wrapf "failed to create refund tx")
                       (ext (ContractRefund (npSwapCreatorAddr params) swap sc)) ;;
        _ <-? mapErr (Wrapf "failed to get refund transaction receipt") (ext (WaitForReceipt refundTx)) ;;
        updateInfo (assignStatus CompletedRefund) l ;;;
        CompleteOngoingSwap l
  end.

(** [Instance.completeSwap]: claim the XMR with the stored secrets. *)
Definition Instance_completeSwap (noBack : bool) (l : nat) (skB : Scalar) : prog Sys (result unit) :=
  i <- readInfo l ;;
  skA <-? ext (GetSwapPrivateKey (iOfferID i)) ;;
  vkA <-? done (View skA) ;;
  keys <-? ext (GetCounterpartySwapKeys (iOfferID i)) ;;
  let kpAB := GetClaimKeypair skA skB vkA keys.2 in
  addr <- ext XMRPrimaryAddress ;;
  _ <-? ClaimMonero l kpAB addr noBack ;;
  updateInfo (assignStatus CompletedSuccess) l ;;;
  mapErr (Wrapf "failed to mark swap as completed") (CompleteOngoingSwap l).

Definition createOngoingSwap (l : nat) : prog Instance_ (result unit) :=
  noBack <- gets instNoTransferBack ;;
  i <- onInst (readInfo l) ;;
  let id := iOfferID i in
  r <- extI (GetCounterpartySwapPrivateKey id) ;;
  match r with
  | Ok skB => onInst (Instance_completeSwap noBack l skB)
  | Err _ =>
      ethSwapInfo <-? mapErr (Wrapf "failed to get contract info for ongoing swap")
                        (extI (GetContractSwapInfo id)) ;;
      sk <-? mapErr (Wrapf "failed to get private key for ongoing swap") (extI (GetSwapPrivateKey id)) ;;
      kp <-? done (AsPrivateKeyPair sk) ;;
      ss <-? mapErr (Wrapf "failed to create new swap state for ongoing swap")
               (onInst (newSwapStateFromOngoing l noBack ethSwapInfo kp)) ;;
      p <- startState ss id ;;
      putSwapState id p ;;;
      done (Ok tt)
  end.

(** The loop body of [checkForOngoingSwaps]. *)
Definition recoverSwap (l0 : nat) : prog Instance_ (result unit) :=
  i0 <- onInst (readInfo l0) ;;
  l <-? onInst (GetOngoingSwap (iOfferID i0)) ;;
  i <- onInst (readInfo l) ;;
  if negb (bool_decide (iProvides i = ProvidesETH)) then done (Ok tt)
  else if bool_decide (iStatus i = ExpectingKeys) then
    r <- extI (GetNewSwapTxHash (iOfferID i)) ;;
    match r with
    | Err e =>
        if errorsIs e ErrKeyNotFound then
          mapErr (Wrapf "failed to abort ongoing swap") (onInst (abortOngoingSwap l))
        else done (Err (Wrapf "failed to get newSwap tx hash for ongoing swap" e))
    | Ok txHash =>
        mapErr (Wrapf "failed to refund or cancel swap") (onInst (refundOrCancelNewSwap l txHash))
    end
  else if bool_decide (iStatus i = SweepingXMR) then
    onInst (updateInfo (assignStatus CompletedSuccess) l) ;;;
    mapErr (Wrapf "failed to mark swap as completed") (onInst (CompleteOngoingSwap l))
  else
    createOngoingSwap l ;;; done (Ok tt).

Fixpoint recoverSwaps (ls : list nat) : prog Instance_ (result unit) :=
  match ls with
  | [] => done (Ok tt)
  | l :: rest => _ <-? recoverSwap l ;; recoverSwaps rest
  end.

Definition checkForOngoingSwaps : prog Instance_ (result unit) :=
  ongoingIDs <-? onInst GetOngoingSwapOfferIDs ;;
  recoverSwaps ongoingIDs.

(** The option [NoTransferBack] of the configuration is not used. *)
Definition NewInstance (cfgNoTransferBack : bool) : prog Instance_ (result unit) :=
  modify (fun i => mkInst _ _ (isys i) false ∅ 0 ∅ []) ;;;
  checkForOngoingSwaps.

Definition GetOngoingSwapState (id : Hash) : prog Instance_ (option nat) :=
  gets (fun i => swapStates i !! id).

(** ** min_balance.go *)

Definition MaxNewSwapETHGas : Z := 50639.
Definition MaxNewSwapTokenGas : Z := 87369.
Definition MaxSetReadyGas : Z := 32054.
Definition MaxRefundETHGas : Z := 43132.
Definition MaxRefundTokenGas : Z := 48327.
Definition MaxTokenApproveGas : Z := 47000.

Definition validateMinBalForETHSwap (weiBalance providesAmt : Decimal) (gasPriceWei : Z)
    : outcome (result unit) :=
  w <~ EtherToWei providesAmt ;;
  providedAmtWei <~ WeiAmount_BigInt w ;;
  let neededGas := MaxNewSwapETHGas + MaxSetReadyGas + MaxRefundETHGas in
  let neededBalanceWei := providedAmtWei + neededGas * gasPriceWei in
  balance <~ WeiAmount_BigInt weiBalance ;;
  if balance <? neededBalanceWei then Done (Err errETHBalanceTooLow) else Done (Ok tt).

Definition validateMinBalForTokenSwap (weiBalance : Decimal) (tokenBalance : EthAssetAmount)
    (providesAmt : Decimal) (gasPriceWei : Z) : outcome (result unit) :=
  std <~ AsStd tokenBalance ;;
  if apdCmp std providesAmt <? 0 then Done (Err errTokenBalanceTooLow)
  else
    let neededGas := MaxTokenApproveGas + MaxNewSwapTokenGas + MaxSetReadyGas + MaxRefundTokenGas in
    balance <~ WeiAmount_BigInt weiBalance ;;
    if balance <? neededGas * gasPriceWei then Done (Err errETHBalanceTooLow) else Done (Ok tt).

Definition validateMinBalance (providesAmt : Decimal) (asset : Address) : prog Sys (result unit) :=
  gasPrice <-? ext SuggestGasPrice ;;
  weiBalance <-? ext ETHBalance ;;
  if IsETH asset then pure (validateMinBalForETHSwap weiBalance providesAmt gasPrice)
  else
    tokenBalance <-? ext (ERC20Balance asset) ;;
    pure (validateMinBalForTokenSwap weiBalance tokenBalance providesAmt gasPrice).

(** ** net.go *)

Definition initiate (makerPeerID : string) (providesAmount : EthAssetAmount) (exchangeRate : option Decimal)
    (ethAsset : Address) (offerID : Hash) : prog Instance_ (result nat) :=
  cur <- gets (fun i => swapStates i !! offerID) ;;
  match cur with
  | Some _ => done (Err errProtocolAlreadyInProgress)
  | None =>
      noBack <- gets instNoTransferBack ;;
      s <-? onInst (newSwapStateFromStart makerPeerID offerID noBack providesAmount exchangeRate ethAsset) ;;
      p <- startState s offerID ;;
      putSwapState offerID p ;;;
      done (Ok p)
  end.

Definition InitiateProtocol (makerPeerID : string) (providesAmount : option Decimal) (o : Offer)
    : prog Instance_ (result nat) :=
  token <-? (if IsToken (oEthAsset o) then
               t <-? extI (ERC20Info (oEthAsset o)) ;; done (Ok (Some t))
             else done (Ok None)) ;;
  let maxDecimals := match token with Some t => tokNumDecimals t | None => NumEtherDecimals end in
  let '(err, provides) := ValidatePositive "providesAmount" maxDecimals providesAmount in
  match err with
  | Some e => done (Err e)
  | None =>
      amt <- pure (deref provides) ;;
      providedAssetAmount <- pure (NewEthAssetAmount amt token) ;;
      rate <- pure (deref (oExchangeRate o)) ;;
      providesAmtAsXMR <-? pure (ToXMR rate providedAssetAmount) ;;
      minAmount <- pure (deref (oMinAmount o)) ;;
      if apdCmp providesAmtAsXMR minAmount <? 0 then done (Err errAmountProvidedTooLow)
      else
      maxAmount <- pure (deref (oMaxAmount o)) ;;
      if 0 <? apdCmp providesAmtAsXMR maxAmount then done (Err errAmountProvidedTooHigh)
      else
        _ <-? onInst (validateMinBalance amt (oEthAsset o)) ;;
        initiate makerPeerID providedAssetAmount (oExchangeRate o) (oEthAsset o) (oID o)
  end.

End operations.

End TakerInstance.
