(* ===== verification/TakerProofs.v ===== *)
(** * Theorems about the XMR taker's swap *)

From stdpp Require Import base gmap list strings.
From Stdlib Require Import ZArith Strings.Byte.
From S2P Require Import Prelude Coins Types Swap Offers Bytes Crypto Contracts External Taker TraceLogic.

Open Scope Z_scope.
Open Scope go_scope.

Module TakerProofs.
Import Taker.

#[export] Instance tsHasSys `{TypesLib} `{CryptoLib} : HasSys TS := sys.

(** ** What matters on the trace *)

Section observations.
Context `{TypesLib} `{CryptoLib} `{Apd}.

(** The taker locks its asset in the contract. *)
Definition isLock (o : obs) : bool :=
  match o with Obs (SenderNewSwap _ _ _ _ _ _) _ => true | _ => false end.

(** The taker lets the maker claim. *)
Definition isReady (o : obs) : bool :=
  match o with Obs (SenderSetReady _) _ => true | _ => false end.

(** The taker hands out its secret. *)
Definition isRefund (o : obs) : bool :=
  match o with Obs (SenderRefund _ _) _ => true | _ => false end.

(** At least [expected] XMR are seen unlocked in the swap's account. *)
Definition isXMRSeen (expected : option Decimal) (o : obs) : bool :=
  match o with
  | Obs c a =>
      match c in call B return B → bool with
      | XMRViewBalance => fun a =>
          match a, expected with
          | Ok balance, Some e =>
              match MoneroToPiconero e with
              | Done pn => PiconeroAmount_CmpU64 pn balance.2 <=? 0
              | _ => false
              end
          | _, _ => false
          end
      | _ => fun _ => false
      end a
  end.

Definition noReady (o : obs) : bool := negb (isReady o).

Lemma isDbObs_noReady o : isDbObs o = true → noReady o = true.
Proof. destruct o as [A c a]. by destruct c. Qed.

End observations.

(** ** Setting the contract to ready *)

Section ready.
Context `{World} `{!InfoJson} `{Apd} `{AbiLib}.

(** The amounts in the swaps' records do not change. *)
Definition sameAmounts (s s' : Sys) : Prop :=
  ∀ l, (iExpectedAmount <$> infos (mgr s') !! l) = (iExpectedAmount <$> infos (mgr s) !! l).

Definition sysCalm (p : obs → bool) (s s' : Sys) : Prop := emits p s s' ∧ sameAmounts s s'.

#[export] Instance sysCalm_preorder p : PreOrder (sysCalm p).
Proof.
  split; unfold sysCalm, sameAmounts.
  - intros s. split; reflexivity.
  - intros a b c [E1 F1] [E2 F2]. split; [by etrans |]. intros l. by rewrite F2, F1.
Qed.

Lemma sysCalm_same {A} p (m : prog Sys A) :
  keeps (emits p) m → keeps sameInfos m → keeps (sysCalm p) m.
Proof. intros He Hs s. split; [apply He |]. intros l. by rewrite (Hs s). Qed.

Definition expectedOf (s : TS) : option Decimal :=
  iExpectedAmount <$> infos (mgr (sys s)) !! info (sst s).

(** An event that reports locked XMR is waiting to be handled. *)
Definition isXMRLocked (e : Event) : bool := match e with EventXMRLocked _ => true | _ => false end.
Definition xmrQueued (s : TS) : bool := existsb isXMRLocked (eventCh (sst s)).

(** Runs that emit only [p], keep the expected amount and queue no such event. *)
Definition calm (p : obs → bool) (s s' : TS) : Prop :=
  emits p s s' ∧ expectedOf s' = expectedOf s ∧ (xmrQueued s' = true → xmrQueued s = true).

#[export] Instance calm_preorder p : PreOrder (calm p).
Proof.
  split; unfold calm.
  - intros s. repeat split; auto. reflexivity.
  - intros a b c (E1 & F1 & G1) (E2 & F2 & G2). split; [by etrans |]. split; [congruence | auto].
Qed.

Lemma calm_onSys p {A} (m : prog Sys A) : keeps (sysCalm p) m → keeps (calm p) (onSys m).
Proof.
  intros Hm. apply keeps_zoom. intros s. destruct (Hm (sys s)) as [He Ha].
  split; [exact He |]. split; [apply Ha | done].
Qed.

Lemma calm_modS p f :
  (∀ ss, info (f ss) = info ss) →
  (∀ ss, existsb isXMRLocked (eventCh (f ss)) = true → existsb isXMRLocked (eventCh ss) = true) →
  keeps (calm p) (modS f).
Proof.
  intros Hi He s. split; [by exists [] |]. unfold expectedOf, xmrQueued. simpl. rewrite Hi. auto.
Qed.

Lemma calm_getS p {A} (f : swapState → A) : keeps (calm p) (getS f).
Proof. unfold getS. apply keeps_gets. typeclasses eauto. Qed.

Lemma sysCalm_ext {A} p (c : call A) : (∀ a, p (Obs c a) = true) → keeps (sysCalm p) (ext c).
Proof. intros Hp. apply sysCalm_same; [by apply keeps_ext | apply sameInfos_ext]. Qed.

End ready.

#[export] Hint Extern 1 (keeps (sysCalm _) (ext _)) => apply sysCalm_ext; intros; reflexivity : keeps.
#[export] Hint Extern 1 (keeps (calm _) (modS _)) =>
  apply calm_modS; [intros; reflexivity | intros; assumption] : keeps.
#[export] Hint Resolve calm_getS calm_onSys isDbObs_noReady : keeps.

Section calm_operations.
Context `{World} `{!InfoJson} `{Apd} `{AbiLib}.
Context (p : obs → bool) (Hp : ∀ o, isDbObs o = true → p o = true).

Lemma sysCalm_readInfo l : keeps (sysCalm p) (readInfo l : prog Sys _).
Proof using Type.
  apply sysCalm_same; [apply emits_readInfo |]. intros s. unfold readInfo. by destruct (infos _ !! l).
Qed.

Lemma sysCalm_updateInfo f l :
  (∀ i, iExpectedAmount (f i) = iExpectedAmount i) → keeps (sysCalm p) (updateInfo f l : prog Sys _).
Proof using Type.
  intros Hf s. split; [apply emits_updateInfo |]. unfold updateInfo, readInfo, pbind, withManager, modify.
  simpl. intros k. destruct (infos (mgr s) !! l) as [i|] eqn:Hi; simpl; [| done].
  destruct (decide (k = l)) as [->|Hne].
  - rewrite lookup_insert_eq, Hi. simpl. by rewrite Hf.
  - by rewrite lookup_insert_ne.
Qed.

Lemma sysCalm_timeNow : keeps (sysCalm p) (timeNow : prog Sys _).
Proof using Hp. apply (sysCalm_ext p Now). intros a. by apply Hp. Qed.

Lemma sysCalm_dbPutSwap i : keeps (sysCalm p) (dbPutSwap i : prog Sys _).
Proof using Hp. apply (sysCalm_ext p (PutSwap i)). intros a. by apply Hp. Qed.

Lemma sysCalm_Push id st : keeps (sysCalm p) (PushNewStatus id st : prog Sys _).
Proof using Type. apply sysCalm_same; [apply emits_PushNewStatus | apply sameInfos_PushNewStatus]. Qed.

Lemma sysCalm_withManager f :
  (∀ m, infos (f m) = infos m) → keeps (sysCalm p) (withManager f : prog Sys _).
Proof using Type. intros Hf s. split; [by exists [] |]. intros l. simpl. by rewrite Hf. Qed.

Hint Resolve sysCalm_readInfo sysCalm_timeNow sysCalm_dbPutSwap sysCalm_Push : keeps.
Hint Extern 1 (keeps (sysCalm _) (updateInfo _ _)) => apply sysCalm_updateInfo; intros; reflexivity : keeps.
Hint Extern 1 (keeps (sysCalm _) (withManager _)) => apply sysCalm_withManager; intros; reflexivity : keeps.

Lemma sysCalm_SetStatus l st : keeps (sysCalm p) (Info_SetStatus l st : prog Sys _).
Proof using Hp. unfold Info_SetStatus. keeps_auto. Qed.
Lemma sysCalm_Write l : keeps (sysCalm p) (WriteSwapToDB l : prog Sys _).
Proof using Hp. unfold WriteSwapToDB. keeps_auto. Qed.
Lemma sysCalm_Complete l : keeps (sysCalm p) (CompleteOngoingSwap l : prog Sys _).
Proof using Hp. unfold CompleteOngoingSwap. keeps_auto. Qed.

End calm_operations.

#[export] Hint Resolve sysCalm_readInfo sysCalm_Push sysCalm_SetStatus sysCalm_Write sysCalm_Complete : keeps.
#[export] Hint Extern 1 (keeps (sysCalm _) (updateInfo _ _)) =>
  apply sysCalm_updateInfo; intros; reflexivity : keeps.

Section handlers.
Context `{World} `{!InfoJson} `{Apd} `{AbiLib}.

Lemma calm_ClaimMonero l kp addr b : keeps (sysCalm noReady) (ClaimMonero l kp addr b).
Proof. unfold ClaimMonero, setSweepStatus. keeps_auto. Qed.
Lemma calm_AssetSymbol a : keeps (sysCalm noReady) (AssetSymbol a).
Proof. unfold AssetSymbol. keeps_auto. Qed.
Hint Resolve calm_ClaimMonero calm_AssetSymbol : keeps.

Lemma calm_extS {A} p (c : call A) : (∀ a, p (Obs c a) = true) → keeps (calm p) (extS c).
Proof. intros Hp. by apply calm_onSys, sysCalm_ext. Qed.
Hint Extern 1 (keeps (calm _) (extS _)) => apply calm_extS; intros; reflexivity : keeps.

Lemma calm_derefS p {A} (f : swapState → option A) : keeps (calm p) (derefS f).
Proof. unfold derefS. keeps_auto. Qed.
Lemma calm_readS p : keeps (calm p) readS.
Proof. unfold readS. keeps_auto. Qed.
Hint Resolve calm_derefS calm_readS : keeps.
Lemma calm_OfferID p : keeps (calm p) OfferID.
Proof. unfold OfferID. keeps_auto. Qed.
Lemma calm_statusOngoing p : keeps (calm p) statusOngoing.
Proof. unfold statusOngoing. keeps_auto. Qed.
Lemma calm_newErrCh p : keeps (calm p) newErrCh.
Proof. unfold newErrCh. keeps_auto. Qed.
Lemma calm_sendErr p c e : keeps (calm p) (sendErr c e).
Proof. unfold sendErr. keeps_auto. Qed.
Lemma calm_closeErr p c : keeps (calm p) (closeErr c).
Proof. unfold closeErr. keeps_auto. Qed.
Lemma calm_sendEvent p e : isXMRLocked e = false → keeps (calm p) (sendEvent e).
Proof.
  intros He. apply calm_modS; [done |]. intros ss. simpl. rewrite existsb_app. simpl. rewrite He.
  by rewrite !orb_false_r.
Qed.
Lemma calm_closeXmrLockedCh p : keeps (calm p) closeXmrLockedCh.
Proof. unfold closeXmrLockedCh. keeps_auto. Qed.
Lemma calm_closeClaimedCh p : keeps (calm p) closeClaimedCh.
Proof. unfold closeClaimedCh. keeps_auto. Qed.
Lemma calm_closeDone p : keeps (calm p) closeDone.
Proof. unfold closeDone. keeps_auto. Qed.
Hint Resolve calm_OfferID calm_statusOngoing calm_newErrCh calm_sendErr calm_closeErr
  calm_closeXmrLockedCh calm_closeClaimedCh calm_closeDone : keeps.
Hint Extern 1 (keeps (calm _) (sendEvent _)) => apply calm_sendEvent; reflexivity : keeps.

Lemma calm_updateStatus st : keeps (calm noReady) (updateStatus st).
Proof. unfold updateStatus. keeps_auto. Qed.
Hint Resolve calm_updateStatus : keeps.
Lemma calm_clear st : keeps (calm noReady) (clearNextExpectedEvent st).
Proof. unfold clearNextExpectedEvent. keeps_auto. Qed.
Lemma calm_setNextExpected e : keeps (calm noReady) (setNextExpected e).
Proof. unfold setNextExpected. keeps_auto. Qed.
Lemma calm_setTimeouts a b : keeps (calm noReady) (setTimeouts a b).
Proof. unfold setTimeouts. keeps_auto. Qed.
Hint Resolve calm_clear calm_setNextExpected calm_setTimeouts : keeps.

Lemma calm_lockAsset : keeps (calm noReady) lockAsset.
Proof. unfold lockAsset, lockAndWaitForReceipt. keeps_auto. Qed.
Hint Resolve calm_lockAsset : keeps.
Lemma calm_keysReceived msg : keeps (calm noReady) (handleEventKeysReceived msg).
Proof. unfold handleEventKeysReceived, handleSendKeysMessage, setXMRMakerKeys. keeps_auto. Qed.
Lemma calm_getSecret : keeps (calm noReady) getSecret.
Proof. unfold getSecret. keeps_auto. Qed.
Hint Resolve calm_keysReceived calm_getSecret : keeps.
Lemma calm_refund : keeps (calm noReady) refund.
Proof. unfold refund. keeps_auto. Qed.
Lemma calm_claimMonero sk : keeps (calm noReady) (claimMonero sk).
Proof. unfold claimMonero. keeps_auto. Qed.
Hint Resolve calm_refund calm_claimMonero : keeps.
Lemma calm_tryClaim : keeps (calm noReady) tryClaim.
Proof. unfold tryClaim, filterForClaim. keeps_auto. Qed.
Lemma calm_ETHClaimed sk : keeps (calm noReady) (handleEventETHClaimed sk).
Proof. unfold handleEventETHClaimed. keeps_auto. Qed.
Lemma calm_ShouldRefund : keeps (calm noReady) handleEventShouldRefund.
Proof. unfold handleEventShouldRefund. keeps_auto. Qed.
Lemma calm_exitCleanup : keeps (calm noReady) exitCleanup.
Proof. unfold exitCleanup. keeps_auto. Qed.
Hint Resolve calm_tryClaim calm_ETHClaimed calm_ShouldRefund calm_exitCleanup : keeps.

(** The queue as the loop of [tryRefund] sees it. *)
Lemma calm_waitForT2 pending s :
  eventCh (sst s) = pending → calm noReady s (waitForT2 pending s).2.
Proof.
  revert s. induction pending as [|e rest IH]; intros s Hq.
  - enough (keeps (calm noReady) (waitForT2 [])) as Hk by apply Hk. simpl. keeps_auto.
  - simpl. change (pbind (getS t2) ?k s) with (k (t2 (sst s)) s). cbv beta zeta.
    pose proof (calm_extS noReady SelectReady (fun _ => eq_refl) s) as Hc. unfold pbind at 1.
    destruct (extS SelectReady s) as [[b|?| |] s1] eqn:E; simpl in Hc |- *; try done.
    assert (eventCh (sst s1) = e :: rest) as Hq1 by (unfold extS, onSys, zoom in E; by inversion E; subst).
    etrans; [exact Hc |]. destruct b; simpl.
    + set (s2 := mkTS _ _ (sys s1) (setEventCh rest (sst s1))).
      assert (calm noReady s1 s2) as H12.
      { split; [by exists [] |]. split; [done |]. unfold xmrQueued. simpl. rewrite Hq1. simpl.
        intros ->. apply orb_true_r. }
      change (pbind (modS (setEventCh rest)) ?k s1) with (k tt s2). cbv beta.
      etrans; [exact H12 |]. destruct e; [apply keeps_panic, _ | apply keeps_panic, _ | reflexivity | apply calm_refund |].
      by apply IH.
    + match goal with |- calm _ s1 (?m s1).2 => enough (keeps (calm noReady) m) as Hk by apply Hk end.
      keeps_auto.
Qed.

Lemma calm_tryRefund : keeps (calm noReady) tryRefund.
Proof.
  assert (keeps (calm noReady) (q <- getS eventCh ;; waitForT2 q)) as Hw.
  { intros s. change (pbind (getS eventCh) ?k s) with (k (eventCh (sst s)) s). by apply calm_waitForT2. }
  unfold tryRefund. repeat (first [exact Hw | keeps_step]).
Qed.
Hint Resolve calm_tryRefund : keeps.

Lemma calm_exit : keeps (calm noReady) exit.
Proof. unfold exit, exitLocked. keeps_auto. Qed.
Hint Resolve calm_exit : keeps.

(** Only the report of locked XMR sets the contract to ready. *)
Lemma calm_handleEvent e : isXMRLocked e = false → keeps (calm noReady) (handleEvent e).
Proof. intros He. destruct e; try done; simpl; keeps_auto. Qed.

Definition anyObs (o : obs) : bool := true.

Lemma calm_anyObs {A} (m : prog TS A) : keeps (calm noReady) m → keeps (calm anyObs) m.
Proof.
  apply keeps_weaken. intros s s' (E & F & G). split; [| done]. exact (emits_forward _ _ _ E).
Qed.
Hint Extern 5 (keeps (calm anyObs) _) => apply calm_anyObs : keeps.

Lemma calm_Exit p : keeps (calm p) Exit.
Proof. unfold Exit. keeps_auto. Qed.
Hint Resolve calm_Exit : keeps.

Lemma calm_XMRLocked ch : keeps (calm anyObs) (handleEvent (EventXMRLocked ch)).
Proof. simpl. unfold handleNotifyXMRLock, setReady. keeps_auto. Qed.

(** ** Whole swaps *)

Inductive takerOp : Type :=
| OpExit
| OpStreamClosed
| OpMessage (m : Message)
| OpCheckXMR (ticks : nat)
| OpT1Timer
| OpT2Timer
| OpClaimedLog (l : Log).

Definition runOp (op : takerOp) : prog TS unit :=
  match op with
  | OpExit => Exit ;;; done tt
  | OpStreamClosed => NotifyStreamClosed ;;; done tt
  | OpMessage m => HandleProtocolMessage m ;;; done tt
  | OpCheckXMR n => checkForXMRLock n ;;; done tt
  | OpT1Timer => runT1ExpirationHandler ;;; done tt
  | OpT2Timer => runT2ExpirationHandler ;;; done tt
  | OpClaimedLog l => handleClaimedLogs l ;;; done tt
  end.

Inductive step : bool * TS → bool * TS → Prop :=
| step_handle s : step (true, s)
    (match (runHandleEvent s).1 with Done _ => true | _ => false end, (runHandleEvent s).2)
| step_op b op s : step (b, s) (b, (runOp op s).2).

Lemma extS_run {A} (c : call A) s :
  ∃ a s1, extS c s = (Done a, s1) ∧ sst s1 = sst s ∧ trace (sys s1) = Obs c a :: trace (sys s).
Proof. eexists _, _. split; [reflexivity |]. done. Qed.

(** The account of the swap: the address of the summed keys, and the view key that
    shows what it holds. *)
Definition swapAccount (st : swapState) (addr : bytes) (vk : Scalar) : Prop :=
  ∃ makerView makerSpend priv pub,
    xmrmakerPrivateViewKey st = Some makerView ∧ xmrmakerPublicSpendKey st = Some makerSpend ∧
    privkeys st = Some priv ∧ pubkeys st = Some pub ∧ vk = SumPrivateViewKeys makerView (kpView priv) ∧
    PublicKeyPair_Address (NewPublicKeyPair (SumPublicKeys makerSpend (pkSpend pub)) (Public vk)) Env = Done addr.

Definition isPoll (o : obs) : bool := match o with Obs XMRViewBalance _ => true | _ => false end.

(** Since [s], a view wallet of the account of the swap was opened, at a state [s1] of
    the run, and while it was open its balance was polled until it showed at least the
    expected amount. *)
Definition seenInAccount (s : TS) (pre : list obs) : Prop :=
  ∃ running s1 addr vk height later o polls,
    rtc step (true, s) (running, s1) ∧ swapAccount (sst s1) addr vk ∧
    isXMRSeen (expectedOf s) o = true ∧ forallb isPoll polls = true ∧
    pre = later ++ o :: polls ++ Obs (XMRCreateViewWallet vk addr height) (Ok tt) :: newObs s s1.

Lemma seenInAccount_up s new pre : seenInAccount s pre → seenInAccount s (new ++ pre).
Proof.
  intros (b & s1 & addr & vk & h & later & o & polls & Hr & Ha & Ho & Hp & ->).
  exists b, s1, addr, vk, h, (new ++ later), o, polls. rewrite <- app_assoc. auto.
Qed.

(** *** One step *)

(** The step opened the view wallet of the account and saw the XMR there. *)
Definition reported (s : TS) (new : list obs) : Prop :=
  ∃ addr vk height later o polls,
    swapAccount (sst s) addr vk ∧ isXMRSeen (expectedOf s) o = true ∧ forallb isPoll polls = true ∧
    new = later ++ o :: polls ++ [Obs (XMRCreateViewWallet vk addr height) (Ok tt)].

(** A step that sets the contract to ready handles a report, and a report is queued by a
    step that saw the XMR. *)
Definition advances (s s' : TS) : Prop :=
  ∃ new, trace (sys s') = new ++ trace (sys s) ∧ expectedOf s' = expectedOf s ∧
    (xmrQueued s' = true → xmrQueued s = true ∨ reported s new) ∧
    (existsb isReady new = true → xmrQueued s = true).

Lemma noReady_emitted new : forallb noReady new = true → existsb isReady new = false.
Proof.
  induction new as [|o new IH]; simpl; [done |]. unfold noReady at 1. intros [Ho Hn]%andb_true_iff.
  rewrite IH by done. by destruct (isReady o).
Qed.

Lemma calm_advances s s' : calm noReady s s' → advances s s'.
Proof.
  intros ((new & E & Hn) & F & G). exists new. split; [done |]. split; [done |]. split; [auto |].
  rewrite (noReady_emitted _ Hn). discriminate.
Qed.

Lemma advances_runHandleEvent s : advances s (runHandleEvent s).2.
Proof.
  unfold runHandleEvent.
  change (pbind (getS cancelled) ?k s) with (k (cancelled (sst s)) s). cbv beta.
  destruct (cancelled (sst s)); [apply calm_advances; reflexivity |].
  change (pbind (getS eventCh) ?k s) with (k (eventCh (sst s)) s). cbv beta.
  destruct (eventCh (sst s)) as [|e rest] eqn:Hq; [apply calm_advances; reflexivity |].
  set (s1 := mkTS _ _ (sys s) (setEventCh rest (sst s))).
  change (pbind (modS (setEventCh rest)) ?k s) with (k tt s1). cbv beta.
  destruct (isXMRLocked e) eqn:He.
  - destruct e as [|ch| | |]; try done.
    destruct (calm_XMRLocked ch s1) as ((new & E & _) & F & G). exists new.
    assert (xmrQueued s = true) as Hs by (unfold xmrQueued; by rewrite Hq).
    split; [done |]. split; [done |]. auto.
  - apply calm_advances. etrans; [| apply (calm_handleEvent e He)]. split; [by exists [] |]. split; [done |].
    unfold xmrQueued. simpl. rewrite Hq. simpl. intros ->. apply orb_true_r.
Qed.

(** What the polls of an open view wallet lead to. *)
Definition polled (s s' : TS) : Prop :=
  ∃ polls, trace (sys s') = polls ++ trace (sys s) ∧ forallb isPoll polls = true ∧
    expectedOf s' = expectedOf s ∧
    (xmrQueued s' = true → xmrQueued s = true ∨
      ∃ o rest, polls = o :: rest ∧ isXMRSeen (expectedOf s) o = true).

Lemma polled_refl s : polled s s.
Proof. exists []. auto. Qed.

(** One poll, followed by those that lead to [s']. *)
Lemma polled_cons s s1 s' r :
  trace (sys s1) = Obs XMRViewBalance r :: trace (sys s) → expectedOf s1 = expectedOf s →
  sst s1 = sst s → polled s1 s' → polled s s'.
Proof.
  intros Et Ee Es (polls & Ep & Hp & Eq & Hq). exists (polls ++ [Obs XMRViewBalance r]).
  rewrite Ep, Et, <- app_assoc, forallb_app, Hp. split; [done |]. split; [done |]. split; [congruence |].
  intros Hx. destruct (Hq Hx) as [Hy|(o & rest & -> & Ho)].
  - left. revert Hy. unfold xmrQueued. by rewrite Es.
  - right. rewrite <- Ee. simpl. eauto.
Qed.

(** Reporting XMR that was just seen. *)
Lemma polled_report s s1 balance :
  trace (sys s1) = Obs XMRViewBalance (Ok balance) :: trace (sys s) → expectedOf s1 = expectedOf s →
  isXMRSeen (expectedOf s) (Obs XMRViewBalance (Ok balance)) = true →
  polled s ((ch <- newErrCh ;; sendEvent (EventXMRLocked ch) ;;; done (Some ch)) s1).2.
Proof.
  intros Et Ee Hs. exists [Obs XMRViewBalance (Ok balance)]. split; [exact Et |]. split; [done |].
  split; [exact Ee |]. intros _. right. eauto.
Qed.

Lemma expectedPiconeroAmount_run s :
  (expectedPiconeroAmount s).2 = s ∧
  ∀ pn, (expectedPiconeroAmount s).1 = Done pn →
    ∃ e, expectedOf s = Some e ∧ MoneroToPiconero e = Done pn.
Proof.
  unfold expectedPiconeroAmount, readS, onSys, zoom, readInfo, pbind, getS, gets, pure, expectedOf. simpl.
  destruct (infos (mgr (sys s)) !! info (sst s)) as [i|]; simpl; (split; [by destruct s |]); [| done]. eauto.
Qed.

Lemma polled_watchForXMR n s : polled s (watchForXMR n s).2.
Proof.
  revert s. induction n as [|n IH]; intros s; [apply polled_refl |]. cbn [watchForXMR].
  change (pbind (getS cancelled) ?k s) with (k (cancelled (sst s)) s). cbv beta.
  destruct (cancelled (sst s)); [apply polled_refl |]. unfold pbind at 1.
  destruct (extS XMRViewBalance s) as [[r|?| |] s1] eqn:E; try (by unfold extS, onSys, zoom in E; simpl in E).
  assert (trace (sys s1) = Obs XMRViewBalance r :: trace (sys s) ∧ sst s1 = sst s ∧
          expectedOf s1 = expectedOf s) as (Et & Es & Ee)
    by (unfold extS, onSys, zoom in E; by inversion E; subst).
  destruct r as [balance|e]; [| apply (polled_cons s s1 _ (Err e)); auto].
  unfold pbind at 1. destruct (expectedPiconeroAmount_run s1) as [E2 Hpn].
  destruct (expectedPiconeroAmount s1) as [o s2]. simpl in E2, Hpn. subst s2.
  destruct o as [pn|?| |]; [| apply (polled_cons s s1 _ (Ok balance)); auto using polled_refl ..].
  destruct (Hpn pn eq_refl) as (ea & He1 & He2).
  destruct (PiconeroAmount_CmpU64 pn balance.2 <=? 0) eqn:Hle; [| apply (polled_cons s s1 _ (Ok balance)); auto].
  apply (polled_report s s1 balance); auto. rewrite <- Ee, He1. simpl. by rewrite He2, Hle.
Qed.

Lemma expectedXMRLockAccount_run s :
  (expectedXMRLockAccount s).2 = s ∧
  ∀ acct, (expectedXMRLockAccount s).1 = Done acct → swapAccount (sst s) acct.1 acct.2.
Proof.
  unfold expectedXMRLockAccount, derefS, pbind, getS, gets, pure, swapAccount. simpl.
  destruct (xmrmakerPrivateViewKey (sst s)) as [mv|]; simpl; [| done].
  destruct (privkeys (sst s)) as [priv|]; simpl; [| done].
  destruct (xmrmakerPublicSpendKey (sst s)) as [ms|]; simpl; [| done].
  destruct (pubkeys (sst s)) as [pub|]; simpl; [| done].
  destruct (PublicKeyPair_Address _ Env) as [addr|?| |] eqn:E; simpl; (split; [done |]); try done.
  intros acct [= <-]. simpl. eauto 10.
Qed.

Lemma advances_checkForXMRLock n s : advances s (checkForXMRLock n s).2.
Proof.
  unfold checkForXMRLock. destruct (expectedXMRLockAccount_run s) as [E0 Hacct]. unfold pbind at 1.
  destruct (expectedXMRLockAccount s) as [[[addr vk]|?| |] s0]; simpl in E0, Hacct; subst s0;
    try (apply calm_advances; reflexivity).
  specialize (Hacct _ eq_refl). simpl in Hacct.
  change (pbind (getS walletScanHeight) ?k s) with (k (walletScanHeight (sst s)) s). cbv beta.
  set (h := walletScanHeight (sst s)). simpl.
  destruct (extS_run (XMRCreateViewWallet vk addr h) s) as (r & s1 & E & Es & Et). rewrite (pbind_Done _ _ _ _ _ E).
  pose proof (calm_extS noReady (XMRCreateViewWallet vk addr h) (fun _ => eq_refl) s) as Hc1.
  rewrite E in Hc1. simpl in Hc1. destruct r as [[]|e]; [| by apply calm_advances].
  destruct Hc1 as (_ & Ee & _). destruct (polled_watchForXMR n s1) as (polls & Ep & Hp & Eq & Hq).
  assert (∀ later s', forallb noReady later = true → trace (sys s') = later ++ polls ++ trace (sys s1) →
            expectedOf s' = expectedOf s → (xmrQueued s' = true → xmrQueued (watchForXMR n s1).2 = true) →
            advances s s') as Hend.
  { intros later s' Hl Et' Ee' Hq'.
    exists (later ++ polls ++ [Obs (XMRCreateViewWallet vk addr h) (Ok tt)]).
    rewrite Et', Et, <- !app_assoc. split; [done |]. split; [done |].
    rewrite !existsb_app, (noReady_emitted _ Hl), (noReady_emitted polls).
    2: { clear -Hp. induction polls as [|o polls IH]; simpl in *; [done |]. apply andb_true_iff in Hp as [Ho Hp].
         rewrite IH by done. destruct o as [A c a]. by destruct c. }
    split; [| done]. intros Hx. destruct (Hq (Hq' Hx)) as [Hy|(o & rest & -> & Ho)].
    - left. revert Hy. unfold xmrQueued. by rewrite Es.
    - right. simpl in Hp. apply andb_true_iff in Hp as [_ Hp]. exists addr, vk, h, later, o, rest.
      rewrite <- Ee. simpl. auto. }
  unfold deferring.
  destruct (watchForXMR n s1) as [[a|?| |] s2]; cbn [fst snd] in Ep, Eq, Hq, Hend |- *;
    try (apply (Hend []); [done | exact Ep | congruence | done]);
    (destruct (extS_run XMRCloseAndRemoveWallet s2) as (r & s3 & E3 & Es3 & Et3); rewrite E3; cbn [fst snd];
     apply (Hend [Obs XMRCloseAndRemoveWallet r]); [done | by rewrite Et3, Ep | | unfold xmrQueued; by rewrite Es3];
     pose proof (calm_extS noReady XMRCloseAndRemoveWallet (fun _ => eq_refl) s2) as (_ & Ee3 & _);
     rewrite E3 in Ee3; simpl in Ee3; congruence).
Qed.

Lemma advances_runOp op s : advances s (runOp op s).2.
Proof.
  destruct op as [| |m|n| | |l].
  4: {
    pose proof (advances_checkForXMRLock n s) as Ha. simpl. unfold pbind.
    by destruct (checkForXMRLock n s) as [[a|?| |] s1]. }
  all: apply calm_advances; match goal with |- calm _ _ (runOp ?op _).2 =>
    enough (keeps (calm noReady) (runOp op)) as Hk by apply Hk end; simpl;
    unfold NotifyStreamClosed, HandleProtocolMessage, runT1ExpirationHandler,
    runT2ExpirationHandler, handleT2Expired, handleClaimedLogs; keeps_auto.
Qed.

Lemma step_advances c c' : step c c' → advances c.2 c'.2.
Proof. intros [s|b op s]; simpl; [apply advances_runHandleEvent | apply advances_runOp]. Qed.

Lemma tsNewObs_eq (s s' : TS) new : trace (sys s') = new ++ trace (sys s) → newObs s s' = new.
Proof. exact (newObs_app (S := TS) (HasSys0 := tsHasSys) s s' new). Qed.

(** *** Whole runs *)

(** Since [s], the contract was set to ready, and a report of locked XMR is queued, only
    after the XMR was seen. *)
Definition justified (s : TS) (s' : TS) : Prop :=
  trace (sys s') = newObs s s' ++ trace (sys s) ∧ expectedOf s' = expectedOf s ∧
  (xmrQueued s' = true → seenInAccount s (newObs s s')) ∧
  ∀ post o pre, newObs s s' = post ++ o :: pre → isReady o = true → seenInAccount s pre.

Lemma justified_step s running s1 s2 :
  rtc step (true, s) (running, s1) → justified s s1 → advances s1 s2 → justified s s2.
Proof.
  intros Hr (E1 & F1 & Q1 & R1) (new & E2 & F2 & Q2 & R2).
  assert (trace (sys s2) = (new ++ newObs s s1) ++ trace (sys s)) as E by (by rewrite E2, E1, app_assoc).
  unfold justified. rewrite (tsNewObs_eq _ _ _ E). split; [done |]. split; [congruence |]. split.
  - intros Hq. destruct (Q2 Hq) as [Hb|(addr & vk & h & later & o & polls & Ha & Ho & Hp & ->)];
      [by apply seenInAccount_up, Q1 |].
    exists running, s1, addr, vk, h, later, o, polls. rewrite F1 in Ho.
    repeat (split; [done |]). rewrite <- app_assoc. simpl. by rewrite <- app_assoc.
  - intros post o pre Heq Ho. apply app_eq_inv in Heq as [(k & Hk1 & Hk2)|(k & Hk1 & Hk2)].
    + destruct k as [|o' k]; simpl in Hk2; [by apply (R1 [] o pre) |].
      injection Hk2 as -> ->. apply seenInAccount_up, Q1, R2. subst new. rewrite existsb_app. simpl.
      by rewrite Ho, orb_true_r.
    + subst. by apply (R1 k o pre).
Qed.

Lemma steps_justified s c' : xmrQueued s = false → rtc step (true, s) c' → justified s c'.2.
Proof.
  intros Hq. revert c'. apply (rtc_ind_r (fun c' => justified s c'.2)).
  - assert (newObs s s = []) as E by (by apply tsNewObs_eq).
    unfold justified. simpl. rewrite E. repeat split; [congruence |].
    intros post o pre Hx. by destruct post.
  - intros [b1 s1] c2 Hr Hs Hj. apply step_advances in Hs. by eapply justified_step.
Qed.

(** C5: safety.  Whatever the peer, the chain and the timers do, and in whatever
    order: the taker sets the contract to ready, which lets the maker claim the ETH,
    only after it opened a view wallet of the swap's account, the address and view
    key of both parties' summed keys, and, polling that wallet, saw at least the
    expected amount of XMR unlocked in it. *)
Theorem ready_only_after_XMR_seen (s s' : TS) (running : bool) :
  rtc step (true, s) (running, s') → xmrQueued s = false →
  ∀ post o pre, newObs s s' = post ++ o :: pre → isReady o = true → seenInAccount s pre.
Proof.
  intros Hr Hq. destruct (steps_justified s _ Hq Hr) as (_ & _ & _ & R). exact R.
Qed.
End handlers.

#[export] Hint Extern 1 (keeps (calm _) (extS _)) => apply calm_extS; intros; reflexivity : keeps.
#[export] Hint Resolve calm_derefS calm_readS calm_OfferID : keeps.

(** ** Locking the asset *)

Section locking.
Context `{World} `{!InfoJson} `{Apd} `{AbiLib}.

Definition noLock (o : obs) : bool := negb (isLock o).

Lemma emits_calm {A} (m : prog TS A) : keeps (calm noLock) m → keeps (emits noLock) m.
Proof. apply keeps_weaken. by intros s s' [? _]. Qed.
Hint Extern 6 (keeps (emits noLock) _) => apply emits_calm : keeps.

Lemma taker_onSys_inv {A} (m : prog Sys A) s o s1 :
  onSys m s = (o, s1) → ∃ y, m (sys s) = (o, y) ∧ s1 = mkTS _ _ y (sst s).
Proof. unfold onSys, zoom. destruct (m (sys s)) as [o' y]. intros [= -> <-]. eauto. Qed.

Lemma taker_extS_inv {A} (c : call A) s a s1 :
  extS c s = (Done a, s1) →
  sst s1 = sst s ∧ mgr (sys s1) = mgr (sys s) ∧ trace (sys s1) = Obs c a :: trace (sys s).
Proof. intros E. apply taker_onSys_inv in E as (y & E & ->). by inversion E; subst. Qed.

Lemma taker_getS_inv {A} (f : swapState → A) s a s1 : getS f s = (Done a, s1) → a = f (sst s) ∧ s1 = s.
Proof. by intros [= <- <-]. Qed.

Lemma taker_pure_inv {A} (o : outcome A) (s : TS) a s1 : pure o s = (Done a, s1) → o = Done a ∧ s1 = s.
Proof. by intros [= -> <-]. Qed.

Lemma taker_derefS_inv {A} (f : swapState → option A) s a s1 :
  derefS f s = (Done a, s1) → f (sst s) = Some a ∧ s1 = s.
Proof.
  unfold derefS. intros E. apply pbind_inv_Done in E as (x & s2 & Hg & Hp).
  apply taker_getS_inv in Hg as [-> ->]. apply taker_pure_inv in Hp as [Hp ->].
  unfold deref in Hp. destruct (f (sst s)); [by inversion Hp | done].
Qed.

Lemma taker_readS_inv s i s1 :
  readS s = (Done i, s1) → infos (mgr (sys s)) !! info (sst s) = Some i ∧ s1 = s.
Proof.
  unfold readS. intros Hr. apply pbind_inv_Done in Hr as (l & s2 & Hg & Hr). inversion Hg; subst.
  apply taker_onSys_inv in Hr as (y & Hr & ->). apply readInfo_inv in Hr as [Hi ->]. by destruct s2.
Qed.

(** The order the taker sends: what was checked of the maker's message, and the terms
    it commits to. *)
Record lockTerms (msg : SendKeysMessage) (i : Info) (ss : swapState) (c : call (result Hash)) : Prop := {
  lt_amount : ∃ provided, skProvidedAmount msg = Some provided ∧ 0 ≤ apdCmp provided (iExpectedAmount i);
  lt_keys : ∃ spend view ours, skPublicSpendKey msg = Some spend ∧ skPrivateViewKey msg = Some view ∧
    secp256k1Pub ss = Some ours ∧
    VerifyKeysAndProof (skDLEqProof msg) (skSecp256k1PublicKey msg) spend =
      Done (Ok (skSecp256k1PublicKey msg, spend)) ∧
    ∃ nonce, c = SenderNewSwap (Secp256k1_Keccak256 (skSecp256k1PublicKey msg)) (Secp256k1_Keccak256 ours)
                   (skEthAddress msg) (SwapTimeout / Second) nonce (providedAmount ss);
  lt_address : skEthAddress msg ≠ zeroAddress
}.

Lemma lock_not_emitted (s s' : TS) : existsb isLock (newObs s s') = true → ¬ emits noLock s s'.
Proof. apply not_emitted. Qed.

Lemma lockAndWait_order cm ct nonce s :
  ∃ ans post,
    trace (sys (lockAndWaitForReceipt cm ct nonce s).2) =
      post ++ Obs (SenderNewSwap cm ct (xmrmakerAddress (sst s)) (SwapTimeout / Second) nonce
                     (providedAmount (sst s))) ans :: trace (sys s) ∧
    forallb noLock post = true.
Proof.
  unfold lockAndWaitForReceipt.
  change (pbind (getS xmrmakerAddress) ?k s) with (k (xmrmakerAddress (sst s)) s). cbv beta.
  change (pbind (getS providedAmount) ?k s) with (k (providedAmount (sst s)) s). cbv beta.
  rewrite mapErr_after.
  match goal with |- context [tryBind ?m ?k s] =>
    assert (emits noLock (m s).2 (tryBind m k s).2) as (post & Et & Hp)
      by (apply (try_after (emits noLock)); keeps_auto) end.
  unfold sysOf, tsHasSys in Et. rewrite Et. eexists _, post. split; [reflexivity | done].
Qed.

(** The run of [lockAsset] up to the order. *)
Lemma lockAsset_order s :
  ¬ emits noLock s (lockAsset s).2 →
  ∃ ours theirs nonce ans pre post,
    secp256k1Pub (sst s) = Some ours ∧ xmrmakerSecp256k1PublicKey (sst s) = Some theirs ∧
    trace (sys (lockAsset s).2) =
      post ++ Obs (SenderNewSwap (Secp256k1_Keccak256 theirs) (Secp256k1_Keccak256 ours)
                     (xmrmakerAddress (sst s)) (SwapTimeout / Second) nonce (providedAmount (sst s))) ans ::
      pre ++ trace (sys s) ∧
    forallb noLock pre = true ∧ forallb noLock post = true.
Proof.
  unfold lockAsset. intros Hn.
  apply emits_bind_inv in Hn as (sp & s1 & Hm & _ & Hn & ->); [| keeps_auto]. apply taker_getS_inv in Hm as [-> ->].
  apply emits_bind_inv in Hn as (vw & s1 & Hm & _ & Hn & ->); [| keeps_auto]. apply taker_getS_inv in Hm as [-> ->].
  destruct (xmrmakerPublicSpendKey (sst s)) as [sp|]; [| destruct Hn; reflexivity].
  destruct (xmrmakerPrivateViewKey (sst s)) as [vw|]; [| destruct Hn; reflexivity].
  apply emits_bind_inv in Hn as (ours & s1 & Hm & _ & Hn & ->); [| keeps_auto]. apply taker_derefS_inv in Hm as [Ho ->].
  apply emits_bind_inv in Hn as (theirs & s1 & Hm & _ & Hn & ->); [| keeps_auto]. apply taker_derefS_inv in Hm as [Ht ->].
  cbv zeta in *.
  apply emits_bind_inv in Hn as (nonce & s1 & Hm & _ & Hn & ->); [| keeps_auto].
  apply taker_extS_inv in Hm as (Es1 & Em1 & Et1). clear Hn.
  match goal with |- context [tryBind ?m ?k s1] =>
    assert (emits noLock (m s1).2 (tryBind m k s1).2) as Ha
      by (apply (try_after (emits noLock)); unfold setTimeouts; keeps_auto) end.
  destruct (lockAndWait_order (Secp256k1_Keccak256 theirs) (Secp256k1_Keccak256 ours) nonce s1)
    as (ans & post & Et & Hpost). rewrite Es1 in Et.
  destruct Ha as (post2 & Et2 & Hpost2). unfold sysOf, tsHasSys in Et2. rewrite Et, Et1 in Et2.
  exists ours, theirs, nonce, ans, [Obs GenerateNonce nonce], (post2 ++ post).
  split; [done |]. split; [done |]. rewrite Et2, app_assoc. split; [done |]. split; [done |].
  by rewrite forallb_app, Hpost, Hpost2.
Qed.

Lemma VerifyKeysAndProof_result proof secp ed r :
  VerifyKeysAndProof proof secp ed = Done (Ok r) → r = (secp, ed).
Proof.
  unfold VerifyKeysAndProof. destruct (Verify _) as [[res|e]|?| |]; simpl; try done.
  destruct (negb _); [done |]. destruct (negb _); [done |]. by intros [= <-].
Qed.

Lemma setXMRMakerKeys_inv sk vk secp s s' :
  setXMRMakerKeys sk vk secp s = (Done (Ok tt), s') →
  ∃ i, infos (mgr (sys s)) !! info (sst s) = Some i ∧
    sst s' = setXmrmakerSecp256k1PublicKey (Some secp) (setXmrmakerPrivateViewKey (Some vk)
               (setXmrmakerPublicSpendKey (Some sk) (sst s))) ∧
    mgr (sys s') = mgr (sys s) ∧
    trace (sys s') = Obs (PutCounterpartySwapKeys (iOfferID i) sk vk) (Ok tt) :: trace (sys s).
Proof.
  unfold setXMRMakerKeys. intros E.
  apply pbind_inv_Done in E as ([] & s1 & Hm & E). inversion Hm; subst; clear Hm.
  apply pbind_inv_Done in E as ([] & s1 & Hm & E). inversion Hm; subst; clear Hm.
  apply pbind_inv_Done in E as ([] & s1 & Hm & E). inversion Hm; subst; clear Hm.
  apply pbind_inv_Done in E as (id & s1 & Hm & E). unfold OfferID in Hm.
  apply pbind_inv_Done in Hm as (i & s2 & Hm & Hd). apply taker_readS_inv in Hm as [Hi ->]. inversion Hd; subst.
  apply taker_extS_inv in E as (Es & Em & Et). exists i. done.
Qed.

Lemma AssetSymbol_inv asset s r s' :
  onSys (AssetSymbol asset) s = (Done r, s') →
  sst s' = sst s ∧ mgr (sys s') = mgr (sys s) ∧
  ∃ new, trace (sys s') = new ++ trace (sys s) ∧ forallb noLock new = true.
Proof.
  intros E. apply taker_onSys_inv in E as (y & E & ->). simpl. split; [done |].
  assert (mgr (AssetSymbol asset (sys s)).2 = mgr (sys s) ∧
          ∃ new, trace (AssetSymbol asset (sys s)).2 = new ++ trace (sys s) ∧ forallb noLock new = true) as Hx.
  { unfold AssetSymbol. destruct (IsToken asset); [| split; [done | by exists []]].
    unfold tryBind, mapErr, pbind, ext. simpl. set (o := Obs (ERC20Info asset) _).
    destruct (answer _ _ _); (split; [done |]); by exists [o]. }
  by rewrite E in Hx.
Qed.

(** C4: safety.  When the taker orders a contract swap, the maker's message offered
    at least the expected amount of XMR, a DLEq proof that verifies for the keys it
    carries and an address; the order commits to exactly these keys and that address
    and to the taker's own amount; and it is the only order. *)
Theorem ETH_locked_only_after_checks (msg : SendKeysMessage) (s : TS) :
  let s' := (handleSendKeysMessage msg s).2 in
  existsb isLock (newObs s s') = true →
  ∃ i c ans pre post,
    infos (mgr (sys s)) !! info (sst s) = Some i ∧ lockTerms msg i (sst s) c ∧
    newObs s s' = post ++ Obs c ans :: pre ∧ forallb noLock pre = true ∧ forallb noLock post = true ∧
    (∃ vk spend, skPublicSpendKey msg = Some spend ∧ skPrivateViewKey msg = Some vk ∧
      Obs (PutCounterpartySwapKeys (iOfferID i) spend vk) (Ok tt) ∈ pre).
Proof.
  intros s' Hlock. apply lock_not_emitted in Hlock. unfold s' in *; clear s'.
  unfold handleSendKeysMessage in *.
  destruct (skProvidedAmount msg) as [provided|] eqn:Hprov; [| destruct Hlock; reflexivity].
  apply emits_bind_inv in Hlock as (i & s1 & Hm & _ & Hn & ->); [| keeps_auto]. apply taker_readS_inv in Hm as [Hi ->].
  destruct (Z.ltb_spec (apdCmp provided (iExpectedAmount i)) 0) as [|Hcmp]; [destruct Hn; reflexivity |].
  destruct (skPublicSpendKey msg) as [spend|] eqn:Hspend; [| destruct Hn; reflexivity].
  destruct (skPrivateViewKey msg) as [vk|] eqn:Hview; [| destruct Hn; reflexivity].
  destruct (bool_decide_reflect (skEthAddress msg = zeroAddress)) as [|Haddr]; [destruct Hn; reflexivity |].
  apply emits_try_inv in Hn as (res & s1 & Hm & _ & Hn & ->); [| keeps_auto]. apply taker_pure_inv in Hm as [Hver ->].
  assert (res = (skSecp256k1PublicKey msg, spend)) as -> by (by apply VerifyKeysAndProof_result in Hver).
  apply emits_bind_inv in Hn as ([] & s1 & Hm & _ & Hn & ->); [| auto with keeps]. inversion Hm; subst; clear Hm.
  apply emits_try_inv in Hn as (sym & s2 & Hm & _ & Hn & ->);
    [| apply emits_calm, calm_onSys; unfold AssetSymbol; keeps_auto].
  apply AssetSymbol_inv in Hm as (Es2 & Em2 & n2 & Et2 & Hn2). simpl in Es2, Em2, Et2.
  apply emits_try_inv in Hn as ([] & s3 & Hm & _ & Hn & ->); [| unfold setXMRMakerKeys; keeps_auto].
  apply (mapErr_Ok_run) in Hm. apply setXMRMakerKeys_inv in Hm as (i3 & Hi3 & Es3 & Em3 & Et3).
  rewrite Es2, Em2 in Hi3. simpl in Hi3. assert (i3 = i) as -> by congruence. rewrite Es2 in Es3.
  match type of Hn with ¬ emits _ s3 (tryBind ?m ?k s3).2 =>
    assert (emits noLock (m s3).2 (tryBind m k s3).2) as Ha by (apply (try_after (emits noLock)); keeps_auto);
    assert (¬ emits noLock s3 (lockAsset s3).2) as Hn'
      by (intros Hx; apply Hn; etrans; [exact Hx | by rewrite mapErr_after in Ha]) end.
  rewrite mapErr_after in Ha. clear Hn.
  apply lockAsset_order in Hn' as (ours & theirs & nonce & ans & pre & post & Ho & Ht & Et4 & Hpre & Hpost).
  rewrite Es3 in Ho, Ht, Et4. simpl in Ho, Ht, Et4. injection Ht as <-.
  destruct Ha as (post2 & Et5 & Hpost2). unfold sysOf, tsHasSys in Et5. rewrite Et4, Et3, Et2 in Et5.
  set (c := SenderNewSwap _ _ _ _ _ _) in Et4, Et5. exists i, c, ans.
  assert (lockTerms msg i (sst s) c) as Hterms
    by (constructor; [eauto | exists spend, vk, ours; eauto 10 | done]).
  exists (pre ++ Obs (PutCounterpartySwapKeys (iOfferID i) spend vk) (Ok tt) :: n2), (post2 ++ post).
  rewrite (tsNewObs_eq s _ ((post2 ++ post) ++ Obs c ans :: pre ++
             Obs (PutCounterpartySwapKeys (iOfferID i) spend vk) (Ok tt) :: n2)).
  2: { rewrite Et5. rewrite <- !app_assoc. simpl. by rewrite <- !app_assoc. }
  split; [done |]. split; [exact Hterms |]. split; [reflexivity |].
  rewrite !forallb_app. simpl. rewrite Hpre, Hn2, Hpost, Hpost2. repeat (split; [done |]).
  exists vk, spend. repeat (split; [done |]). apply elem_of_app. right. left.
Qed.

End locking.

(** ** Refunding, which hands out the taker's secret *)

Section refunding.
Context `{World} `{!InfoJson} `{Apd} `{AbiLib}.

Definition noRefund (o : obs) : bool := negb (isRefund o).

Lemma isDbObs_noRefund o : isDbObs o = true → noRefund o = true.
Proof. destruct o as [A c a]. by destruct c. Qed.
Hint Resolve isDbObs_noRefund : keeps.

(** What decides on a refund: the swap, its timeouts and the waiting events. *)
Definition swapTimes (s : TS) : Hash * Z * Z * list Event :=
  (contractSwapID (sst s), t1 (sst s), t2 (sst s), eventCh (sst s)).

(** Runs that emit only [q] and change nothing that decides on a refund. *)
Definition settled (q : obs → bool) (s s' : TS) : Prop := emits q s s' ∧ swapTimes s' = swapTimes s.

#[export] Instance settled_preorder q : PreOrder (settled q).
Proof.
  split; unfold settled.
  - intros s. split; reflexivity.
  - intros a b c [E1 F1] [E2 F2]. split; [by etrans | congruence].
Qed.

Lemma settled_onSys {A} q (m : prog Sys A) : keeps (sysCalm q) m → keeps (settled q) (onSys m).
Proof. intros Hm. apply keeps_zoom. intros s. split; [apply (Hm (sys s)) | done]. Qed.

Lemma settled_modS q f :
  (∀ s : TS, swapTimes (mkTS _ _ (sys s) (f (sst s))) = swapTimes s) → keeps (settled q) (modS f).
Proof. intros Hf s. split; [by exists [] | apply Hf]. Qed.

Lemma settled_getS {A} q (f : swapState → A) : keeps (settled q) (getS f).
Proof. unfold getS. apply keeps_gets. typeclasses eauto. Qed.

Lemma settled_extS {A} q (c : call A) : (∀ a, q (Obs c a) = true) → keeps (settled q) (extS c).
Proof. intros Hq. by apply settled_onSys, sysCalm_ext. Qed.

Hint Extern 1 (keeps (settled _) (modS _)) => apply settled_modS; intros; reflexivity : keeps.
Hint Extern 1 (keeps (settled _) (extS _)) => apply settled_extS; intros; reflexivity : keeps.
Hint Resolve settled_getS settled_onSys : keeps.

Lemma settled_derefS {A} q (f : swapState → option A) : keeps (settled q) (derefS f).
Proof. unfold derefS. keeps_auto. Qed.
Lemma settled_readS q : keeps (settled q) readS.
Proof. unfold readS. keeps_auto. Qed.
Hint Resolve settled_derefS settled_readS : keeps.

Lemma settled_clear q st :
  (∀ o, isDbObs o = true → q o = true) → keeps (settled q) (clearNextExpectedEvent st).
Proof. intros Hq. unfold clearNextExpectedEvent, updateStatus, OfferID. keeps_auto. Qed.
Hint Extern 1 (keeps (settled noRefund) (clearNextExpectedEvent _)) =>
  apply settled_clear; exact isDbObs_noRefund : keeps.

Lemma settled_ClaimMonero l kp addr b : keeps (sysCalm noRefund) (ClaimMonero l kp addr b).
Proof. unfold ClaimMonero, setSweepStatus. keeps_auto. Qed.
Hint Resolve settled_ClaimMonero : keeps.

Lemma settled_tryClaim : keeps (settled noRefund) tryClaim.
Proof.
  unfold tryClaim, filterForClaim, claimMonero, statusOngoing, OfferID, closeClaimedCh. keeps_auto.
Qed.

Lemma settled_exitCleanup : keeps (emits noRefund) exitCleanup.
Proof.
  assert (keeps (settled noRefund) exitCleanup) as Hk by (unfold exitCleanup, OfferID, closeDone; keeps_auto).
  revert Hk. apply keeps_weaken. by intros s s' [? _].
Qed.

Lemma settled_refund : keeps (settled anyObs) refund.
Proof.
  assert (∀ st, keeps (settled anyObs) (clearNextExpectedEvent st)) as Hc by (intros st; by apply settled_clear).
  unfold refund, getSecret. repeat (first [apply Hc | keeps_step]).
Qed.

(** *** Refunds that a condition on the observations before them allows *)

Section allowed.
Context (J : list obs → Prop) (Hup : ∀ new pre, J pre → J (new ++ pre)).
Context (s0 : TS).

(** Since [s0], [J] held of the observations before each refund. *)
Definition allowed (s : TS) : Prop :=
  ∃ new, trace (sys s) = new ++ trace (sys s0) ∧
    ∀ post o pre, new = post ++ o :: pre → isRefund o = true → J pre.

Definition allowing (s : TS) : Prop := ∃ new, trace (sys s) = new ++ trace (sys s0) ∧ J new.

Lemma allowed_start : allowed s0.
Proof using Type. exists []. split; [done |]. intros post o pre Hx. by destruct post. Qed.

Lemma allowed_quiet s s' : emits noRefund s s' → allowed s → allowed s'.
Proof using Type.
  intros (n & E & Hn) (new & E0 & Ha). unfold sysOf, tsHasSys in E. exists (n ++ new).
  split; [by rewrite E, E0, app_assoc |]. intros post o pre Heq Ho.
  apply app_eq_inv in Heq as [(k & Hk1 & Hk2)|(k & Hk1 & Hk2)].
  - destruct k as [|o' k]; simpl in Hk2.
    + subst new. by apply (Ha [] o pre).
    + injection Hk2 as -> ->. subst n. rewrite forallb_app in Hn. simpl in Hn. unfold noRefund in Hn at 2.
      rewrite Ho in Hn. simpl in Hn. by rewrite andb_false_r in Hn.
  - subst. by apply (Ha k o pre).
Qed.

Lemma allowed_allowing s s' : emits anyObs s s' → allowed s → allowing s → allowed s'.
Proof using Hup.
  intros (n & E & _) (new & E0 & Ha) (new' & E0' & Hj). unfold sysOf, tsHasSys in E.
  assert (new' = new) as -> by (eapply app_inv_tail; by rewrite <- E0, <- E0').
  exists (n ++ new). split; [by rewrite E, E0, app_assoc |]. intros post o pre Heq Ho.
  apply app_eq_inv in Heq as [(k & Hk1 & Hk2)|(k & Hk1 & Hk2)].
  - destruct k as [|o' k]; simpl in Hk2.
    + subst new. by apply (Ha [] o pre).
    + injection Hk2 as -> ->. by apply Hup.
  - subst. by apply (Ha k o pre).
Qed.

Lemma allowing_forward s s' : emits anyObs s s' → allowing s → allowing s'.
Proof using Hup.
  intros (n & E & _) (new & E0 & Hj). unfold sysOf, tsHasSys in E. exists (n ++ new).
  split; [by rewrite E, E0, app_assoc | by apply Hup].
Qed.

End allowed.

(** *** The windows in which the contract refunds *)

Definition isShouldRefund (e : Event) : bool := match e with EventShouldRefund _ => true | _ => false end.

(** The contract was seen to hold the asset, at a time. *)
Definition stageSeen (id : Hash) (pre : list obs) (stage ts : Z) : Prop :=
  Obs (ContractSwaps SwapCreatorAddr id) (Ok stage) ∈ pre ∧ Obs LatestBlockTimestamp (Ok ts) ∈ pre.

Definition held (id : Hash) (pre : list obs) : Prop :=
  ∃ stage ts, stageSeen id pre stage ts ∧ (stage = StagePending ∨ stage = StageReady).

(** The windows of the contract, by the chain's clock: before t1 of a swap that is not
    ready; or after t2 of one that it holds, as the latest block showed or as the wait
    for t2 reported. *)
Definition refundWindow (id : Hash) (x1 x2 : Z) (pre : list obs) : Prop :=
  (∃ ts, stageSeen id pre StagePending ts ∧ ts < x1) ∨
  (held id pre ∧
   ((∃ stage ts, stageSeen id pre stage ts ∧ x2 < ts) ∨ Obs (WaitForTimestamp x2) None ∈ pre)).

(** What lets [exit] refund: a window of the contract, or a timer's event that waits in
    the swap's channel. *)
Definition refundAllowed (id : Hash) (x1 x2 : Z) (events : list Event) (pre : list obs) : Prop :=
  refundWindow id x1 x2 pre ∨ (held id pre ∧ existsb isShouldRefund events = true).

Lemma stageSeen_up id new pre stage ts : stageSeen id pre stage ts → stageSeen id (new ++ pre) stage ts.
Proof. intros [? ?]. split; apply elem_of_app; auto. Qed.

Lemma held_up id new pre : held id pre → held id (new ++ pre).
Proof. intros (stage & ts & Hs & Hd). exists stage, ts. split; [by apply stageSeen_up | done]. Qed.

Lemma refundAllowed_up id x1 x2 events new pre :
  refundAllowed id x1 x2 events pre → refundAllowed id x1 x2 events (new ++ pre).
Proof.
  intros [[(ts & Hs & Hlt)|(Hh & Hc)]|[Hh Hq]]; [| | right; split; [by apply held_up | done]]; left.
  - left. exists ts. split; [by apply stageSeen_up | done].
  - right. split; [by apply held_up |]. destruct Hc as [(stage & ts & Hs & Hlt)|Hw].
    + left. exists stage, ts. split; [by apply stageSeen_up | done].
    + right. apply elem_of_app. auto.
Qed.

Section from.
Context (s0 : TS).

Abbreviation window :=
  (refundAllowed (contractSwapID (sst s0)) (t1 (sst s0)) (t2 (sst s0)) (eventCh (sst s0))).
Abbreviation holds := (held (contractSwapID (sst s0))).

Lemma allowed_refund s : allowed window s0 s → allowing window s0 s → allowed window s0 (refund s).2.
Proof using Type.
  intros Ha Hj. eapply allowed_allowing; [apply refundAllowed_up | apply settled_refund | done..].
Qed.

Lemma allowing_impl (J K : list obs → Prop) s : (∀ new, J new → K new) → allowing J s0 s → allowing K s0 s.
Proof using Type. intros HJK (new & E & Hj). exists new. auto. Qed.

(** One more call that is no refund. *)
Lemma allowed_call {A} J (c : call A) a s s1 :
  (∀ new pre, J pre → J (new ++ pre)) → noRefund (Obs c a) = true →
  trace (sys s1) = Obs c a :: trace (sys s) →
  (allowed window s0 s → allowed window s0 s1) ∧ (allowing J s0 s → allowing J s0 s1) ∧
  (allowing J s0 s → allowing (fun new => J new ∧ Obs c a ∈ new) s0 s1).
Proof using Type.
  intros Hup Hn Et. split; [apply allowed_quiet; exists [Obs c a]; simpl; by rewrite Hn |]. split.
  - apply allowing_forward; [done |]. by exists [Obs c a].
  - intros (new & E & Hj). exists (Obs c a :: new). rewrite Et, E. split; [done |].
    split; [by apply (Hup [_]) | left].
Qed.

Lemma allowed_waitForT2 pending s :
  allowed window s0 s → allowing holds s0 s → t2 (sst s) = t2 (sst s0) →
  (existsb isShouldRefund pending = true → existsb isShouldRefund (eventCh (sst s0)) = true) →
  allowed window s0 (waitForT2 pending s).2.
Proof using Type.
  set (timer := fun x2 : Z =>
    r <- extS (WaitForTimestamp x2) ;;
    match r with Some e => done (Err (Wrapf "failed to wait for T2" e)) | None => refund end).
  assert (∀ s, allowed window s0 s → allowing holds s0 s →
            allowed window s0 (timer (t2 (sst s0)) s).2) as Htimer.
  { clear s pending. intros s Ha Hh. unfold timer.
    destruct (extS_run (WaitForTimestamp (t2 (sst s0))) s) as (r & s1 & E & _ & Et).
    rewrite (pbind_Done _ _ _ _ _ E).
    destruct (allowed_call holds (WaitForTimestamp _) r s s1 (held_up _) eq_refl Et) as (Hc & _ & Hc').
    destruct r as [e|]; [by apply Hc |]. apply allowed_refund; [by apply Hc |].
    eapply allowing_impl; [| by apply Hc']. intros new [Hn Hw]. left. right. auto. }
  revert s. induction pending as [|e rest IH]; intros s Ha Hh Ht Hq.
  - simpl. change (pbind (getS t2) ?k s) with (k (t2 (sst s)) s). cbv beta zeta. rewrite Ht. by apply Htimer.
  - simpl. change (pbind (getS t2) ?k s) with (k (t2 (sst s)) s). cbv beta zeta. rewrite Ht.
    destruct (extS_run SelectReady s) as (b & s1 & E & Es & Et). rewrite (pbind_Done _ _ _ _ _ E).
    destruct (allowed_call holds SelectReady b s s1 (held_up _) eq_refl Et) as (Hc & Hc' & _).
    destruct b; simpl; [| apply Htimer; auto].
    set (s2 := mkTS _ _ (sys s1) (setEventCh rest (sst s1))).
    change (pbind (modS (setEventCh rest)) ?k s1) with (k tt s2). cbv beta.
    assert (allowed window s0 s2) as Ha2 by (by apply Hc).
    assert (allowing holds s0 s2) as Hh2 by (by apply Hc').
    destruct e; try exact Ha2.
    + apply allowed_refund; [done |]. eapply allowing_impl; [| exact Hh2].
      intros new Hn. right. split; [done |]. by apply Hq.
    + apply IH; auto. simpl. by rewrite Es.
Qed.

(** The part of [tryRefund] after the window before t1. *)
Lemma allowed_later ts s :
  allowed window s0 s → allowing holds s0 s → swapTimes s = swapTimes s0 →
  (t2 (sst s0) < ts → allowing window s0 s) →
  allowed window s0 ((if t2 (sst s0) <? ts then refund else q <- getS eventCh;; waitForT2 q) s).2.
Proof using Type.
  intros Ha Hh Hsame Hlt. injection Hsame as _ _ Hx2 Hq.
  destruct (Z.ltb_spec (t2 (sst s0)) ts); [apply allowed_refund; auto |].
  change (pbind (getS eventCh) ?k s) with (k (eventCh (sst s)) s). cbv beta. rewrite Hq.
  by apply allowed_waitForT2.
Qed.

Lemma allowed_tryRefund s :
  s = s0 → allowed window s0 (tryRefund s).2.
Proof using Type.
  intros ->. unfold tryRefund. change (pbind (getS contractSwapID) ?k s0) with (k (contractSwapID (sst s0)) s0).
  cbv beta. pose proof (allowed_start window s0) as Ha0.
  destruct (extS_run (ContractSwaps SwapCreatorAddr (contractSwapID (sst s0))) s0) as (r & s1 & E & Es1 & Et1).
  unfold tryBind at 1. rewrite (pbind_Done _ _ _ _ _ E). clear E.
  assert (allowed window s0 s1) as Ha1 by (eapply allowed_quiet; [eexists [_]; split; [exact Et1 | done] | done]).
  destruct r as [stage|e]; [| exact Ha1].
  destruct (stage =? StageInvalid); [exact Ha1 |]. destruct (stage =? StageCompleted); [exact Ha1 |].
  destruct (negb ((stage =? StagePending) || (stage =? StageReady))) eqn:Hst; [exact Ha1 |].
  apply negb_false_iff, orb_true_iff in Hst. rewrite !Z.eqb_eq in Hst.
  destruct (extS_run LatestBlockTimestamp s1) as (r & s2 & E & Es2 & Et2).
  unfold tryBind at 1. rewrite (pbind_Done _ _ _ _ _ E). clear E.
  assert (allowed window s0 s2) as Ha2 by (eapply allowed_quiet; [eexists [_]; split; [exact Et2 | done] | done]).
  destruct r as [ts|e]; [| exact Ha2].
  assert (sst s2 = sst s0) as Es by congruence.
  change (pbind (getS t1) ?k s2) with (k (t1 (sst s2)) s2). cbv beta.
  change (pbind (getS t2) ?k s2) with (k (t2 (sst s2)) s2). cbv beta zeta. rewrite Es.
  assert (allowing (fun new => stageSeen (contractSwapID (sst s0)) new stage ts) s0 s2) as Hs.
  { rewrite Et1 in Et2. eexists [_; _]. split; [exact Et2 |]. split; [right; left | left]. }
  assert (swapTimes s2 = swapTimes s0) as Hsame2 by (unfold swapTimes; by rewrite Es).
  assert (allowing holds s0 s2) as Hh2.
  { eapply allowing_impl; [| exact Hs]. intros new Hn. exists stage, ts. auto. }
  assert (t2 (sst s0) < ts → allowing window s0 s2) as Hw2.
  { intros Hlt. eapply allowing_impl; [| exact Hs]. intros new Hn. left. right.
    split; [exists stage, ts; auto |]. left. exists stage, ts. auto. }
  destruct (Z.ltb_spec ts (t1 (sst s0))) as [Hlt|]; simpl; [| by apply allowed_later].
  destruct (Z.eqb_spec stage StageReady) as [|Hne]; simpl; [by apply allowed_later |].
  assert (allowing window s0 s2) as Hw.
  { eapply allowing_impl; [| exact Hs]. intros new Hn. left. left. exists ts. destruct Hst as [->|]; done. }
  pose proof (allowed_refund s2 Ha2 Hw) as Ha3. destruct (settled_refund s2) as [Hf Hsame].
  unfold pbind at 1. destruct (refund s2) as [[[receipt|e]|?| |] s3]; simpl in Ha3, Hf, Hsame |- *; try exact Ha3.
  apply allowed_later; [done | by eapply allowing_forward; [apply held_up | exact Hf |] | congruence |].
  intros _. by eapply allowing_forward; [apply refundAllowed_up | exact Hf |].
Qed.

End from.

Lemma exitLocked_after s : emits noRefund (tryRefund s).2 (exitLocked s).2.
Proof.
  assert (∀ st, keeps (emits noRefund) (clearNextExpectedEvent st)) as Hc.
  { intros st. eapply (keeps_weaken _ (settled noRefund)); [by intros ? ? [? _] | auto with keeps]. }
  assert (keeps (emits noRefund) tryClaim) as Ht.
  { eapply (keeps_weaken _ (settled noRefund)); [by intros ? ? [? _] | apply settled_tryClaim]. }
  unfold exitLocked. apply (bind_after (emits noRefund)). intros r.
  repeat (first [apply Hc | apply Ht | keeps_step]).
Qed.

(** C6: safety.  A refund transaction reveals the taker's half of the XMR key.  When a
    swap exits and no EventShouldRefund waits in its channel, the taker sends one only
    while the contract was seen to hold the asset, and either before t1 with the swap
    not ready, or after t2, by the chain's clock or by the completed wait for t2:
    never in the window in which the maker may claim.  When such an event does wait,
    the taker may also refund on it, still only a swap the contract was seen to hold,
    but without a look at the clock. *)
Theorem exit_refunds_within_window (s : TS) (post pre : list obs) (o : obs) :
  newObs s (exit s).2 = post ++ o :: pre → isRefund o = true →
  refundWindow (contractSwapID (sst s)) (t1 (sst s)) (t2 (sst s)) pre ∨
  (held (contractSwapID (sst s)) pre ∧ existsb isShouldRefund (eventCh (sst s)) = true).
Proof.
  set (J := refundAllowed (contractSwapID (sst s)) (t1 (sst s)) (t2 (sst s)) (eventCh (sst s))). intros Hn Ho.
  enough (allowed J s (exit s).2) as (new & E & Ha).
  { rewrite (tsNewObs_eq s _ new E) in Hn. exact (Ha post o pre Hn Ho). }
  assert (∀ st, keeps (emits noRefund) (clearNextExpectedEvent st)) as Hc.
  { intros st. eapply (keeps_weaken _ (settled noRefund)); [by intros ? ? [? _] | auto with keeps]. }
  pose proof (allowed_start J s) as Ha0.
  pose proof (allowed_quiet J s _ _ (exitLocked_after s) (allowed_tryRefund s s eq_refl)) as Hl.
  unfold exit. match goal with |- context [deferring _ ?m] => set (body := m) end.
  assert (allowed J s (body s).2) as Hb.
  { unfold body. change (pbind (getS nextExpectedEvent) ?k s) with (k (nextExpectedEvent (sst s)) s). cbv beta.
    destruct (nextExpectedEvent (sst s)); try exact Hl; try exact Ha0;
      (eapply allowed_quiet; [| exact Ha0]); (eapply keeps_bind; [typeclasses eauto | apply Hc | intros; apply keeps_done, _]). }
  eapply allowed_quiet; [| exact Hb]. unfold deferring. pose proof settled_exitCleanup as Hx.
  destruct (body s) as [[a|?| |] s1]; try reflexivity; simpl; specialize (Hx s1);
    by destruct (exitCleanup s1) as [[?|?| |] s2].
Qed.

End refunding.

End TakerProofs.
