(* ===== verification/Protocol.v ===== *)
(** * The two parties together

    The maker's and the taker's swaps side by side: the exchange of keys, and the
    Monero account both compute from it. *)

From stdpp Require Import base gmap list strings.
From Stdlib Require Import ZArith Strings.Byte.
From S2P Require Import Prelude Coins Types Swap Offers Bytes Crypto Contracts External Maker MakerInstance TraceLogic MakerProofs Taker TakerProofs.

Open Scope Z_scope.
Open Scope go_scope.

Module Protocol.
Import MakerProofs TakerProofs.

(** ** The exchange of keys *)

Section exchange.
Context `{World} `{!InfoJson} `{Apd} `{AbiLib}.

(** A party's own keys, as [generateAndSetKeys] sets them. *)
Definition makerKeys (ms : Maker.swapState) (kB : PrivateKeyPair) : Prop :=
  Maker.privkeys ms = Some kB ∧ Maker.pubkeys ms = Some (PrivateKeyPair_PublicKeyPair kB).
Definition takerKeys (ts : Taker.swapState) (kA : PrivateKeyPair) : Prop :=
  Taker.privkeys ts = Some kA ∧ Taker.pubkeys ts = Some (PrivateKeyPair_PublicKeyPair kA).

(** Each party has its own keys, and the public spend key and the private view key of
    the other. *)
Record exchanged (ms : Maker.swapState) (ts : Taker.swapState) (kA kB : PrivateKeyPair) : Prop := {
  ex_taker : takerKeys ts kA;
  ex_maker : makerKeys ms kB;
  ex_maker_spend : Maker.xmrtakerPublicSpendKey ms = Some (Public (kpSpend kA));
  ex_maker_view : Maker.xmrtakerPrivateViewKey ms = Some (kpView kA);
  ex_taker_spend : Taker.xmrmakerPublicSpendKey ts = Some (Public (kpSpend kB));
  ex_taker_view : Taker.xmrmakerPrivateViewKey ts = Some (kpView kB)
}.

(** Every key pair that is generated is of this form. *)
Lemma GenerateKeysAndProof_public rnd k :
  GenerateKeysAndProof rnd = Done (Ok k) → kpPublic k = PrivateKeyPair_PublicKeyPair (kpPrivate k).
Proof.
  unfold GenerateKeysAndProof. destruct (Prove rnd) as [proof|]; [| done].
  destruct (Verify proof) as [[res|]|?| |]; simpl; try done.
  destruct (NewPrivateSpendKey _) as [sk|]; [| done]. destruct (AsPrivateKeyPair sk) as [kp|]; [| done].
  by intros [= <-].
Qed.

(** *** The messages *)

Lemma takerMessage_inv kA t msg t' :
  takerKeys (Taker.sst t) kA → Taker.makeSendKeysMessage t = (Done msg, t') →
  t' = t ∧ skPublicSpendKey msg = Some (Public (kpSpend kA)) ∧ skPrivateViewKey msg = Some (kpView kA).
Proof.
  intros [Hpriv Hpub] E. unfold Taker.makeSendKeysMessage in E.
  apply pbind_inv_Done in E as (pub & s1 & Hm & E). apply taker_derefS_inv in Hm as [Hp ->].
  apply pbind_inv_Done in E as (priv & s1 & Hm & E). apply taker_derefS_inv in Hm as [Hv ->].
  apply pbind_inv_Done in E as (proof & s1 & Hm & E). apply taker_derefS_inv in Hm as [_ ->].
  apply pbind_inv_Done in E as (secp & s1 & Hm & E). apply taker_derefS_inv in Hm as [_ ->].
  injection E as <- <-. simpl. rewrite Hpub in Hp. rewrite Hpriv in Hv. injection Hp as <-. by injection Hv as <-.
Qed.

Lemma makerMessage_inv kB m msg m' :
  makerKeys (Maker.sst m) kB → MakerInstance.makeSendKeysMessage m = (Done msg, m') →
  Maker.sst m' = Maker.sst m ∧
  skPublicSpendKey msg = Some (Public (kpSpend kB)) ∧ skPrivateViewKey msg = Some (kpView kB).
Proof.
  intros [Hpriv Hpub] E. unfold MakerInstance.makeSendKeysMessage in E.
  apply pbind_inv_Done in E as (i & s1 & Hm & E). apply MakerProofs.readS_inv in Hm as [_ ->].
  apply pbind_inv_Done in E as (pub & s1 & Hm & E). apply MakerProofs.derefS_inv in Hm as [Hp ->].
  apply pbind_inv_Done in E as (priv & s1 & Hm & E). apply MakerProofs.derefS_inv in Hm as [Hv ->].
  apply pbind_inv_Done in E as (proof & s1 & Hm & E). apply MakerProofs.derefS_inv in Hm as [_ ->].
  apply pbind_inv_Done in E as (secp & s1 & Hm & E). apply MakerProofs.derefS_inv in Hm as [_ ->].
  apply pbind_inv_Done in E as (addr & s1 & Hm & E). apply MakerProofs.extS_inv in Hm as (_ & Es & _).
  injection E as <- <-. simpl. rewrite Hpub in Hp. rewrite Hpriv in Hv. injection Hp as <-. injection Hv as <-. by split.
Qed.

Lemma makerTakesKeys_inv msg m m' :
  MakerInstance.handleSendKeysMessage msg m = (Done (Ok tt), m') →
  ∃ spend view secp, skPublicSpendKey msg = Some spend ∧ skPrivateViewKey msg = Some view ∧
    Maker.sst m' = Maker.setXmrtakerSecp256K1PublicKey (Some secp) (Maker.setXmrtakerPrivateViewKey (Some view)
                     (Maker.setXmrtakerPublicSpendKey (Some spend) (Maker.sst m))).
Proof.
  unfold MakerInstance.handleSendKeysMessage. intros E.
  destruct (skPublicSpendKey msg) as [spend|]; [| done]. destruct (skPrivateViewKey msg) as [view|]; [| done].
  apply pbind_inv_Done in E as ([res|e] & s1 & Hm & E); [| done]. apply pure_inv in Hm as [_ ->].
  unfold MakerInstance.setXMRTakerKeys in E. exists spend, view, res.1. split; [done |]. split; [done |].
  apply pbind_inv_Done in E as ([] & s1 & Hm & E). injection Hm as <-.
  apply pbind_inv_Done in E as ([] & s1 & Hm & E). injection Hm as <-.
  apply pbind_inv_Done in E as ([] & s1 & Hm & E). injection Hm as <-.
  apply pbind_inv_Done in E as (id & s1 & Hm & E). unfold Maker.OfferID in Hm.
  apply pbind_inv_Done in Hm as (i & s2 & Hm & Hd). apply MakerProofs.readS_inv in Hm as [_ ->].
  injection Hd as <- <-. by apply MakerProofs.extS_inv in E as (_ & -> & _).
Qed.

(** *** The taker's keys survive the locking *)

Definition keysOf (t : Taker.TS) :=
  (Taker.privkeys (Taker.sst t), Taker.pubkeys (Taker.sst t),
   Taker.xmrmakerPublicSpendKey (Taker.sst t), Taker.xmrmakerPrivateViewKey (Taker.sst t)).

Lemma sameKeys_onSys {A} (m : prog Sys A) : keeps (agreeing keysOf) (Taker.onSys m).
Proof. apply keeps_zoom. done. Qed.

Hint Extern 1 (keeps (agreeing keysOf) (Taker.modS _)) => intros ?; reflexivity : keeps.
Hint Extern 1 (keeps (agreeing keysOf) (Taker.getS _)) => intros ?; reflexivity : keeps.
Hint Extern 1 (keeps (agreeing keysOf) (Taker.extS _)) => apply sameKeys_onSys : keeps.
Hint Resolve sameKeys_onSys : keeps.

Lemma sameKeys_lockAsset : keeps (agreeing keysOf) Taker.lockAsset.
Proof.
  unfold Taker.lockAsset, Taker.lockAndWaitForReceipt, Taker.setTimeouts, Taker.OfferID, Taker.readS,
    Taker.derefS. keeps_auto.
Qed.

Lemma takerTakesKeys_inv msg t resp t' :
  Taker.handleSendKeysMessage msg t = (Done (Ok resp), t') →
  ∃ spend view, skPublicSpendKey msg = Some spend ∧ skPrivateViewKey msg = Some view ∧
    keysOf t' = (Taker.privkeys (Taker.sst t), Taker.pubkeys (Taker.sst t), Some spend, Some view).
Proof.
  unfold Taker.handleSendKeysMessage. intros E. destruct (skProvidedAmount msg) as [provided|]; [| done].
  apply pbind_inv_Done in E as (i & s1 & Hm & E). apply taker_readS_inv in Hm as [_ ->].
  destruct (_ <? 0); [done |].
  destruct (skPublicSpendKey msg) as [spend|]; [| done]. destruct (skPrivateViewKey msg) as [view|]; [| done].
  destruct (bool_decide _); [done |].
  apply pbind_inv_Done in E as ([res|e] & s1 & Hm & E); [| done]. apply taker_pure_inv in Hm as [Hv ->].
  apply VerifyKeysAndProof_result in Hv as ->.
  apply pbind_inv_Done in E as ([] & s1 & Hm & E). injection Hm as <-.
  apply pbind_inv_Done in E as ([sym|e] & s2 & Hm & E); [| done]. apply AssetSymbol_inv in Hm as (Es2 & _).
  apply pbind_inv_Done in E as ([[]|e] & s3 & Hm & E); [| done].
  apply mapErr_Ok_run, setXMRMakerKeys_inv in Hm as (i3 & _ & Es3 & _).
  apply pbind_inv_Done in E as ([receipt|e] & s4 & Hm & E); [| done]. apply mapErr_Ok_run in Hm.
  pose proof (sameKeys_lockAsset s3) as Hk. rewrite Hm in Hk. simpl in Hk.
  apply pbind_inv_Done in E as (id & s5 & Hm5 & E). apply taker_getS_inv in Hm5 as [_ ->].
  apply pbind_inv_Done in E as (swap & s5 & Hm5 & E). apply taker_derefS_inv in Hm5 as [_ ->].
  injection E as _ <-. exists spend, view. split; [done |]. split; [done |].
  rewrite Hk. unfold keysOf. rewrite Es3, Es2. done.
Qed.

(** C8: functional.  After the handshake (the taker's keys, the maker's acceptance and
    answer, and the taker's acceptance) each party holds its own keys and exactly the
    public spend key and private view key of the other. *)
Theorem handshake_exchanges_keys (kA kB : PrivateKeyPair) (m m1 m2 : Maker.MS) (t t1 t2 : Taker.TS)
    (msgA msgB : SendKeysMessage) (resp : NotifyETHLocked) :
  makerKeys (Maker.sst m) kB → takerKeys (Taker.sst t) kA →
  Taker.makeSendKeysMessage t = (Done msgA, t1) →
  MakerInstance.handleSendKeysMessage msgA m = (Done (Ok tt), m1) →
  MakerInstance.makeSendKeysMessage m1 = (Done msgB, m2) →
  Taker.handleSendKeysMessage msgB t1 = (Done (Ok resp), t2) →
  exchanged (Maker.sst m2) (Taker.sst t2) kA kB.
Proof.
  intros Hm Ht EA Em EB Et.
  apply (takerMessage_inv kA) in EA as (-> & HsA & HvA); [| done].
  apply makerTakesKeys_inv in Em as (spA & vwA & secp & Hs & Hv & Em).
  rewrite HsA in Hs. rewrite HvA in Hv. injection Hs as <-. injection Hv as <-.
  apply (makerMessage_inv kB) in EB as (EmB & HsB & HvB); [| by rewrite Em; destruct Hm].
  apply takerTakesKeys_inv in Et as (spB & vwB & Hs & Hv & Ek).
  rewrite HsB in Hs. rewrite HvB in Hv. injection Hs as <-. injection Hv as <-.
  destruct Ht as [Hpriv Hpub]. injection Ek as E1 E2 E3 E4. rewrite EmB, Em.
  destruct Hm as [Hm1 Hm2]. split; simpl; try done; split; simpl; congruence.
Qed.

End exchange.

(** ** The account of the swap *)

Section account.
Context `{World} `{!InfoJson} `{Apd} `{AbiLib} `{!CryptoSpec}.

(** A spend wallet is opened only at [dest]. *)
Definition opensAt (dest : bytes) (o : obs) : bool :=
  match o with
  | Obs (XMRCreateSpendWallet kp _) _ =>
      match PublicKeyPair_Address (PrivateKeyPair_PublicKeyPair kp) Env with
      | Done a => bool_decide (a = dest)
      | _ => false
      end
  | _ => true
  end.

(** Every way to the account: from the public keys of both, from the taker's view, and
    from the private keys of both. *)
Lemma account_of_keys (kA kB : PrivateKeyPair) :
  let pub := SumSpendAndViewKeys (PrivateKeyPair_PublicKeyPair kA) (PrivateKeyPair_PublicKeyPair kB) in
  NewPublicKeyPair (SumPublicKeys (Public (kpSpend kB)) (Public (kpSpend kA)))
    (Public (SumPrivateViewKeys (kpView kB) (kpView kA))) = pub ∧
  PrivateKeyPair_PublicKeyPair (GetClaimKeypair (kpSpend kB) (kpSpend kA) (kpView kB) (kpView kA)) = pub ∧
  PrivateKeyPair_PublicKeyPair (GetClaimKeypair (kpSpend kA) (kpSpend kB) (kpView kA) (kpView kB)) = pub.
Proof.
  unfold SumSpendAndViewKeys, PrivateKeyPair_PublicKeyPair, GetClaimKeypair, SumPublicKeys,
    SumPrivateSpendKeys, SumPrivateViewKeys, Public. cbn. rewrite !baseMult_add.
  rewrite (pointAdd_comm (scalarBaseMult (kpSpend kB))), (pointAdd_comm (scalarBaseMult (kpView kB))). done.
Qed.

Section at_address.
Context (dest : bytes) (kp : PrivateKeyPair).
Context (Hkp : PublicKeyPair_Address (PrivateKeyPair_PublicKeyPair kp) Env = Done dest).

Lemma isDbObs_opensAt o : isDbObs o = true → opensAt dest o = true.
Proof using Type. destruct o as [A c a]. by destruct c. Qed.

Lemma opens_ClaimMonero l addr b : keeps (sysCalm (opensAt dest)) (ClaimMonero l kp addr b).
Proof using Hkp.
  pose proof isDbObs_opensAt as Hdb.
  assert (∀ h, keeps (sysCalm (opensAt dest)) (ext (XMRCreateSpendWallet kp h))) as Hw.
  { intros h. apply sysCalm_ext. intros a. simpl. rewrite Hkp. by rewrite bool_decide_true. }
  unfold ClaimMonero, setSweepStatus. repeat (first [apply Hw | keeps_step]).
Qed.

End at_address.

Lemma taker_opens dest kA vkB skB t :
  Taker.privkeys (Taker.sst t) = Some kA → Taker.xmrmakerPrivateViewKey (Taker.sst t) = Some vkB →
  PublicKeyPair_Address (PrivateKeyPair_PublicKeyPair (GetClaimKeypair skB (kpSpend kA) vkB (kpView kA))) Env =
    Done dest →
  emits (opensAt dest) t (Taker.claimMonero skB t).2.
Proof.
  intros Hk Hv Hkp. enough (calm (opensAt dest) t (Taker.claimMonero skB t).2) as [Hc _] by exact Hc.
  unfold Taker.claimMonero.
  apply (related_bind (calm _)); [apply calm_statusOngoing |]. intros ongoing s1 E.
  apply pbind_inv_Done in E as (i & s2 & E & E2). apply taker_readS_inv in E as [_ ->].
  apply taker_pure_inv in E2 as [_ ->]. destruct (negb ongoing); [reflexivity |].
  apply (related_bind (calm _)); [apply calm_OfferID |]. intros id s1 E.
  apply pbind_inv_Done in E as (i' & s2 & E & E2). apply taker_readS_inv in E as [_ ->].
  injection E2 as _ <-.
  apply (related_try (calm _)); [by apply calm_extS |]. intros [] s1 E. apply taker_extS_inv in E as (Es1 & _).
  apply (related_bind (calm _)); [by apply calm_extS |]. intros addr s2 E. apply taker_extS_inv in E as (Es2 & _).
  apply (related_bind (calm _)); [apply calm_getS |]. intros noBack s3 E. apply taker_getS_inv in E as [_ ->].
  apply (related_bind (calm _)); [apply calm_derefS |]. intros priv s3 E. apply taker_derefS_inv in E as [E ->].
  apply (related_bind (calm _)); [apply calm_derefS |]. intros view s3 E'. apply taker_derefS_inv in E' as [E' ->].
  rewrite Es2, Es1, Hk in E. rewrite Es2, Es1, Hv in E'. injection E as <-. injection E' as <-. cbv zeta.
  pose proof (opens_ClaimMonero dest _ Hkp) as Hc.
  match goal with |- calm _ s2 (?m s2).2 => enough (keeps (calm (opensAt dest)) m) as Hm by apply Hm end.
  repeat (first [apply calm_onSys, Hc | apply calm_closeClaimedCh | keeps_step]).
Qed.

Lemma makerReads_OfferID p (m : Maker.MS) : emits p m (Maker.OfferID m).2.
Proof.
  exists []. split; [| done]. unfold Maker.OfferID, Maker.readS, Maker.onSys, readInfo, pbind, zoom, pure. simpl.
  by destruct (infos _ !! _).
Qed.

Lemma maker_opens dest kB spA vkA skA m :
  Maker.privkeys (Maker.sst m) = Some kB → Maker.xmrtakerPublicSpendKey (Maker.sst m) = Some spA →
  Maker.xmrtakerPrivateViewKey (Maker.sst m) = Some vkA →
  PublicKeyPair_Address (PrivateKeyPair_PublicKeyPair (GetClaimKeypair skA (kpSpend kB) vkA (kpView kB))) Env =
    Done dest →
  emits (opensAt dest) m (Maker.reclaimMonero skA m).2.
Proof.
  intros Hk Hs Hv Hkp. unfold Maker.reclaimMonero.
  apply (related_bind (emits _)); [apply makerReads_OfferID |]. intros id s1 E. unfold Maker.OfferID in E.
  apply pbind_inv_Done in E as (i & s2 & E & E2). apply MakerProofs.readS_inv in E as [_ ->]. injection E2 as _ <-.
  apply (related_try (emits _)); [by eexists [_] |]. intros [] s1 E. apply MakerProofs.extS_inv in E as (_ & Es1 & _).
  apply (related_bind (emits _)); [by exists [] |]. intros pk s2 E. apply MakerProofs.getS_inv in E as [-> ->].
  apply (related_bind (emits _)); [by exists [] |]. intros vk s2 E. apply MakerProofs.getS_inv in E as [-> ->].
  rewrite Es1, Hs, Hv. apply (related_try (emits _)); [by exists [] |]. intros [] s2 E. injection E as <-.
  apply (related_bind (emits _)); [by exists [] |]. intros kp s2 E. apply MakerProofs.derefS_inv in E as [E ->].
  apply (related_bind (emits _)); [by exists [] |]. intros vk s2 E'. apply MakerProofs.derefS_inv in E' as [E' ->].
  rewrite Es1, Hk in E. rewrite Es1, Hv in E'. injection E as <-. injection E' as <-. cbv zeta.
  apply (related_bind (emits _)); [by eexists [_] |]. intros addr s2 _.
  apply (related_bind (emits _)); [by exists [] |]. intros l s3 _.
  pose proof (opens_ClaimMonero dest _ Hkp l addr false (Maker.sys s3)) as [Hc _].
  unfold Maker.onSys, zoom. destruct (ClaimMonero _ _ _ _ _) as [o y]. exact Hc.
Qed.

(** C7: safety.  Once the keys are exchanged, both parties mean the same account: the
    address the maker sends its XMR to is the one the taker watches for them; it is
    the one the taker opens once it knows the maker's secret; and the one the maker
    opens to take its XMR back once it knows the taker's. *)
Theorem parties_share_the_account (kA kB : PrivateKeyPair) (m : Maker.MS) (t : Taker.TS) (dest : bytes) :
  exchanged (Maker.sst m) (Taker.sst t) kA kB → lockAddress (Maker.sst m) dest →
  (∃ vk, Taker.expectedXMRLockAccount t = (Done (dest, vk), t)) ∧
  forallb (opensAt dest) (newObs t (Taker.claimMonero (kpSpend kB) t).2) = true ∧
  forallb (opensAt dest) (newObs m (Maker.reclaimMonero (kpSpend kA) m).2) = true.
Proof.
  intros [[HtA HtA'] [HmB HmB'] Hms Hmv Hts Htv] (spend & view & ours & Hs & Hv & Ho & Hdest).
  rewrite Hms in Hs. rewrite Hmv in Hv. rewrite HmB' in Ho. injection Hs as <-. injection Hv as <-. injection Ho as <-.
  change (PublicKeyPair_Address (SumSpendAndViewKeys (PrivateKeyPair_PublicKeyPair kA)
            (PrivateKeyPair_PublicKeyPair kB)) Env = Done dest) in Hdest.
  destruct (account_of_keys kA kB) as (E1 & E2 & E3). rewrite <- E1 in Hdest at 1.
  assert (PublicKeyPair_Address (PrivateKeyPair_PublicKeyPair
    (GetClaimKeypair (kpSpend kB) (kpSpend kA) (kpView kB) (kpView kA))) Env = Done dest) as HT by congruence.
  assert (PublicKeyPair_Address (PrivateKeyPair_PublicKeyPair
    (GetClaimKeypair (kpSpend kA) (kpSpend kB) (kpView kA) (kpView kB))) Env = Done dest) as HM by congruence.
  split; [| split].
  - exists (SumPrivateViewKeys (kpView kB) (kpView kA)).
    unfold Taker.expectedXMRLockAccount, Taker.derefS, Taker.getS, pbind, gets, pure, deref.
    rewrite Htv, HtA, Hts, HtA'. simpl. by rewrite Hdest.
  - apply (emits_newObs (S := Taker.TS)). by apply taker_opens with kA (kpView kB).
  - apply (emits_newObs (S := Maker.MS)). by apply maker_opens with kB (Public (kpSpend kA)) (kpView kA).
Qed.

End account.

End Protocol.
