(* ===== verification/TakerWitness.v ===== *)
(** * Concrete runs of the XMR taker, and of both parties

    The theorems of [TakerProofs] and [Protocol] at runs in the sample world, and
    runs that show defects of the code. *)

From stdpp Require Import base gmap list strings.
From Stdlib Require Import ZArith Strings.Byte.
From S2P Require Import Prelude Coins RefApd Types TypesProofs Bytes Swap SwapProofs Offers Crypto CryptoProofs Contracts External SampleWorld Maker MakerInstance TraceLogic MakerProofs MakerWitness Taker TakerProofs Protocol.

Open Scope Z_scope.
Open Scope go_scope.

Module TakerWitness.
Import MakerProofs Taker TakerProofs Protocol.

Abbreviation offerID := MakerWitness.offerID.

(** ** The taker of the same swap: 0.5 ETH for 2.5 XMR *)

Definition takerSecret : bytes := leEncode 32 78.

Definition takerKeyPair : KeysAndProof :=
  match GenerateKeysAndProof (Ok takerSecret) with
  | Done (Ok kp) => kp
  | _ => sampleKeys
  end.

Definition takerInfo (st : Status) : Info :=
  NewInfo 5 5 "maker" offerID ProvidesETH (apdNew 5 (-1)) (apdNew 25 (-1)) (Some (apdNew 2 (-1)))
    EthAssetETH st 2990.

Definition takerSys (st : Status) : Sys :=
  mkSys _ _ 0 [] (mkManager _ {[ 0%nat := takerInfo st ]} 1 {[ offerID := 0%nat ]} ∅ ∅ ∅ 0) ∅.

Definition halfETH : EthAssetAmount := WeiAmount (apdNew (5 * 10 ^ 17) 0).

(** A taker's swap that has sent its keys. *)
Definition takerState (next : EventType) (events : list Event) (chs : gmap nat errChan) : swapState :=
  mkState _ _ 0 false halfETH (Some (kpProof takerKeyPair)) (Some (kpSecp256k1 takerKeyPair))
    (Some (kpPrivate takerKeyPair)) (Some (kpPublic takerKeyPair)) None None None zeroAddress 2990 EmptyHash None
    0 0 next false events chs (size chs) false false false false.

Definition takerStart : TS := mkTS _ _ (takerSys ExpectingKeys) (takerState EventKeysReceivedType [] ∅).

(** The contract swap of these two parties. *)
Definition theSwap : SwapCreatorSwap :=
  mkSwap takerAddr makerAddr (Secp256k1_Keccak256 (kpSecp256k1 sampleKeys))
    (Secp256k1_Keccak256 (kpSecp256k1 takerKeyPair)) 1700003600 1700007200 EthAssetETH (5 * 10 ^ 17) 7.

#[local] Instance theWorld : World := worldWith (MakerWitness.receiptOf theSwap).

(** The maker's answer. *)
Definition makerMsg : SendKeysMessage :=
  mkSendKeys _ EmptyHash (Some (apdNew 25 (-1))) (Some (pkSpend (kpPublic sampleKeys)))
    (Some (kpView (kpPrivate sampleKeys))) (proofBytes (kpProof sampleKeys)) (kpSecp256k1 sampleKeys) makerAddr.

Lemma ETH_locked_only_after_checks_witness :
  ∃ i c ans pre post,
    infos (mgr (sys takerStart)) !! info (sst takerStart) = Some i ∧ lockTerms makerMsg i (sst takerStart) c ∧
    newObs takerStart (handleSendKeysMessage makerMsg takerStart).2 = post ++ Obs c ans :: pre ∧
    forallb noLock pre = true ∧ forallb noLock post = true ∧
    (∃ vk spend, skPublicSpendKey makerMsg = Some spend ∧ skPrivateViewKey makerMsg = Some vk ∧
      Obs (PutCounterpartySwapKeys (iOfferID i) spend vk) (Ok tt) ∈ pre).
Proof. apply (ETH_locked_only_after_checks makerMsg takerStart). vm_compute. reflexivity. Defined.

(** The keys arrive, the ETH is locked, the XMR is seen, the contract is set to ready. *)
Definition s1 : TS := (runOp (OpMessage (MsgSendKeys makerMsg)) takerStart).2.
Definition s2 : TS := (runHandleEvent s1).2.
Definition s3 : TS := (runOp (OpCheckXMR 3) s2).2.
Definition s4 : TS := (runHandleEvent s3).2.

Lemma handled s :
  match (runHandleEvent s).1 with Done _ => true | _ => false end = true → step (true, s) (true, (runHandleEvent s).2).
Proof. intros E. pose proof (step_handle s) as Hs. by rewrite E in Hs. Qed.

Lemma taker_steps : rtc step (true, takerStart) (true, s4).
Proof.
  apply (rtc_l _ _ (true, s1)); [exact (step_op true (OpMessage (MsgSendKeys makerMsg)) takerStart) |].
  apply (rtc_l _ _ (true, s2)); [apply (handled s1); vm_compute; reflexivity |].
  apply (rtc_l _ _ (true, s3)); [exact (step_op true (OpCheckXMR 3) s2) |].
  apply (rtc_l _ _ (true, s4)); [apply (handled s3); vm_compute; reflexivity |].
  apply rtc_refl.
Qed.

Lemma ready_only_after_XMR_seen_witness :
  existsb isReady (newObs takerStart s4) = true ∧
  ∀ post o pre, newObs takerStart s4 = post ++ o :: pre → isReady o = true →
    seenInAccount takerStart pre.
Proof.
  split; [vm_compute; reflexivity |].
  exact (ready_only_after_XMR_seen takerStart s4 true taker_steps eq_refl).
Defined.

(** ** Refunding: a swap whose ETH is locked exits before t1 *)

Definition lockedState (next : EventType) (events : list Event) (chs : gmap nat errChan) : swapState :=
  setT1 (timeUnix 1700003600) (setT2 (timeUnix 1700007200) (setContractSwap (Some theSwap)
    (setContractSwapID (MakerWitness.idOf theSwap) (setFundsLocked true (takerState next events chs))))).

Definition lockedTaker : TS := mkTS _ _ (takerSys ETHLocked) (lockedState EventXMRLockedType [] ∅).

(** The observations before the refund. *)
Definition beforeRefund : list obs :=
  match list_find (fun o => isRefund o = true) (newObs lockedTaker (exit lockedTaker).2) with
  | Some (n, _) => drop (S n) (newObs lockedTaker (exit lockedTaker).2)
  | None => []
  end.

Lemma exit_refunds_within_window_witness :
  ∃ post o, newObs lockedTaker (exit lockedTaker).2 = post ++ o :: beforeRefund ∧ isRefund o = true ∧
    refundWindow (contractSwapID (sst lockedTaker)) (t1 (sst lockedTaker)) (t2 (sst lockedTaker)) beforeRefund.
Proof.
  unfold beforeRefund.
  destruct (list_find (fun o => isRefund o = true) (newObs lockedTaker (exit lockedTaker).2)) as [[n o]|] eqn:E.
  - apply list_find_Some in E as (Hn & Ho & _). apply take_drop_middle in Hn.
    exists (take n (newObs lockedTaker (exit lockedTaker).2)), o. split; [done |]. split; [done |].
    destruct (exit_refunds_within_window lockedTaker (take n (newObs lockedTaker (exit lockedTaker).2))
      (drop (S n) (newObs lockedTaker (exit lockedTaker).2)) o) as [Hw|[_ Hq]]; done.
  - exfalso. assert (existsb isRefund (newObs lockedTaker (exit lockedTaker).2) = true) as Hx
      by (vm_compute; reflexivity).
    apply existsb_exists in Hx as (o & Hin & Ho). apply list_find_None in E.
    rewrite List.Forall_forall in E. by apply (E o).
Defined.

(** ** Both parties *)

Definition makerStart : Maker.MS := MakerWitness.start.

Definition run {S A} (m : prog S A) (s : S) (d : A) : A := match (m s).1 with Done a => a | _ => d end.

Definition msgA : SendKeysMessage := run makeSendKeysMessage takerStart makerMsg.
Definition m1 : Maker.MS := (MakerInstance.handleSendKeysMessage msgA makerStart).2.
Definition msgB : SendKeysMessage := run MakerInstance.makeSendKeysMessage m1 makerMsg.
Definition m2 : Maker.MS := (MakerInstance.makeSendKeysMessage m1).2.
Definition resp : NotifyETHLocked :=
  match (handleSendKeysMessage msgB takerStart).1 with Done (Ok r) => r | _ => MakerWitness.msgOf theSwap end.
Definition t2' : TS := (handleSendKeysMessage msgB takerStart).2.

(** A run that completes, as an equation. *)
Lemma run_eq {S A} (m : prog S A) s d :
  match (m s).1 with Done _ => true | _ => false end = true → m s = (Done (run m s d), (m s).2).
Proof. unfold run. by destruct (m s) as [[a|?| |] s']. Qed.

Lemma makerHas : makerKeys (Maker.sst makerStart) (kpPrivate sampleKeys).
Proof.
  split; [reflexivity |]. apply (f_equal Some), (GenerateKeysAndProof_public _ _ sampleKeys_generated).
Qed.

Lemma takerGenerated : GenerateKeysAndProof (Ok takerSecret) = Done (Ok takerKeyPair).
Proof.
  unfold takerKeyPair. assert (match GenerateKeysAndProof (Ok takerSecret) with Done (Ok _) => True | _ => False end)
    by (vm_compute; exact I).
  destruct (GenerateKeysAndProof (Ok takerSecret)) as [[kp|]| | |]; done.
Qed.

Lemma takerHas : takerKeys (sst takerStart) (kpPrivate takerKeyPair).
Proof. split; [reflexivity |]. apply (f_equal Some), (GenerateKeysAndProof_public _ _ takerGenerated). Qed.

Lemma handshake_exchanges_keys_witness :
  exchanged (Maker.sst m2) (sst t2') (kpPrivate takerKeyPair) (kpPrivate sampleKeys).
Proof.
  apply (handshake_exchanges_keys (kpPrivate takerKeyPair) (kpPrivate sampleKeys) makerStart m1 m2
    takerStart takerStart t2' msgA msgB resp makerHas takerHas).
  - exact (run_eq makeSendKeysMessage takerStart makerMsg eq_refl).
  - unfold m1. assert (match (MakerInstance.handleSendKeysMessage msgA makerStart).1 with
      Done (Ok _) => true | _ => false end = true) as Hb by (vm_compute; reflexivity).
    destruct (MakerInstance.handleSendKeysMessage msgA makerStart) as [[[[]|]|?| |] s']; done.
  - apply run_eq. vm_compute. reflexivity.
  - unfold resp, t2'. assert (match (handleSendKeysMessage msgB takerStart).1 with
      Done (Ok _) => true | _ => false end = true) as Hb by (vm_compute; reflexivity).
    destruct (handleSendKeysMessage msgB takerStart) as [[[r|]|?| |] s']; done.
Defined.

(** The two swaps after the exchange. *)
Definition makerEx : Maker.MS :=
  Maker.mkMS _ _ (Maker.sys makerStart)
    (Maker.setXmrtakerPublicSpendKey (Some (Public (kpSpend (kpPrivate takerKeyPair))))
      (Maker.setXmrtakerPrivateViewKey (Some (kpView (kpPrivate takerKeyPair))) (Maker.sst makerStart))).
Definition takerEx : TS :=
  mkTS _ _ (takerSys ContractReady)
    (setXmrmakerPublicSpendKey (Some (Public (kpSpend (kpPrivate sampleKeys))))
      (setXmrmakerPrivateViewKey (Some (kpView (kpPrivate sampleKeys))) (lockedState EventETHClaimedType [] ∅))).

Definition account : bytes :=
  match PublicKeyPair_Address (SumSpendAndViewKeys
    (NewPublicKeyPair (Public (kpSpend (kpPrivate takerKeyPair))) (Public (kpView (kpPrivate takerKeyPair))))
    (PrivateKeyPair_PublicKeyPair (kpPrivate sampleKeys))) Env with
  | Done a => a
  | _ => []
  end.

Lemma parties_share_the_account_witness :
  (∃ vk, expectedXMRLockAccount takerEx = (Done (account, vk), takerEx)) ∧
  forallb (opensAt account) (newObs takerEx (claimMonero (kpSpend (kpPrivate sampleKeys)) takerEx).2) = true ∧
  forallb (opensAt account)
    (newObs makerEx (Maker.reclaimMonero (kpSpend (kpPrivate takerKeyPair)) makerEx).2) = true.
Proof.
  apply (parties_share_the_account (kpPrivate takerKeyPair) (kpPrivate sampleKeys) makerEx takerEx account).
  - split; [exact takerHas | exact makerHas | reflexivity..].
  - eexists _, _, _. split; [reflexivity |]. split; [reflexivity |]. split; [exact (proj2 makerHas) | reflexivity].
Defined.

(** ** Runs that show defects *)

(** *** A lock transaction whose receipt does not arrive *)

Section no_receipt.
#[local] Instance noReceipt : World := {|
  answer := fun A _ c =>
    match c in call B return B with
    | WaitForReceipt _ => Err (errorf "context deadline exceeded")
    | c' => goodAnswer (MakerWitness.receiptOf theSwap) _ c'
    end;
  Env := Stagenet;
  SwapCreatorAddr := contractAt;
  SwapTimeout := Hour
|}.

Definition keysCame : TS := (runHandleEvent (runOp (OpMessage (MsgSendKeys makerMsg)) takerStart).2).2.
Definition streamGone : TS := (runHandleEvent (runOp OpStreamClosed keysCame).2).2.

(** The transaction that locks the ETH is sent, the wait for its receipt fails, and when
    the maker's stream closes the swap is filed as aborted and its recovery data is
    given up; no refund was sent. *)
Example pending_lock_is_aborted :
  existsb isLock (newObs takerStart streamGone) = true ∧
  (iStatus <$> infos (mgr (sys streamGone)) !! 0%nat) = Some CompletedAbort ∧
  ongoing (mgr (sys streamGone)) !! offerID = None ∧
  existsb isRefund (newObs takerStart streamGone) = false.
Proof. repeat apply conj; vm_compute; reflexivity. Qed.

End no_receipt.

(** *** Waiting for t2 *)

Section between_timeouts.

(** The chain's clock is between t1 and t2. *)
#[local] Instance betweenTimeouts : World := {|
  answer := fun A _ c =>
    match c in call B return B with
    | LatestBlockTimestamp => Ok (timeUnix 1700005000)
    | c' => goodAnswer (MakerWitness.receiptOf theSwap) _ c'
    end;
  Env := Stagenet;
  SwapCreatorAddr := contractAt;
  SwapTimeout := Hour
|}.

Definition waitingWith (events : list Event) : TS :=
  mkTS _ _ (takerSys ETHLocked)
    (lockedState EventXMRLockedType events
       {[ 0%nat := mkErrChan None false; 1%nat := mkErrChan None false ]}).

(** The goroutine that looks for the XMR still runs: when it finds them while [exit]
    waits for t2, the daemon panics. *)
Example XMR_seen_while_waiting_panics :
  (runHandleEvent (waitingWith [EventExit 0; EventXMRLocked 1])).1 =
    Panicked "got unexpected event while waiting for Claimed/T2".
Proof. vm_compute. reflexivity. Qed.

(** The sender of an event that [exit] consumes while it waits is never answered. *)
Example event_while_waiting_unanswered :
  let s := (runHandleEvent (waitingWith [EventExit 0; EventExit 1])).2 in
  cancelled (sst s) = true ∧ errChs (sst s) !! 0%nat = Some (mkErrChan (Some None) true) ∧
  errChs (sst s) !! 1%nat = Some (mkErrChan None false).
Proof. repeat apply conj; vm_compute; reflexivity. Qed.

(** A timer's event that comes while [exit] waits makes the taker refund at once, in the
    window in which only the maker may claim: no time after t2 was seen or waited for. *)
Example timer_event_refunds_between_timeouts :
  let s := waitingWith [EventExit 0; EventShouldRefund 1] in
  let new := newObs s (runHandleEvent s).2 in
  existsb isRefund new = true ∧
  forallb (fun o => match o with Obs (WaitForTimestamp _) _ => false | _ => true end) new = true ∧
  t1 (sst s) < timeUnix 1700005000 < t2 (sst s).
Proof. repeat apply conj; vm_compute; reflexivity. Qed.

End between_timeouts.

(** *** Two errors for one event *)

Section failing_db.
#[local] Instance failingDb : World := {|
  answer := fun A _ c =>
    match c in call B return B with
    | PutContractSwapInfo _ _ => Err (errorf "disk full")
    | PutSwap _ => Err (errorf "disk full")
    | c' => goodAnswer (MakerWitness.receiptOf theSwap) _ c'
    end;
  Env := Stagenet;
  SwapCreatorAddr := contractAt;
  SwapTimeout := Hour
|}.

(** The ETH is locked, but neither the contract swap nor the status can be stored: the
    handler sends a second error on a channel that is read once, and the swap's event
    loop stops for ever. *)
Example two_errors_block_the_handler :
  let s := (runOp (OpMessage (MsgSendKeys makerMsg)) takerStart).2 in
  (runHandleEvent s).1 = Blocked ∧ fundsLocked (sst (runHandleEvent s).2) = true.
Proof. repeat apply conj; vm_compute; reflexivity. Qed.

End failing_db.

End TakerWitness.
